(* ===== verification/_CoqProject ===== *)
-Q . S2P
Prelude.v
Api.v
Doubles.v
GoM.v
Protocol.v
Queue.v
Canceller.v
Registry.v
Converter.v
Codec.v
Exchange.v
Activity.v
ActivityThreads.v
Recycling.v
Env.v
Workflow.v
Exchanges.v
TaskLoop.v
Progress.v
Lifecycle.v
Scenario.v
Ledger.v
LedgerRun.v
Fleet.v
LedgerScenario.v
Config.v
Telemetry.v
Workers.v
Plugin.v
PluginProps.v
Serving.v
PluginScenario.v
Logger.v
Rpc.v
