(* ===== verification/Prelude.v ===== *)
(** * Verification of the RoadRunner Temporal plugin

    The plugin connects PHP workers, run by the RoadRunner application server, to a
    Temporal server: a PHP process holds the workflow code, the plugin runs the
    Temporal Go SDK and translates between the two.  This library models the plugin's
    Go code and proves what makes each part correct.

    ** The program and its model

    - A PHP worker and the plugin exchange batches of messages.  A message is a
      command with an id, or the answer to a command (src/internal/protocol.go:
      [Protocol]).  The codec packs batches into a protobuf frame and back
      (src/internal/codec/proto: [Codec]); the data converter lets encoded payloads
      through and activity headers travel in a context value (src/data_converter,
      src/common/context.go, src/aggregatedpool/interceptor.go: [Converter]).
    - A workflow run (src/aggregatedpool/workflow.go, handler.go) is an object with an
      outgoing queue (src/queue: [Queue]), a pipeline of received commands, closures
      that cancel its pending commands (src/canceller: [Canceller]) and a rendezvous
      for child workflows (src/registry: [Registry]).  [Workflow] has its state and
      one definition per handler, [TaskLoop] the workflow task, [Exchanges] the
      specifications of the exchange with the worker, [Progress] deadlock freedom and
      termination, [Lifecycle] the remaining handlers and the reachable states.
      [Ledger] and [LedgerRun] keep the books of a run: which commands the worker sent,
      which answers it got, and where every answer that is owed is.  [Fleet] composes
      all the runs that share a worker process, with their tasks in steps.
    - Activities and local activities are one exchange each (activity.go,
      local_activity.go: [Activity]); [ActivityThreads] has the calls of [execute]
      that run at the same time, as steps on the shared object, and [Recycling] the same
      calls over payload objects that are passed by reference and recycled.
    - The plugin (src/plugin.go, internal.go, workers_manager.go: [Plugin],
      [PluginProps]; [Serving]: the event loop of [Serve] beside [Stop] and the other
      methods) reads its configuration (config.go, tls.go: [Config]), sets up its
      metrics (metrics.go: [Telemetry]), asks a worker what it serves and creates
      Temporal workers (info.go, aggregatedpool/workers.go: [Workers]), reacts to
      stopped processes, and answers remote calls (rpc.go: [Rpc]).  [Logger] is the SDK's logger adapter
      (internal/logger).

    ** How Go is modelled

    [GoM] is the monad of the stateful code: a transformer of the state of the objects
    involved, with five outcomes (return, panic, a fatal error of the runtime, blocking
    for ever, no fuel).  Deferred calls run on return and on panic; mutations made
    before a panic stay.  A Go function that returns an error has a [result]; a nil
    pointer is [None]; a 64-bit integer is a [Z] with its wrap-around ([u64], [i64]);
    maps are [gmap]s; a mutex is a flag that blocks or kills the process when it is
    misused.  A closure is the data it captures: [Workflow.Callback],
    [Workflow.cancellable], [Env.ResultHandler], [Env.UpdateHandler].  An object that
    a component owns inside a larger state is reached through the interface
    [GoM.Field].  Logging is left out.

    Code outside src/ is a class of operations, and what the plugin relies on a class
    of laws: [Api.Sdk] (failure conversion), [Codec.Wire] (protobuf and JSON),
    [Exchange.Pool] (the worker pool: one call of [Exec] gives the first thing found
    on its channel), [Env.WorkflowEnvironment] (the SDK's side of a workflow: a call
    returns the handlers it ran before it returned), [Activity.ActivityRuntime],
    [Workers.TemporalWorker], [Config.Files], [Telemetry.MetricsLib],
    [Plugin.PluginRuntime], [Rpc.RpcRuntime].  The ledger also observes them:
    [Ledger.PeerView] (what a worker process reads from a payload), [Ledger.PoolRecord]
    (the exchanges so far) and [Ledger.EnvRecord] (the handlers the SDK has been given
    and has not called).  [Doubles], [Codec], [Scenario], [LedgerScenario] and
    [PluginScenario] have instances of all of them, on which the witnesses evaluate.

    ** What is proved

    - Workflow task: deferring a handler to the next task is the same as running it in
      the task; a failed exchange loses no message; the task ends clean and resets its
      mode on every exit; it ends, without deadlock, against a worker that has
      finitely many messages to send.
    - Answers: over any history, every command of the worker that wants an answer has
      been answered exactly once or its answer is on its way; what waits only for an
      exchange reaches the worker with the next one.  The same holds over all runs
      together, however the steps of their tasks interleave.
    - Workflow handlers: between events every reachable workflow is idle; updates are
      validated, then rejected or accepted and completed, exactly once; queries change
      nothing; start and close; names of child workflows; cancellation.
    - Queue, canceller, registry: the queues of all runs implement outboxes and their ids
      are unique across runs; cancellation runs in order and at most once; no listener is lost under
      any interleaving.
    - Codec, converter, protocol: round trip of batches, transparency of recycled
      frames, agreement of the two command tables, pass-through of payloads.
    - Activities: the life of a task token and the content of the exchange; under any
      interleaving of calls a heartbeat reaches its own activity, also by remote call,
      all calls end, and recycling payload objects cannot be observed.
    - Plugin: the mutex is released by every operation but one exit of [Stop];
      initialisation, start, reset and stop; configuration; worker creation; remote
      calls.  The goroutine of [Serve] ends after [Stop] under any interleaving, and the
      channels never block it.
    - Defects: theorems that show a panic, a leak, a stale process id, a double unlock
      or a missing TLS configuration, a forgotten listener, or workers started after
      [Stop], on a path the code does not mean to have.

    ** Bounds and fuel

    Only the loop over the pipeline ([TaskLoop.pipeline_loop]) takes fuel, the number of
    messages it handles: the worker decides how many there are.
    [Progress.task_terminates] shows that the messages in the pipeline and those still
    to come are enough, and that more fuel changes nothing.  The loops over slices that
    the body might extend ([TaskLoop.index_loop]) are given the initial length, which
    is shown to be enough.  [ActivityThreads.steps] and [ActivityThreads.schedule] take a
    number of steps; ten per call are shown to be enough.

    ** What is not modelled

    Logging; time-outs of contexts; what the metrics libraries do; data races on fields that the code reads without a lock.  The workflow
    object is driven by one goroutine at a time, and an update of a task is one step of
    the fleet although it makes up to two exchanges; the plugin's methods hold its
    mutex, so each is one step beside the event loop.  The constructors that only store their
    arguments, and the interfaces the plugin requires of its container, have no
    definition of their own.  Tests, mocks and PHP fixtures are not part of the program.

    ** This file

    Machine integers, the hint database [go], small tactics, and lemmas on lists and
    strings that the components share. *)
From stdpp Require Import base gmap list strings pretty.
From Stdlib Require Import ZArith Lia.

(** ** Machine integers

    Go's [uint64], [int] and [time.Duration] are kept as [Z] together with the
    reduction that the hardware performs.  [u64] is the canonical residue of an
    unsigned 64-bit word, [i64] the two's-complement reading of a 64-bit word
    (Go's [int] is 64 bits wide on every platform the plugin is built for). *)

Declare Scope go_scope.
Delimit Scope go_scope with go.

Definition u64 (z : Z) : Z := (z mod 2 ^ 64)%Z.

Definition i64 (z : Z) : Z := ((z + 2 ^ 63) mod 2 ^ 64 - 2 ^ 63)%Z.

Notation "a +u b" := (u64 (a + b)%Z) (at level 50, left associativity) : go_scope.
Notation "a *i b" := (i64 (a * b)%Z) (at level 40, left associativity) : go_scope.

Definition in_u64 (z : Z) : Prop := (0 <= z < 2 ^ 64)%Z.
Definition in_i64 (z : Z) : Prop := (- 2 ^ 63 <= z < 2 ^ 63)%Z.

#[global] Instance in_u64_dec z : Decision (in_u64 z).
Proof. unfold in_u64. apply _. Defined.

#[global] Instance in_i64_dec z : Decision (in_i64 z).
Proof. unfold in_i64. apply _. Defined.

(** ** Tactics and hint databases *)

Create HintDb go.
Create Rewrite HintDb go.

(** Destructs the scrutinee of every [match] of the goal, keeping equations. *)
Ltac case_goal :=
  repeat match goal with
  | |- context [match ?x with _ => _ end] => destruct x eqn:?; simpl in *
  end.

(** Destructs every [match] of the hypotheses and of the goal, discarding the
    branches that are contradictory. *)
Ltac case_all :=
  repeat (case_match; simplify_eq/=).

(** ** Lemmas on machine integers *)

Lemma u64_range z : in_u64 (u64 z).
Proof. unfold in_u64, u64. apply Z.mod_pos_bound. lia. Qed.

Lemma u64_small z : in_u64 z -> u64 z = z.
Proof. intros H. apply Z.mod_small, H. Qed.

Lemma u64_idemp_add_l a b : u64 (u64 a + b) = u64 (a + b).
Proof. unfold u64. by rewrite Zplus_mod_idemp_l. Qed.

Lemma i64_range z : in_i64 (i64 z).
Proof.
  unfold in_i64, i64.
  pose proof (Z.mod_pos_bound (z + 2 ^ 63) (2 ^ 64) ltac:(lia)). lia.
Qed.

Lemma i64_small z : in_i64 z -> i64 z = z.
Proof. unfold in_i64, i64. intros H. rewrite Z.mod_small by lia. lia. Qed.

Lemma i64_fixpoint z : i64 z = z <-> in_i64 z.
Proof.
  split; [|apply i64_small]. intros <-. apply i64_range.
Qed.

(** The signed reading of an unsigned word loses no information. *)
Lemma i64_inj_u64 a b : in_u64 a -> in_u64 b -> i64 a = i64 b -> a = b.
Proof.
  unfold in_u64, i64. intros Ha Hb H.
  assert ((a + 2 ^ 63) mod 2 ^ 64 = (b + 2 ^ 63) mod 2 ^ 64)%Z as H' by lia.
  assert ((a - b) mod 2 ^ 64 = 0)%Z as Hm.
  { replace (a - b)%Z with ((a + 2 ^ 63) - (b + 2 ^ 63))%Z by lia.
    rewrite Zminus_mod, H', Z.sub_diag. reflexivity. }
  apply Z.mod_divide in Hm; [|lia]. destruct Hm as [k Hk].
  assert (k = 0)%Z by nia. lia.
Qed.

#[export] Hint Resolve u64_range i64_range u64_small i64_small : go.
#[export] Hint Rewrite u64_idemp_add_l : go.

(** The identifiers drawn by [n] successive increments of a 64-bit counter. *)
Definition drawn_ids (start : Z) (n : nat) : list Z :=
  (λ k : nat, u64 (start + Z.of_nat k)) <$> seq 1 n.

Lemma drawn_ids_S start n :
  drawn_ids start (S n) = u64 (start + 1) :: drawn_ids (u64 (start + 1)) n.
Proof.
  unfold drawn_ids. cbn [seq fmap list_fmap]. f_equal.
  rewrite <- (seq_shift n 1), <- list_fmap_compose.
  apply list_fmap_ext. intros i k _. cbn.
  rewrite u64_idemp_add_l. f_equal. lia.
Qed.

Lemma length_drawn_ids start n : length (drawn_ids start n) = n.
Proof. unfold drawn_ids. by rewrite length_fmap, length_seq. Qed.

(** A 64-bit counter repeats no value before it has been drawn 2^64 times. *)
Lemma drawn_ids_NoDup start n :
  (Z.of_nat n <= 2 ^ 64)%Z -> NoDup (drawn_ids start n).
Proof.
  intros Hn. unfold drawn_ids. apply NoDup_fmap_2_strong; [|apply NoDup_seq].
  intros i j Hi Hj Heq. apply elem_of_seq in Hi, Hj. unfold u64 in Heq.
  assert ((Z.of_nat i - Z.of_nat j) mod 2 ^ 64 = 0)%Z as Hm.
  { replace (Z.of_nat i - Z.of_nat j)%Z
      with ((start + Z.of_nat i) - (start + Z.of_nat j))%Z by lia.
    rewrite Zminus_mod, Heq, Z.sub_diag. reflexivity. }
  apply Z.mod_divide in Hm; [|lia]. destruct Hm as [k Hk].
  assert (k = 0)%Z by nia. lia.
Qed.

(** ** Lemmas on lists and options *)

Lemma app_eq_self_l {A} (l k : list A) : l ++ k = l -> k = [].
Proof.
  intros H. apply (f_equal length) in H. rewrite length_app in H.
  destruct k; [done|]. simpl in H. lia.
Qed.

Lemma drop_app_suffix {A} (l k : list A) :
  drop (length (l ++ k) - length k) (l ++ k) = k.
Proof. rewrite length_app. replace (_ - _) with (length l) by lia. apply drop_app_length. Qed.

Lemma take_app_prefix {A} (l k : list A) :
  take (length (l ++ k) - length k) (l ++ k) = l.
Proof. rewrite length_app. replace (_ - _) with (length l) by lia. apply take_app_length. Qed.

(** ** Lemmas on strings *)

Lemma string_app_assoc (a b c : string) : ((a ++ b) ++ c = a ++ (b ++ c))%string.
Proof. induction a as [|x a IH]; [done|]. exact (f_equal (String x) IH). Qed.
