(* ===== verification/Api.v ===== *)
(** * Api: the types and functions of the libraries the plugin is built on

    None of this code is under src/: the Temporal API messages
    (go.temporal.io/api), the Temporal Go SDK (go.temporal.io/sdk), RoadRunner's
    errors, payload and frame packages.  What the repository only passes around is
    an abstract type of the class [Api]; what it inspects is a record with the
    inspected fields, the remaining fields being one opaque component.  The class
    [Sdk] collects the pure library functions the sources call. *)
From S2P Require Import Prelude.
From stdpp Require Import base gmap list strings.
From Stdlib Require Import ZArith.

Class Api := {
  (** [commonpb.Payload]: an encoded value, never inspected by the plugin. *)
  Payload : Type;
  (** [failure.Failure]; only its [Message] is read. *)
  Failure : Type;
  Failure_Message : Failure -> string;
  (** Error values created by libraries. *)
  LibError : Type;
  (** [float64] coefficients, [durationpb.Duration], search-attribute values and
      the fields of SDK structs that the plugin never reads. *)
  Float64 : Type;
  DurationPB : Type;
  AnyValue : Type;
  ActivityInfoRest : Type;
  WorkflowInfoRest : Type;
  ActivityOptionsRest : Type;
  WorkflowOptionsRest : Type;
  (** [worker.Options] without the fields the plugin sets, and the worker
      interceptors contributed by other plugins. *)
  WorkerOptionsRest : Type;
  ExternalInterceptor : Type;
  (** The zero values of those that occur inside a command struct. *)
  zero_ActivityInfoRest : ActivityInfoRest;
  zero_ActivityOptionsRest : ActivityOptionsRest;
  zero_WorkflowOptionsRest : WorkflowOptionsRest;
}.

(** A byte slice; a nil slice and an empty one are the same list. *)
Abbreviation bytes := (list Byte.byte).

Section Types.
Context `{Api}.

(** [commonpb.Payloads]: the protobuf message with one repeated field.  A Go
    pointer [*commonpb.Payloads] is an [option Payloads], [None] being nil. *)
Record Payloads := mkPayloads { Payloads_Payloads : list Payload }.

(** [commonpb.Header]; the Go pointer is an [option Header]. *)
Record Header := mkHeader { Fields : gmap string Payload }.

(** The generated accessor [GetPayloads], defined on the nil pointer too. *)
Definition GetPayloads (p : option Payloads) : list Payload :=
  match p with Some p => Payloads_Payloads p | None => [] end.

(** [bindings.WorkflowExecution]. *)
Record WorkflowExecution := mkWorkflowExecution { Execution_ID : string; Execution_RunID : string }.

(** [workflow.Info], read by the plugin for the task queue, the run id and the
    history length. *)
Record WorkflowInfo := mkWorkflowInfo {
  WI_TaskQueueName : string;
  WI_WorkflowExecution : WorkflowExecution;
  WI_GetCurrentHistoryLength : Z;
  WI_rest : WorkflowInfoRest;
}.

(** [activity.Info]. *)
Record ActivityInfo := mkActivityInfo {
  AI_TaskToken : bytes;
  AI_ActivityType_Name : string;
  AI_TaskQueue : string;
  AI_rest : ActivityInfoRest;
}.

(** [bindings.ExecuteActivityOptions] and [bindings.WorkflowOptions]. *)
Record ExecuteActivityOptions := mkExecuteActivityOptions {
  EAO_TaskQueueName : string;
  EAO_rest : ActivityOptionsRest;
}.

Record WorkflowOptions := mkWorkflowOptions {
  WO_TaskQueueName : string;
  WO_WorkflowID : string;
  WO_Namespace : string;
  WO_rest : WorkflowOptionsRest;
}.

(** [commonpb.RetryPolicy]. *)
Record RetryPolicyPB := mkRetryPolicyPB {
  RP_InitialInterval : option DurationPB;
  RP_BackoffCoefficient : Float64;
  RP_MaximumInterval : option DurationPB;
  RP_MaximumAttempts : Z;
  RP_NonRetryableErrorTypes : list string;
}.

(** [temporal.RetryPolicy], durations in nanoseconds. *)
Record RetryPolicy := mkRetryPolicy {
  InitialInterval : Z;
  BackoffCoefficient : Float64;
  MaximumInterval : Z;
  MaximumAttempts : Z;
  NonRetryableErrorTypes : list string;
}.

(** Go error values, by the way they were built: [errors.Str], [errors.Errorf]
    (the format with the arguments that are strings or integers), [errors.E] with
    an operation, [&workflow.ContinueAsNewError{...}], [activity.ErrResultPending]
    and the errors that come out of a library. *)
Inductive error : Type :=
| LibErr (e : LibError)
| ErrStr (s : string)
| Errorf (format : string) (args : list string)
| ErrOp (op : string) (e : error)
| ContinueAsNewError (WorkflowType : string) (Input : option Payloads)
    (CHeader : option Header) (TaskQueueName : string)
    (WorkflowRunTimeout WorkflowTaskTimeout : Z)
| ErrResultPending.

(** The pair [(T, error)] of a Go function that returns one or the other. *)
Inductive result (A : Type) : Type :=
| OK (a : A)
| Err (e : error).
Arguments OK {_} a.
Arguments Err {_} e.

(** [errors.E(op, err)] on the error branch of a result. *)
Definition wrapE {A} (op : string) (r : result A) : result A :=
  match r with OK a => OK a | Err e => Err (ErrOp op e) end.

Definition is_OK {A} (r : result A) : bool :=
  match r with OK _ => true | Err _ => false end.

End Types.
Arguments OK {_ _} a.
Arguments Err {_ _} e.

(** [payload.Payload] of the RoadRunner SDK: what travels to a worker process. *)
Record payload := mkPayload {
  pl_Context : bytes;
  pl_Body : bytes;
  pl_Codec : Z;
  pl_Flags : Z;
}.

(** The zero value, as built by [new(payload.Payload)]. *)
Definition zero_payload : payload := mkPayload [] [] 0 0.

(** Pure library functions. *)
Class Sdk `{Api} := {
  (** [temporal.GetDefaultFailureConverter()]. *)
  FailureToError : option Failure -> option LibError;
  ErrorToFailure : error -> option Failure;
  (** [durationpb.Duration.AsDuration]. *)
  AsDuration : DurationPB -> Z;
  (** The constant [frame.STREAM] of goridge. *)
  frame_STREAM : Z;
  (** [err.Error()]. *)
  error_Error : error -> string;
}.

(** Documented behaviour of the default failure converter: a nil failure is a nil
    error and a non-nil failure is a non-nil error. *)
Class FailureConverterLaws `{Sdk} : Prop := {
  FailureToError_nil : FailureToError None = None;
  FailureToError_some : ∀ f, is_Some (FailureToError (Some f));
}.
