(* ===== verification/Doubles.v ===== *)
(** * Doubles: concrete instances of the library interfaces

    The theorems quantify over every implementation of the interfaces of [Api].
    These instances show that the interfaces and the laws stated about them can be
    implemented, and the witnesses evaluate the model on them. *)
From S2P Require Import Prelude Api.
From stdpp Require Import base gmap list strings.
From Stdlib Require Import ZArith.

Local Open Scope string_scope.

(** Payloads, failures and library errors are strings; unread fields are [unit]. *)
Definition ConcreteApi : Api := {|
  Payload := string;
  Failure := string;
  Failure_Message := λ f, f;
  LibError := string;
  Float64 := Z;
  DurationPB := Z * Z;
  AnyValue := string;
  ActivityInfoRest := unit;
  WorkflowInfoRest := unit;
  ActivityOptionsRest := unit;
  WorkflowOptionsRest := unit;
  WorkerOptionsRest := unit;
  ExternalInterceptor := string;
  zero_ActivityInfoRest := tt;
  zero_ActivityOptionsRest := tt;
  zero_WorkflowOptionsRest := tt;
|}.
#[local] Existing Instance ConcreteApi.

Fixpoint concrete_error_text (e : error) : string :=
  match e with
  | LibErr s => s
  | ErrStr s => s
  | Errorf f args => f
  | ErrOp op e => op ++ ": " ++ concrete_error_text e
  | ContinueAsNewError _ _ _ _ _ _ => "continue as new"
  | ErrResultPending => "result pending"
  end.

Definition ConcreteSdk : Sdk := {|
  FailureToError := λ f, f;
  ErrorToFailure := λ e, Some (concrete_error_text e);
  AsDuration := λ d, (d.1 * 1000000000 + d.2)%Z;
  frame_STREAM := 1;
  error_Error := concrete_error_text;
|}.

Lemma ConcreteFailureConverter : @FailureConverterLaws _ ConcreteSdk.
Proof. split; [done|]. intros f. by exists f. Qed.
