(* ===== verification/GoM.v ===== *)
(** * GoM: the effects of Go code

    A Go function that mutates shared objects is a state transformer that ends in
    one of five ways: it returns; it panics (the mutations made so far persist,
    deferred calls run); the runtime kills the process (unlocking an unlocked
    mutex); it blocks forever (locking a locked mutex); or the fuel given to a loop
    runs out, which only the models of unbounded loops use.  The instances of
    stdpp's [MRet] and [MBind] give the notation [x ← m; k]. *)
From S2P Require Import Prelude Api.
From stdpp Require Import base gmap list strings.
From Stdlib Require Import ZArith.

(** The argument of [panic], or a run-time error such as a nil dereference. *)
Inductive panic_value `{Api} : Type :=
| PanicErr (e : error)
| PanicStr (s : string)
| RuntimeError (s : string).

Inductive outcome `{Api} (A : Type) : Type :=
| Ret (a : A)
| Panics (v : panic_value)
| Fatal (msg : string)
| Blocked
| NoFuel.
Arguments Ret {_ _} a.
Arguments Panics {_ _} v.
Arguments Fatal {_ _} msg.
Arguments Blocked {_ _}.
Arguments NoFuel {_ _}.

Definition GoM `{Api} (S A : Type) : Type := S -> S * outcome A.

(** Continue with [k] when the outcome is a return, keep any other outcome. *)
Definition after `{Api} {S A B} (r : S * outcome A) (k : A -> GoM S B) : S * outcome B :=
  match r.2 with
  | Ret a => k a r.1
  | Panics v => (r.1, Panics v)
  | Fatal m => (r.1, Fatal m)
  | Blocked => (r.1, Blocked)
  | NoFuel => (r.1, NoFuel)
  end.

#[global] Instance GoM_ret `{Api} {S} : MRet (GoM S) := λ A a s, (s, Ret a).
#[global] Instance GoM_bind `{Api} {S} : MBind (GoM S) := λ A B k m s, after (m s) k.

Section Operations.
Context `{Api} {S : Type}.

Definition gets {A} (f : S -> A) : GoM S A := λ s, (s, Ret (f s)).
Definition modify (f : S -> S) : GoM S unit := λ s, (f s, Ret tt).
Definition panic {A} (v : panic_value) : GoM S A := λ s, (s, Panics v).
Definition fatal {A} (m : string) : GoM S A := λ s, (s, Fatal m).
Definition blocked {A} : GoM S A := λ s, (s, Blocked).
Definition nofuel {A} : GoM S A := λ s, (s, NoFuel).

(** [defer d] in the body [m]: [d] runs when [m] returns or panics. *)
Definition defer {A} (d : GoM S unit) (m : GoM S A) : GoM S A := λ s,
  let r := m s in
  match r.2 with
  | Ret a => after (d r.1) (λ _ s', (s', Ret a))
  | Panics v => after (d r.1) (λ _ s', (s', Panics v))
  | _ => r
  end.

(** Sequencing of calls that return [(T, error)]: stop at the first error. *)
Definition rbind {A B} (m : GoM S (result A)) (k : A -> GoM S (result B)) : GoM S (result B) :=
  m ≫= λ r, match r with OK a => k a | Err e => mret (Err e) end.

(** A range loop over a slice that is not changed by its body. *)
Fixpoint for_each {A} (l : list A) (body : A -> GoM S unit) : GoM S unit :=
  match l with
  | [] => mret tt
  | a :: l => body a ≫= λ _, for_each l body
  end.

End Operations.

Notation "x '←?' y ; z" := (rbind y (λ x, z))
  (at level 20, y at level 100, z at level 200, only parsing) : stdpp_scope.

(** ** Transition invariants

    [always R m]: whatever way [m] ends, its final state is related to its
    initial state by [R].  For a preorder [R] the predicate is compositional, and
    the hint database [go] proves it by following the program text. *)

Definition always `{Api} {S A} (R : S -> S -> Prop) (m : GoM S A) : Prop :=
  ∀ s, R s (m s).1.

Section Always.
Context `{Api} {S : Type} (R : S -> S -> Prop) `{!PreOrder R}.

Lemma always_ret {A} (a : A) : always R (mret a : GoM S A).
Proof. intros s. simpl. reflexivity. Qed.

Lemma always_bind {A B} (m : GoM S A) (k : A -> GoM S B) :
  always R m -> (∀ a, always R (k a)) -> always R (m ≫= k).
Proof.
  intros Hm Hk s. unfold mbind, GoM_bind, after.
  specialize (Hm s). destruct (m s) as [s' [a|v|msg| |]]; simpl in *; try done.
  etransitivity; [exact Hm|apply Hk].
Qed.

Lemma always_rbind {A B} (m : GoM S (result A)) (k : A -> GoM S (result B)) :
  always R m -> (∀ a, always R (k a)) -> always R (rbind m k).
Proof.
  intros Hm Hk. apply always_bind; [done|]. intros [a|e]; [apply Hk|apply always_ret].
Qed.

Lemma always_gets {A} (f : S -> A) : always R (gets f).
Proof. intros s. simpl. reflexivity. Qed.

Lemma always_panic {A} v : always R (panic v : GoM S A).
Proof. intros s. simpl. reflexivity. Qed.

Lemma always_nofuel {A} : always R (nofuel : GoM S A).
Proof. intros s. simpl. reflexivity. Qed.

Lemma always_blocked {A} : always R (blocked : GoM S A).
Proof. intros s. simpl. reflexivity. Qed.

Lemma always_modify (f : S -> S) : (∀ s, R s (f s)) -> always R (modify f).
Proof. intros Hf s. apply Hf. Qed.

Lemma always_defer {A} (d : GoM S unit) (m : GoM S A) :
  always R d -> always R m -> always R (defer d m).
Proof.
  intros Hd Hm s. unfold defer. specialize (Hm s).
  destruct (m s) as [s' o]; simpl in *. specialize (Hd s').
  destruct o; simpl; try done; unfold after;
    destruct (d s') as [s'' [[]|v'|msg'| |]]; simpl in *; etransitivity; eauto.
Qed.

Lemma always_for_each {A} (l : list A) (body : A -> GoM S unit) :
  (∀ a, always R (body a)) -> always R (for_each l body).
Proof.
  intros Hb. induction l as [|a l IH]; [apply always_ret|].
  apply always_bind; [apply Hb|intros _; apply IH].
Qed.

End Always.

#[export] Hint Resolve always_ret always_bind always_rbind always_gets always_panic
  always_nofuel always_blocked always_modify always_defer always_for_each : go.

(** Follows the program text. *)
Ltac always_step :=
  lazymatch goal with
  | |- always _ (_ ≫= _) => apply always_bind; [apply _| |intros ?]
  | |- always _ (rbind _ _) => apply always_rbind; [apply _| |intros ?]
  | |- always _ (mret _) => apply always_ret, _
  | |- always _ (gets _) => apply always_gets, _
  | |- always _ (panic _) => apply always_panic, _
  | |- always _ nofuel => apply always_nofuel, _
  | |- always _ blocked => apply always_blocked, _
  | |- always _ (for_each _ _) => apply always_for_each; [apply _|intros ?]
  | |- always _ (match ?x with _ => _ end) => destruct x
  | |- always _ (let '(_, _) := ?x in _) => destruct x
  | |- _ => solve [auto with go typeclass_instances]
  end.

Ltac always_steps := repeat always_step.

(** ** Deadlock freedom

    [safe I m]: from a state that satisfies [I], [m] returns or panics (it neither
    blocks, nor kills the process, nor runs out of fuel), and when it returns [I]
    holds again. *)

Definition safe `{Api} {S A} (I : S -> Prop) (m : GoM S A) : Prop :=
  ∀ s, I s -> match (m s).2 with
              | Ret _ => I (m s).1
              | Panics _ => True
              | Fatal _ | Blocked | NoFuel => False
              end.

Section Safe.
Context `{Api} {S : Type} (I : S -> Prop).

Lemma safe_ret {A} (a : A) : safe I (mret a : GoM S A).
Proof. by intros s. Qed.

Lemma safe_gets {A} (f : S -> A) : safe I (gets f).
Proof. by intros s. Qed.

Lemma safe_panic {A} v : safe I (panic v : GoM S A).
Proof. by intros s. Qed.

Lemma safe_modify (f : S -> S) : (∀ s, I s -> I (f s)) -> safe I (modify f).
Proof. intros Hf s. apply Hf. Qed.

Lemma safe_bind {A B} (m : GoM S A) (k : A -> GoM S B) :
  safe I m -> (∀ a, safe I (k a)) -> safe I (m ≫= k).
Proof.
  intros Hm Hk s Hs. unfold mbind, GoM_bind, after. specialize (Hm s Hs).
  destruct (m s) as [s' [a|v|msg| |]]; simpl in *; try done. by apply Hk.
Qed.

Lemma safe_rbind {A B} (m : GoM S (result A)) (k : A -> GoM S (result B)) :
  safe I m -> (∀ a, safe I (k a)) -> safe I (rbind m k).
Proof. intros Hm Hk. apply safe_bind; [done|]. intros [a|e]; [apply Hk|apply safe_ret]. Qed.

Lemma safe_defer {A} (d : GoM S unit) (m : GoM S A) :
  (∀ s, ∃ s', d s = (s', Ret tt) ∧ (I s -> I s')) -> safe I m -> safe I (defer d m).
Proof.
  intros Hd Hm s Hs. unfold defer, after. specialize (Hm s Hs).
  destruct (m s) as [s1 [a|v|msg| |]]; simpl in *; try done;
    destruct (Hd s1) as (s2 & -> & HI); simpl; auto.
Qed.

Lemma safe_for_each {A} (l : list A) (body : A -> GoM S unit) :
  (∀ a, safe I (body a)) -> safe I (for_each l body).
Proof.
  intros Hb. induction l as [|a l IH]; [apply safe_ret|].
  apply safe_bind; [apply Hb|intros _; apply IH].
Qed.

End Safe.

#[export] Hint Resolve safe_ret safe_gets safe_panic : go.

(** Follows the program text. *)
Ltac safe_step :=
  first [ solve [auto 2 with go] |
  lazymatch goal with
  | |- safe _ (_ ≫= _) => apply safe_bind; [|intros ?]
  | |- safe _ (rbind _ _) => apply safe_rbind; [|intros ?]
  | |- safe _ (for_each _ _) => apply safe_for_each; intros ?
  | |- safe _ (match ?x with _ => _ end) => destruct x
  | |- safe _ (let '(_, _) := ?x in _) => destruct x
  end ].

Ltac safe_steps := repeat safe_step.

(** Unfolds the monad at a concrete state. *)
Ltac go_unfold :=
  unfold rbind, mbind, GoM_bind, mret, GoM_ret, gets, modify, panic, fatal, blocked,
    nofuel, after in *; simpl in *.

(** ** Equations of the monad at a state *)
Section Equations.
Context `{Api} {S : Type}.

Lemma bind_ret {A B} (m : GoM S A) (k : A -> GoM S B) s s' a :
  m s = (s', Ret a) -> (m ≫= k) s = k a s'.
Proof. intros Hm. unfold mbind, GoM_bind, after. by rewrite Hm. Qed.

Lemma bind_assoc {A B C} (m : GoM S A) (k : A -> GoM S B) (h : B -> GoM S C) s :
  ((m ≫= k) ≫= h) s = (m ≫= λ a, k a ≫= h) s.
Proof. unfold mbind, GoM_bind, after. by destruct (m s) as [s' [a|v|msg| |]]. Qed.

Lemma bind_Ret_inv {A B} (m : GoM S A) (k : A -> GoM S B) s s' b :
  (m ≫= k) s = (s', Ret b) -> ∃ s1 a, m s = (s1, Ret a) ∧ k a s1 = (s', Ret b).
Proof.
  unfold mbind, GoM_bind, after. destruct (m s) as [s1 [a|v|msg| |]]; simpl; try done.
  eauto.
Qed.

Lemma rbind_OK {A B} (m : GoM S (result A)) (k : A -> GoM S (result B)) s s' a :
  m s = (s', Ret (OK a)) -> rbind m k s = k a s'.
Proof. intros Hm. unfold rbind. by rewrite (bind_ret m _ s s' (OK a) Hm). Qed.

Lemma rbind_Err {A B} (m : GoM S (result A)) (k : A -> GoM S (result B)) s s' e :
  m s = (s', Ret (Err e)) -> rbind m k s = (s', Ret (Err e)).
Proof. intros Hm. unfold rbind. by rewrite (bind_ret m _ s s' (Err e) Hm). Qed.

End Equations.

(** ** Fields

    An object that belongs to a larger state is reached through a [Field]: the
    components are written against this interface, and the workflow provides the
    instances for the objects it owns. *)

Class Field (S F : Type) := {
  getf : S -> F;
  setf : F -> S -> S;
}.

Class FieldLaws (S F : Type) `{Field S F} : Prop := {
  get_set : ∀ f (s : S), getf (setf f s) = f;
  set_get : ∀ s : S, setf (getf s) s = s;
  set_set : ∀ f g (s : S), setf f (setf g s) = setf f s;
}.

(** Every type is a field of itself. *)
#[global] Instance Field_self {S} : Field S S := {| getf := λ s, s; setf := λ f _, f |}.
#[global] Instance FieldLaws_self {S} : FieldLaws S S.
Proof. by split. Qed.

(** The first component of a pair. *)
#[global] Instance Field_fst {F T} : Field (F * T) F := {| getf := fst; setf := λ f s, (f, s.2) |}.
#[global] Instance FieldLaws_fst {F T} : FieldLaws (F * T) F.
Proof. split; by intros; repeat match goal with x : _ * _ |- _ => destruct x end. Qed.

Definition update `{Api} {S F} `{Field S F} (f : F -> F) : GoM S unit :=
  modify (λ s, setf (f (getf s)) s).

Lemma always_update `{Api} {S F} `{Field S F} (R : S -> S -> Prop) (f : F -> F) :
  (∀ s, R s (setf (f (getf s)) s)) -> always R (update f).
Proof. intros Hf s. apply Hf. Qed.

#[export] Hint Resolve always_update : go.

(** ** Weakest preconditions

    [wp m Q s]: run from [s], [m] ends in an outcome and a state that satisfy [Q].
    Every outcome is covered, so a proof of [wp] is about panics as much as about
    returns. *)

Definition wp `{Api} {S A} (m : GoM S A) (Q : outcome A -> S -> Prop) (s : S) : Prop :=
  Q (m s).2 (m s).1.

(** The postcondition of the first part of a sequence. *)
Definition cont `{Api} {S A B} (k : A -> S -> Prop) (Q : outcome B -> S -> Prop)
    : outcome A -> S -> Prop := λ o s,
  match o with
  | Ret a => k a s
  | Panics v => Q (Panics v) s
  | Fatal m => Q (Fatal m) s
  | Blocked => Q Blocked s
  | NoFuel => Q NoFuel s
  end.

Section Wp.
Context `{Api} {S : Type}.

Lemma wp_intro {A} (m : GoM S A) Q s : wp m Q s -> Q (m s).2 (m s).1.
Proof. done. Qed.

Lemma wp_mono {A} (m : GoM S A) (Q Q' : outcome A -> S -> Prop) s :
  wp m Q s -> (∀ o s', Q o s' -> Q' o s') -> wp m Q' s.
Proof. intros Hm HQ. by apply HQ. Qed.

Lemma wp_run {A} (m : GoM S A) Q s s' o : m s = (s', o) -> Q o s' -> wp m Q s.
Proof. intros Hm HQ. unfold wp. by rewrite Hm. Qed.

(** From a weakest precondition to a statement about the run. *)
Lemma wp_let {A} (m : GoM S A) (P : S -> outcome A -> Prop) s :
  wp m (λ o s', P s' o) s -> let '(s', o) := m s in P s' o.
Proof. unfold wp. by destruct (m s). Qed.

Lemma wp_Ret_elim {A} (m : GoM S A) (P : S -> Prop) a s s' :
  m s = (s', Ret a) -> wp m (λ o s'', o = Ret a -> P s'') s -> P s'.
Proof. intros Hm Hwp. unfold wp in Hwp. rewrite Hm in Hwp. by apply Hwp. Qed.

Lemma wp_ret {A} (a : A) Q s : Q (Ret a) s -> wp (mret a : GoM S A) Q s.
Proof. done. Qed.

Lemma wp_gets {A} (f : S -> A) Q s : Q (Ret (f s)) s -> wp (gets f) Q s.
Proof. done. Qed.

Lemma wp_modify (f : S -> S) Q s : Q (Ret tt) (f s) -> wp (modify f) Q s.
Proof. done. Qed.

Lemma wp_update {F} `{Field S F} (f : F -> F) Q s :
  Q (Ret tt) (setf (f (getf s)) s) -> wp (update f) Q s.
Proof. done. Qed.

Lemma wp_panic {A} v (Q : outcome A -> S -> Prop) s : Q (Panics v) s -> wp (panic v) Q s.
Proof. done. Qed.

Lemma wp_blocked {A} (Q : outcome A -> S -> Prop) s : Q Blocked s -> wp blocked Q s.
Proof. done. Qed.

Lemma wp_nofuel {A} (Q : outcome A -> S -> Prop) s : Q NoFuel s -> wp nofuel Q s.
Proof. done. Qed.

Lemma wp_fatal {A} msg (Q : outcome A -> S -> Prop) s : Q (Fatal msg) s -> wp (fatal msg) Q s.
Proof. done. Qed.

Lemma wp_bind {A B} (m : GoM S A) (k : A -> GoM S B) Q s :
  wp m (cont (λ a, wp (k a) Q) Q) s -> wp (m ≫= k) Q s.
Proof.
  unfold wp, mbind, GoM_bind, after, cont. destruct (m s) as [s' [a|v|msg| |]]; done.
Qed.

Lemma wp_rbind {A B} (m : GoM S (result A)) (k : A -> GoM S (result B)) Q s :
  wp m (cont (λ r s', match r with OK a => wp (k a) Q s' | Err e => Q (Ret (Err e)) s' end) Q) s ->
  wp (rbind m k) Q s.
Proof.
  intros Hm. apply wp_bind. eapply wp_mono; [exact Hm|].
  intros [[a|e]|v|msg| |] s'; done.
Qed.

Lemma wp_defer {A} (d : GoM S unit) (m : GoM S A) Q s :
  wp m (λ o s', match o with
                | Ret a => wp d (cont (λ _, Q (Ret a)) Q) s'
                | Panics v => wp d (cont (λ _, Q (Panics v)) Q) s'
                | o => Q o s'
                end) s ->
  wp (defer d m) Q s.
Proof.
  unfold wp, defer, after, cont. destruct (m s) as [s' [a|v|msg| |]]; simpl; try done;
    destruct (d s') as [s'' [u|v'|msg'| |]]; done.
Qed.

Lemma wp_for_each {A} (l : list A) (body : A -> GoM S unit) (I : S -> Prop) Q s :
  I s ->
  (∀ a s, a ∈ l -> I s -> wp (body a) (cont (λ _, I) Q) s) ->
  (∀ s, I s -> Q (Ret tt) s) ->
  wp (for_each l body) Q s.
Proof.
  revert s. induction l as [|a l IH]; intros s Hs Hb HQ; simpl; [by apply wp_ret, HQ|].
  apply wp_bind. eapply wp_mono; [apply Hb; [by left|done]|].
  intros [u|v|m| |] s'; simpl; try done. intros HI. apply IH; [done| |done].
  intros b s1 Hin. apply Hb. by right.
Qed.

End Wp.

(** To know how a run ends it is enough to evaluate its outcome. *)
Lemma run_outcome `{Api} {S A} (m : GoM S A) s o : (m s).2 = o -> m s = ((m s).1, o).
Proof. intros <-. by destruct (m s). Qed.

(** One step of symbolic execution under [wp]. *)
Ltac wp_step :=
  lazymatch goal with
  | |- wp (mret _) _ _ => apply wp_ret; cbn beta
  | |- wp (_ ≫= _) _ _ => apply wp_bind
  | |- wp (rbind _ _) _ _ => apply wp_rbind
  | |- wp (gets _) _ _ => apply wp_gets; cbn beta
  | |- wp (modify _) _ _ => apply wp_modify; cbn beta
  | |- wp (update _) _ _ => apply wp_update; cbn beta
  | |- wp (panic _) _ _ => apply wp_panic; cbn beta
  | |- wp blocked _ _ => apply wp_blocked; cbn beta
  | |- wp nofuel _ _ => apply wp_nofuel; cbn beta
  | |- wp (fatal _) _ _ => apply wp_fatal; cbn beta
  | |- wp (defer _ _) _ _ => apply wp_defer; cbn beta
  | |- wp (if ?b then _ else _) _ _ => destruct b eqn:?
  | |- wp (match ?x with _ => _ end) _ _ => destruct x eqn:?
  | |- cont _ _ ?o _ => progress cbn [cont]
  | |- match OK _ with _ => _ end => cbn beta iota
  | |- match Err _ with _ => _ end => cbn beta iota
  | |- match ?x with OK _ => _ | Err _ => _ end => destruct x eqn:?
  end.

Ltac wp_steps := repeat wp_step.
