(* ===== verification/Protocol.v ===== *)
(** * Protocol: the messages exchanged with a worker (src/internal/protocol.go)

    The command structs, the [Message] and [Context] records, the mapping of
    commands to SDK parameters, and the two tables that translate between Go types
    and command names.  The interface value [any] held by [Message.Command] is an
    [any_command]: a struct held by value or through a pointer, a distinction the
    sources depend on (the worker's commands arrive as pointers). *)
From S2P Require Import Prelude Api Doubles.
From stdpp Require Import base gmap list strings.
From Stdlib Require Import ZArith Lia.

Local Open Scope string_scope.

(** ** Command names *)

Definition getWorkerInfoCommand := "GetWorkerInfo".
Definition invokeActivityCommand := "InvokeActivity".
Definition invokeLocalActivityCommand := "InvokeLocalActivity".
Definition startWorkflowCommand := "StartWorkflow".
Definition invokeSignalCommand := "InvokeSignal".
Definition invokeQueryCommand := "InvokeQuery".
Definition invokeUpdateCommand := "InvokeUpdate".
Definition destroyWorkflowCommand := "DestroyWorkflow".
Definition cancelWorkflowCommand := "CancelWorkflow".
Definition getStackTraceCommand := "StackTrace".
Definition executeActivityCommand := "ExecuteActivity".
Definition executeLocalActivityCommand := "ExecuteLocalActivity".
Definition executeChildWorkflowCommand := "ExecuteChildWorkflow".
Definition getChildWorkflowExecutionCommand := "GetChildWorkflowExecution".
Definition newTimerCommand := "NewTimer".
Definition sideEffectCommand := "SideEffect".
Definition getVersionCommand := "GetVersion".
Definition completeWorkflowCommand := "CompleteWorkflow".
Definition continueAsNewCommand := "ContinueAsNew".
Definition upsertWorkflowSearchAttributesCommand := "UpsertWorkflowSearchAttributes".
Definition signalExternalWorkflowCommand := "SignalExternalWorkflow".
Definition cancelExternalWorkflowCommand := "CancelExternalWorkflow".
Definition undefinedResponse := "UndefinedResponse".
Definition cancelCommand := "Cancel".
Definition panicCommand := "Panic".

(** ** Structs *)

Record Context := mkContext {
  TaskQueue : string;
  TickTime : string;
  Replay : bool;
  HistoryLen : Z;
  RrID : string;
}.

(** The zero value [internal.Context{}]. *)
Definition zero_Context : Context := mkContext "" "" false 0 "".

Section Structs.
Context `{Api}.

Record GetWorkerInfo := mkGetWorkerInfo { RRVersion : string }.

Record InvokeActivity := mkInvokeActivity {
  IA_Name : string;
  IA_Info : ActivityInfo;
  IA_HeartbeatDetails : Z;
}.

Record InvokeLocalActivity := mkInvokeLocalActivity {
  ILA_Name : string;
  ILA_Info : ActivityInfo;
}.

Record StartWorkflow := mkStartWorkflow {
  SW_Info : option WorkflowInfo;
  SW_LastCompletion : Z;
}.

Record InvokeSignal := mkInvokeSignal { IS_RunID : string; IS_Name : string }.

Record InvokeQuery := mkInvokeQuery { IQ_RunID : string; IQ_Name : string }.

Record InvokeUpdate := mkInvokeUpdate {
  IU_UpdateID : string;
  IU_RunID : string;
  IU_Name : string;
  IU_Type : string;
}.

Record CancelWorkflow := mkCancelWorkflow { CW_RunID : string }.
Record DestroyWorkflow := mkDestroyWorkflow { DW_RunID : string }.
Record GetStackTrace := mkGetStackTrace { GST_RunID : string }.

Record ExecuteActivity := mkExecuteActivity {
  EA_Name : string;
  EA_Options : ExecuteActivityOptions;
}.

Record ExecuteLocalActivityOptions := mkExecuteLocalActivityOptions {
  ScheduleToCloseTimeout : Z;
  StartToCloseTimeout : Z;
  ELAO_RetryPolicy : option RetryPolicyPB;
}.

Record ExecuteLocalActivity := mkExecuteLocalActivity {
  ELA_Name : string;
  ELA_Options : ExecuteLocalActivityOptions;
}.

Record ExecuteChildWorkflow := mkExecuteChildWorkflow {
  ECW_Name : string;
  ECW_Options : WorkflowOptions;
}.

Record GetChildWorkflowExecution := mkGetChildWorkflowExecution { GCWE_ID : Z }.

Record NewTimer := mkNewTimer { Milliseconds : Z }.

Record SideEffect := mkSideEffect { }.

Record GetVersion := mkGetVersion {
  ChangeID : string;
  MinSupported : Z;
  MaxSupported : Z;
}.

Record CompleteWorkflow := mkCompleteWorkflow { }.

Record ContinueAsNew := mkContinueAsNew {
  CAN_Name : string;
  CAN_TaskQueueName : string;
  CAN_WorkflowRunTimeout : Z;
  CAN_WorkflowTaskTimeout : Z;
}.

Record UpsertWorkflowSearchAttributes := mkUpsertWorkflowSearchAttributes {
  SearchAttributes : gmap string AnyValue;
}.

Record SignalExternalWorkflow := mkSignalExternalWorkflow {
  SEW_Namespace : string;
  SEW_WorkflowID : string;
  SEW_RunID : string;
  SEW_Signal : string;
  SEW_ChildWorkflowOnly : bool;
}.

Record CancelExternalWorkflow := mkCancelExternalWorkflow {
  CEW_Namespace : string;
  CEW_WorkflowID : string;
  CEW_RunID : string;
}.

Record UndefinedResponse := mkUndefinedResponse { UR_Message : string }.

Record Cancel := mkCancel { CommandIDs : list Z }.

Record Panic := mkPanic { Panic_Message : string }.

(** The struct types that occur behind [any]. *)
Inductive command : Type :=
| C_GetWorkerInfo (c : GetWorkerInfo)
| C_InvokeActivity (c : InvokeActivity)
| C_InvokeLocalActivity (c : InvokeLocalActivity)
| C_StartWorkflow (c : StartWorkflow)
| C_InvokeSignal (c : InvokeSignal)
| C_InvokeQuery (c : InvokeQuery)
| C_InvokeUpdate (c : InvokeUpdate)
| C_CancelWorkflow (c : CancelWorkflow)
| C_DestroyWorkflow (c : DestroyWorkflow)
| C_GetStackTrace (c : GetStackTrace)
| C_ExecuteActivity (c : ExecuteActivity)
| C_ExecuteLocalActivity (c : ExecuteLocalActivity)
| C_ExecuteChildWorkflow (c : ExecuteChildWorkflow)
| C_GetChildWorkflowExecution (c : GetChildWorkflowExecution)
| C_NewTimer (c : NewTimer)
| C_SideEffect (c : SideEffect)
| C_GetVersion (c : GetVersion)
| C_CompleteWorkflow (c : CompleteWorkflow)
| C_ContinueAsNew (c : ContinueAsNew)
| C_UpsertWorkflowSearchAttributes (c : UpsertWorkflowSearchAttributes)
| C_SignalExternalWorkflow (c : SignalExternalWorkflow)
| C_CancelExternalWorkflow (c : CancelExternalWorkflow)
| C_UndefinedResponse (c : UndefinedResponse)
| C_Cancel (c : Cancel)
| C_Panic (c : Panic).

(** A non-nil interface value: the struct itself or a pointer to it. *)
Inductive any_command : Type :=
| ByValue (c : command)
| ByPtr (c : command).

Definition deref (a : any_command) : command :=
  match a with ByValue c | ByPtr c => c end.

Record Message := mkMessage {
  m_ID : Z;
  m_Command : option any_command;
  m_Failure : option Failure;
  m_Payloads : option Payloads;
  m_Header : option Header;
}.

(** The zero value [internal.Message{}]. *)
Definition zero_Message : Message := mkMessage 0 None None None None.

(** *** SDK parameter structs built by the commands *)

Record ExecuteActivityParams := mkExecuteActivityParams {
  EAP_Options : ExecuteActivityOptions;
  EAP_ActivityType : string;
  EAP_Input : option Payloads;
  EAP_Header : option Header;
}.

Record SdkLocalActivityOptions := mkSdkLocalActivityOptions {
  SLAO_ScheduleToCloseTimeout : Z;
  SLAO_StartToCloseTimeout : Z;
  SLAO_RetryPolicy : option RetryPolicy;
}.

Record ExecuteLocalActivityParams {Fn : Type} := mkExecuteLocalActivityParams {
  ELAP_Options : SdkLocalActivityOptions;
  ELAP_ActivityFn : Fn;
  ELAP_ActivityType : string;
  ELAP_InputArgs : list (option Payloads);
  ELAP_WorkflowInfo : WorkflowInfo;
  ELAP_ScheduledTime : Z;
  ELAP_Header : option Header;
}.

Record ExecuteWorkflowParams := mkExecuteWorkflowParams {
  EWP_Options : WorkflowOptions;
  EWP_WorkflowType : string;
  EWP_Input : option Payloads;
  EWP_Header : option Header;
}.

(** ** Worker description (src/internal/worker_info.go) *)

Record WorkerWorkflowInfo := mkWorkerWorkflowInfo {
  WWI_Name : string;
  WWI_Queries : list string;
  WWI_Signals : list string;
}.

Record WorkerActivityInfo := mkWorkerActivityInfo { WAI_Name : string }.

(** Worker interceptors: the plugin's own one and those of other plugins. *)
Inductive worker_interceptor : Type :=
| NewWorkerInterceptor
| External (i : ExternalInterceptor).

(** [worker.Options]: the fields the plugin reads or sets. *)
Record WorkerOptions := mkWorkerOptions {
  WorkerStopTimeout : Z;
  BuildID : string;
  UseBuildIDForVersioning : bool;
  Identity : string;
  Interceptors : list worker_interceptor;
  WorkerOptions_rest : WorkerOptionsRest;
}.

Record WorkerInfo := mkWorkerInfo {
  WorkerInfo_TaskQueue : string;
  Options : WorkerOptions;
  PhpSdkVersion : string;
  Workflows : list WorkerWorkflowInfo;
  Activities : list WorkerActivityInfo;
}.

End Structs.
Arguments ExecuteLocalActivityParams {_} Fn.

(** ** Methods of Context and Message *)

Definition IsEmpty (ctx : Context) : bool := String.eqb (TaskQueue ctx) "".

Section Methods.
Context `{Sdk}.

Definition IsCommand (msg : Message) : bool :=
  match m_Command msg with Some _ => true | None => false end.

(** The method [UndefinedResponse]: the command is a pointer to that struct. *)
Definition is_UndefinedResponse (msg : Message) : bool :=
  match m_Command msg with
  | Some (ByPtr (C_UndefinedResponse _)) => true
  | _ => false
  end.

Definition Message_Reset (msg : Message) : Message :=
  {| m_ID := 0; m_Command := None; m_Failure := None; m_Payloads := None; m_Header := None |}.

(** ** Mapping commands to SDK parameters *)

Definition ActivityParams (cmd : ExecuteActivity) (info : WorkflowInfo)
    (payloads : option Payloads) (header : option Header) : ExecuteActivityParams :=
  let params := mkExecuteActivityParams (EA_Options cmd) (EA_Name cmd) payloads header in
  if String.eqb (EAO_TaskQueueName (EAP_Options params)) ""
  then mkExecuteActivityParams
         (mkExecuteActivityOptions (WI_TaskQueueName info) (EAO_rest (EAP_Options params)))
         (EAP_ActivityType params) (EAP_Input params) (EAP_Header params)
  else params.

(** [time.Minute] in nanoseconds. *)
Definition time_Minute : Z := 60 * 1000000000.

Definition ifNotNil (val : option DurationPB) : Z :=
  match val with Some d => AsDuration d | None => 0%Z end.

Definition LocalActivityParams {Fn} (cmd : ExecuteLocalActivity) (info : WorkflowInfo)
    (now : Z) (fn : Fn) (payloads : option Payloads) (header : option Header)
    : ExecuteLocalActivityParams Fn :=
  let o := ELA_Options cmd in
  let start := if Z.eqb (StartToCloseTimeout o) 0 then time_Minute else StartToCloseTimeout o in
  let sched := if Z.eqb (ScheduleToCloseTimeout o) 0 then time_Minute else ScheduleToCloseTimeout o in
  let rp :=
    match ELAO_RetryPolicy o with
    | Some p =>
        Some {| InitialInterval := ifNotNil (RP_InitialInterval p);
                BackoffCoefficient := RP_BackoffCoefficient p;
                MaximumInterval := ifNotNil (RP_MaximumInterval p);
                MaximumAttempts := RP_MaximumAttempts p;
                NonRetryableErrorTypes := RP_NonRetryableErrorTypes p |}
    | None => None
    end in
  {| ELAP_Options := mkSdkLocalActivityOptions sched start rp;
     ELAP_ActivityFn := fn;
     ELAP_ActivityType := ELA_Name cmd;
     ELAP_InputArgs := [payloads];
     ELAP_WorkflowInfo := info;
     ELAP_ScheduledTime := now;
     ELAP_Header := header |}.

Definition WorkflowParams (cmd : ExecuteChildWorkflow) (info : WorkflowInfo)
    (payloads : option Payloads) (header : option Header) : ExecuteWorkflowParams :=
  let o := ECW_Options cmd in
  let params := mkExecuteWorkflowParams o (ECW_Name cmd) payloads header in
  if String.eqb (WO_TaskQueueName o) ""
  then mkExecuteWorkflowParams
         (mkWorkflowOptions (WI_TaskQueueName info) (WO_WorkflowID o) (WO_Namespace o) (WO_rest o))
         (ECW_Name cmd) payloads header
  else params.

(** [time.Millisecond] in nanoseconds. *)
Definition time_Millisecond : Z := 1000000.

(** 64-bit product, as [time.Duration] arithmetic performs it. *)
Definition ToDuration (cmd : NewTimer) : Z := i64 (time_Millisecond * i64 (Milliseconds cmd)).

(** ** Command names and types *)

Definition CommandName (cmd : any_command) : result string :=
  match deref cmd with
  | C_GetWorkerInfo _ => OK getWorkerInfoCommand
  | C_StartWorkflow _ => OK startWorkflowCommand
  | C_InvokeSignal _ => OK invokeSignalCommand
  | C_InvokeQuery _ => OK invokeQueryCommand
  | C_DestroyWorkflow _ => OK destroyWorkflowCommand
  | C_CancelWorkflow _ => OK cancelWorkflowCommand
  | C_GetStackTrace _ => OK getStackTraceCommand
  | C_InvokeActivity _ => OK invokeActivityCommand
  | C_ExecuteActivity _ => OK executeActivityCommand
  | C_InvokeLocalActivity _ => OK invokeLocalActivityCommand
  | C_ExecuteLocalActivity _ => OK executeLocalActivityCommand
  | C_ExecuteChildWorkflow _ => OK executeChildWorkflowCommand
  | C_GetChildWorkflowExecution _ => OK getChildWorkflowExecutionCommand
  | C_NewTimer _ => OK newTimerCommand
  | C_GetVersion _ => OK getVersionCommand
  | C_SideEffect _ => OK sideEffectCommand
  | C_CompleteWorkflow _ => OK completeWorkflowCommand
  | C_ContinueAsNew _ => OK continueAsNewCommand
  | C_UpsertWorkflowSearchAttributes _ => OK upsertWorkflowSearchAttributesCommand
  | C_SignalExternalWorkflow _ => OK signalExternalWorkflowCommand
  | C_CancelExternalWorkflow _ => OK cancelExternalWorkflowCommand
  | C_Cancel _ => OK cancelCommand
  | C_Panic _ => OK panicCommand
  | C_InvokeUpdate _ => OK invokeUpdateCommand
  | C_UndefinedResponse _ =>
      Err (ErrOp "command_name" (Errorf "undefined command type: %s" []))
  end.

(** The zero value of the struct that a given struct value has the type of. *)
Definition zero_ActivityInfo : ActivityInfo := mkActivityInfo [] "" "" zero_ActivityInfoRest.

Definition zero_like (c : command) : command :=
  match c with
  | C_GetWorkerInfo _ => C_GetWorkerInfo (mkGetWorkerInfo "")
  | C_InvokeActivity _ => C_InvokeActivity (mkInvokeActivity "" zero_ActivityInfo 0)
  | C_InvokeLocalActivity _ => C_InvokeLocalActivity (mkInvokeLocalActivity "" zero_ActivityInfo)
  | C_StartWorkflow _ => C_StartWorkflow (mkStartWorkflow None 0)
  | C_InvokeSignal _ => C_InvokeSignal (mkInvokeSignal "" "")
  | C_InvokeQuery _ => C_InvokeQuery (mkInvokeQuery "" "")
  | C_InvokeUpdate _ => C_InvokeUpdate (mkInvokeUpdate "" "" "" "")
  | C_CancelWorkflow _ => C_CancelWorkflow (mkCancelWorkflow "")
  | C_DestroyWorkflow _ => C_DestroyWorkflow (mkDestroyWorkflow "")
  | C_GetStackTrace _ => C_GetStackTrace (mkGetStackTrace "")
  | C_ExecuteActivity _ =>
      C_ExecuteActivity (mkExecuteActivity "" (mkExecuteActivityOptions "" zero_ActivityOptionsRest))
  | C_ExecuteLocalActivity _ =>
      C_ExecuteLocalActivity (mkExecuteLocalActivity "" (mkExecuteLocalActivityOptions 0 0 None))
  | C_ExecuteChildWorkflow _ =>
      C_ExecuteChildWorkflow
        (mkExecuteChildWorkflow "" (mkWorkflowOptions "" "" "" zero_WorkflowOptionsRest))
  | C_GetChildWorkflowExecution _ => C_GetChildWorkflowExecution (mkGetChildWorkflowExecution 0)
  | C_NewTimer _ => C_NewTimer (mkNewTimer 0)
  | C_SideEffect _ => C_SideEffect mkSideEffect
  | C_GetVersion _ => C_GetVersion (mkGetVersion "" 0 0)
  | C_CompleteWorkflow _ => C_CompleteWorkflow mkCompleteWorkflow
  | C_ContinueAsNew _ => C_ContinueAsNew (mkContinueAsNew "" "" 0 0)
  | C_UpsertWorkflowSearchAttributes _ =>
      C_UpsertWorkflowSearchAttributes (mkUpsertWorkflowSearchAttributes ∅)
  | C_SignalExternalWorkflow _ => C_SignalExternalWorkflow (mkSignalExternalWorkflow "" "" "" "" false)
  | C_CancelExternalWorkflow _ => C_CancelExternalWorkflow (mkCancelExternalWorkflow "" "" "")
  | C_UndefinedResponse _ => C_UndefinedResponse (mkUndefinedResponse "")
  | C_Cancel _ => C_Cancel (mkCancel [])
  | C_Panic _ => C_Panic (mkPanic "")
  end.

Definition InitCommand (name : string) : result any_command :=
  if String.eqb name getWorkerInfoCommand then OK (ByPtr (C_GetWorkerInfo (mkGetWorkerInfo "")))
  else if String.eqb name startWorkflowCommand then OK (ByPtr (C_StartWorkflow (mkStartWorkflow None 0)))
  else if String.eqb name invokeSignalCommand then OK (ByPtr (C_InvokeSignal (mkInvokeSignal "" "")))
  else if String.eqb name invokeQueryCommand then OK (ByPtr (C_InvokeQuery (mkInvokeQuery "" "")))
  else if String.eqb name destroyWorkflowCommand then
    OK (ByPtr (C_DestroyWorkflow (mkDestroyWorkflow "")))
  else if String.eqb name cancelWorkflowCommand then
    OK (ByPtr (C_CancelWorkflow (mkCancelWorkflow "")))
  else if String.eqb name getStackTraceCommand then OK (ByPtr (C_GetStackTrace (mkGetStackTrace "")))
  else if String.eqb name invokeActivityCommand then
    OK (ByPtr (C_InvokeActivity (mkInvokeActivity "" zero_ActivityInfo 0)))
  else if String.eqb name executeActivityCommand then
    OK (ByPtr (C_ExecuteActivity
      (mkExecuteActivity "" (mkExecuteActivityOptions "" zero_ActivityOptionsRest))))
  else if String.eqb name executeLocalActivityCommand then
    OK (ByPtr (C_ExecuteLocalActivity
      (mkExecuteLocalActivity "" (mkExecuteLocalActivityOptions 0 0 None))))
  else if String.eqb name executeChildWorkflowCommand then
    OK (ByPtr (C_ExecuteChildWorkflow
      (mkExecuteChildWorkflow "" (mkWorkflowOptions "" "" "" zero_WorkflowOptionsRest))))
  else if String.eqb name getChildWorkflowExecutionCommand then
    OK (ByPtr (C_GetChildWorkflowExecution (mkGetChildWorkflowExecution 0)))
  else if String.eqb name newTimerCommand then OK (ByPtr (C_NewTimer (mkNewTimer 0)))
  else if String.eqb name getVersionCommand then OK (ByPtr (C_GetVersion (mkGetVersion "" 0 0)))
  else if String.eqb name sideEffectCommand then OK (ByPtr (C_SideEffect mkSideEffect))
  else if String.eqb name completeWorkflowCommand then
    OK (ByPtr (C_CompleteWorkflow mkCompleteWorkflow))
  else if String.eqb name continueAsNewCommand then
    OK (ByPtr (C_ContinueAsNew (mkContinueAsNew "" "" 0 0)))
  else if String.eqb name upsertWorkflowSearchAttributesCommand then
    OK (ByPtr (C_UpsertWorkflowSearchAttributes (mkUpsertWorkflowSearchAttributes ∅)))
  else if String.eqb name signalExternalWorkflowCommand then
    OK (ByPtr (C_SignalExternalWorkflow (mkSignalExternalWorkflow "" "" "" "" false)))
  else if String.eqb name cancelExternalWorkflowCommand then
    OK (ByPtr (C_CancelExternalWorkflow (mkCancelExternalWorkflow "" "" "")))
  else if String.eqb name cancelCommand then OK (ByPtr (C_Cancel (mkCancel [])))
  else if String.eqb name panicCommand then OK (ByPtr (C_Panic (mkPanic "")))
  else if String.eqb name undefinedResponse then
    OK (ByPtr (C_UndefinedResponse (mkUndefinedResponse "")))
  else if String.eqb name invokeUpdateCommand then
    OK (ByPtr (C_InvokeUpdate (mkInvokeUpdate "" "" "" "")))
  else Err (ErrOp "init_command"
         (Errorf "undefined command name: %s, possible outdated RoadRunner version" [name])).

End Methods.

(** ** Properties *)
Section Theorems.
Context `{Sdk}.

(** The command a message name stands for, when the decoder knows it. *)
Definition decodable (c : command) : bool :=
  match c with C_InvokeLocalActivity _ => false | _ => true end.

Lemma CommandName_deref a b : deref a = deref b -> CommandName a = CommandName b.
Proof. unfold CommandName. by intros ->. Qed.

Lemma InitCommand_CommandName a name :
  CommandName a = OK name -> decodable (deref a) = true ->
  InitCommand name = OK (ByPtr (zero_like (deref a))).
Proof. unfold CommandName. destruct (deref a); intros [= <-] Hd; (discriminate Hd || reflexivity). Qed.

Lemma InitCommand_OK_name name a :
  InitCommand name = OK a ->
  CommandName a = OK name ∨ name = undefinedResponse ∧ a = ByPtr (C_UndefinedResponse (mkUndefinedResponse "")).
Proof.
  unfold InitCommand. intros Hi.
  repeat match type of Hi with
  | (if String.eqb name ?n then _ else _) = _ =>
      destruct (String.eqb_spec name n) as [->|]; [injection Hi as <-; first [by left | by right]|]
  end.
  discriminate Hi.
Qed.

(** C27: the table that names a command for the wire and the table that
    allocates a struct for a name agree.  A command that has a name is decoded into
    a pointer to a zero value of its own struct type, except [InvokeLocalActivity],
    which is only ever sent; the only command without a name is the pointer-only
    [UndefinedResponse]; and every struct the decoder allocates is named back by the
    name it was allocated for, except [UndefinedResponse], which only workers send. *)
Theorem command_tables_agree :
  (∀ a : any_command,
     match CommandName a with
     | OK name =>
         InitCommand name =
           if decodable (deref a) then OK (ByPtr (zero_like (deref a)))
           else Err (ErrOp "init_command"
                  (Errorf "undefined command name: %s, possible outdated RoadRunner version" [name]))
     | Err _ => ∃ u, deref a = C_UndefinedResponse u
     end) ∧
  (∀ (name : string) (a : any_command),
     InitCommand name = OK a ->
     CommandName a = OK name ∨ name = undefinedResponse).
Proof.
  split.
  - intros a. destruct (CommandName a) as [name|e] eqn:Hn.
    + destruct (decodable (deref a)) eqn:Hd; [by apply InitCommand_CommandName|].
      unfold CommandName in Hn. destruct (deref a); try discriminate Hd. by injection Hn as <-.
    + unfold CommandName in Hn. destruct (deref a); try discriminate Hn. eauto.
  - intros name a Hi. destruct (InitCommand_OK_name name a Hi) as [|[-> _]]; auto.
Qed.

(** For a timer of [ms] milliseconds ([ms] a 64-bit integer) the duration
    handed to the SDK is the exact number of nanoseconds precisely when [ms] lies
    within plus or minus 9223372036854; outside that range the multiplication wraps
    to some other 64-bit value. *)
Theorem ToDuration_exact (cmd : NewTimer) :
  in_i64 (Milliseconds cmd) ->
  in_i64 (ToDuration cmd) ∧
  (ToDuration cmd = Milliseconds cmd * 1000000 <->
   - 9223372036854 <= Milliseconds cmd <= 9223372036854)%Z.
Proof.
  intros Hms. unfold ToDuration, time_Millisecond. rewrite (i64_small _ Hms).
  split; [apply i64_range|].
  rewrite Z.mul_comm, i64_fixpoint. unfold in_i64. lia.
Qed.

(** Local-activity timeouts are never left at zero, explicit ones are kept. *)
Lemma LocalActivityParams_timeouts {Fn} cmd info now (fn : Fn) p h :
  let o := ELAP_Options (LocalActivityParams cmd info now fn p h) in
  (SLAO_StartToCloseTimeout o ≠ 0 ∧ SLAO_ScheduleToCloseTimeout o ≠ 0)%Z.
Proof.
  cbn. unfold time_Minute.
  destruct (Z.eqb_spec (StartToCloseTimeout (ELA_Options cmd)) 0),
    (Z.eqb_spec (ScheduleToCloseTimeout (ELA_Options cmd)) 0); split; lia.
Qed.

End Theorems.

#[local] Existing Instance ConcreteApi.
#[local] Existing Instance ConcreteSdk.

Lemma ToDuration_exact_witness :
  in_i64 (ToDuration (mkNewTimer 500)) ∧
  (ToDuration (mkNewTimer 500) = 500 * 1000000 <-> - 9223372036854 <= 500 <= 9223372036854)%Z.
Proof. apply (ToDuration_exact (mkNewTimer 500)). unfold in_i64. simpl. lia. Defined.
