(* ===== verification/Queue.v ===== *)
(** * Queue: the outgoing message queue (src/queue/queue.go)

    [MessageQueue] holds the messages waiting for the next exchange with the
    worker and a generator of command identifiers.  Go's [SeqID func() uint64] is a
    closure over some counter; here it is a transformer of the counter's state [G].
    Every method but [AllocateMessage] takes the mutex for its whole body, so each
    is one atomic step and a concurrent execution is a sequence of operations. *)
From S2P Require Import Prelude Api Doubles Protocol.
From stdpp Require Import base functions gmap list strings.
From Stdlib Require Import ZArith Lia.

Section Queue.
Context `{Sdk} {G : Type}.

Record MessageQueue := mkMessageQueue {
  SeqID : G -> G * Z;
  queue : list Message;
}.

Definition NewMessageQueue (sedID : G -> G * Z) : MessageQueue :=
  {| SeqID := sedID; queue := [] |}.

Definition Flush (mq : MessageQueue) : MessageQueue :=
  {| SeqID := SeqID mq; queue := [] |}.

(** [AllocateMessage] fills [ret] in place and leaves its [Failure] alone; it does
    not touch the queue. *)
Definition AllocateMessage (cmd : any_command) (payloads : option Payloads)
    (header : option Header) (ret : Message) (mq : MessageQueue) (g : G) : G * Message :=
  let '(g', id) := SeqID mq g in
  (g', {| m_ID := id; m_Command := Some cmd; m_Failure := m_Failure ret;
          m_Payloads := payloads; m_Header := header |}).

Definition PushCommand (cmd : any_command) (payloads : option Payloads)
    (header : option Header) (mq : MessageQueue) (g : G) : G * MessageQueue :=
  let '(g', id) := SeqID mq g in
  (g', {| SeqID := SeqID mq;
          queue := queue mq ++ [{| m_ID := id; m_Command := Some cmd; m_Failure := None;
                                   m_Payloads := payloads; m_Header := header |}] |}).

Definition PushResponse (id : Z) (payloads : option Payloads) (mq : MessageQueue) : MessageQueue :=
  {| SeqID := SeqID mq;
     queue := queue mq ++ [{| m_ID := id; m_Command := None; m_Failure := None;
                              m_Payloads := payloads; m_Header := None |}] |}.

Definition PushError (id : Z) (failure : option Failure) (mq : MessageQueue) : MessageQueue :=
  {| SeqID := SeqID mq;
     queue := queue mq ++ [{| m_ID := id; m_Command := None; m_Failure := failure;
                              m_Payloads := None; m_Header := None |}] |}.

Definition Messages (mq : MessageQueue) : list Message := queue mq.

(** ** Sequences of operations *)

Inductive mq_op : Type :=
| OpFlush
| OpAllocate (cmd : any_command) (payloads : option Payloads) (header : option Header)
| OpCommand (cmd : any_command) (payloads : option Payloads) (header : option Header)
| OpResponse (id : Z) (payloads : option Payloads)
| OpError (id : Z) (failure : option Failure).

(** One operation: the new state and the identifier it hands out, if any. *)
Definition mq_step (op : mq_op) (mq : MessageQueue) (g : G) : MessageQueue * G * list Z :=
  match op with
  | OpFlush => (Flush mq, g, [])
  | OpAllocate cmd p h =>
      let '(g', m) := AllocateMessage cmd p h zero_Message mq g in (mq, g', [m_ID m])
  | OpCommand cmd p h =>
      let '(g', mq') := PushCommand cmd p h mq g in
      (mq', g', m_ID <$> drop (length (queue mq)) (queue mq'))
  | OpResponse id p => (PushResponse id p mq, g, [])
  | OpError id f => (PushError id f mq, g, [])
  end.

(** Operations on a family of queues that draw from one source of identifiers: every
    workflow run has a queue of its own. *)
Fixpoint mq_run (ops : list (nat * mq_op)) (qs : nat -> MessageQueue) (g : G)
    : (nat -> MessageQueue) * G * list Z :=
  match ops with
  | [] => (qs, g, [])
  | (i, op) :: ops =>
      let '(mq1, g1, ids1) := mq_step op (qs i) g in
      let '(qs2, g2, ids2) := mq_run ops (<[i := mq1]> qs) g1 in
      (qs2, g2, ids1 ++ ids2)
  end.

(** The operations on queue [i]. *)
Definition ops_on (i : nat) (ops : list (nat * mq_op)) : list mq_op :=
  omap (λ x, if decide (x.1 = i) then Some x.2 else None) ops.

(** ** Abstract specification: an outbox

    What a queue promises, without identifiers drawn from a counter: the operations
    that draw an identifier, and the operations whose message is still waiting. *)

Definition draws (op : mq_op) : bool :=
  match op with OpAllocate _ _ _ | OpCommand _ _ _ => true | _ => false end.

(** Pushes since the last [Flush], oldest first. *)
Fixpoint since_flush (acc : list mq_op) (ops : list mq_op) : list mq_op :=
  match ops with
  | [] => acc
  | OpFlush :: ops => since_flush [] ops
  | OpAllocate _ _ _ :: ops => since_flush acc ops
  | op :: ops => since_flush (acc ++ [op]) ops
  end.

(** A queued message is the one its push describes, up to a drawn identifier. *)
Definition describes (op : mq_op) (m : Message) : Prop :=
  match op with
  | OpCommand cmd p h => m = mkMessage (m_ID m) (Some cmd) None p h
  | OpResponse id p => m = mkMessage id None None p None
  | OpError id f => m = mkMessage id None f None None
  | _ => False
  end.

Lemma since_flush_step acc op ops : since_flush acc (op :: ops) = since_flush (since_flush acc [op]) ops.
Proof. by destruct op. Qed.

Lemma mq_step_describes acc op mq g :
  Forall2 describes acc (queue mq) ->
  Forall2 describes (since_flush acc [op]) (queue (mq_step op mq g).1.1).
Proof.
  intros Hacc. destruct op; simpl; unfold AllocateMessage, PushCommand;
    try destruct (SeqID mq g) as [g' id']; simpl; try done; try (apply Forall2_app; [done|]; repeat constructor).
Qed.

Lemma mq_run_describes ops : ∀ (acc : nat -> list mq_op) qs g i,
  (∀ i, Forall2 describes (acc i) (queue (qs i))) ->
  Forall2 describes (since_flush (acc i) (ops_on i ops)) (queue ((mq_run ops qs g).1.1 i)).
Proof.
  induction ops as [|[j op] ops IH]; intros acc qs g i Hacc; cbn [mq_run]; [apply Hacc|].
  destruct (mq_step op (qs j) g) as [[mq1 g1] ids1] eqn:Hstep.
  pose proof (mq_step_describes (acc j) op (qs j) g (Hacc j)) as Hd. rewrite Hstep in Hd. simpl in Hd.
  specialize (IH (<[j := since_flush (acc j) [op]]> acc) (<[j := mq1]> qs) g1 i).
  destruct (mq_run ops _ g1) as [[qs2 g2] ids2]. cbn [fst] in *.
  assert (Hi : since_flush (acc i) (ops_on i ((j, op) :: ops)) =
    since_flush ((<[j := since_flush (acc j) [op]]> acc : nat -> list mq_op) i) (ops_on i ops)).
  { unfold ops_on. simpl. destruct (decide (j = i)) as [->|Hne].
    - rewrite fn_lookup_insert. apply since_flush_step.
    - by rewrite fn_lookup_insert_ne. }
  rewrite Hi. apply IH. intros k. destruct (decide (j = k)) as [->|Hne].
  - by rewrite !fn_lookup_insert.
  - by rewrite !fn_lookup_insert_ne.
Qed.

End Queue.
Arguments MessageQueue {_} G.
Arguments mq_op {_}.

(** ** The counter of the workflow package *)

(** [atomic.AddUint64(&c, 1)]: the new value is stored and returned. *)
Definition counter_next (c : Z) : Z * Z := (u64 (c + 1), u64 (c + 1)).

Section Counter.
Context `{Sdk}.

Lemma mq_step_counter op mq c :
  SeqID mq = counter_next ->
  let '(mq', c', ids) := mq_step op mq c in
  SeqID mq' = counter_next ∧
  ids = drawn_ids c (if draws op then 1 else 0) ∧
  c' = (if draws op then u64 (c + 1) else c).
Proof.
  intros Hseq. destruct op; simpl; unfold AllocateMessage, PushCommand; rewrite ?Hseq; simpl;
    try done.
  by rewrite drop_app_length.
Qed.

Lemma mq_run_counter ops : ∀ qs c,
  (∀ i, SeqID (qs i) = counter_next) ->
  (mq_run ops qs c).2 = drawn_ids c (length (List.filter draws ops.*2)).
Proof.
  induction ops as [|[i op] ops IH]; intros qs c Hseq; [done|]. simpl.
  pose proof (mq_step_counter op (qs i) c (Hseq i)) as Hs.
  destruct (mq_step op (qs i) c) as [[mq1 c1] ids1]. destruct Hs as (Hs1 & -> & ->).
  specialize (IH (<[i := mq1]> qs) (if draws op then u64 (c + 1) else c)).
  destruct (mq_run ops _ _) as [[qs2 c2] ids2]; simpl in *. rewrite IH.
  - destruct (draws op); simpl; [by rewrite drawn_ids_S|done].
  - intros k. destruct (decide (i = k)) as [->|Hne];
      [by rewrite fn_lookup_insert|by rewrite fn_lookup_insert_ne].
Qed.

(** C11: refinement of the abstract outbox.  After any sequence of operations
    on new queues, the messages waiting in each queue are exactly the pushes made to it
    since its last flush, in push order, each carrying what was pushed; operations on
    other queues do not show. *)
Theorem queue_refines_outbox {G} (seq : G -> G * Z) (ops : list (nat * mq_op)) (g : G) (i : nat) :
  Forall2 describes (since_flush [] (ops_on i ops)) (Messages ((mq_run ops (λ _, NewMessageQueue seq) g).1.1 i)).
Proof. apply (mq_run_describes ops (λ _, [])). constructor. Qed.

(** C12: with the workflow package's 64-bit counter, shared by the queues of all
    workflow runs, the identifiers given to commands (pushed or allocated) are the
    successors of the counter's value, one per command and none for a response, an
    error or a flush; no identifier is given twice, across queues and flushes, as long
    as fewer than 2^64 commands are created. *)
Theorem command_ids_unique (ops : list (nat * mq_op)) (c : Z) :
  let ids := (mq_run ops (λ _, NewMessageQueue counter_next) c).2 in
  ids = drawn_ids c (length (List.filter draws ops.*2)) ∧
  ((Z.of_nat (length (List.filter draws ops.*2)) <= 2 ^ 64)%Z -> NoDup ids).
Proof.
  cbv zeta. rewrite mq_run_counter by done. split; [done|apply drawn_ids_NoDup].
Qed.

End Counter.
