(* ===== verification/Canceller.v ===== *)
(** * Canceller: cancellation callbacks by command id (src/canceller/canceller.go)

    The struct is a concurrent map from command ids to closures.  A closure that a
    caller registers is a value of the type [C]; what calling it does to the whole
    program state is the argument [run] of [Cancel]. *)
From S2P Require Import Prelude Api Doubles GoM.
From stdpp Require Import base gmap list strings.
From Stdlib Require Import ZArith Lia.

Section Canceller.
Context `{Api} {C : Type}.

Record Canceller := mkCanceller { canceller_ids : gmap Z C }.

(** [new(canceller.Canceller)]. *)
Definition new_Canceller : Canceller := mkCanceller ∅.

Definition Register (id : Z) (cancel : C) (c : Canceller) : Canceller :=
  mkCanceller (<[id := cancel]> (canceller_ids c)).

Definition Discard (id : Z) (c : Canceller) : Canceller :=
  mkCanceller (delete id (canceller_ids c)).

Section Cancel.
Context {S : Type} `{Field S Canceller} (run : C -> GoM S (result unit)).

(** [LoadAndDelete] is one atomic step: the entry is gone before the closure is
    called.  The first error ends the loop. *)
Fixpoint Canceller_Cancel (ids : list Z) : GoM S (result unit) :=
  match ids with
  | [] => mret (OK tt)
  | id :: rest =>
      c ← gets getf;
      match canceller_ids c !! id with
      | None => Canceller_Cancel rest
      | Some cancel =>
          _ ← update (Discard id);
          _ ←? run cancel;
          Canceller_Cancel rest
      end
  end.

End Cancel.
End Canceller.
Arguments Canceller : clear implicits.

(** ** Properties against the interface *)

(** [shrinks s s']: no registration was added or replaced on the way to [s']. *)
Definition shrinks {S C} `{Field S (Canceller C)} (s s' : S) : Prop :=
  canceller_ids (getf s') ⊆ canceller_ids (getf s).

#[global] Instance shrinks_preorder {S C} `{Field S (Canceller C)} : PreOrder shrinks.
Proof.
  split; [intros s; unfold shrinks; reflexivity|].
  intros s1 s2 s3 H1 H2. unfold shrinks in *. by transitivity (canceller_ids (getf s2)).
Qed.

Section CancelLaws.
Context `{Api} {C S : Type} `{FL : FieldLaws S (Canceller C)}.
Context (run : C -> GoM S (result unit)) (Hrun : ∀ c, always shrinks (run c)).

Lemma shrinks_Discard id (s : S) : shrinks s (setf (Discard id (getf s)) s).
Proof. unfold shrinks. rewrite get_set. simpl. apply delete_subseteq. Qed.

Lemma shrinks_None id (s s' : S) :
  shrinks s s' -> canceller_ids (getf s) !! id = None -> canceller_ids (getf s') !! id = None.
Proof. intros Hs Hn. by eapply lookup_weaken_None. Qed.

Lemma Canceller_Cancel_shrinks ids : always shrinks (Canceller_Cancel run ids).
Proof.
  induction ids as [|id ids IH]; simpl; [auto with go typeclass_instances|].
  apply always_bind; [apply _|auto with go typeclass_instances|]. intros c.
  destruct (_ !! id); [|done].
  apply always_bind; [apply _|apply always_update, shrinks_Discard|]. intros _.
  apply always_rbind; [apply _|apply Hrun|done].
Qed.

Lemma Canceller_Cancel_OK_gone ids : ∀ s s',
  Canceller_Cancel run ids s = (s', Ret (OK tt)) ->
  ∀ id, id ∈ ids -> canceller_ids (getf s') !! id = None.
Proof.
  induction ids as [|i ids IH]; intros s s' Hc id Hin; [by apply elem_of_nil in Hin|].
  simpl in Hc. unfold mbind, GoM_bind, gets, after in Hc; simpl in Hc.
  assert (∀ s1, Canceller_Cancel run ids s1 = (s', Ret (OK tt)) ->
    canceller_ids (getf s1) !! i = None -> canceller_ids (getf s') !! id = None) as Hstep.
  { intros s1 H1 Hi. apply elem_of_cons in Hin as [->|Hin]; [|by eapply IH].
    pose proof (Canceller_Cancel_shrinks ids s1) as Hsh. rewrite H1 in Hsh.
    by eapply shrinks_None. }
  destruct (canceller_ids (getf s) !! i) as [c|] eqn:Hi; [|by eapply Hstep].
  unfold update, modify in Hc; simpl in Hc. unfold rbind, mbind, GoM_bind, after in Hc.
  pose proof (Hrun c (setf (Discard i (getf s)) s)) as Hr.
  destruct (run c _) as [s1 [[[]|e]|v|m| |]] eqn:Hrc; simpl in *; simplify_eq.
  eapply Hstep; [done|]. eapply shrinks_None; [exact Hr|].
  rewrite get_set. simpl. apply lookup_delete_eq.
Qed.

End CancelLaws.

(** ** Order, short-circuit and at-most-once

    To observe the calls, the closures only record themselves in a log and return
    the error an oracle assigns to them. *)

Section CancelLog.
Context `{Api} {C : Type} (oracle : C -> option error).

Definition log_run (c : C) : GoM (Canceller C * list C) (result unit) := λ s,
  ((s.1, s.2 ++ [c]), Ret (match oracle c with Some e => Err e | None => OK tt end)).

(** The closures registered for the ids of a request, in request order, an id that
    occurs twice being looked up once. *)
Fixpoint targets (m : gmap Z C) (ids : list Z) : list C :=
  match ids with
  | [] => []
  | id :: rest =>
      match m !! id with
      | Some c => c :: targets (delete id m) rest
      | None => targets m rest
      end
  end.

(** C24: a cancellation request calls the registered closures in the order of
    the request, each at most once, up to and including the first one that fails.
    If none fails the request succeeds, all of them ran and none of the requested
    ids is registered any more; if one fails its error is returned and it was the
    last one to run.  Ids that are not registered are skipped. *)
Theorem cancel_in_order (ids : list Z) (m : gmap Z C) (log : list C) :
  ∃ ran m' r,
    Canceller_Cancel log_run ids (mkCanceller m, log) = ((mkCanceller m', log ++ ran), Ret r) ∧
    ran `prefix_of` targets m ids ∧
    m' ⊆ m ∧ (∀ id, id ∉ ids -> m' !! id = m !! id) ∧
    match r with
    | OK _ => ran = targets m ids ∧ Forall (λ c, oracle c = None) ran ∧
              (∀ id, id ∈ ids -> m' !! id = None)
    | Err e => ∃ before c, ran = before ++ [c] ∧ oracle c = Some e ∧
                 Forall (λ c, oracle c = None) before
    end.
Proof.
  revert m log. induction ids as [|i ids IH]; intros m log.
  { exists [], m, (OK tt). rewrite app_nil_r. split_and!; try done; set_solver. }
  simpl. unfold mbind, GoM_bind, gets, after; simpl.
  destruct (m !! i) as [c|] eqn:Hi.
  - unfold update, modify, rbind, mbind, GoM_bind, after, Discard; simpl.
    destruct (oracle c) as [e|] eqn:Ho; simpl.
    { exists [c], (delete i m), (Err e). repeat split.
      - apply prefix_cons, prefix_nil.
      - apply delete_subseteq.
      - intros id Hid. apply lookup_delete_ne. set_solver.
      - by exists [], c. }
    destruct (IH (delete i m) (log ++ [c])) as (ran & m' & r & Heq & Hpre & Hsub & Hout & Hr).
    exists (c :: ran), m', r. rewrite Heq, <- app_assoc. repeat split.
    + by apply prefix_cons.
    + transitivity (delete i m); [done|apply delete_subseteq].
    + intros id Hid. rewrite Hout, lookup_delete_ne by set_solver. done.
    + destruct r as [u|e]; [destruct Hr as (-> & Hall & Hgone)|destruct Hr as (bf & c' & -> & Ho' & Hall)].
      * repeat split; [by constructor|]. intros id [->|Hin]%elem_of_cons; [|by apply Hgone].
        eapply lookup_weaken_None; [|exact Hsub]. apply lookup_delete_eq.
      * exists (c :: bf), c'. repeat split; [done|by constructor].
  - destruct (IH m log) as (ran & m' & r & Heq & Hpre & Hsub & Hout & Hr).
    exists ran, m', r. rewrite Heq. repeat split; try done.
    + intros id Hid. apply Hout. set_solver.
    + destruct r as [u|e]; [|done]. destruct Hr as (-> & Hall & Hgone). repeat split; try done.
      intros id [->|Hin]%elem_of_cons; [|by apply Hgone]. by eapply lookup_weaken_None.
Qed.

End CancelLog.
