(* ===== verification/Registry.v ===== *)
(** * Registry: executions of child workflows (src/registry/registry.go)

    [IDRegistry] is a rendezvous: [Push] publishes the execution of a child
    workflow (or the error of starting it) under the id of the command that started
    it, [Listen] subscribes to that id, and whichever comes second calls the
    listener.  Two views are modelled: the methods as the workflow goroutine runs
    them, with the mutex that is held around the listener; and every interleaving of
    the individual map operations of concurrent calls. *)
From S2P Require Import Prelude Api Doubles GoM.
From stdpp Require Import base gmap list strings relations.
From Stdlib Require Import ZArith Lia.

#[local] Set Warnings "-clear-no-such-hyp".

Section Registry.
Context `{Api} {L : Type}.

Record entry := mkEntry { entry_w : WorkflowExecution; entry_err : option error }.

(** [L] is the type of listeners; [registry_locked] is the embedded mutex. *)
Record IDRegistry := mkIDRegistry {
  registry_locked : bool;
  registry_ids : gmap Z entry;
  registry_listeners : gmap Z L;
}.

(** [new(registry.IDRegistry)]. *)
Definition new_IDRegistry : IDRegistry := mkIDRegistry false ∅ ∅.

Definition store_id (id : Z) (e : entry) (c : IDRegistry) : IDRegistry :=
  mkIDRegistry (registry_locked c) (<[id := e]> (registry_ids c)) (registry_listeners c).

Definition store_listener (id : Z) (cl : L) (c : IDRegistry) : IDRegistry :=
  mkIDRegistry (registry_locked c) (registry_ids c) (<[id := cl]> (registry_listeners c)).

Definition set_locked (b : bool) (c : IDRegistry) : IDRegistry :=
  mkIDRegistry b (registry_ids c) (registry_listeners c).

Section Methods.
Context {S : Type} `{Field S IDRegistry}.
Context (call : L -> WorkflowExecution -> option error -> GoM S unit).

Definition registry_Lock : GoM S unit :=
  c ← gets getf;
  if registry_locked c then blocked else update (set_locked true).

Definition registry_Unlock : GoM S unit :=
  c ← gets getf;
  if registry_locked c then update (set_locked false)
  else fatal "sync: unlock of unlocked mutex".

(** The mutex is released by a plain call, so a listener that panics keeps it. *)
Definition Listen (id : Z) (cl : L) : GoM S unit :=
  _ ← update (store_listener id cl);
  c ← gets getf;
  match registry_ids c !! id with
  | Some e => _ ← registry_Lock; _ ← call cl (entry_w e) (entry_err e); registry_Unlock
  | None => mret tt
  end.

Definition Push (id : Z) (w : WorkflowExecution) (err : option error) : GoM S unit :=
  _ ← update (store_id id (mkEntry w err));
  c ← gets getf;
  match registry_listeners c !! id with
  | Some list => _ ← registry_Lock; _ ← call list w err; registry_Unlock
  | None => mret tt
  end.

End Methods.
End Registry.
Arguments IDRegistry {_} L.

(** ** The rendezvous, sequentially *)

Section Sequential.
Context `{Api} {L : Type}.

(** A listener that records the call it receives. *)
Definition record_call (cl : L) (w : WorkflowExecution) (err : option error)
    : GoM (IDRegistry L * list (L * entry)) unit :=
  λ s, ((s.1, s.2 ++ [(cl, mkEntry w err)]), Ret tt).

(** On a registry whose mutex is free, subscribing and then
    publishing, and publishing and then subscribing, both return with the mutex free
    and leave the same registry; both call the listener exactly once, with the
    published execution and error, when nothing was published or subscribed under
    that id before. *)
Theorem rendezvous_commutes (id : Z) (cl : L) (w : WorkflowExecution) (err : option error)
    (c : IDRegistry L) (log : list (L * entry)) :
  registry_locked c = false -> registry_ids c !! id = None -> registry_listeners c !! id = None ->
  let listen_push := _ ← Listen record_call id cl; Push record_call id w err in
  let push_listen := _ ← Push record_call id w err; Listen record_call id cl in
  listen_push (c, log) = push_listen (c, log) ∧
  listen_push (c, log) =
    ((mkIDRegistry false (<[id := mkEntry w err]> (registry_ids c))
        (<[id := cl]> (registry_listeners c)),
      log ++ [(cl, mkEntry w err)]), Ret tt).
Proof.
  intros Hl Hi Hs. cbv zeta.
  unfold Listen, Push, registry_Lock, registry_Unlock, update.
  go_unfold. rewrite Hi, Hs. go_unfold. rewrite !lookup_insert_eq. go_unfold.
  rewrite Hl. go_unfold. done.
Qed.

End Sequential.

(** ** The rendezvous, under every interleaving *)

Section Interleaving.
Context `{Api} {L : Type}.

(** Program counters: before the store, before the load, before the call of the
    listener with what the load found, and finished.  The call is one step: the
    mutex excludes other calls for its duration. *)
Inductive thread : Type :=
| ListenStart (id : Z) (cl : L)
| ListenStored (id : Z) (cl : L)
| ListenCall (id : Z) (cl : L) (e : entry)
| PushStart (id : Z) (e : entry)
| PushStored (id : Z) (e : entry)
| PushCall (id : Z) (e : entry) (cl : L)
| Done.

#[global] Instance done_dec (t : thread) : Decision (t = Done).
Proof. destruct t; (by left) || (by right). Defined.

Record machine := mkMachine {
  ids : gmap Z entry;
  listeners : gmap Z L;
  delivered : list (Z * L * entry);
  threads : list thread;
}.

Inductive thread_step : machine -> thread -> machine -> thread -> Prop :=
| step_listen_store i l d ts id cl :
    thread_step (mkMachine i l d ts) (ListenStart id cl)
                (mkMachine i (<[id := cl]> l) d ts) (ListenStored id cl)
| step_listen_found i l d ts id cl e :
    i !! id = Some e ->
    thread_step (mkMachine i l d ts) (ListenStored id cl)
                (mkMachine i l d ts) (ListenCall id cl e)
| step_listen_absent i l d ts id cl :
    i !! id = None ->
    thread_step (mkMachine i l d ts) (ListenStored id cl) (mkMachine i l d ts) Done
| step_listen_call i l d ts id cl e :
    thread_step (mkMachine i l d ts) (ListenCall id cl e)
                (mkMachine i l (d ++ [(id, cl, e)]) ts) Done
| step_push_store i l d ts id e :
    thread_step (mkMachine i l d ts) (PushStart id e)
                (mkMachine (<[id := e]> i) l d ts) (PushStored id e)
| step_push_found i l d ts id e cl :
    l !! id = Some cl ->
    thread_step (mkMachine i l d ts) (PushStored id e)
                (mkMachine i l d ts) (PushCall id e cl)
| step_push_absent i l d ts id e :
    l !! id = None ->
    thread_step (mkMachine i l d ts) (PushStored id e) (mkMachine i l d ts) Done
| step_push_call i l d ts id e cl :
    thread_step (mkMachine i l d ts) (PushCall id e cl)
                (mkMachine i l (d ++ [(id, cl, e)]) ts) Done.

(** Any thread takes its next step. *)
Inductive machine_step : machine -> machine -> Prop :=
| interleave m k t m' t' :
    threads m !! k = Some t ->
    thread_step m t m' t' ->
    machine_step m (mkMachine (ids m') (listeners m') (delivered m') (<[k := t']> (threads m))).

(** A fresh registry on which the given calls are about to run. *)
Definition calls_start (t : thread) : Prop :=
  match t with ListenStart _ _ | PushStart _ _ => True | _ => False end.

Definition initial (ts : list thread) : machine := mkMachine ∅ ∅ [] ts.

(** A thread owes a call to the listener [cl] of [id] when its remaining steps can
    lead to one: it subscribed and has not looked yet, it published and has not
    looked yet, or it found something and is about to call. *)
Definition owes (id : Z) (cl : L) (t : thread) : Prop :=
  match t with
  | ListenStored i c | ListenCall i c _ | PushCall i _ c => i = id ∧ c = cl
  | PushStored i _ => i = id
  | _ => False
  end.

(** The listener [cl] of [id] is served: nothing has been published yet, or some
    thread owes it a call, or it has been called. *)
Definition served (m : machine) (id : Z) (cl : L) : Prop :=
  ids m !! id = None ∨
  (∃ t, t ∈ threads m ∧ owes id cl t) ∨
  (∃ e, (id, cl, e) ∈ delivered m).

Definition served_inv (m : machine) : Prop :=
  ∀ id cl, listeners m !! id = Some cl -> served m id cl.

Lemma elem_of_insert_keep {A} (l : list A) k x y z :
  l !! k = Some x -> z ∈ l -> z = x ∨ z ∈ <[k := y]> l.
Proof.
  intros Hk Hz. apply list_elem_of_lookup in Hz as [j Hj].
  destruct (decide (k = j)) as [->|Hne]; [left; congruence|right].
  apply list_elem_of_lookup. exists j. by rewrite list_lookup_insert_ne.
Qed.

Lemma elem_of_insert_new {A} (l : list A) k x y : l !! k = Some x -> y ∈ <[k := y]> l.
Proof.
  intros Hk. apply list_elem_of_lookup. exists k.
  apply list_lookup_insert_eq. by eapply lookup_lt_Some.
Qed.

(** What one step does for the current listener of an id. *)
Lemma thread_step_serves m t m' t' id cl :
  thread_step m t m' t' -> listeners m' !! id = Some cl ->
  (∀ d, d ∈ delivered m -> d ∈ delivered m') ∧
  (listeners m !! id = Some cl ∨ owes id cl t') ∧
  (ids m !! id = None -> ids m' !! id = None ∨ owes id cl t') ∧
  (owes id cl t -> ids m' !! id = None ∨ owes id cl t' ∨ ∃ e, (id, cl, e) ∈ delivered m').
Proof.
  intros Ht Hl. destruct Ht; simpl in *.
  all: split_and!.
  all: try (intros d' Hd'; rewrite ?elem_of_app; by auto).
  all: try (destruct (decide (id0 = id)) as [->|Hne];
            rewrite ?lookup_insert_eq, ?lookup_insert_ne in * by done; naive_solver).
  all: intros [-> ->]; right; right; eexists; apply elem_of_app; right; by apply list_elem_of_singleton.
Qed.

Lemma served_preserved m m' : machine_step m m' -> served_inv m -> served_inv m'.
Proof.
  intros Hstep Hinv id cl Hl. destruct Hstep as [m k t m1 t' Hk Ht]. simpl in Hl.
  destruct (thread_step_serves m t m1 t' id cl Ht Hl) as (Hd & Hl' & Hi & Ho).
  assert (owes id cl t' -> ∃ u, u ∈ <[k := t']> (threads m) ∧ owes id cl u) as Hnew
    by (exists t'; split; [by eapply elem_of_insert_new|done]).
  unfold served; simpl. destruct Hl' as [Hl'|?]; [|by auto].
  destruct (Hinv id cl Hl') as [Hn|[(u & Hu & Huo)|[e He]]].
  - naive_solver.
  - destruct (elem_of_insert_keep _ k t t' u Hk Hu) as [->|Hu']; naive_solver.
  - right; right. exists e. by apply Hd.
Qed.

Lemma served_reachable ts m : rtc machine_step (initial ts) m -> served_inv m.
Proof.
  intros Hr. assert (served_inv (initial ts)) as Hi
    by (intros id cl Hl; simpl in Hl; by rewrite lookup_empty in Hl).
  induction Hr as [|x y z Hxy Hyz IH]; [done|]. by eapply IH, served_preserved.
Qed.

(** Progress: a thread that is not finished can always take its next step. *)
Lemma thread_progress m t : t ≠ Done -> ∃ m' t', thread_step m t m' t'.
Proof.
  intros Ht. destruct m as [i l d ts], t as [id cl|id cl|id cl e|id e|id e|id e cl|]; try done.
  2: destruct (i !! id) as [e|] eqn:Hi.
  6: destruct (l !! id) as [cl|] eqn:Hl.
  all: eauto using thread_step.
Qed.

(** C25: no listener is lost, whatever the interleaving of concurrent calls
    of [Listen] and [Push] on a fresh registry.  When all calls have finished, the
    listener registered last for an id has been called if anything was published
    under that id.  And calls do finish: as long as one has not, some step is
    possible. *)
Theorem listener_never_lost (ts : list thread) (m : machine) :
  Forall calls_start ts -> rtc machine_step (initial ts) m ->
  (Forall (λ t, t = Done) (threads m) ->
   ∀ id cl e, listeners m !! id = Some cl -> ids m !! id = Some e ->
   ∃ e', (id, cl, e') ∈ delivered m) ∧
  (Forall (λ t, t = Done) (threads m) ∨ ∃ m', machine_step m m').
Proof.
  intros Hts Hr. split.
  - intros Hdone id cl e Hl Hi.
    destruct (served_reachable ts m Hr id cl Hl) as [Hn|[(t & Ht & Ho)|He]]; [congruence| |done].
    rewrite Forall_forall in Hdone. by rewrite (Hdone t Ht) in Ho.
  - destruct (decide (Exists (λ t, t ≠ Done) (threads m))) as [Hex|Hno].
    + right. apply Exists_exists in Hex as (t & Hin & Hnd).
      apply list_elem_of_lookup in Hin as [k Hk].
      destruct (thread_progress m t Hnd) as (m' & t' & Hs). eexists. by econstructor.
    + left. apply not_Exists_Forall in Hno; [|intros t; apply _].
      eapply Forall_impl; [exact Hno|]. intros t Ht. by apply dec_stable in Ht.
Qed.

End Interleaving.

(** ** Witnesses *)

#[local] Existing Instance ConcreteApi.

Definition example_entry : entry := mkEntry (mkWorkflowExecution "child" "run") None.

Lemma rendezvous_commutes_witness :
  let c := new_IDRegistry (L := Z) in
  (_ ← Listen record_call 5 7%Z; Push record_call 5 (entry_w example_entry) None) (c, []) =
  ((mkIDRegistry false {[5%Z := example_entry]} {[5%Z := 7%Z]}, [(7%Z, example_entry)]), Ret tt).
Proof. exact (proj2 (rendezvous_commutes 5 7%Z (entry_w example_entry) None new_IDRegistry [] eq_refl eq_refl eq_refl)). Defined.

(** Subscribe, publish; the publisher looks first. *)
Definition example_calls : list (thread (L := Z)) := [ListenStart 1 7%Z; PushStart 1 example_entry].

Definition example_final : machine (L := Z) :=
  mkMachine {[1%Z := example_entry]} {[1%Z := 7%Z]}
    [(1%Z, 7%Z, example_entry); (1%Z, 7%Z, example_entry)] [Done; Done].

(** One scheduling decision: the step of thread [k] is determined. *)
Ltac schedule k :=
  eapply rtc_l; [eapply (interleave _ k); [reflexivity|econstructor; reflexivity]|]; simpl.

Lemma example_run : rtc machine_step (initial example_calls) example_final.
Proof.
  schedule 0. schedule 1. schedule 1. schedule 0. schedule 0. schedule 1. apply rtc_refl.
Qed.

Lemma listener_never_lost_witness :
  ∃ e', (1%Z, 7%Z, e') ∈ delivered example_final.
Proof.
  apply (proj1 (listener_never_lost example_calls example_final
    ltac:(repeat constructor) example_run) ltac:(repeat constructor) 1%Z 7%Z example_entry);
    reflexivity.
Defined.
