(* ===== verification/Converter.v ===== *)
(** * Converter: payload pass-through and header propagation
    (src/data_converter/converter.go, src/common/context.go,
    src/aggregatedpool/interceptor.go)

    The plugin's data converter wraps the SDK's one.  Its purpose is to let already
    encoded payloads through unchanged in both directions.  The wrapped converter is
    a parameter.  Decoding writes through Go pointers, so it acts on a store: the
    cells that hold a [*commonpb.Payloads], and everything else. *)
From S2P Require Import Prelude Api Doubles GoM.
From stdpp Require Import base gmap list strings.
From Stdlib Require Import ZArith Lia.

Section Converter.
(** [V]: Go values other than [*commonpb.Payloads]; [P]: pointers other than
    [**commonpb.Payloads]; [O]: the memory those pointers point into. *)
Context `{Api} {V P O : Type}.

(** The dynamic type of an [any] value that the type assertion distinguishes. *)
Inductive any_value : Type :=
| AnyPayloads (p : option Payloads)
| AnyOther (v : V).

Inductive any_ptr : Type :=
| PtrPayloads (loc : Z)
| PtrOther (p : P).

Record store := mkStore { cells : gmap Z (option Payloads); others : O }.

(** The interface [converter.DataConverter], as far as the sources use it. *)
Record converter := mkConverter {
  conv_ToPayloads : list any_value -> result (option Payloads);
  conv_ToPayload : any_value -> result (option Payload);
  conv_FromPayload : Payload -> any_ptr -> GoM store (result unit);
  conv_ToString : Payload -> string;
  conv_ToStrings : option Payloads -> list string;
}.

Record DataConverter := mkDataConverter { dc : converter }.

Definition NewDataConverter (fallback : converter) : DataConverter := {| dc := fallback |}.

(** The first aggregated value wins; the loop returns it as it is. *)
Fixpoint first_aggregated (values : list any_value) : option (option Payloads) :=
  match values with
  | [] => None
  | AnyPayloads p :: _ => Some p
  | AnyOther _ :: values => first_aggregated values
  end.

Definition ToPayloads (r : DataConverter) (values : list any_value) : result (option Payloads) :=
  match first_aggregated values with
  | Some aggregated => OK aggregated
  | None => conv_ToPayloads (dc r) values
  end.

Definition ToPayload (r : DataConverter) (value : any_value) : result (option Payload) :=
  conv_ToPayload (dc r) value.

Definition FromPayload (r : DataConverter) (p : Payload) (ptr : any_ptr) : GoM store (result unit) :=
  conv_FromPayload (dc r) p ptr.

(** [for i := 0; i < len(payloads.Payloads); i++] with [valuePtrs[i]]: indexing past
    the pointers is a run-time panic. *)
Fixpoint from_payloads_loop (r : DataConverter) (ps : list Payload) (i : nat)
    (ptrs : list any_ptr) : GoM store (result unit) :=
  match ps with
  | [] => mret (OK tt)
  | p :: ps =>
      match ptrs !! i with
      | Some ptr => _ ←? FromPayload r p ptr; from_payloads_loop r ps (S i) ptrs
      | None => panic (RuntimeError "index out of range")
      end
  end.

Definition write_cell (loc : Z) (v : option Payloads) (s : store) : store :=
  mkStore (<[loc := v]> (cells s)) (others s).

Definition FromPayloads (r : DataConverter) (payloads : option Payloads) (ptrs : list any_ptr)
    : GoM store (result unit) :=
  match payloads with
  | None => mret (OK tt)
  | Some p =>
      match ptrs with
      | [PtrPayloads loc] =>
          _ ← modify (write_cell loc (Some (mkPayloads (Payloads_Payloads p))));
          mret (OK tt)
      | _ => from_payloads_loop r (Payloads_Payloads p) 0 ptrs
      end
  end.

Definition ToString (r : DataConverter) (input : Payload) : string := conv_ToString (dc r) input.

Definition ToStrings (r : DataConverter) (input : option Payloads) : list string :=
  conv_ToStrings (dc r) input.

(** ** Properties *)

(** Encoded payloads travel through the converter unchanged.  As soon
    as one of the values to encode is already encoded, the first such value is the
    result and the wrapped converter is not consulted; decoding into a pointer to
    payloads stores those payloads in the pointed cell and nothing else, a nil
    result leaving the cell as it was. *)
Theorem payloads_pass_through (r : DataConverter) (before after_ : list any_value)
    (p : option Payloads) (loc : Z) (s : store) :
  first_aggregated before = None ->
  ToPayloads r (before ++ AnyPayloads p :: after_) = OK p ∧
  FromPayloads r p [PtrPayloads loc] s =
    (match p with Some _ => mkStore (<[loc := p]> (cells s)) (others s) | None => s end,
     Ret (OK tt)).
Proof.
  intros Hb. split.
  - unfold ToPayloads.
    assert (first_aggregated (before ++ AnyPayloads p :: after_) = Some p) as ->; [|done].
    induction before as [|[q|v] before IH]; [done|done|]. simpl in *. auto.
  - by destruct p as [[ps]|].
Qed.

(** Decoding value by value, as long as there are pointers left. *)
Fixpoint decode_each (r : DataConverter) (ps : list Payload) (ptrs : list any_ptr)
    : GoM store (result unit) :=
  match ps, ptrs with
  | p :: ps, ptr :: ptrs => _ ←? FromPayload r p ptr; decode_each r ps ptrs
  | _, _ => mret (OK tt)
  end.

Lemma from_payloads_loop_each r ps : ∀ done_ ptrs,
  length ps <= length ptrs ->
  from_payloads_loop r ps (length done_) (done_ ++ ptrs) = decode_each r ps ptrs.
Proof.
  induction ps as [|p ps IH]; intros done_ ptrs Hlen; [done|].
  destruct ptrs as [|ptr ptrs]; simpl in *; [lia|].
  rewrite lookup_app_r, Nat.sub_diag by done; simpl.
  specialize (IH (done_ ++ [ptr]) ptrs ltac:(lia)).
  rewrite length_app, <- app_assoc in IH; simpl in IH. rewrite Nat.add_1_r in IH.
  by rewrite IH.
Qed.

Lemma decode_each_app r ps ps' ptrs s :
  length ps = length ptrs ->
  from_payloads_loop r (ps ++ ps') 0 ptrs s =
  rbind (decode_each r ps ptrs) (λ _, from_payloads_loop r ps' (length ptrs) ptrs) s.
Proof.
  intros Hlen. change ptrs with ([] ++ ptrs) at 1 3.
  change 0 with (length (A := any_ptr) []) at 1.
  assert (∀ pre, from_payloads_loop r (ps ++ ps') (length pre) (pre ++ ptrs) s =
    rbind (decode_each r ps ptrs)
      (λ _, from_payloads_loop r ps' (length pre + length ptrs) (pre ++ ptrs)) s) as Hgen;
    [|by apply Hgen].
  clear -Hlen. revert ptrs s Hlen.
  induction ps as [|p ps IH]; intros [|ptr ptrs] s Hlen pre; simpl in *; try lia.
  - by rewrite Nat.add_0_r.
  - rewrite lookup_app_r, Nat.sub_diag by done; simpl.
    unfold rbind at 1 2 3, mbind, GoM_bind, after.
    destruct (FromPayload r p ptr s) as [s1 [[u|e]|v|m| |]]; simpl; try done.
    specialize (IH ptrs s1 ltac:(lia) (pre ++ [ptr])).
    rewrite length_app, <- app_assoc in IH. simpl in IH.
    rewrite Nat.add_1_r in IH. rewrite IH. unfold rbind, mbind, GoM_bind, after.
    by replace (length pre + S (length ptrs)) with (S (length pre) + length ptrs) by lia.
Qed.

(** Decoding into separate pointers (not the single pass-through pointer)
    decodes payload by payload in order when there are enough pointers, stopping at
    the first error; with more payloads than pointers, and the payloads that have a
    pointer decoding without error, the call panics with an index out of range after
    having stored the decoded values. *)
Theorem FromPayloads_arity (r : DataConverter) (ps : list Payload) (ptrs : list any_ptr) (s : store) :
  (∀ loc, ptrs ≠ [PtrPayloads loc]) ->
  FromPayloads r (Some (mkPayloads ps)) ptrs s =
    if decide (length ps <= length ptrs) then decode_each r ps ptrs s
    else rbind (decode_each r (take (length ptrs) ps) ptrs)
           (λ _, panic (RuntimeError "index out of range")) s.
Proof.
  intros Hp. unfold FromPayloads; simpl.
  assert (∀ (m : GoM store (result unit)), match ptrs with
    | [PtrPayloads loc] => (_ ← modify (write_cell loc (Some (mkPayloads ps))); mret (OK tt))
    | _ => m end = m) as ->.
  { intros m. destruct ptrs as [|[loc|q] [|? ?]]; try done. by destruct (Hp loc). }
  case_decide as Hlen.
  - by rewrite <- (from_payloads_loop_each r ps [] ptrs Hlen).
  - rewrite <- (take_drop (length ptrs) ps) at 1. rewrite decode_each_app by (rewrite length_take; lia).
    destruct (drop (length ptrs) ps) as [|p ps'] eqn:Hd.
    + apply (f_equal length) in Hd. rewrite length_drop in Hd. simpl in Hd. lia.
    + simpl. by rewrite (lookup_ge_None_2 ptrs (length ptrs)) by done.
Qed.

End Converter.
Arguments any_value {_} V.
Arguments any_ptr P : clear implicits.
Arguments store {_} O.
Arguments converter {_} V P O.
Arguments DataConverter {_} V P O.

(** ** Header propagation *)

Section Headers.
Context `{Api}.

(** Keys of a [context.Context]: the address of [HeaderContextKey] or another one. *)
Inductive ctx_key : Type :=
| HeaderContextKey
| OtherKey (name : string).

Inductive ctx_value : Type :=
| CtxHeaders (m : gmap string Payload)
| CtxOther.

#[global] Instance ctx_key_eq_dec : EqDecision ctx_key.
Proof. solve_decision. Defined.

(** A context is the chain of its [WithValue] bindings, innermost first. *)
Definition context : Type := list (ctx_key * ctx_value).

Definition WithValue (ctx : context) (k : ctx_key) (v : ctx_value) : context := (k, v) :: ctx.

Fixpoint ctx_Value (ctx : context) (k : ctx_key) : option ctx_value :=
  match ctx with
  | [] => None
  | (k', v) :: ctx => if decide (k = k') then Some v else ctx_Value ctx k
  end.

Definition ActivityHeadersFromCtx (ctx : context) : option Header :=
  match ctx_Value ctx HeaderContextKey with
  | None => None
  | Some (CtxHeaders val) => if decide (size val = 0) then None else Some (mkHeader val)
  | Some CtxOther => None
  end.

(** [activityInboundInterceptor.ExecuteActivity]: the context handed to the next
    interceptor; [hdr] is what the SDK's [interceptor.Header(ctx)] returns. *)
Definition intercept_ExecuteActivity (hdr : context -> gmap string Payload) (ctx : context) : context :=
  WithValue ctx HeaderContextKey (CtxHeaders (hdr ctx)).

(** An interceptor chain of the SDK: its inbound side executes activities with an
    input [In] and a result [A]; its outbound side is the SDK's own, of type [O], below
    any number of wrappers that forward every call. *)
Inductive ActivityOutbound (O : Type) : Type :=
| SdkOutbound (o : O)
| activityOutboundInterceptor (Next : ActivityOutbound O).
Arguments SdkOutbound {_} o.
Arguments activityOutboundInterceptor {_} Next.

Record ActivityInbound {O In A : Type} := mkActivityInbound {
  inbound_Init : ActivityOutbound O -> result unit;
  inbound_ExecuteActivity : context -> In -> A;
}.
Arguments ActivityInbound : clear implicits.

(** [workerInterceptor.InterceptActivity]: an [activityInboundInterceptor] in front of
    [next]. *)
Definition InterceptActivity {O In A} (hdr : context -> gmap string Payload)
    (next : ActivityInbound O In A) : ActivityInbound O In A :=
  {| inbound_Init := λ outbound, inbound_Init next (activityOutboundInterceptor outbound);
     inbound_ExecuteActivity := λ ctx input,
       inbound_ExecuteActivity next (intercept_ExecuteActivity hdr ctx) input |}.

(** Inside an intercepted activity the headers attached to the worker
    message are those of the activity task, an empty header set being sent as no
    header at all; bindings added to the context under other keys do not hide them. *)
Theorem intercepted_headers (hdr : context -> gmap string Payload) (ctx inner : context) :
  Forall (λ kv, kv.1 ≠ HeaderContextKey) inner ->
  ActivityHeadersFromCtx (inner ++ intercept_ExecuteActivity hdr ctx) =
    if decide (hdr ctx = ∅) then None else Some (mkHeader (hdr ctx)).
Proof.
  intros Hin. unfold ActivityHeadersFromCtx, intercept_ExecuteActivity, WithValue.
  assert (ctx_Value (inner ++ (HeaderContextKey, CtxHeaders (hdr ctx)) :: ctx) HeaderContextKey
          = Some (CtxHeaders (hdr ctx))) as ->.
  { induction Hin as [|[k v] inner Hk Hin IH]; simpl in *; [done|]. by rewrite decide_False. }
  destruct (decide (hdr ctx = ∅)) as [->|Hne]; [done|].
  rewrite decide_False; [done|]. by rewrite map_size_empty_iff.
Qed.

(** What an activity sees behind the plugin's interceptor: [next] adds its own bindings
    to the context before it calls the activity's function, which then sends the
    headers of the task. *)
Lemma intercepted_activity {O In} (hdr : context -> gmap string Payload) (ctx inner : context)
    (init : ActivityOutbound O -> result unit) (input : In) :
  Forall (λ kv, kv.1 ≠ HeaderContextKey) inner ->
  inbound_ExecuteActivity
    (InterceptActivity hdr (mkActivityInbound O In _ init (λ ctx _, ActivityHeadersFromCtx (inner ++ ctx)))) ctx input =
    if decide (hdr ctx = ∅) then None else Some (mkHeader (hdr ctx)).
Proof. apply intercepted_headers. Qed.

End Headers.

(** ** Witnesses *)

#[local] Existing Instance ConcreteApi.

(** A wrapped converter over integers: an integer is encoded as its sign, decoding
    appends to the memory unless the payload is empty. *)
Definition ConcreteConverter : converter Z unit (list string) := {|
  conv_ToPayloads := λ vs, OK (Some (mkPayloads []));
  conv_ToPayload := λ v, OK (Some "scalar"%string);
  conv_FromPayload := λ p ptr s,
    if String.eqb p "" then (s, Ret (Err (ErrStr "empty payload")))
    else (mkStore (cells s) (others s ++ [p]), Ret (OK tt));
  conv_ToString := λ p, p;
  conv_ToStrings := λ ps, GetPayloads ps;
|}.

Lemma payloads_pass_through_witness :
  let r := NewDataConverter ConcreteConverter in
  let p := Some (mkPayloads ["a"%string]) in
  ToPayloads r [AnyOther 1%Z; AnyPayloads p; AnyOther 2%Z] = OK p ∧
  FromPayloads r p [PtrPayloads 9] (mkStore ∅ []) = (mkStore {[9%Z := p]} [], Ret (OK tt)).
Proof.
  exact (payloads_pass_through (NewDataConverter ConcreteConverter) [AnyOther 1%Z] [AnyOther 2%Z]
    (Some (mkPayloads ["a"%string])) 9 (mkStore ∅ []) eq_refl).
Defined.

Lemma FromPayloads_arity_witness :
  FromPayloads (NewDataConverter ConcreteConverter) (Some (mkPayloads ["a"; "b"]%string))
    [PtrOther tt] (mkStore ∅ []) =
  (mkStore ∅ ["a"%string], Panics (RuntimeError "index out of range")).
Proof.
  rewrite (FromPayloads_arity (NewDataConverter ConcreteConverter) ["a"; "b"]%string [PtrOther tt]
    (mkStore ∅ []) ltac:(discriminate)). vm_compute. reflexivity.
Defined.

Lemma intercepted_headers_witness :
  ActivityHeadersFromCtx
    ([(OtherKey "span"%string, CtxOther)] ++
     intercept_ExecuteActivity (λ _, {["trace"%string := "id"%string]}) []) =
  Some (mkHeader {["trace"%string := "id"%string]}).
Proof.
  rewrite (intercepted_headers (λ _, {["trace"%string := "id"%string]}) []
    [(OtherKey "span"%string, CtxOther)] ltac:(repeat constructor; discriminate)).
  reflexivity.
Defined.
