(* ===== verification/Codec.v ===== *)
(** * Codec: messages on the wire (src/internal/codec/proto/proto.go)

    The codec packs messages into a protobuf frame and decodes the worker's frame,
    with the commands as JSON inside the frame.  protobuf and JSON are parameters
    (class [Wire]).  Frames come from a [sync.Pool]: the pool is part of the state of
    [Encode] and [Decode], and a frame goes back to it reset.  The class [Codec] is
    the interface of src/common/interfaces.go that the rest of the plugin is written
    against; [ProtoCodec] is its implementation by this file. *)
From S2P Require Import Prelude Api Doubles GoM Protocol.
From stdpp Require Import base gmap list strings pretty countable.
From Stdlib Require Import ZArith Lia.

Local Open Scope string_scope.
Local Open Scope list_scope.

(** ** Interface *)

Class Codec `{Api} := {
  Encode : Context -> payload -> list Message -> payload * result unit;
  Decode : payload -> list Message -> list Message * result unit;
  DecodeWorkerInfo : payload -> list WorkerInfo -> list WorkerInfo * result unit;
}.

(** ** Protobuf messages *)

Section Types.
Context `{Api}.

Record pbMessage := mkPbMessage {
  pb_Id : Z;
  pb_Command : string;
  pb_Options : bytes;
  pb_Payloads : option Payloads;
  pb_Failure : option Failure;
  pb_Header : option Header;
  pb_HistoryLength : Z;
  pb_RunId : string;
}.

(** A frame: the messages and the unknown fields that decoding may leave in it. *)
Record Frame := mkFrame { pb_Messages : list pbMessage; pb_unknown : bytes }.

Definition zero_Frame : Frame := mkFrame [] [].

End Types.

Class Wire `{Api} := {
  json_Marshal_context : Context -> result bytes;
  json_Marshal_command : any_command -> result bytes;
  (** [json.Unmarshal(data, &cmd)] for a [cmd any] that holds a command; the JSON
      literal null makes it a nil interface. *)
  json_Unmarshal_command : bytes -> any_command -> result (option any_command);
  proto_Marshal : Frame -> result bytes;
  proto_Unmarshal : bytes -> result Frame;
  (** The wrapped data converter's [FromPayload] into a [*internal.WorkerInfo]. *)
  FromPayload_WorkerInfo : Payload -> result WorkerInfo;
}.

Section Codec.
Context `{Wire}.

(** ** Frame pool *)

Definition frame_pool : Type := list Frame.

Definition getFrame (pool : frame_pool) : frame_pool * Frame :=
  match pool with
  | f :: pool => (pool, f)
  | [] => ([], zero_Frame)
  end.

Definition putFrame (fr : Frame) (pool : frame_pool) : frame_pool := zero_Frame :: pool.

(** ** Messages *)

Definition packMessage (msg : Message) (ctx : Context) (protoMsg : pbMessage) : result pbMessage :=
  let pm := {| pb_Id := m_ID msg;
               pb_Command := pb_Command protoMsg;
               pb_Options := pb_Options protoMsg;
               pb_Payloads := m_Payloads msg;
               pb_Failure := m_Failure msg;
               pb_Header := m_Header msg;
               pb_HistoryLength := i64 (HistoryLen ctx);
               pb_RunId := RrID ctx |} in
  match m_Command msg with
  | None => OK pm
  | Some cmd =>
      match CommandName cmd with
      | Err e => Err e
      | OK name =>
          match json_Marshal_command cmd with
          | Err e => Err e
          | OK opts =>
              OK {| pb_Id := pb_Id pm; pb_Command := name; pb_Options := opts;
                    pb_Payloads := pb_Payloads pm; pb_Failure := pb_Failure pm;
                    pb_Header := pb_Header pm; pb_HistoryLength := pb_HistoryLength pm;
                    pb_RunId := pb_RunId pm |}
          end
      end
  end.

Definition zero_pbMessage : pbMessage := mkPbMessage 0 "" [] None None None 0 "".

Fixpoint packMessages (ctx : Context) (msgs : list Message) : result (list pbMessage) :=
  match msgs with
  | [] => OK []
  | m :: msgs =>
      match packMessage m ctx zero_pbMessage with
      | Err e => Err e
      | OK pm =>
          match packMessages ctx msgs with
          | Err e => Err e
          | OK pms => OK (pm :: pms)
          end
      end
  end.

Definition parseMessage (frame : pbMessage) : result Message :=
  let op := "proto_codec_parse_message" in
  let msg := {| m_ID := pb_Id frame; m_Command := None; m_Failure := pb_Failure frame;
                m_Payloads := pb_Payloads frame; m_Header := pb_Header frame |} in
  if String.eqb (pb_Command frame) "" then OK msg
  else
    match InitCommand (pb_Command frame) with
    | Err e => Err (ErrOp op e)
    | OK cmd =>
        match json_Unmarshal_command (pb_Options frame) cmd with
        | Err e => Err (ErrOp op e)
        | OK cmd' =>
            OK {| m_ID := m_ID msg; m_Command := cmd'; m_Failure := m_Failure msg;
                  m_Payloads := m_Payloads msg; m_Header := m_Header msg |}
        end
    end.

(** The loop of [Decode]: messages parsed before an error stay appended. *)
Fixpoint parseMessages (frames : list pbMessage) (acc : list Message) : list Message * result unit :=
  match frames with
  | [] => (acc, OK tt)
  | f :: frames =>
      match parseMessage f with
      | Err e => (acc, Err e)
      | OK msg => parseMessages frames (acc ++ [msg])
      end
  end.

(** The bytes of the literal [null]. *)
Definition null_bytes : bytes := String.list_byte_of_string "null".

Definition set_Context (c : bytes) (p : payload) : payload :=
  mkPayload c (pl_Body p) (pl_Codec p) (pl_Flags p).

Definition set_Body (b : bytes) (p : payload) : payload :=
  mkPayload (pl_Context p) b (pl_Codec p) (pl_Flags p).

(** [Encode] with the frame pool threaded.  A failed marshaller returns a nil slice,
    which is stored before the error is looked at. *)
Definition proto_Encode (ctx : Context) (p : payload) (msg : list Message) (pool : frame_pool)
    : frame_pool * (payload * result unit) :=
  match msg with
  | [] => (pool, (p, OK tt))
  | _ =>
      let '(pool, request) := getFrame pool in
      match packMessages ctx msg with
      | Err e => (putFrame request pool, (p, Err e))
      | OK pms =>
          let request := mkFrame pms (pb_unknown request) in
          let p := if IsEmpty ctx then set_Context null_bytes p else p in
          match json_Marshal_context ctx with
          | Err e => (putFrame request pool, (set_Context [] p, Err (ErrOp "encode_context" e)))
          | OK c =>
              let p := set_Context c p in
              match proto_Marshal request with
              | Err e => (putFrame request pool, (set_Body [] p, Err (ErrOp "encode_payload" e)))
              | OK b => (putFrame request pool, (set_Body b p, OK tt))
              end
          end
      end
  end.

Definition proto_Decode (pld : payload) (res : list Message) (pool : frame_pool)
    : frame_pool * (list Message * result unit) :=
  match pl_Body pld with
  | [] => (pool, (res, OK tt))
  | body =>
      let '(pool, response) := getFrame pool in
      match proto_Unmarshal body with
      | Err e => (putFrame response pool, (res, Err (ErrOp "codec_parse_response" e)))
      | OK response => (putFrame response pool, parseMessages (pb_Messages response) res)
      end
  end.

(** The loop over the payloads of the worker's answer. *)
Fixpoint worker_infos (payloads : list Payload) (wi : list WorkerInfo) : list WorkerInfo * result unit :=
  match payloads with
  | [] => (wi, OK tt)
  | p :: payloads =>
      match FromPayload_WorkerInfo p with
      | Err e => (wi, Err (ErrOp "workflow_fetch_wf_info" e))
      | OK tmp => worker_infos payloads (wi ++ [tmp])
      end
  end.

Definition proto_DecodeWorkerInfo (p : payload) (wi : list WorkerInfo) (pool : frame_pool)
    : frame_pool * (list WorkerInfo * result unit) :=
  let op := "workflow_fetch_wf_info" in
  let '(pool, (info, err)) := proto_Decode p [] pool in
  match err with
  | Err e => (pool, (wi, Err e))
  | OK _ =>
      match info with
      | [m] =>
          if negb (Z.eqb (m_ID m) 0)
          then (pool, (wi, Err (ErrOp op
                 (Errorf "fetch confirmation missing, need ID: 0, got: %d" [pretty (m_ID m)]))))
          else (pool, worker_infos (GetPayloads (m_Payloads m)) wi)
      | _ => (pool, (wi, Err (ErrOp op (ErrStr "unable to read worker info"))))
      end
  end.

(** The implementation of the interface, each call on an empty pool; see
    [frame_pool_transparent]. *)
#[global] Instance ProtoCodec : Codec := {|
  Encode := λ ctx p msg, (proto_Encode ctx p msg []).2;
  Decode := λ p res, (proto_Decode p res []).2;
  DecodeWorkerInfo := λ p wi, (proto_DecodeWorkerInfo p wi []).2;
|}.

End Codec.

(** ** Properties *)

(** Documented behaviour of protobuf: unmarshalling what was marshalled gives the
    frame back when its integers are in range, only a frame without messages is
    marshalled to no bytes, and a field of type uint64 is read as 64 bits. *)
Class WireLaws `{Wire} : Prop := {
  proto_roundtrip : ∀ f b,
    Forall (λ m, in_u64 (pb_Id m) ∧ in_i64 (pb_HistoryLength m)) (pb_Messages f) ->
    proto_Marshal f = OK b -> proto_Unmarshal b = OK f;
  proto_nonempty : ∀ f, proto_Marshal f = OK [] -> pb_Messages f = [];
  proto_in_u64 : ∀ b f, proto_Unmarshal b = OK f -> Forall (λ m, in_u64 (pb_Id m)) (pb_Messages f);
}.

Section Theorems.
Context `{Wire}.

Definition clean (pool : frame_pool) : Prop := Forall (λ f, f = zero_Frame) pool.

Lemma getFrame_clean pool :
  clean pool -> clean (getFrame pool).1 ∧ (getFrame pool).2 = zero_Frame.
Proof. intros Hp. destruct Hp as [|f pool -> Hp]; (split; [by try constructor|done]). Qed.

Lemma putFrame_clean f pool : clean pool -> clean (putFrame f pool).
Proof. intros Hp. by constructor. Qed.

Lemma proto_Encode_pool ctx p msg pool :
  clean pool ->
  clean (proto_Encode ctx p msg pool).1 ∧
  (proto_Encode ctx p msg pool).2 = (proto_Encode ctx p msg []).2.
Proof.
  intros Hp. unfold proto_Encode. destruct msg as [|m msg]; [done|].
  generalize (packMessages ctx (m :: msg)) as pk. intros pk.
  destruct (getFrame_clean pool Hp) as [Hp' Hf].
  destruct (getFrame pool) as [pool' f]; simpl in *; subst f.
  destruct pk; [|split; [by apply putFrame_clean|done]].
  destruct (json_Marshal_context ctx); [|split; [by apply putFrame_clean|done]].
  destruct (proto_Marshal _); (split; [by apply putFrame_clean|done]).
Qed.

Lemma proto_Decode_pool pld res pool :
  clean pool ->
  clean (proto_Decode pld res pool).1 ∧
  (proto_Decode pld res pool).2 = (proto_Decode pld res []).2.
Proof.
  intros Hp. unfold proto_Decode. destruct (pl_Body pld) as [|b body]; [done|].
  destruct (getFrame_clean pool Hp) as [Hp' Hf].
  destruct (getFrame pool) as [pool' f]; simpl in *.
  destruct (proto_Unmarshal _); (split; [by apply putFrame_clean|done]).
Qed.

(** Recycling frames is invisible.  On a pool of frames that were reset
    before they were put back, every call of the codec gives the result it gives on
    an empty pool, and leaves only reset frames in the pool. *)
Theorem frame_pool_transparent (pool : frame_pool) :
  clean pool ->
  (∀ ctx p msg, clean (proto_Encode ctx p msg pool).1 ∧
                (proto_Encode ctx p msg pool).2 = Encode ctx p msg) ∧
  (∀ pld res, clean (proto_Decode pld res pool).1 ∧
              (proto_Decode pld res pool).2 = Decode pld res) ∧
  (∀ pld wi, clean (proto_DecodeWorkerInfo pld wi pool).1 ∧
             (proto_DecodeWorkerInfo pld wi pool).2 = DecodeWorkerInfo pld wi).
Proof.
  intros Hp. split_and!; intros; simpl.
  - by apply proto_Encode_pool.
  - by apply proto_Decode_pool.
  - unfold proto_DecodeWorkerInfo.
    destruct (proto_Decode_pool pld [] pool Hp) as [Hc Heq].
    destruct (proto_Decode pld [] pool) as [pool' [info err]], (proto_Decode pld [] []) as [pool0 [info0 err0]].
    simpl in *. injection Heq as <- <-.
    destruct err; [|done]. destruct info as [|m [|? ?]]; try done. by destruct (negb _).
Qed.

(** *** Round trip *)

(** A message as the peer sees it: the command behind a pointer. *)
Definition as_received (m : Message) : Message :=
  mkMessage (m_ID m) ((λ c, ByPtr (deref c)) <$> m_Command m) (m_Failure m) (m_Payloads m) (m_Header m).

(** The command of the message survives JSON, and is one that can be decoded. *)
Definition json_faithful (m : Message) : Prop :=
  match m_Command m with
  | None => True
  | Some c =>
      decodable (deref c) = true ∧
      ∀ b, json_Marshal_command c = OK b ->
           json_Unmarshal_command b (ByPtr (zero_like (deref c))) = OK (Some (ByPtr (deref c)))
  end.

Lemma CommandName_nonempty c name : CommandName c = OK name -> name ≠ "".
Proof. unfold CommandName. destruct (deref c); intros [= <-]; discriminate. Qed.

Lemma parse_pack m ctx pm :
  json_faithful m -> packMessage m ctx zero_pbMessage = OK pm -> parseMessage pm = OK (as_received m).
Proof.
  unfold json_faithful, packMessage, parseMessage, as_received. intros Hj Hp.
  destruct (m_Command m) as [c|]; simpl in *; [|by injection Hp as <-].
  destruct Hj as [Hd Hj]. destruct (CommandName c) as [name|e] eqn:Hn; [|done].
  destruct (json_Marshal_command c) as [b|e] eqn:Hb; [|done]. injection Hp as <-; simpl.
  rewrite (proj2 (String.eqb_neq name "")) by (by eapply CommandName_nonempty).
  by rewrite (InitCommand_CommandName c name Hn Hd), (Hj b eq_refl).
Qed.

Lemma parse_pack_all ctx msgs : ∀ pms acc,
  Forall json_faithful msgs -> packMessages ctx msgs = OK pms ->
  parseMessages pms acc = (acc ++ (as_received <$> msgs), OK tt).
Proof.
  induction msgs as [|m msgs IH]; intros pms acc Hj Hp; simpl in Hp.
  { injection Hp as <-. simpl. by rewrite app_nil_r. }
  apply Forall_cons_iff in Hj as [Hm Hj].
  destruct (packMessage m ctx zero_pbMessage) as [pm|e] eqn:Hpm; [|done].
  destruct (packMessages ctx msgs) as [pms'|e]; [|done]. injection Hp as <-. simpl.
  rewrite (parse_pack m ctx pm Hm Hpm), (IH pms' _ Hj eq_refl). by rewrite <- app_assoc.
Qed.

Lemma packMessage_ranges m ctx pm :
  in_u64 (m_ID m) -> packMessage m ctx zero_pbMessage = OK pm ->
  in_u64 (pb_Id pm) ∧ in_i64 (pb_HistoryLength pm).
Proof.
  unfold packMessage. intros Hm Hp.
  destruct (m_Command m) as [c|]; [destruct (CommandName c); [|done]; destruct (json_Marshal_command c); [|done]|];
    injection Hp as <-; simpl; auto with go.
Qed.

Lemma packMessages_ranges ctx msgs : ∀ pms,
  Forall (λ m, in_u64 (m_ID m)) msgs -> packMessages ctx msgs = OK pms ->
  length pms = length msgs ∧
  Forall (λ m, in_u64 (pb_Id m) ∧ in_i64 (pb_HistoryLength m)) pms.
Proof.
  induction msgs as [|m msgs IH]; intros pms Hr Hp; simpl in Hp; [by injection Hp as <-|].
  apply Forall_cons_iff in Hr as [Hm Hr].
  destruct (packMessage m ctx zero_pbMessage) as [pm|e] eqn:Hpm; [|done].
  destruct (packMessages ctx msgs) as [pms'|e]; [|done]. injection Hp as <-.
  destruct (IH pms' Hr eq_refl) as [Hlen Hall]. split; [simpl; congruence|].
  constructor; [by eapply packMessage_ranges|done].
Qed.

Lemma proto_Encode_OK ctx p msgs p' :
  msgs ≠ [] -> Encode ctx p msgs = (p', OK tt) ->
  ∃ pms c b, packMessages ctx msgs = OK pms ∧ json_Marshal_context ctx = OK c ∧
    proto_Marshal (mkFrame pms []) = OK b ∧
    p' = mkPayload c b (pl_Codec p) (pl_Flags p).
Proof.
  intros Hne Henc. unfold Encode, ProtoCodec, proto_Encode in Henc.
  destruct msgs as [|m msgs]; [done|].
  destruct (packMessages ctx (m :: msgs)) as [pms|e] eqn:Hp; simpl in Henc; [|done].
  destruct (json_Marshal_context ctx) as [c|e] eqn:Hc; [|done].
  destruct (proto_Marshal (mkFrame pms [])) as [b|e] eqn:Hb; [|done].
  simpl in Henc. injection Henc as <-. exists pms, c, b. split_and!; try done.
  by destruct (IsEmpty ctx).
Qed.

(** C10: whatever messages [Encode] accepts, decoding the bytes it produced
    appends exactly those messages, in order, with the commands as pointers to equal
    structs. *)
Theorem Decode_after_Encode `{!WireLaws} (ctx : Context) (p p' : payload) (msgs acc : list Message) :
  msgs ≠ [] -> Forall (λ m, in_u64 (m_ID m)) msgs -> Forall json_faithful msgs ->
  Encode ctx p msgs = (p', OK tt) ->
  Decode p' acc = (acc ++ (as_received <$> msgs), OK tt).
Proof.
  intros Hne Hr Hj Henc.
  destruct (proto_Encode_OK ctx p msgs p' Hne Henc) as (pms & c & b & Hp & Hc & Hb & ->).
  destruct (packMessages_ranges ctx msgs pms Hr Hp) as [Hlen Hall].
  unfold Decode, ProtoCodec, proto_Decode; simpl.
  destruct b as [|b0 b].
  { apply proto_nonempty in Hb. simpl in Hb. subst pms. by destruct msgs. }
  rewrite (proto_roundtrip (mkFrame pms []) (b0 :: b) Hall Hb). simpl. by eapply parse_pack_all.
Qed.

(** The context sent with a batch is always the JSON of the context
    record, for an empty context too; the literal [null] that the code prepares for
    a context without task queue is never sent (unless it is that JSON). *)
Theorem encoded_context (ctx : Context) (p p' : payload) (msgs : list Message) :
  msgs ≠ [] -> Encode ctx p msgs = (p', OK tt) ->
  json_Marshal_context ctx = OK (pl_Context p') ∧
  pl_Codec p' = pl_Codec p ∧ pl_Flags p' = pl_Flags p.
Proof.
  intros Hne Henc.
  by destruct (proto_Encode_OK ctx p msgs p' Hne Henc) as (pms & c & b & Hp & Hc & Hb & ->).
Qed.

(** *** Worker description *)

Lemma worker_infos_spec ps : ∀ wi out r,
  worker_infos ps wi = (out, r) ->
  match r with
  | OK _ => ∃ infos, out = wi ++ infos ∧ Forall2 (λ p i, FromPayload_WorkerInfo p = OK i) ps infos
  | Err e => ∃ e', e = ErrOp "workflow_fetch_wf_info" e'
  end.
Proof.
  induction ps as [|p ps IH]; intros wi out r Hw; simpl in Hw.
  { injection Hw as <- <-. exists []. by rewrite app_nil_r. }
  destruct (FromPayload_WorkerInfo p) as [i|e] eqn:Hp; [|injection Hw as <- <-; eauto].
  specialize (IH _ _ _ Hw). destruct r; [|done].
  destruct IH as (infos & -> & Hall). exists (i :: infos). rewrite <- app_assoc.
  split; [done|by constructor].
Qed.

(** A worker description is accepted only when the worker answered
    with exactly one message, with id 0, all of whose payloads decode; the result is
    then one description per payload, in order. *)
Theorem DecodeWorkerInfo_accepts (p : payload) (wi : list WorkerInfo) :
  DecodeWorkerInfo p [] = (wi, OK tt) ->
  ∃ m, Decode p [] = ([m], OK tt) ∧ m_ID m = 0%Z ∧
       Forall2 (λ pl i, FromPayload_WorkerInfo pl = OK i) (GetPayloads (m_Payloads m)) wi.
Proof.
  unfold DecodeWorkerInfo, Decode, ProtoCodec, proto_DecodeWorkerInfo; simpl. intros Hd.
  destruct (proto_Decode p [] []) as [pool [info [u|e]]]; simpl in *; [|done].
  destruct info as [|m [|? ?]]; [done| |done].
  destruct (Z.eqb_spec (m_ID m) 0) as [Hid|]; simpl in Hd; [|done].
  exists m. destruct u. split_and!; [done|done|].
  by destruct (worker_infos_spec _ _ _ _ Hd) as (infos & -> & Hall).
Qed.

End Theorems.

(** ** A concrete wire format

    Frames are serialised through an injection into positive numbers, written in
    binary; commands as JSON are supported for signals only. *)

#[local] Existing Instance ConcreteApi.
#[local] Existing Instance ConcreteSdk.

Fixpoint positive_to_bytes (p : positive) : bytes :=
  match p with
  | xH => [Byte.x01]
  | xO p => Byte.x02 :: positive_to_bytes p
  | xI p => Byte.x03 :: positive_to_bytes p
  end.

Fixpoint bytes_to_positive (b : bytes) : positive :=
  match b with
  | Byte.x02 :: b => xO (bytes_to_positive b)
  | Byte.x03 :: b => xI (bytes_to_positive b)
  | _ => xH
  end.

Lemma bytes_positive p : bytes_to_positive (positive_to_bytes p) = p.
Proof. induction p; simpl; congruence. Qed.

(** A frame as nested tuples of countable types; bytes are read as text. *)
Definition wire_tuple : Type :=
  list (Z * string * string * option (list string) * option string
        * option (gmap string string) * Z * string) * string.

Definition frame_tuple (f : Frame) : wire_tuple :=
  ((λ m, (pb_Id m, pb_Command m, String.string_of_list_byte (pb_Options m),
          Payloads_Payloads <$> pb_Payloads m, pb_Failure m, Fields <$> pb_Header m,
          pb_HistoryLength m, pb_RunId m)) <$> pb_Messages f,
   String.string_of_list_byte (pb_unknown f)).

Definition tuple_frame (t : wire_tuple) : Frame :=
  mkFrame
    ((λ '(i, c, o, p, f, h, l, r),
       mkPbMessage (u64 i) c (String.list_byte_of_string o) (mkPayloads <$> p) f (mkHeader <$> h) l r) <$> t.1)
    (String.list_byte_of_string t.2).

Lemma tuple_frame_tuple f :
  Forall (λ m, in_u64 (pb_Id m)) (pb_Messages f) -> tuple_frame (frame_tuple f) = f.
Proof.
  destruct f as [ms u]. unfold tuple_frame, frame_tuple; simpl. intros Hms.
  rewrite String.list_byte_of_string_of_list_byte. f_equal.
  rewrite <- list_fmap_compose. rewrite <- (list_fmap_id ms) at 2. 
  apply list_fmap_ext. intros k m Hk. pose proof (Forall_lookup_1 _ _ _ _ Hms Hk) as Hm.
  destruct m as [i c o [[p]|] f [[h]|] l r]; simpl in *;
    by rewrite String.list_byte_of_string_of_list_byte, u64_small.
Qed.

Definition ConcreteWire : Wire := {|
  json_Marshal_context := λ ctx, OK (String.list_byte_of_string (TaskQueue ctx ++ "/" ++ RrID ctx)%string);
  json_Marshal_command := λ c,
    match deref c with
    | C_InvokeSignal s => OK (String.list_byte_of_string (IS_Name s))
    | _ => OK []
    end;
  json_Unmarshal_command := λ b c,
    match c with
    | ByPtr (C_InvokeSignal s) =>
        OK (Some (ByPtr (C_InvokeSignal (mkInvokeSignal "" (String.string_of_list_byte b)))))
    | c => OK (Some c)
    end;
  proto_Marshal := λ f, OK (positive_to_bytes (encode (frame_tuple f)));
  proto_Unmarshal := λ b,
    match decode (bytes_to_positive b) with
    | Some t => OK (tuple_frame t)
    | None => Err (ErrStr "malformed frame")
    end;
  FromPayload_WorkerInfo := λ p,
    OK (mkWorkerInfo p (mkWorkerOptions 0 "" false "" [] tt) "" [] []);
|}.
#[local] Existing Instance ConcreteWire.

#[local] Instance ConcreteWireLaws : WireLaws.
Proof.
  split.
  - intros f b Hf [= <-]. simpl. rewrite bytes_positive, decode_encode, tuple_frame_tuple; [done|].
    eapply List.Forall_impl; [|exact Hf]. by intros m [? _].
  - intros f [= Hb]. by destruct (encode _).
  - intros b f Hu. simpl in Hu. destruct (decode _) as [t|]; [|done]. injection Hu as <-. simpl.
    apply Forall_fmap, Forall_true. intros [[[[[[[i c] o] p] f] h] l] r]. apply u64_range.
Qed.

(** ** Witnesses *)

Definition example_context : Context := mkContext "default" "" false 3 "rr".

Definition example_messages : list Message :=
  [ mkMessage 1 (Some (ByValue (C_InvokeSignal (mkInvokeSignal "" "stop")))) None
      (Some (mkPayloads ["arg"])) None;
    mkMessage 2 None (Some "failed") None None ].

Lemma frame_pool_transparent_witness :
  (proto_Encode example_context zero_payload example_messages [zero_Frame; zero_Frame]).2 =
  Encode example_context zero_payload example_messages.
Proof.
  apply (proj1 (frame_pool_transparent [zero_Frame; zero_Frame] ltac:(repeat constructor))
    example_context zero_payload example_messages).
Defined.

Lemma Decode_after_Encode_witness :
  Decode (Encode example_context zero_payload example_messages).1 [] =
  ([ mkMessage 1 (Some (ByPtr (C_InvokeSignal (mkInvokeSignal "" "stop")))) None
       (Some (mkPayloads ["arg"])) None;
     mkMessage 2 None (Some "failed") None None ], OK tt).
Proof.
  refine (Decode_after_Encode example_context zero_payload _ example_messages [] _ _ _ _).
  - discriminate.
  - repeat constructor; simpl; lia.
  - repeat constructor. simpl. intros b [= <-]. reflexivity.
  - reflexivity.
Defined.

Lemma encoded_context_witness :
  json_Marshal_context (mkContext "" "" false 0 "rr") =
  OK (pl_Context (Encode (mkContext "" "" false 0 "rr") zero_payload example_messages).1).
Proof.
  refine (proj1 (encoded_context (mkContext "" "" false 0 "rr") zero_payload _ example_messages _ _)).
  - discriminate.
  - reflexivity.
Defined.

Definition info_payload : payload :=
  (Encode zero_Context zero_payload [mkMessage 0 None None (Some (mkPayloads ["q1"; "q2"])) None]).1.

Lemma DecodeWorkerInfo_accepts_witness :
  ∃ m, Decode info_payload [] = ([m], OK tt) ∧ m_ID m = 0%Z ∧
       Forall2 (λ pl i, FromPayload_WorkerInfo pl = OK i) (GetPayloads (m_Payloads m))
         (DecodeWorkerInfo info_payload []).1.
Proof.
  apply (DecodeWorkerInfo_accepts info_payload (DecodeWorkerInfo info_payload []).1).
  vm_compute. reflexivity.
Defined.
