(* ===== verification/Exchange.v ===== *)
(** * Exchange: the worker pool and its replies (src/common/interfaces.go)

    The interface [Pool] of the RoadRunner pool that runs PHP workers, and the one
    piece of code that every exchange with it repeats: the non-blocking receive on
    the channel returned by [Exec], with its three error cases
    (aggregatedpool/handler.go, activity.go, local_activity.go, info.go). *)
From S2P Require Import Prelude Api Doubles GoM Protocol.
From stdpp Require Import base gmap list strings.
From Stdlib Require Import ZArith Lia.

Local Open Scope string_scope.

Section Replies.
Context `{Api}.

(** A [*staticPool.PExec] taken from the channel. *)
Inductive PExec : Type :=
| PExecError (e : error)
| PExecPayload (p : payload).

(** The result of [Exec]: an error, or a channel on which the first receive finds
    something or would block. *)
Inductive exec_result : Type :=
| ExecError (e : error)
| ExecChan (first : option PExec).

End Replies.

(** The pool is shared by all workflows and activities; [StopStream] is the effect
    of the send on the stop channel that was passed to [Exec]. *)
Class Pool `{Api} := {
  PoolState : Type;
  Exec : payload -> PoolState -> PoolState * exec_result;
  StopStream : PoolState -> PoolState;
  QueueSize : PoolState -> Z;
}.

Section Receive.
Context `{Sdk} `{!Pool} {S : Type} `{Field S PoolState}.

Definition pool_Exec (pl : payload) : GoM S exec_result :=
  λ s, let '(p, r) := Exec pl (getf s) in (setf p s, Ret r).

(** [select { case pld := <-result: ... default: ... }]. *)
Definition receive (op empty_msg : string) (first : option PExec) : GoM S (result payload) :=
  match first with
  | Some (PExecError e) => mret (Err (ErrOp op e))
  | Some (PExecPayload p) =>
      if negb (Z.eqb (Z.land (pl_Flags p) frame_STREAM) 0)
      then _ ← update StopStream;
           mret (Err (ErrOp op (ErrStr "streaming is not supported")))
      else mret (OK p)
  | None => mret (Err (ErrOp op (ErrStr empty_msg)))
  end.

(** Whether the reply is a payload the plugin accepts. *)
Definition accepted (first : option PExec) : option payload :=
  match first with
  | Some (PExecPayload p) => if Z.eqb (Z.land (pl_Flags p) frame_STREAM) 0 then Some p else None
  | _ => None
  end.

Lemma receive_accepted op em first p s :
  accepted first = Some p -> receive op em first s = (s, Ret (OK p)).
Proof.
  unfold receive, accepted. destruct first as [[e|q]|]; try done.
  destruct (Z.eqb _ 0); simpl; [by intros [= ->]|done].
Qed.

(** A refused reply is an error of the operation; only a stream is told to stop. *)
Lemma receive_refused op em first s :
  accepted first = None ->
  ∃ s' e, receive op em first s = (s', Ret (Err (ErrOp op e))) ∧
          (s' = s ∨ s' = setf (StopStream (getf s)) s).
Proof.
  unfold receive, accepted. destruct first as [[e|q]|]; intros Ha.
  - exists s, e. auto.
  - destruct (Z.eqb _ 0); [done|]. simpl. eexists _, _. split; [reflexivity|auto].
  - eexists _, _. split; [reflexivity|auto].
Qed.

Lemma wp_receive op em first Q s :
  (∀ p, accepted first = Some p -> Q (Ret (OK p)) s) ->
  (∀ e, accepted first = None -> Q (Ret (Err (ErrOp op e))) s) ->
  (∀ e, accepted first = None -> Q (Ret (Err (ErrOp op e))) (setf (StopStream (getf s)) s)) ->
  wp (receive op em first) Q s.
Proof.
  intros HOK HErr HStop. destruct (accepted first) as [p|] eqn:Ha.
  - eapply wp_run; [by apply receive_accepted|by apply HOK].
  - destruct (receive_refused op em first s Ha) as (s' & e & Hr & [-> | ->]);
      (eapply wp_run; [exact Hr|auto]).
Qed.

Lemma wp_pool_Exec pl Q s :
  (∀ p r, Exec pl (getf s) = (p, r) -> Q (Ret r) (setf p s)) -> wp (pool_Exec pl) Q s.
Proof. intros HQ. unfold wp, pool_Exec. destruct (Exec pl (getf s)) as [p r]. by apply HQ. Qed.

End Receive.

(** ** Recycled payloads

    A [sync.Pool] of [payload.Payload] objects: [getPld] takes one that was put back
    or a new one, [putPld] wipes it first.  The three copies of this code (one per
    file) are one definition over the pool that the caller owns. *)
Record pld_pool := mkPldPool { plds : list payload }.

(** The gauges of a metrics handler: every update, oldest first. *)
Record gauges := mkGauges { gauge_updates : list (string * Z) }.

Section Payloads.
Context `{Api} {S : Type} `{Field S pld_pool}.

Definition getPld : GoM S payload :=
  pool ← gets getf;
  match plds pool with
  | p :: rest => _ ← update (λ _ : pld_pool, mkPldPool rest); mret p
  | [] => mret zero_payload
  end.

Definition putPld (pld : payload) : GoM S unit :=
  update (λ pool, mkPldPool (mkPayload [] [] 0 (pl_Flags pld) :: plds pool)).

Definition wiped (p : payload) : Prop := pl_Context p = [] ∧ pl_Body p = [] ∧ pl_Codec p = 0%Z.

Definition all_wiped (s : S) : Prop := Forall wiped (plds (getf s)).

(** [getPld] and [putPld] touch nothing but the pool of payloads, which stays
    wiped; what [getPld] returns is then wiped as well. *)
Lemma wp_getPld `{!FieldLaws S pld_pool} (Q : outcome payload -> S -> Prop) s :
  (∀ p l, (all_wiped s -> wiped p ∧ Forall wiped l) -> Q (Ret p) (setf (mkPldPool l) s)) ->
  wp getPld Q s.
Proof.
  intros HQ. unfold getPld. apply wp_bind, wp_gets. cbn.
  destruct (plds (getf s)) as [|p l] eqn:Hp.
  - apply wp_ret. rewrite <- (set_get s). destruct (getf s) as [l] eqn:Hg; simpl in Hp; subst l.
    apply HQ. intros _. split; [done|constructor].
  - apply wp_bind, wp_update. cbn. apply wp_ret, HQ. unfold all_wiped. rewrite Hp.
    intros Hall. by apply Forall_cons_iff in Hall.
Qed.

Lemma wp_putPld (pld : payload) (Q : outcome unit -> S -> Prop) s :
  (∀ l, (all_wiped s -> Forall wiped l) -> Q (Ret tt) (setf (mkPldPool l) s)) ->
  wp (putPld pld) Q s.
Proof.
  intros HQ. apply wp_update, HQ. unfold all_wiped. intros Hall. by constructor.
Qed.

End Payloads.

Section Gauge.
Context `{Sdk} `{!Pool} {S : Type} `{Field S PoolState} `{Field S gauges}.

Definition gauge_Update (name : string) (v : Z) : GoM S unit :=
  update (λ g, mkGauges (gauge_updates g ++ [(name, v)])).

(** [mh.Gauge(n).Update(q()); defer mh.Gauge(n).Update(q())]: the argument of the
    deferred call is evaluated when the [defer] statement runs, before the body. *)
Definition with_gauge {A} (mh : bool) (name : string) (body : GoM S A) : GoM S A :=
  if mh then
    q ← gets (λ s, QueueSize (getf s));
    _ ← gauge_Update name q;
    q' ← gets (λ s, QueueSize (getf s));
    defer (gauge_Update name q') body
  else body.

(** Only the gauges tell the difference. *)
Lemma wp_with_gauge {A} `{!FieldLaws S gauges} mh name (body : GoM S A)
    (Q : outcome A -> S -> Prop) s :
  (∀ g, wp body (λ o s', ∀ g', Q o (setf g' s')) (setf g s)) ->
  wp (with_gauge mh name body) Q s.
Proof.
  intros HQ. unfold with_gauge. destruct mh.
  - wp_steps. unfold gauge_Update. wp_steps. specialize (HQ (mkGauges
      (gauge_updates (getf s) ++ [(name, QueueSize (getf s))]))).
    eapply wp_mono; [exact HQ|]. intros o s' Ho. destruct o; wp_steps; try apply Ho.
    all: by rewrite <- (set_get s').
  - specialize (HQ (getf s)). rewrite set_get in HQ. eapply wp_mono; [exact HQ|].
    intros o s' Ho. by rewrite <- (set_get s').
Qed.

End Gauge.

(** ** A scripted pool

    For the witnesses: a pool that answers from a list and records what it was sent. *)
#[local] Existing Instance ConcreteApi.
#[local] Existing Instance ConcreteSdk.

Record scripted := mkScripted { script : list exec_result; sent : list payload; stops : nat }.

Definition ScriptedPool : Pool := {|
  PoolState := scripted;
  Exec := λ pl s,
    match script s with
    | r :: rest => (mkScripted rest (sent s ++ [pl]) (stops s), r)
    | [] => (mkScripted [] (sent s ++ [pl]) (stops s), ExecError (LibErr "no workers"))
    end;
  StopStream := λ s, mkScripted (script s) (sent s) (S (stops s));
  QueueSize := λ s, Z.of_nat (length (script s));
|}.
