(* ===== verification/Activity.v ===== *)
(** * Activity: running activities in the worker pool
    (src/aggregatedpool/activity.go, src/aggregatedpool/local_activity.go)

    An activity task is one exchange with the activity pool.  While the exchange is
    in progress the task token is in the [running] map, where the RPC side looks up
    the context to record heartbeats on.  The activity context of the SDK is a
    parameter (class [ActivityRuntime]). *)
From S2P Require Import Prelude Api Doubles GoM Protocol Codec Converter Exchange.
From stdpp Require Import base gmap list strings.
From Stdlib Require Import ZArith Lia.

Local Open Scope string_scope.
Local Open Scope list_scope.

Definition doNotCompleteOnReturn := "doNotCompleteOnReturn".
Definition RrMetricName := "rr_activities_pool_queue_size".
Definition RrWorkflowsMetricName := "rr_workflows_pool_queue_size".

(** What go.temporal.io/sdk/activity provides on a context. *)
Class ActivityRuntime `{Api} := {
  ActivityCtx : Type;
  ctx_values : ActivityCtx -> context;
  HasHeartbeatDetails : ActivityCtx -> bool;
  (** [GetHeartbeatDetails(ctx, &d)] for a variable [d] with the given value. *)
  GetHeartbeatDetails : ActivityCtx -> option Payloads -> result (option Payloads);
  GetInfo : ActivityCtx -> ActivityInfo;
  (** Whether [GetMetricsHandler(ctx)] is non-nil. *)
  HasMetricsHandler : ActivityCtx -> bool;
}.

Section Activity.
Context `{Sdk} `{!Codec} `{!Pool} `{!ActivityRuntime}.

Record Activity := mkActivity {
  a_seqID : Z;
  a_running : gmap string ActivityCtx;
  a_pldPool : pld_pool;
}.

Definition NewActivityDefinition : Activity := mkActivity 0 ∅ (mkPldPool []).

(** The object together with what it shares with the rest of the process. *)
Record activity_world := mkActivityWorld {
  aw_activity : Activity;
  aw_pool : PoolState;
  aw_gauges : gauges;
}.

#[global] Instance aw_field_activity : Field activity_world Activity := {|
  getf := aw_activity; setf := λ a w, mkActivityWorld a (aw_pool w) (aw_gauges w) |}.
#[global] Instance aw_field_pool : Field activity_world PoolState := {|
  getf := aw_pool; setf := λ p w, mkActivityWorld (aw_activity w) p (aw_gauges w) |}.
#[global] Instance aw_field_gauges : Field activity_world gauges := {|
  getf := aw_gauges; setf := λ g w, mkActivityWorld (aw_activity w) (aw_pool w) g |}.
#[global] Instance aw_field_plds : Field activity_world pld_pool := {|
  getf := λ w, a_pldPool (aw_activity w);
  setf := λ p w, mkActivityWorld (mkActivity (a_seqID (aw_activity w)) (a_running (aw_activity w)) p)
                   (aw_pool w) (aw_gauges w) |}.

#[global] Instance aw_laws_gauges : FieldLaws activity_world gauges.
Proof. split; by intros; repeat match goal with w : activity_world |- _ => destruct w end. Qed.
#[global] Instance aw_laws_plds : FieldLaws activity_world pld_pool.
Proof. split; by intros; repeat match goal with w : activity_world |- _ => destruct w as [[] ? ?] end. Qed.

(** Bytes reinterpreted as a string. *)
Definition bytesToStr (data : bytes) : string := String.string_of_list_byte data.

Definition GetActivityContext (taskToken : bytes) (a : Activity) : result ActivityCtx :=
  match a_running a !! bytesToStr taskToken with
  | Some c => OK c
  | None => Err (ErrOp "activity_pool_get_activity_context" (ErrStr "heartbeat on non running activity"))
  end.

Definition set_running (f : gmap string ActivityCtx -> gmap string ActivityCtx) (a : Activity) : Activity :=
  mkActivity (a_seqID a) (f (a_running a)) (a_pldPool a).

(** [atomic.AddUint64(&a.seqID, 1)]. *)
Definition next_seqID {S} `{Field S Activity} : GoM S Z :=
  _ ← update (λ a : Activity, mkActivity (u64 (a_seqID a + 1)) (a_running a) (a_pldPool a));
  gets (λ s, a_seqID (getf s)).

(** What a single reply message means for the activity. *)
Definition activity_result (retPld : Message) : result (option Payloads) :=
  match m_Failure retPld with
  | Some f =>
      if String.eqb (Failure_Message f) doNotCompleteOnReturn
      then Err ErrResultPending
      else match FailureToError (Some f) with
           | Some e => Err (LibErr e)
           | None => OK None
           end
  | None => OK (m_Payloads retPld)
  end.

Definition nil_dereference : panic_value :=
  RuntimeError "invalid memory address or nil pointer dereference".

(** [activity_reply]: from the channel of [Exec] to the result. *)
Definition activity_reply {S} `{Field S PoolState} (op empty_msg invalid_msg : string)
    (first : option PExec) : GoM S (result (option Payloads)) :=
  r ←? receive op empty_msg first;
  let '(out, err) := Decode r [] in
  match err with
  | Err e => mret (Err e)
  | OK _ =>
      match out with
      | [retPld] => mret (activity_result retPld)
      | _ => mret (Err (ErrOp op (ErrStr invalid_msg)))
      end
  end.

(** The payloads of the worker message: the arguments followed by the heartbeat
    details.  The arguments are extended in place, through a pointer that may be nil. *)
Definition append_details {S} (args : option Payloads) (details : list Payload)
    : GoM S (option Payloads) :=
  match details with
  | [] => mret args
  | _ =>
      match args with
      | Some a => mret (Some (mkPayloads (Payloads_Payloads a ++ details)))
      | None => panic nil_dereference
      end
  end.

(** The message that asks the worker to run the activity. *)
Definition activity_message (id : Z) (ctx : ActivityCtx) (payloads : option Payloads)
    (details : list Payload) : Message :=
  let info := GetInfo ctx in
  {| m_ID := id;
     m_Command := Some (ByValue (C_InvokeActivity
       {| IA_Name := AI_ActivityType_Name info; IA_Info := info;
          IA_HeartbeatDetails := Z.of_nat (length details) |}));
     m_Failure := None;
     m_Payloads := payloads;
     m_Header := ActivityHeadersFromCtx (ctx_values ctx) |}.

(** The context of a task: only the task queue of the activity. *)
Definition task_context (ctx : ActivityCtx) : Context :=
  mkContext (AI_TaskQueue (GetInfo ctx)) "" false 0 "".

Definition activity_token (ctx : ActivityCtx) : string := bytesToStr (AI_TaskToken (GetInfo ctx)).

(** The part of [execute] that runs once the token is registered and the metrics
    are set up. *)
Definition execute_body (ctx : ActivityCtx) (args details : option Payloads)
    : GoM activity_world (result (option Payloads)) :=
  let op := "activity_pool_execute_activity" in
  id ← next_seqID;
  match details with
  | None => panic nil_dereference
  | Some details =>
      payloads ← append_details args (Payloads_Payloads details);
      pl ← getPld;
      let '(pl, err) := Encode (task_context ctx) pl
                          [activity_message id ctx payloads (Payloads_Payloads details)] in
      defer (putPld pl) (
        match err with
        | Err e => mret (Err e)
        | OK _ =>
            res ← pool_Exec pl;
            _ ← update (set_running (delete (activity_token ctx)));
            match res with
            | ExecError e => mret (Err (ErrOp op e))
            | ExecChan first =>
                activity_reply op "activity worker empty response"
                  "invalid activity worker response" first
            end
        end)
  end.

Definition heartbeat_details (ctx : ActivityCtx) : result (option Payloads) :=
  if HasHeartbeatDetails ctx
  then wrapE "activity_pool_execute_activity" (GetHeartbeatDetails ctx (Some (mkPayloads [])))
  else OK (Some (mkPayloads [])).

Definition execute (ctx : ActivityCtx) (args : option Payloads)
    : GoM activity_world (result (option Payloads)) :=
  details ←? mret (heartbeat_details ctx);
  _ ← update (set_running <[activity_token ctx := ctx]>);
  with_gauge (HasMetricsHandler ctx) RrMetricName (execute_body ctx args details).

(** ** Local activities *)

(** The closure data of [LocalActivityFn]; codec and pool are shared. *)
Record LocalActivityFn := mkLocalActivityFn { la_header : option Header; la_seqID : Z }.

Definition NewLocalActivityFn (header : option Header) : LocalActivityFn := mkLocalActivityFn header 0.

(** A local activity call shares the pool, the gauges and the package's payload
    pool [pldP]. *)
Record local_world := mkLocalWorld {
  lw_fn : LocalActivityFn;
  lw_pool : PoolState;
  lw_gauges : gauges;
  lw_pldP : pld_pool;
}.

#[global] Instance lw_field_fn : Field local_world LocalActivityFn := {|
  getf := lw_fn; setf := λ f w, mkLocalWorld f (lw_pool w) (lw_gauges w) (lw_pldP w) |}.
#[global] Instance lw_field_pool : Field local_world PoolState := {|
  getf := lw_pool; setf := λ p w, mkLocalWorld (lw_fn w) p (lw_gauges w) (lw_pldP w) |}.
#[global] Instance lw_field_gauges : Field local_world gauges := {|
  getf := lw_gauges; setf := λ g w, mkLocalWorld (lw_fn w) (lw_pool w) g (lw_pldP w) |}.
#[global] Instance lw_field_plds : Field local_world pld_pool := {|
  getf := lw_pldP; setf := λ p w, mkLocalWorld (lw_fn w) (lw_pool w) (lw_gauges w) p |}.

#[global] Instance lw_laws_gauges : FieldLaws local_world gauges.
Proof. split; by intros; repeat match goal with w : local_world |- _ => destruct w end. Qed.
#[global] Instance lw_laws_plds : FieldLaws local_world pld_pool.
Proof. split; by intros; repeat match goal with w : local_world |- _ => destruct w end. Qed.

(** [uuid] is the fresh token that replaces the SDK's one. *)
Definition la_execute (uuid : bytes) (ctx : ActivityCtx) (args : option Payloads)
    : GoM local_world (result (option Payloads)) :=
  let op := "activity_pool_execute_activity" in
  let info0 := GetInfo ctx in
  let info := mkActivityInfo uuid (AI_ActivityType_Name info0) (AI_TaskQueue info0) (AI_rest info0) in
  with_gauge (HasMetricsHandler ctx) RrMetricName (
    _ ← update (λ f, mkLocalActivityFn (la_header f) (u64 (la_seqID f + 1)));
    fn ← gets lw_fn;
    let msg := {| m_ID := la_seqID fn;
                  m_Command := Some (ByValue (C_InvokeLocalActivity
                    {| ILA_Name := AI_ActivityType_Name info; ILA_Info := info |}));
                  m_Failure := None;
                  m_Payloads := args;
                  m_Header := la_header fn |} in
    pl ← getPld;
    let '(pl, err) := Encode (mkContext (AI_TaskQueue info) "" false 0 "") pl [msg] in
    defer (putPld pl) (
      match err with
      | Err e => mret (Err e)
      | OK _ =>
          res ← pool_Exec pl;
          match res with
          | ExecError e => mret (Err (ErrOp op e))
          | ExecChan first =>
              activity_reply op "worker empty response" "invalid local activity worker response" first
          end
      end)).

(** ** Properties *)

Lemma wp_activity_reply {S} `{Field S PoolState} op em im first Q (s : S) :
  (∀ p m, accepted first = Some p -> Decode p [] = ([m], OK tt) -> Q (Ret (activity_result m)) s) ->
  (∀ e, Q (Ret (Err e)) s) ->
  (∀ e, Q (Ret (Err e)) (setf (StopStream (getf s)) s)) ->
  wp (activity_reply op em im first) Q s.
Proof.
  intros HOK HErr HStop. unfold activity_reply. apply wp_rbind, wp_receive; cbn; auto.
  intros p Ha. destruct (Decode p []) as [out [[]|e]] eqn:Hd; [|by apply wp_ret].
  destruct out as [|m [|? ?]]; apply wp_ret; eauto.
Qed.

Lemma append_details_run {S} args d (w : S) :
  append_details args d w =
    (w, match d, args with
        | [], _ => Ret args
        | _, Some a => Ret (Some (mkPayloads (Payloads_Payloads a ++ d)))
        | _, None => Panics nil_dereference
        end).
Proof. by destruct d, args. Qed.

(** How the body ends: without touching the pool, the token still registered; or
    after exactly one [Exec], the token removed. *)
Definition body_post (ctx : ActivityCtx) (w : activity_world)
    (o : outcome (result (option Payloads))) (w' : activity_world) : Prop :=
  (a_running (aw_activity w') = a_running (aw_activity w) ∧ aw_pool w' = aw_pool w ∧
   (o = Panics nil_dereference ∨ ∃ e, o = Ret (Err e))) ∨
  (a_running (aw_activity w') = delete (activity_token ctx) (a_running (aw_activity w)) ∧
   ∃ r, o = Ret r).

Lemma execute_body_cases ctx args details w :
  wp (execute_body ctx args details) (body_post ctx w) w.
Proof.
  unfold execute_body, next_seqID, body_post. wp_steps; [|by auto].
  eapply wp_run; [apply append_details_run|].
  destruct (Payloads_Payloads _) as [|p0 ps0], args as [a|]; wp_steps; try by auto.
  all: apply wp_getPld; intros pl l _; wp_steps;
    try (apply wp_putPld; intros l' _; left; by eauto).
  all: apply wp_pool_Exec; intros pst r' Hr; wp_steps; try (apply wp_putPld; intros l' _; right; by eauto).
  all: apply wp_activity_reply; intros; apply wp_putPld; intros l' _; right; by eauto.
Qed.

(** The life of a task token in the [running] map, whatever the codec, the
    pool and the worker do.  A call of [execute] either fails to read the heartbeat
    details and never registers the token; or exchanges with the pool and leaves the
    token unregistered, returning a result; or never reaches the pool, in which case
    it fails (or panics) with the token still registered.  No other token is touched. *)
Theorem execute_token_lifecycle (ctx : ActivityCtx) (args : option Payloads) (w : activity_world) :
  let '(w', o) := execute ctx args w in
  let running := a_running (aw_activity w) in
  let running' := a_running (aw_activity w') in
  (w' = w ∧ ∃ e, heartbeat_details ctx = Err e ∧ o = Ret (Err e)) ∨
  (running' = delete (activity_token ctx) running ∧ ∃ r, o = Ret r) ∨
  (running' = <[activity_token ctx := ctx]> running ∧ aw_pool w' = aw_pool w ∧
   (o = Panics nil_dereference ∨ ∃ e, o = Ret (Err e))).
Proof.
  apply wp_let. unfold execute. wp_steps; [|left; by eauto].
  apply wp_with_gauge. intros g. eapply wp_mono; [apply execute_body_cases|].
  intros o w' [(Hr & Hp & Ho)|(Hr & Ho)] g'; simpl in *; right.
  - right. by rewrite Hr, Hp.
  - left. split; [|done]. by rewrite Hr, delete_insert_eq.
Qed.

Lemma activity_result_OK `{!FailureConverterLaws} m r :
  activity_result m = OK r -> m_Failure m = None ∧ r = m_Payloads m.
Proof.
  unfold activity_result. destruct (m_Failure m) as [f|]; [|by intros [= <-]].
  destruct (String.eqb _ _); [done|]. destruct (FailureToError_some f) as [e He]. by rewrite He.
Qed.

(** What a successful run of the body went through. *)
Lemma execute_body_success `{!FailureConverterLaws} ctx args details w :
  wp (execute_body ctx args details) (λ o _, ∀ r, o = Ret (OK r) ->
    ∃ d payloads pl0 pl first p m,
      details = Some d ∧
      GetPayloads payloads = GetPayloads args ++ Payloads_Payloads d ∧
      Encode (task_context ctx) pl0
        [activity_message (u64 (a_seqID (aw_activity w) + 1)) ctx payloads (Payloads_Payloads d)]
        = (pl, OK tt) ∧
      (Exec pl (aw_pool w)).2 = ExecChan first ∧ accepted first = Some p ∧
      Decode p [] = ([m], OK tt) ∧ m_Failure m = None ∧ r = m_Payloads m) w.
Proof.
  unfold execute_body, next_seqID. wp_steps; [|done].
  eapply wp_run; [apply append_details_run|].
  destruct (Payloads_Payloads _) as [|p0 ps0] eqn:Hd, args as [a|]; wp_steps; try done.
  all: apply wp_getPld; intros pl l _; wp_steps; try (apply wp_putPld; done).
  all: apply wp_pool_Exec; intros pst r' Hr; wp_steps; try (apply wp_putPld; done).
  all: apply wp_activity_reply; intros; apply wp_putPld; try done; intros l' _ r2 Hr2.
  all: match goal with m : Message |- _ => destruct (activity_result_OK m r2) as [Hf ->]; [congruence|] end.
  all: match goal with u : unit |- _ => destruct u end;
    do 7 eexists; split; [done|]; rewrite Hd; split; [|split; [eassumption|]]; simpl in *;
    rewrite ?app_nil_r; [done|]; rewrite Hr; by split_and!.
Qed.

(** C26: an activity succeeds only through one complete exchange.  The worker
    was sent exactly one message, with a fresh id, whose payloads are the arguments
    followed by the heartbeat details and whose command says how many details there
    are; it answered with exactly one message without failure, whose payloads are the
    result. *)
Theorem execute_success `{!FailureConverterLaws} (ctx : ActivityCtx) (args r : option Payloads)
    (w w' : activity_world) :
  execute ctx args w = (w', Ret (OK r)) ->
  ∃ d payloads pl0 pl first p m,
    heartbeat_details ctx = OK (Some d) ∧
    GetPayloads payloads = GetPayloads args ++ Payloads_Payloads d ∧
    Encode (task_context ctx) pl0
      [activity_message (u64 (a_seqID (aw_activity w) + 1)) ctx payloads (Payloads_Payloads d)]
      = (pl, OK tt) ∧
    (Exec pl (aw_pool w)).2 = ExecChan first ∧ accepted first = Some p ∧
    Decode p [] = ([m], OK tt) ∧ m_Failure m = None ∧ r = m_Payloads m.
Proof.
  intros Hx. pattern w'. eapply wp_Ret_elim; [exact Hx|]. clear Hx w'.
  unfold execute. wp_steps; [|done]. apply wp_with_gauge. intros g.
  eapply wp_mono; [apply execute_body_success|]. intros o w1 Ho g' ->.
  destruct (Ho r eq_refl) as (d & payloads & pl0 & pl & first & p & m & -> & Hrest).
  by exists d, payloads, pl0, pl, first, p, m.
Qed.

(** An activity that was started without arguments (nil payloads) and has
    recorded heartbeat details panics on its next attempt with a nil dereference,
    without reaching the worker, and its token stays registered. *)
Theorem execute_nil_args_panics (ctx : ActivityCtx) (d : Payloads) (w : activity_world) :
  heartbeat_details ctx = OK (Some d) -> Payloads_Payloads d ≠ [] ->
  (execute ctx None w).2 = Panics nil_dereference ∧
  aw_pool (execute ctx None w).1 = aw_pool w ∧
  GetActivityContext (AI_TaskToken (GetInfo ctx)) (aw_activity (execute ctx None w).1) = OK ctx.
Proof.
  intros Hd Hne.
  assert (wp (execute ctx None) (λ o w', o = Panics nil_dereference ∧ aw_pool w' = aw_pool w ∧
    GetActivityContext (AI_TaskToken (GetInfo ctx)) (aw_activity w') = OK ctx) w) as Hwp; [|done].
  unfold execute. rewrite Hd. wp_steps. apply wp_with_gauge. intros g.
  unfold execute_body, next_seqID. wp_steps. eapply wp_run; [apply append_details_run|].
  destruct (Payloads_Payloads d) as [|p0 ps0]; [done|]. cbn. intros g'. split_and!; [done|done|].
  unfold GetActivityContext; simpl. by rewrite lookup_insert_eq.
Qed.


(** Payload objects that go back to a pool never carry the bytes of the
    exchange they were used for: whatever way a call of [execute] (activity or local
    activity) ends, a pool that held only wiped objects holds only wiped objects. *)
Theorem activity_payloads_stay_wiped (ctx : ActivityCtx) (args : option Payloads) (uuid : bytes) :
  (∀ w : activity_world, all_wiped w -> all_wiped (execute ctx args w).1) ∧
  (∀ w : local_world, all_wiped w -> all_wiped (la_execute uuid ctx args w).1).
Proof.
  split; intros w Hw.
  - change (wp (execute ctx args) (λ _ w', all_wiped w') w).
    unfold execute. wp_steps; [|done]. apply wp_with_gauge. intros g.
    unfold execute_body, next_seqID. wp_steps; [|by intros].
    eapply wp_run; [apply append_details_run|].
    destruct (Payloads_Payloads _) as [|p0 ps0], args as [aa|]; wp_steps; try by intros.
    all: apply wp_getPld; intros pl l Hl; destruct (Hl Hw) as [_ Hl'];
      wp_steps; try (apply wp_putPld; intros l' Hl2 g'; by apply Hl2).
    all: apply wp_pool_Exec; intros pst r' Hr; wp_steps;
      try (apply wp_putPld; intros l' Hl2 g'; by apply Hl2).
    all: apply wp_activity_reply; intros; apply wp_putPld; intros l' Hl2 g'; by apply Hl2.
  - change (wp (la_execute uuid ctx args) (λ _ w', all_wiped w') w).
    unfold la_execute. apply wp_with_gauge. intros g. wp_steps.
    apply wp_getPld; intros pl l Hl; destruct (Hl Hw) as [_ Hl'];
      wp_steps; try (apply wp_putPld; intros l' Hl2 g'; by apply Hl2).
    all: apply wp_pool_Exec; intros pst r' Hr; wp_steps;
      try (apply wp_putPld; intros l' Hl2 g'; by apply Hl2).
    all: apply wp_activity_reply; intros; apply wp_putPld; intros l' Hl2 g'; by apply Hl2.
Qed.

(** The message of a local activity. *)
Definition local_activity_message (id : Z) (uuid : bytes) (ctx : ActivityCtx)
    (args : option Payloads) (header : option Header) : Message :=
  let info := GetInfo ctx in
  mkMessage id
    (Some (ByValue (C_InvokeLocalActivity (mkInvokeLocalActivity (AI_ActivityType_Name info)
       (mkActivityInfo uuid (AI_ActivityType_Name info) (AI_TaskQueue info) (AI_rest info))))))
    None args header.

(** A local activity succeeds only through one complete exchange: the
    worker was sent one message carrying the arguments, the header captured when the
    command was received and the fresh token, numbered by the attempts of this
    command; it answered with exactly one message without failure, whose payloads
    are the result. *)
Theorem la_execute_success `{!FailureConverterLaws} (uuid : bytes) (ctx : ActivityCtx)
    (args r : option Payloads) (w w' : local_world) :
  la_execute uuid ctx args w = (w', Ret (OK r)) ->
  la_seqID (lw_fn w') = u64 (la_seqID (lw_fn w) + 1) ∧
  ∃ pl0 pl first p m,
    Encode (task_context ctx) pl0
      [local_activity_message (la_seqID (lw_fn w')) uuid ctx args (la_header (lw_fn w))] = (pl, OK tt) ∧
    (Exec pl (lw_pool w)).2 = ExecChan first ∧ accepted first = Some p ∧
    Decode p [] = ([m], OK tt) ∧ m_Failure m = None ∧ r = m_Payloads m.
Proof.
  intros Hx. pattern w'. eapply wp_Ret_elim; [exact Hx|]. clear Hx w'.
  unfold la_execute. apply wp_with_gauge. intros g. wp_steps.
  apply wp_getPld; intros pl l _; wp_steps; try (apply wp_putPld; by intros).
  all: apply wp_pool_Exec; intros pst r' Hr; wp_steps; try (apply wp_putPld; by intros).
  apply wp_activity_reply; try (intros; apply wp_putPld; by intros).
  intros q m Hacc Hdec. apply wp_putPld. intros l' _ g' Hr2.
  destruct (activity_result_OK m r) as [Hf ->]; [congruence|].
  match goal with u : unit |- _ => destruct u end.
  simpl in *. split; [done|]. do 5 eexists. split; [eassumption|]. rewrite Hr. by split_and!.
Qed.

End Activity.

(** ** Witnesses *)

#[local] Existing Instance ConcreteApi.
#[local] Existing Instance ConcreteSdk.
#[local] Existing Instance ConcreteFailureConverter.
#[local] Existing Instance ConcreteWire.
#[local] Existing Instance ScriptedPool.

(** An activity context is the heartbeat details of the previous attempt, if any. *)
Definition ConcreteRuntime : ActivityRuntime := {|
  ActivityCtx := option Payloads;
  ctx_values := λ _, [];
  HasHeartbeatDetails := λ d, match d with Some _ => true | None => false end;
  GetHeartbeatDetails := λ d v, OK (match d with Some p => Some p | None => v end);
  GetInfo := λ _, mkActivityInfo (String.list_byte_of_string "token") "Greet" "default" tt;
  HasMetricsHandler := λ _, true;
|}.
#[local] Existing Instance ConcreteRuntime.

(** A worker that answers once, with one message without failure. *)
Definition example_reply : exec_result :=
  ExecChan (Some (PExecPayload
    (Encode zero_Context zero_payload [mkMessage 1 None None (Some (mkPayloads ["hello"])) None]).1)).

Definition example_world : activity_world :=
  mkActivityWorld NewActivityDefinition (mkScripted [example_reply] [] 0) (mkGauges []).

Lemma execute_success_witness :
  ∃ d payloads pl0 pl first p m,
    heartbeat_details (Some (mkPayloads ["50%"])) = OK (Some d) ∧
    GetPayloads payloads = GetPayloads (Some (mkPayloads ["arg"])) ++ Payloads_Payloads d ∧
    Encode (task_context (Some (mkPayloads ["50%"]))) pl0
      [activity_message 1 (Some (mkPayloads ["50%"])) payloads (Payloads_Payloads d)] = (pl, OK tt) ∧
    (Exec pl (aw_pool example_world)).2 = ExecChan first ∧ accepted first = Some p ∧
    Decode p [] = ([m], OK tt) ∧ m_Failure m = None ∧ Some (mkPayloads ["hello"]) = m_Payloads m.
Proof.
  refine (execute_success (Some (mkPayloads ["50%"])) (Some (mkPayloads ["arg"]))
    (Some (mkPayloads ["hello"])) example_world
    (execute (Some (mkPayloads ["50%"])) (Some (mkPayloads ["arg"])) example_world).1 _).
  apply run_outcome. vm_compute. reflexivity.
Defined.

Lemma execute_nil_args_panics_witness :
  (execute (Some (mkPayloads ["50%"])) None example_world).2 = Panics nil_dereference.
Proof.
  exact (proj1 (execute_nil_args_panics (Some (mkPayloads ["50%"])) (mkPayloads ["50%"]) example_world
    eq_refl ltac:(discriminate))).
Defined.

(** A codec that encodes nothing. *)
Definition RefusingCodec : Codec := {|
  Encode := λ _ p _, (p, Err (LibErr "unsupported value"));
  Decode := λ _ acc, (acc, OK tt);
  DecodeWorkerInfo := λ _ wi, (wi, OK tt);
|}.


Definition example_local : local_world :=
  mkLocalWorld (NewLocalActivityFn None) (mkScripted [example_reply] [] 0) (mkGauges []) (mkPldPool []).

Lemma la_execute_success_witness :
  la_seqID (lw_fn (la_execute [] None (Some (mkPayloads ["arg"])) example_local).1) = 1%Z.
Proof.
  refine (proj1 (la_execute_success [] None (Some (mkPayloads ["arg"])) (Some (mkPayloads ["hello"]))
    example_local (la_execute [] None (Some (mkPayloads ["arg"])) example_local).1 _)).
  apply run_outcome. vm_compute. reflexivity.
Defined.
