(* ===== verification/ActivityThreads.v ===== *)
(** * ActivityThreads: activities that run at the same time (src/aggregatedpool/activity.go)

    The SDK calls [execute] from as many goroutines as there are activity tasks, on one
    [Activity] object; heartbeats arrive on yet others.  This file splits [execute]
    into the steps between which other goroutines may run: each is one access to the
    table of running activities, the counter, the payload pool or the worker pool, with
    the local computation that follows it; the metrics at the start (a queue size, a
    gauge) are one step.  Run alone the steps are [execute] of [Activity]; run in any
    interleaving the table holds exactly the activities that are being executed. *)
From S2P Require Import Prelude Api Doubles GoM Protocol Codec Converter Exchange Activity.
From stdpp Require Import base gmap list strings relations.
From Stdlib Require Import ZArith Lia.

Local Open Scope string_scope.
Local Open Scope list_scope.

#[local] Set Warnings "-clear-no-such-hyp".

(** ** Payload objects

    What a call does with the [payload.Payload] it takes from the pool.  [R] is what it
    holds of the object: the object's value, or a reference to it. *)
Class PayloadStore `{Api} (S R : Type) := {
  store_get : GoM S R;
  (** [codec.Encode(ctx, pl, msg)] fills the object. *)
  store_encode : Context -> R -> list Message -> GoM S (R * result unit);
  (** What the worker pool is given. *)
  store_read : R -> S -> payload;
  store_put : R -> GoM S unit;
}.

(** An object is its value: nothing else refers to it. *)
#[global] Instance ByValue `{Api} `{!Codec} {S} `{Field S pld_pool} : PayloadStore S payload := {|
  store_get := getPld;
  store_encode := λ ctx pl msgs, mret (Encode ctx pl msgs);
  store_read := λ pl _, pl;
  store_put := putPld;
|}.

(** ** The steps *)

(** Where a call of [execute] is.  [q] is the queue size the deferred metric was
    given; the flag of the last states says whether the token is still registered. *)
Inductive pc_of `{Api} (R : Type) : Type :=
| Start (args : option Payloads)
| Registered (args details : option Payloads)
| Measured (args details : option Payloads) (q : option Z)
| Numbered (id : Z) (payloads : option Payloads) (details : list Payload) (q : option Z)
| Holding (pl : R) (id : Z) (payloads : option Payloads) (details : list Payload) (q : option Z)
| Encoded (pl : R) (q : option Z)
| Sent (pl : R) (res : exec_result) (q : option Z)
| Unregistered (pl : R) (res : exec_result) (q : option Z)
| Replied (pl : R) (o : outcome (result (option Payloads))) (q : option Z) (registered : bool)
| Leaving (o : outcome (result (option Payloads))) (q : option Z) (registered : bool)
| Left (o : outcome (result (option Payloads))) (registered : bool).
Arguments Start {_ _} args.
Arguments Registered {_ _} args details.
Arguments Measured {_ _} args details q.
Arguments Numbered {_ _} id payloads details q.
Arguments Holding {_ _} pl id payloads details q.
Arguments Encoded {_ _} pl q.
Arguments Sent {_ _} pl res q.
Arguments Unregistered {_ _} pl res q.
Arguments Replied {_ _} pl o q registered.
Arguments Leaving {_ _} o q registered.
Arguments Left {_ _} o registered.

Section Steps.
Context `{Sdk} `{!Codec} `{!Pool} `{!ActivityRuntime}.
Context {S R : Type} `{!Field S Activity} `{!Field S PoolState} `{!Field S gauges} `{!PayloadStore S R}.

Definition exec_op : string := "activity_pool_execute_activity".

(** The message is built: the heartbeat details are appended to the arguments, which
    panics when there are none. *)
Definition append_step (id : Z) (args : option Payloads) (details : list Payload) (q : option Z)
    : GoM S (pc_of R) := λ w,
  let '(w', o) := append_details args details w in
  (w', match o with
       | Ret payloads => Ret (Numbered id payloads details q)
       | Panics v => Ret (Leaving (Panics v) q true)
       | Fatal m => Fatal m
       | Blocked => Blocked
       | NoFuel => NoFuel
       end).

(** One step of the call for the context [ctx]. *)
Definition execute_step (ctx : ActivityCtx) (c : pc_of R) : GoM S (pc_of R) :=
  match c with
  | Start args =>
      match heartbeat_details ctx with
      | Err e => mret (Left (Ret (Err e)) false)
      | OK details =>
          _ ← update (set_running <[activity_token ctx := ctx]>);
          mret (Registered args details)
      end
  | Registered args details =>
      if HasMetricsHandler ctx then
        q ← gets (λ w, QueueSize (getf w));
        _ ← gauge_Update RrMetricName q;
        q' ← gets (λ w, QueueSize (getf w));
        mret (Measured args details (Some q'))
      else mret (Measured args details None)
  | Measured args details q =>
      id ← next_seqID;
      match details with
      | None => mret (Leaving (Panics nil_dereference) q true)
      | Some d => append_step id args (Payloads_Payloads d) q
      end
  | Numbered id payloads details q =>
      pl ← store_get;
      mret (Holding pl id payloads details q)
  | Holding pl id payloads details q =>
      r ← store_encode (task_context ctx) pl [activity_message id ctx payloads details];
      mret (match r.2 with
            | Err e => Replied r.1 (Ret (Err e)) q true
            | OK _ => Encoded r.1 q
            end)
  | Encoded pl q =>
      p ← gets (store_read pl);
      res ← pool_Exec p;
      mret (Sent pl res q)
  | Sent pl res q =>
      _ ← update (set_running (delete (activity_token ctx)));
      mret (Unregistered pl res q)
  | Unregistered pl res q =>
      match res with
      | ExecError e => mret (Replied pl (Ret (Err (ErrOp exec_op e))) q false)
      | ExecChan first =>
          r ← activity_reply exec_op "activity worker empty response"
                "invalid activity worker response" first;
          mret (Replied pl (Ret r) q false)
      end
  | Replied pl o q reg => _ ← store_put pl; mret (Leaving o q reg)
  | Leaving o q reg =>
      _ ← match q with Some q => gauge_Update RrMetricName q | None => mret tt end;
      mret (Left o reg)
  | Left o reg => mret (Left o reg)
  end.

(** At most ten steps are left. *)
Definition remaining (c : pc_of R) : nat :=
  match c with
  | Start _ => 10 | Registered _ _ => 9 | Measured _ _ _ => 8 | Numbered _ _ _ _ => 7
  | Holding _ _ _ _ _ => 6 | Encoded _ _ => 5 | Sent _ _ _ => 4 | Unregistered _ _ _ => 3
  | Replied _ _ _ _ => 2 | Leaving _ _ _ => 1 | Left _ _ => 0
  end.

(** *** Calls at the same time *)

(** Calls of [execute], each at its own point, over one state. *)
Record machine := mkMachine {
  threads : list (ActivityCtx * pc_of R);
  shared : S;
}.

(** One of the calls takes a step. *)
Inductive moves (m : machine) : machine -> Prop :=
| moves_thread i ctx c c' w' :
    threads m !! i = Some (ctx, c) -> 0 < remaining c ->
    execute_step ctx c (shared m) = (w', Ret c') ->
    moves m (mkMachine (<[i := (ctx, c')]> (threads m)) w').

(** The SDK may start another call at any time.  Every activity task of the server
    has its own token. *)
Inductive goes (m : machine) : machine -> Prop :=
| goes_moves m' : moves m m' -> goes m m'
| goes_call ctx args :
    activity_token ctx ∉ (λ th, activity_token th.1) <$> threads m ->
    goes m (mkMachine (threads m ++ [(ctx, Start args)]) (shared m)).

(** *** Schedules *)

(** The call number [i] takes a step. *)
Definition move_at (i : nat) (m : machine) : option machine :=
  match threads m !! i with
  | Some (ctx, c) =>
      if Nat.ltb 0 (remaining c) then
        match execute_step ctx c (shared m) with
        | (w', Ret c') => Some (mkMachine (<[i := (ctx, c')]> (threads m)) w')
        | _ => None
        end
      else None
  | None => None
  end.

Fixpoint schedule (l : list nat) (m : machine) : option machine :=
  match l with
  | [] => Some m
  | i :: l => match move_at i m with Some m' => schedule l m' | None => None end
  end.

Lemma schedule_goes l m m' : schedule l m = Some m' -> rtc goes m m'.
Proof.
  revert m. induction l as [|i l IH]; intros m; simpl; [by intros [= ->]|].
  unfold move_at. destruct (threads m !! i) as [[ctx c]|] eqn:Hi; [|done].
  destruct (Nat.ltb_spec 0 (remaining c)); [|done].
  destruct (execute_step ctx c (shared m)) as [w' [c'| | | |]] eqn:Hs; try done. intros Hr%IH.
  eapply rtc_l; [|exact Hr]. by apply goes_moves, (moves_thread m i ctx c).
Qed.

End Steps.

Section Threads.
Context `{Sdk} `{!Codec} `{!Pool} `{!ActivityRuntime}.

Abbreviation pc := (pc_of payload).
Abbreviation machine_v := (machine (S := activity_world) (R := payload)).

Fixpoint steps (ctx : ActivityCtx) (n : nat) (c : pc) : GoM activity_world pc :=
  match n with
  | O => mret c
  | Datatypes.S n => c' ← execute_step ctx c; steps ctx n c'
  end.

(** ** Alone *)

Lemma steps_S ctx n c c' w w' :
  execute_step ctx c w = (w', Ret c') -> steps ctx (S n) c w = steps ctx n c' w'.
Proof. intros Hs. simpl. by apply bind_ret. Qed.

Lemma steps_left ctx n o reg w : steps ctx n (Left o reg) w = (w, Ret (Left o reg)).
Proof. induction n as [|n IH]; [done|]. exact IH. Qed.

(** The deferred update of the gauge. *)
Definition leave (q : option Z) (w : activity_world) : activity_world :=
  match q with
  | Some q => setf (mkGauges (gauge_updates (getf w) ++ [(RrMetricName, q)])) w
  | None => w
  end.

Lemma steps_leaving ctx n o q reg w :
  steps ctx (S n) (Leaving o q reg) w = (leave q w, Ret (Left o reg)).
Proof. erewrite steps_S; [apply steps_left|]. by destruct q. Qed.

Lemma steps_replied ctx n pl o q reg w :
  steps ctx (S (S n)) (Replied pl o q reg) w = (leave q (putPld pl w).1, Ret (Left o reg)).
Proof. erewrite steps_S; [apply steps_leaving|done]. Qed.

Lemma defer_put {A} pl (m : GoM activity_world A) w w' a :
  m w = (w', Ret a) -> defer (putPld pl) m w = ((putPld pl w').1, Ret a).
Proof. intros Hm. unfold defer. by rewrite Hm. Qed.

Lemma activity_reply_returns op em im first (w : activity_world) :
  ∃ w' r, activity_reply op em im first w = (w', Ret r).
Proof.
  assert (Hw : wp (activity_reply op em im first) (λ o _, ∃ r, o = Ret r) w)
    by (apply wp_activity_reply; eauto).
  destruct Hw as [r Hr]. eexists _, r. by apply run_outcome.
Qed.

Lemma getPld_returns (w : activity_world) : ∃ w' pl, getPld w = (w', Ret pl).
Proof.
  assert (Hw : wp getPld (λ o _, ∃ pl, o = Ret pl) w) by (apply wp_getPld; eauto).
  destruct Hw as [pl Hpl]. eexists _, pl. by apply run_outcome.
Qed.

Lemma step_exec ctx pl q w p r :
  Exec pl (aw_pool w) = (p, r) ->
  execute_step ctx (Encoded pl q) w = (setf p w, Ret (Sent pl r q)).
Proof. intros He. simpl. unfold mbind, GoM_bind, after, gets, pool_Exec. simpl. by rewrite He. Qed.

(** From the exchange on. *)
Lemma steps_encoded ctx pl q w :
  let m := res ← pool_Exec pl;
           _ ← update (set_running (delete (activity_token ctx)));
           match res with
           | ExecError e => mret (Err (ErrOp exec_op e))
           | ExecChan first =>
               activity_reply exec_op "activity worker empty response"
                 "invalid activity worker response" first
           end in
  steps ctx 5 (Encoded pl q) w =
    (leave q (defer (putPld pl) m w).1, Ret (Left (defer (putPld pl) m w).2 false)).
Proof.
  intros m. destruct (Exec pl (aw_pool w)) as [p r] eqn:He.
  erewrite steps_S by exact (step_exec ctx pl q w p r He). erewrite steps_S by done.
  assert (Hx : pool_Exec pl w = (setf p w, Ret r)) by (unfold pool_Exec; simpl; by rewrite He).
  destruct r as [e|first].
  - erewrite steps_S by done. rewrite steps_replied. erewrite (defer_put pl m); [done|].
    unfold m. by erewrite bind_ret by exact Hx.
  - match goal with |- steps _ _ _ ?w = _ => set (w1 := w) end.
    destruct (activity_reply_returns exec_op "activity worker empty response"
      "invalid activity worker response" first w1) as (w2 & r & Hr).
    erewrite steps_S by (simpl; erewrite bind_ret; [|exact Hr]; done). rewrite steps_replied.
    erewrite (defer_put pl m); [done|]. unfold m. erewrite bind_ret by exact Hx. exact Hr.
Qed.

(** From the counter on. *)
Lemma steps_measured ctx args details q w :
  ∃ reg, steps ctx 8 (Measured args details q) w =
    (leave q (execute_body ctx args details w).1, Ret (Left (execute_body ctx args details w).2 reg)).
Proof.
  unfold execute_body. erewrite !(bind_ret next_seqID) by done.
  destruct details as [d|]; [|exists true; erewrite steps_S by done; by rewrite steps_leaving].
  set (id := a_seqID _). set (w0 := (update _ w).1).
  pose proof (append_details_run args (Payloads_Payloads d) w0) as Ha.
  assert (Hstep : execute_step ctx (Measured args (Some d) q) w =
    append_step id args (Payloads_Payloads d) q w0) by done.
  unfold append_step in Hstep. rewrite Ha in Hstep.
  destruct (match Payloads_Payloads d with [] => _ | _ => _ end) as [payloads|v|m| |] eqn:Ho;
    try by destruct (Payloads_Payloads d), args.
  - rewrite (steps_S _ _ _ _ _ _ Hstep). erewrite !(bind_ret (append_details _ _)) by exact Ha.
    destruct (getPld_returns w0) as (w1 & pl & Hpl). erewrite !(bind_ret getPld) by exact Hpl.
    erewrite steps_S by (simpl; erewrite bind_ret by exact Hpl; done).
    destruct (Encode _ pl _) as [pl' [[]|e]] eqn:He.
    + exists false. erewrite steps_S; [apply (steps_encoded ctx pl' q w1)|].
      simpl. go_unfold. by rewrite He.
    + exists true. erewrite steps_S; [apply (steps_replied ctx 3)|].
      simpl. go_unfold. by rewrite He.
  - exists true. rewrite (steps_S _ _ _ _ _ _ Hstep), steps_leaving.
    unfold mbind, GoM_bind, after. by rewrite Ha.
Qed.

(** C18: the steps, taken one after the other by a single goroutine, are
    [execute]: ten of them end in the state and with the outcome of [execute]. *)
Theorem execute_in_steps (ctx : ActivityCtx) (args : option Payloads) (w : activity_world) :
  ∃ reg, steps ctx 10 (Start args) w =
    ((execute ctx args w).1, Ret (Left (execute ctx args w).2 reg)).
Proof.
  destruct (heartbeat_details ctx) as [details|e] eqn:Hd.
  2: { exists false. erewrite steps_S; [|simpl; by rewrite Hd]. rewrite steps_left.
       unfold execute. by rewrite Hd. }
  erewrite steps_S by (simpl; by rewrite Hd). unfold execute. rewrite Hd.
  erewrite rbind_OK, bind_ret by done. set (w0 := setf (set_running _ _) w).
  destruct (HasMetricsHandler ctx) eqn:Hm.
  - set (w1 := (gauge_Update RrMetricName (QueueSize (aw_pool w0)) w0).1).
    rewrite (steps_S _ _ _ (Measured args details (Some (QueueSize (aw_pool w1)))) _ w1)
      by (simpl; by rewrite Hm).
    destruct (steps_measured ctx args details (Some (QueueSize (aw_pool w1))) w1) as [reg ->].
    exists reg.
    change (with_gauge true _ _ w0) with
      (defer (gauge_Update RrMetricName (QueueSize (aw_pool w1))) (execute_body ctx args details) w1).
    pose proof (execute_body_cases ctx args details w1) as Hb. unfold wp, body_post in Hb.
    unfold defer. destruct (execute_body ctx args details w1) as [w2 o]. simpl in Hb.
    destruct Hb as [(_ & _ & [-> | [e ->]])|(_ & r & ->)]; done.
  - rewrite (steps_S _ _ _ (Measured args details None) _ w0) by (simpl; by rewrite Hm).
    destruct (steps_measured ctx args details None w0) as [reg ->]. by exists reg.
Qed.

(** ** Together *)

(** Whether the call has its token in the table. *)
Definition holds {R} (c : pc_of R) : bool :=
  match c with
  | Start _ => false
  | Registered _ _ | Measured _ _ _ | Numbered _ _ _ _ | Holding _ _ _ _ _
  | Encoded _ _ | Sent _ _ _ => true
  | Unregistered _ _ _ => false
  | Replied _ _ _ reg | Leaving _ _ reg | Left _ reg => reg
  end.

(** A call that keeps its token past the exchange is one that failed. *)
Definition honest {R} (c : pc_of R) : Prop :=
  match c with
  | Replied _ o _ true | Leaving o _ true | Left o true =>
      (∃ v, o = Panics v) ∨ (∃ e, o = Ret (Err e))
  | _ => True
  end.

(** What one step does to the table. *)
Definition table_after (ctx : ActivityCtx) (was will : bool) (t : gmap string ActivityCtx)
    : gmap string ActivityCtx :=
  match was, will with
  | false, true => <[activity_token ctx := ctx]> t
  | true, false => delete (activity_token ctx) t
  | _, _ => t
  end.

Definition running_of (w : activity_world) : gmap string ActivityCtx := a_running (aw_activity w).

(** A step returns, changes the table by its own token only, and comes closer to the
    end of the call. *)
Definition step_post (ctx : ActivityCtx) (c : pc) (w : activity_world)
    (o : outcome pc) (w' : activity_world) : Prop :=
  ∃ c', o = Ret c' ∧ running_of w' = table_after ctx (holds c) (holds c') (running_of w) ∧
        (honest c -> honest c') ∧ remaining c' <= pred (remaining c).

Ltac arrive :=
  eexists; split; [reflexivity|]; cbn [holds honest remaining];
  repeat match goal with reg : bool |- _ => destruct reg end;
  (split; [reflexivity|split; [by eauto|cbn; lia]]).

Lemma wp_step ctx c w : wp (execute_step ctx c) (step_post ctx c w) w.
Proof.
  destruct c as [args|args d|args d q|id p d q|pl id p d q|pl q|pl res q|pl res q|pl o q reg|o q reg|o reg];
    cbn [execute_step]; unfold next_seqID, gauge_Update; wp_steps; try arrive.
  - eapply wp_run; [unfold append_step; by rewrite append_details_run|].
    destruct (Payloads_Payloads _), args; arrive.
  - apply wp_getPld. intros pl l _. arrive.
  - cbn [store_encode ByValue]. wp_steps. destruct (Encode _ _ _) as [pl' [[]|e]]; cbn; arrive.
  - apply wp_pool_Exec. intros. arrive.
  - apply wp_activity_reply; intros; arrive.
Qed.

(** The table holds the calls that hold their token, and nothing else. *)
Record table_exact (m : machine_v) : Prop := {
  te_tokens : NoDup ((λ th, activity_token th.1) <$> threads m);
  te_table : ∀ t ctx, running_of (shared m) !! t = Some ctx <->
    activity_token ctx = t ∧ ∃ c, (ctx, c) ∈ threads m ∧ holds c = true;
  te_honest : Forall (λ th, honest th.2) (threads m);
}.

(** Moving a thread keeps its context. *)
Lemma tokens_insert (l : list (ActivityCtx * pc)) i ctx c c' :
  l !! i = Some (ctx, c) ->
  (λ th, activity_token th.1) <$> <[i := (ctx, c')]> l = (λ th, activity_token th.1) <$> l.
Proof. intros Hi. rewrite list_fmap_insert. apply list_insert_id. by rewrite list_lookup_fmap, Hi. Qed.

(** With different tokens, a context determines its call. *)
Lemma thread_unique (l : list (ActivityCtx * pc)) i ctx c ctx' c' :
  NoDup ((λ th, activity_token th.1) <$> l) -> l !! i = Some (ctx, c) ->
  (ctx', c') ∈ l -> activity_token ctx' = activity_token ctx -> ctx' = ctx ∧ c' = c.
Proof.
  intros Hnd Hi [j Hj]%list_elem_of_lookup Ht.
  assert (j = i) as ->; [|naive_solver].
  apply (NoDup_lookup _ j i (activity_token ctx) Hnd); rewrite list_lookup_fmap;
    [rewrite Hj|rewrite Hi]; simpl; congruence.
Qed.

Lemma elem_of_insert_thread (l : list (ActivityCtx * pc)) i ctx c c' ctx0 c0 :
  NoDup ((λ th, activity_token th.1) <$> l) -> l !! i = Some (ctx, c) ->
  (ctx0, c0) ∈ <[i := (ctx, c')]> l <->
  (ctx0 = ctx ∧ c0 = c') ∨ (activity_token ctx0 ≠ activity_token ctx ∧ (ctx0, c0) ∈ l).
Proof.
  intros Hnd Hi. assert (Hlen : i < length l) by (by eapply lookup_lt_Some).
  split.
  - intros [j Hj]%list_elem_of_lookup. destruct (decide (j = i)) as [->|Hne].
    + rewrite list_lookup_insert_eq in Hj by done. left. naive_solver.
    + rewrite list_lookup_insert_ne in Hj by done. right. split; [|by eapply list_elem_of_lookup_2].
      intros Ht. apply Hne. apply (NoDup_lookup _ j i (activity_token ctx) Hnd);
        rewrite list_lookup_fmap; [rewrite Hj|rewrite Hi]; simpl; congruence.
  - intros [[-> ->]|[Hne [j Hj]%list_elem_of_lookup]]; apply list_elem_of_lookup.
    + exists i. by apply list_lookup_insert_eq.
    + exists j. rewrite list_lookup_insert_ne; [done|]. intros ->. naive_solver.
Qed.

(** The entry of a call of the machine. *)
Lemma own_entry m i ctx c :
  table_exact m -> threads m !! i = Some (ctx, c) ->
  running_of (shared m) !! activity_token ctx = if holds c then Some ctx else None.
Proof.
  intros [Hnd Ht _] Hi. destruct (holds c) eqn:Hc.
  - apply Ht. split; [done|]. exists c. split; [by eapply list_elem_of_lookup_2|done].
  - apply eq_None_ne_Some. intros ctx' (Hk & c' & Hin & Hc')%Ht.
    destruct (thread_unique _ _ _ _ _ _ Hnd Hi Hin Hk) as [-> ->]. congruence.
Qed.

Lemma table_after_lookup ctx (was will : bool) (t : gmap string ActivityCtx) k :
  t !! activity_token ctx = (if was then Some ctx else None) ->
  table_after ctx was will t !! k =
    if decide (k = activity_token ctx) then (if will then Some ctx else None) else t !! k.
Proof.
  unfold table_after. intros Ht.
  destruct was, will, (decide (k = activity_token ctx)) as [->|]; by simplify_map_eq.
Qed.

Lemma moves_exact m m' : moves m m' -> table_exact m -> table_exact m'.
Proof.
  intros [i ctx c c' w' Hi Hr Hs] Hm. pose proof (own_entry _ _ _ _ Hm Hi) as Hown.
  destruct Hm as [Hnd Ht Hh].
  pose proof (wp_step ctx c (shared m)) as (c1 & Hc & Htab & Hhon & _).
  rewrite Hs in Hc, Htab. simpl in Hc, Htab. simplify_eq. split; simpl.
  - by rewrite (tokens_insert _ _ _ _ _ Hi).
  - intros t ctx0. rewrite Htab, (table_after_lookup _ _ _ _ _ Hown).
    setoid_rewrite (elem_of_insert_thread _ _ _ _ c1 _ _ Hnd Hi).
    destruct (decide (t = activity_token ctx)) as [->|Hne]; [destruct (holds c1) eqn:Hc1|].
    + clear Ht Hs Hown Htab. naive_solver.
    + clear Ht Hs Hown Htab. naive_solver congruence.
    + rewrite Ht. naive_solver.
  - apply Forall_insert; [done|]. apply Hhon. by apply (Forall_lookup_1 _ _ _ _ Hh Hi).
Qed.

Lemma goes_exact m m' : goes m m' -> table_exact m -> table_exact m'.
Proof.
  intros [m1 Hmv|ctx args Hnew]; [by apply moves_exact|]. intros [Hnd Ht Hh]. split; simpl.
  - rewrite fmap_app. apply NoDup_app. split_and!; [done| |apply NoDup_singleton].
    intros t Hin ->%list_elem_of_singleton. done.
  - intros t ctx0. rewrite Ht. setoid_rewrite elem_of_app. setoid_rewrite list_elem_of_singleton.
    naive_solver.
  - apply Forall_app. by repeat constructor.
Qed.

Lemma reachable_exact w m :
  running_of w = ∅ -> rtc goes (mkMachine [] w) m -> table_exact m.
Proof.
  intros Hw Hr. eapply (rtc_ind_r table_exact); [|by intros; eapply goes_exact|exact Hr].
  split; simpl; [constructor| |constructor]. intros t ctx. rewrite Hw, lookup_empty. set_solver.
Qed.

(** The table answers a heartbeat with the call that holds the token. *)
Lemma get_context_iff m token ctx :
  table_exact m ->
  GetActivityContext token (aw_activity (shared m)) = OK ctx <->
    activity_token ctx = bytesToStr token ∧ ∃ c, (ctx, c) ∈ threads m ∧ holds c = true.
Proof.
  intros [_ Ht _]. rewrite <- Ht. unfold GetActivityContext. fold (running_of (shared m)).
  destruct (running_of _ !! _) as [c|].
  - split; [by intros [= ->]|by intros [= ->]].
  - split; intros Hd; discriminate Hd.
Qed.

(** C16: whatever the interleaving of the calls of [execute], a heartbeat reaches
    the context registered for its token exactly while that activity is registered;
    no other activity's context is ever returned.  An activity that returned a result is no
    longer registered, and when all calls ended with a result the table is empty. *)
Theorem heartbeat_reaches_its_activity (w : activity_world) (m : machine_v)
    (Hnew : running_of w = ∅) (Hreach : rtc goes (mkMachine [] w) m) :
  (∀ token ctx, GetActivityContext token (aw_activity (shared m)) = OK ctx <->
     activity_token ctx = bytesToStr token ∧ ∃ c, (ctx, c) ∈ threads m ∧ holds c = true) ∧
  (∀ ctx r reg, (ctx, Left (Ret (OK r)) reg) ∈ threads m ->
     ∃ e, GetActivityContext (AI_TaskToken (GetInfo ctx)) (aw_activity (shared m)) = Err e) ∧
  ((∀ ctx c, (ctx, c) ∈ threads m -> ∃ r reg, c = Left (Ret (OK r)) reg) ->
   running_of (shared m) = ∅).
Proof.
  pose proof (reachable_exact w m Hnew Hreach) as Hm.
  split; [intros token ctx; by apply get_context_iff|]. destruct Hm as [Hnd Ht Hh].
  assert (Hleft : ∀ ctx r reg, (ctx, Left (Ret (OK r)) reg) ∈ threads m -> reg = false).
  { intros ctx r [] Hin; [|done]. rewrite Forall_forall in Hh.
    destruct (Hh _ Hin) as [[v Hv]|[e He]]; done. }
  unfold GetActivityContext. fold (running_of (shared m)). split.
  - intros ctx r reg Hin. fold (activity_token ctx).
    apply list_elem_of_lookup in Hin as [i Hi].
    rewrite (own_entry m i ctx _ (Build_table_exact _ Hnd Ht Hh) Hi). simpl.
    rewrite (Hleft ctx r reg) by (by eapply list_elem_of_lookup_2). by eexists.
  - intros Hall. apply map_empty. intros t. apply eq_None_ne_Some. intros ctx (Hk & c & Hin & Hc)%Ht.
    destruct (Hall _ _ Hin) as (r & reg & ->). simpl in Hc. by rewrite (Hleft _ _ _ Hin) in Hc.
Qed.

(** ** The calls end *)

(** Steps left to all calls together. *)
Definition work (m : machine_v) : nat := sum_list ((λ th, remaining th.2) <$> threads m).

Definition finished (th : ActivityCtx * pc) : Prop := remaining th.2 = 0.

Lemma sum_list_insert (f : ActivityCtx * pc -> nat) l i x y :
  l !! i = Some x -> sum_list (f <$> <[i := y]> l) + f x = sum_list (f <$> l) + f y.
Proof.
  revert i. induction l as [|z l IH]; intros [|i] Hi; simplify_eq/=; [lia|].
  specialize (IH i Hi). lia.
Qed.

Lemma moves_work m m' : moves m m' -> work m' < work m.
Proof.
  intros [i ctx c c' w' Hi Hr Hs].
  pose proof (wp_step ctx c (shared m)) as (c1 & Hc & _ & _ & Hrem).
  rewrite Hs in Hc. simplify_eq/=.
  pose proof (sum_list_insert (λ th, remaining th.2) _ _ _ (ctx, c1) Hi) as Hsum.
  unfold work. simpl in *. lia.
Qed.

(** A call that has not finished can always move. *)
Lemma unfinished_moves m i ctx c :
  threads m !! i = Some (ctx, c) -> 0 < remaining c -> ∃ m', moves m m'.
Proof.
  intros Hi Hr. pose proof (wp_step ctx c (shared m)) as (c1 & Hc & _).
  eexists. eapply moves_thread; [exact Hi|exact Hr|by apply run_outcome].
Qed.

Lemma stuck_finished m : (∀ m', ~ moves m m') -> Forall finished (threads m).
Proof.
  intros Hst. apply Forall_lookup. intros i [ctx c] Hi. unfold finished. simpl.
  destruct (remaining c) eqn:Hr; [done|]. destruct (unfinished_moves m i ctx c Hi ltac:(lia)) as [m' Hm'].
  by destruct (Hst m').
Qed.

Lemma finished_stuck m : Forall finished (threads m) -> ∀ m', ~ moves m m'.
Proof.
  intros Hf m' [i ctx c c' w' Hi Hr Hs]. pose proof (Forall_lookup_1 _ _ _ _ Hf Hi) as Hfin.
  unfold finished in Hfin. simpl in Hfin. lia.
Qed.

Lemma nsteps_work n m m' : nsteps moves n m m' -> n + work m' <= work m.
Proof.
  intros Hn. induction Hn as [|n m m1 m2 Hs _ IH]; [lia|]. pose proof (moves_work _ _ Hs). lia.
Qed.

Lemma sum_bounded (l : list (ActivityCtx * pc)) :
  sum_list ((λ th, remaining th.2) <$> l) <= 10 * length l.
Proof.
  induction l as [|[ctx c] l IH]; csimpl; [lia|].
  assert (remaining c <= 10) by (destruct c; simpl; lia). lia.
Qed.


End Threads.

(** ** Two activities *)

#[local] Existing Instance ConcreteApi.
#[local] Existing Instance ConcreteSdk.
#[local] Existing Instance ConcreteWire.
#[local] Existing Instance ScriptedPool.

(** The context of an activity is its token. *)
Definition TokenRuntime : ActivityRuntime := {|
  ActivityCtx := string;
  ctx_values := λ _, [];
  HasHeartbeatDetails := λ _, false;
  GetHeartbeatDetails := λ _ v, OK v;
  GetInfo := λ t, mkActivityInfo (String.list_byte_of_string t) "Greet" "default" tt;
  HasMetricsHandler := λ _, true;
|}.
#[local] Existing Instance TokenRuntime.

Definition two_replies : activity_world :=
  mkActivityWorld NewActivityDefinition (mkScripted [example_reply; example_reply] [] 0) (mkGauges []).

Definition ctx_a : ActivityCtx := "a".
Definition ctx_b : ActivityCtx := "b".

Definition arg_a : option Payloads := Some (mkPayloads ["x"]).
Definition arg_b : option Payloads := Some (mkPayloads ["y"]).

Definition two_calls : machine (S := activity_world) (R := payload) :=
  mkMachine [(ctx_a, Start arg_a); (ctx_b, Start arg_b)] two_replies.

(** The first call runs to its end while the second has just been registered. *)
Definition one_done : option (machine (S := activity_world) (R := payload)) := schedule [0; 0; 1; 0; 0; 1; 0; 0; 0; 0; 0; 0] two_calls.

Lemma one_done_threads :
  threads <$> one_done = Some
    [(ctx_a, Left (Ret (OK (Some (mkPayloads ["hello"])))) false);
     (ctx_b, Measured arg_b (Some (mkPayloads [])) (Some 2%Z))].
Proof. vm_compute. reflexivity. Qed.

Lemma two_calls_goes : rtc goes (mkMachine [] two_replies) two_calls.
Proof.
  eapply rtc_l; [apply (goes_call _ ctx_a arg_a); apply not_elem_of_nil|].
  eapply rtc_l; [apply (goes_call _ ctx_b arg_b)|apply rtc_refl].
  intros Hin%list_elem_of_singleton. by vm_compute in Hin.
Qed.

Lemma one_done_reached :
  ∃ m, one_done = Some m ∧ rtc goes (mkMachine [] two_replies) m ∧
    threads m = [(ctx_a, Left (Ret (OK (Some (mkPayloads ["hello"])))) false);
                 (ctx_b, Measured arg_b (Some (mkPayloads [])) (Some 2%Z))].
Proof.
  pose proof one_done_threads as Hth. destruct one_done as [m|] eqn:Hm; [|discriminate].
  apply (f_equal (default [])) in Hth. exists m. split; [done|]. split; [|exact Hth].
  etransitivity; [apply two_calls_goes|exact (schedule_goes _ _ _ Hm)].
Qed.

Lemma heartbeat_reaches_its_activity_witness :
  ∃ m, one_done = Some m ∧
    GetActivityContext (String.list_byte_of_string "b") (aw_activity (shared m)) = OK ctx_b ∧
    ∃ e, GetActivityContext (String.list_byte_of_string "a") (aw_activity (shared m)) = Err e.
Proof.
  destruct one_done_reached as (m & Hm & Hr & Hth).
  destruct (heartbeat_reaches_its_activity two_replies m eq_refl Hr) as (Hget & Hend & _).
  exists m. split; [done|]. split.
  - apply Hget. split; [vm_compute; reflexivity|]. eexists. rewrite Hth.
    split; [right; left|reflexivity].
  - refine (Hend ctx_a _ _ _). rewrite Hth. left.
Defined.
