(* ===== verification/Recycling.v ===== *)
(** * Recycling: payload objects are shared by reference (src/aggregatedpool/activity.go)

    The payload a call encodes into is an object taken from a pool that all calls share
    ([getPld]), passed around by pointer, wiped in place and put back ([putPld]).
    [Activity] and [ActivityThreads] treat it as a value.  This file has the calls of
    [execute] over a heap of objects, in which a write through one pointer is seen
    through every other, and shows that the two agree: no two calls ever hold the same
    object, and none is in the pool while a call holds it. *)
From S2P Require Import Prelude Api Doubles GoM Protocol Codec Converter Exchange Activity ActivityThreads.
From stdpp Require Import base gmap sets list strings relations.
From Stdlib Require Import ZArith Lia.

Local Open Scope string_scope.
Local Open Scope list_scope.

Section Recycling.
Context `{Sdk} `{!Codec} `{!Pool} `{!ActivityRuntime}.

(** ** The heap *)

(** [hw_objects]: every payload object ever allocated, by its address;
    [hw_recycled]: the content of [pldPool]. The field [a_pldPool] of [hw_activity] is
    not used. *)
Record heap_world := mkHeapWorld {
  hw_activity : Activity;
  hw_pool : PoolState;
  hw_gauges : gauges;
  hw_objects : gmap nat payload;
  hw_recycled : list nat;
}.

#[global] Instance hw_field_activity : Field heap_world Activity := {|
  getf := hw_activity;
  setf := λ a h, mkHeapWorld a (hw_pool h) (hw_gauges h) (hw_objects h) (hw_recycled h) |}.
#[global] Instance hw_field_pool : Field heap_world PoolState := {|
  getf := hw_pool;
  setf := λ p h, mkHeapWorld (hw_activity h) p (hw_gauges h) (hw_objects h) (hw_recycled h) |}.
#[global] Instance hw_field_gauges : Field heap_world gauges := {|
  getf := hw_gauges;
  setf := λ g h, mkHeapWorld (hw_activity h) (hw_pool h) g (hw_objects h) (hw_recycled h) |}.

Definition set_heap (objects : gmap nat payload) (recycled : list nat) (h : heap_world) : heap_world :=
  mkHeapWorld (hw_activity h) (hw_pool h) (hw_gauges h) objects recycled.

(** The object at an address. *)
Definition object (h : heap_world) (l : nat) : payload := default zero_payload (hw_objects h !! l).

(** [a.pldPool.Get()]: a recycled object, or a new one. *)
Definition ref_getPld : GoM heap_world nat := λ h,
  match hw_recycled h with
  | l :: rest => (set_heap (hw_objects h) rest h, Ret l)
  | [] =>
      let l := fresh (dom (hw_objects h)) in
      (set_heap (<[l := zero_payload]> (hw_objects h)) [] h, Ret l)
  end.

(** Encoding writes through the pointer. *)
Definition ref_Encode (ctx : Context) (l : nat) (msgs : list Message)
    : GoM heap_world (nat * result unit) := λ h,
  let '(p, err) := Encode ctx (object h l) msgs in
  (set_heap (<[l := p]> (hw_objects h)) (hw_recycled h) h, Ret (l, err)).

(** The object is wiped in place and put back. *)
Definition ref_putPld (l : nat) : GoM heap_world unit := λ h,
  let pld := object h l in
  (set_heap (<[l := mkPayload [] [] 0 (pl_Flags pld)]> (hw_objects h)) (l :: hw_recycled h) h, Ret tt).

#[global] Instance ByReference : PayloadStore heap_world nat := {|
  store_get := ref_getPld;
  store_encode := ref_Encode;
  store_read := λ l h, object h l;
  store_put := ref_putPld;
|}.

(** ** Reading the heap as values *)

Definition value_world (h : heap_world) : activity_world :=
  mkActivityWorld
    (mkActivity (a_seqID (hw_activity h)) (a_running (hw_activity h)) (mkPldPool (object h <$> hw_recycled h)))
    (hw_pool h) (hw_gauges h).

Definition value_pc (h : heap_world) (c : pc_of nat) : pc_of payload :=
  match c with
  | Start args => Start args
  | Registered args d => Registered args d
  | Measured args d q => Measured args d q
  | Numbered id p d q => Numbered id p d q
  | Holding l id p d q => Holding (object h l) id p d q
  | Encoded l q => Encoded (object h l) q
  | Sent l res q => Sent (object h l) res q
  | Unregistered l res q => Unregistered (object h l) res q
  | Replied l o q reg => Replied (object h l) o q reg
  | Leaving o q reg => Leaving o q reg
  | Left o reg => Left o reg
  end.

Abbreviation heap_machine := (machine (S := heap_world) (R := nat)).

Definition value_machine (m : heap_machine) : machine (S := activity_world) (R := payload) :=
  mkMachine ((λ th, (th.1, value_pc (shared m) th.2)) <$> threads m) (value_world (shared m)).

(** ** Who holds what *)

Definition held (c : pc_of nat) : list nat :=
  match c with
  | Holding l _ _ _ _ | Encoded l _ | Sent l _ _ | Unregistered l _ _ | Replied l _ _ _ => [l]
  | _ => []
  end.

Definition holders (m : heap_machine) : list nat := threads m ≫= λ th, held th.2.

(** The objects in use and the objects in the pool are all different. *)
Record separate (m : heap_machine) : Prop := {
  sep_nodup : NoDup (holders m ++ hw_recycled (shared m));
  sep_alloc : ∀ l, l ∈ (holders m ++ hw_recycled (shared m)) -> l ∈ dom (hw_objects (shared m));
}.

(** ** One step *)

(** What a step from [c] to [c'] does to the heap: it writes only to the object it
    holds, and the objects it holds or puts back are those it held, those that were in
    the pool, and perhaps a new one. *)
Record heap_effect (c c' : pc_of nat) (h h' : heap_world) : Prop := {
  he_frame : ∀ l, l ∈ dom (hw_objects h) -> l ∉ held c -> object h' l = object h l;
  he_dom : dom (hw_objects h) ⊆ dom (hw_objects h');
  he_owned : ((held c' ++ hw_recycled h') ≡ₚ (held c ++ hw_recycled h)) ∨
    ∃ l, (l ∉ dom (hw_objects h)) ∧ (l ∈ dom (hw_objects h')) ∧
         ((held c' ++ hw_recycled h') ≡ₚ (l :: held c ++ hw_recycled h));
}.

Lemma heap_effect_same c c' h h' :
  held c' = held c -> hw_objects h' = hw_objects h -> hw_recycled h' = hw_recycled h ->
  heap_effect c c' h h'.
Proof. intros Hh Ho Hr. split; unfold object; rewrite ?Ho, ?Hr, ?Hh; auto. Qed.

(** The reply of the worker is read in the same way in every state. *)
Lemma activity_reply_uniform op em im first :
  ∃ (stop : bool) r, ∀ S (F : Field S PoolState) (s : S),
    activity_reply op em im first s = (if stop then setf (StopStream (getf s)) s else s, Ret r).
Proof.
  unfold activity_reply, rbind, receive, mbind, GoM_bind, mret, GoM_ret, update, modify, after.
  destruct first as [[e|p]|]; [by exists false; eexists| |by exists false; eexists].
  destruct (negb _); simpl; [by exists true; eexists|].
  exists false. destruct (Decode p []) as [out [u|e]]; [|by eexists].
  destruct out as [|x [|y out]]; by eexists.
Qed.

(** A step over the heap is the step over the values, and has the effect above. *)
Definition simulated (ctx : ActivityCtx) (c : pc_of nat) (h : heap_world) : Prop :=
  ∃ h' c', execute_step ctx c h = (h', Ret c') ∧
    execute_step ctx (value_pc h c) (value_world h) = (value_world h', Ret (value_pc h' c')) ∧
    remaining (value_pc h' c') = remaining c' ∧ heap_effect c c' h h'.

Lemma object_set_eq objs rec h l p : object (set_heap (<[l := p]> objs) rec h) l = p.
Proof. unfold object. simpl. by rewrite lookup_insert_eq. Qed.

Lemma object_set_ne objs rec h l l' p :
  l ≠ l' -> object (set_heap (<[l := p]> objs) rec h) l' = default zero_payload (objs !! l').
Proof. intros Hne. unfold object. simpl. by rewrite lookup_insert_ne. Qed.

(** Writing to an object that is not in the list leaves the list's values alone. *)
Lemma objects_set_ne (ls : list nat) rec h l p :
  l ∉ ls -> object (set_heap (<[l := p]> (hw_objects h)) rec h) <$> ls = object h <$> ls.
Proof.
  intros Hl. apply list_fmap_ext. intros i l' Hi. rewrite object_set_ne; [done|].
  intros ->. apply Hl. by eapply list_elem_of_lookup_2.
Qed.

Lemma sim_get ctx id p d q h :
  (∀ l, l ∈ hw_recycled h -> l ∈ dom (hw_objects h)) -> simulated ctx (Numbered id p d q) h.
Proof.
  intros Hal. unfold simulated. cbn [execute_step value_pc]. unfold mbind, GoM_bind, after.
  cbn [store_get ByValue ByReference]. unfold ref_getPld, getPld. go_unfold.
  destruct (hw_recycled h) as [|l rest] eqn:Hr; simpl.
  - set (l := fresh _). assert (Hl : l ∉ dom (hw_objects h)) by apply is_fresh.
    eexists _, (Holding l id p d q). split_and!; [done| |done|].
    + unfold value_world. simpl. by rewrite object_set_eq, Hr.
    + split; simpl.
      * intros l' Hl' _. rewrite object_set_ne; [done|]. intros ->. done.
      * rewrite dom_insert. set_solver.
      * right. exists l. rewrite Hr, dom_insert. set_solver.
  - eexists _, (Holding l id p d q). split_and!; [done| |done|].
    + done.
    + split; simpl; [done|done|]. left. by rewrite Hr.
Qed.

Lemma sim_encode ctx l id p d q h :
  l ∉ hw_recycled h -> l ∈ dom (hw_objects h) -> simulated ctx (Holding l id p d q) h.
Proof.
  intros Hl Hd. unfold simulated. cbn [execute_step value_pc]. unfold mbind, GoM_bind, after.
  cbn [store_encode ByValue ByReference]. unfold ref_Encode. go_unfold.
  destruct (Encode _ _ _) as [pl err]. simpl.
  set (h' := set_heap _ _ h).
  assert (Hv : value_world h' = value_world h).
  { unfold value_world, h'. simpl. f_equal. f_equal. f_equal. by apply objects_set_ne. }
  assert (Ho : object h' l = pl) by apply object_set_eq.
  assert (He : ∀ c', held c' = [l] -> heap_effect (Holding l id p d q) c' h h').
  { intros c' Hc'. split; simpl.
    - intros l' _ Hne. apply object_set_ne. set_solver.
    - rewrite dom_insert. set_solver.
    - left. by rewrite Hc'. }
  destruct err as [[]|e]; eexists h', _; (split_and!; [done| |done|by apply He]);
    rewrite Hv; simpl; by rewrite Ho.
Qed.

Lemma sim_put ctx l o q reg h :
  l ∉ hw_recycled h -> l ∈ dom (hw_objects h) -> simulated ctx (Replied l o q reg) h.
Proof.
  intros Hl Hd. unfold simulated. cbn [execute_step value_pc]. unfold mbind, GoM_bind, after.
  cbn [store_put ByValue ByReference]. unfold ref_putPld, putPld. go_unfold.
  eexists _, (Leaving o q reg). split_and!; [done| |done|].
  - unfold value_world, update, modify. simpl. by rewrite object_set_eq, objects_set_ne.
  - split; simpl.
    + intros l' _ Hne. apply object_set_ne. set_solver.
    + rewrite dom_insert. set_solver.
    + by left.
Qed.

Lemma sim_exec ctx l q h : simulated ctx (Encoded l q) h.
Proof.
  unfold simulated. cbn [execute_step value_pc]. unfold mbind, GoM_bind, after, gets, pool_Exec. simpl.
  destruct (Exec (object h l) (hw_pool h)) as [p res]. eexists _, (Sent l res q).
  split_and!; [done|done|done|]. by apply heap_effect_same.
Qed.

Lemma sim_reply ctx l res q h : simulated ctx (Unregistered l res q) h.
Proof.
  unfold simulated. cbn [execute_step value_pc]. destruct res as [e|first].
  { eexists _, (Replied l _ q false). split_and!; [done|done|done|]. by apply heap_effect_same. }
  destruct (activity_reply_uniform exec_op "activity worker empty response"
    "invalid activity worker response" first) as (stop & r & Hr).
  unfold mbind, GoM_bind, after. rewrite !Hr. simpl.
  eexists _, (Replied l (Ret r) q false). split_and!; [done| |done|].
  - by destruct stop.
  - apply heap_effect_same; by destruct stop.
Qed.

(** A step that does not touch the heap. *)
Ltac plain_step := split_and!; [done|done|done|by apply heap_effect_same].

(** Every step: the other ones do not touch the heap. *)
Lemma step_simulated ctx c h :
  NoDup (held c ++ hw_recycled h) ->
  (∀ l, l ∈ (held c ++ hw_recycled h) -> l ∈ dom (hw_objects h)) -> simulated ctx c h.
Proof.
  intros Hnd Hal.
  assert (Hheld : ∀ l, held c = [l] -> (l ∉ hw_recycled h) ∧ (l ∈ dom (hw_objects h))).
  { intros l Hl. rewrite Hl in Hnd, Hal. apply NoDup_cons in Hnd as [Hn _]. set_solver. }
  destruct c as [args|args d|args d q|id p d q|l id p d q|l q|l res q|l res q|l o q reg|o q reg|o reg].
  - unfold simulated. simpl. destruct (heartbeat_details ctx) as [d|e].
    + eexists _, (Registered args d). plain_step.
    + eexists _, (Left _ false). plain_step.
  - unfold simulated. simpl. destruct (HasMetricsHandler ctx);
      eexists _, (Measured args d _); plain_step.
  - unfold simulated. simpl. go_unfold. destruct d as [d|].
    + unfold append_step. rewrite !append_details_run. simpl.
      destruct (Payloads_Payloads d), args; simpl;
        first [ eexists _, (Numbered _ _ _ q); plain_step | eexists _, (Leaving _ q true); plain_step ].
    + eexists _, (Leaving _ q true). plain_step.
  - apply sim_get. set_solver.
  - destruct (Hheld l eq_refl). by apply sim_encode.
  - apply sim_exec.
  - eexists _, (Unregistered l res q). plain_step.
  - apply sim_reply.
  - destruct (Hheld l eq_refl). by apply sim_put.
  - unfold simulated. simpl. destruct q; eexists _, (Left o reg);
      plain_step.
  - eexists _, (Left o reg). plain_step.
Qed.

(** ** The machine *)

Definition holding (l : list (ActivityCtx * pc_of nat)) : list nat := l ≫= λ th, held th.2.

(** What the calls other than the one at [i] hold. *)
Definition others (l : list (ActivityCtx * pc_of nat)) (i : nat) : list nat :=
  holding (take i l) ++ holding (drop (S i) l).

Lemma holding_insert l i (ctx : ActivityCtx) c :
  i < length l -> holding (<[i := (ctx, c)]> l) ≡ₚ others l i ++ held c.
Proof.
  intros Hi. unfold others, holding. rewrite insert_take_drop by done.
  rewrite bind_app, bind_cons, <- app_assoc. simpl. by rewrite (Permutation_app_comm (held c)).
Qed.

Lemma elem_of_others l i j (ctx : ActivityCtx) c x :
  l !! j = Some (ctx, c) -> j ≠ i -> x ∈ held c -> x ∈ others l i.
Proof.
  intros Hj Hne Hx. unfold others, holding. apply elem_of_app.
  assert (j < i ∨ i < j) as [Hlt|Hlt] by lia; [left|right]; apply list_elem_of_bind; exists (ctx, c);
    (split; [done|]).
  - apply (list_elem_of_lookup_2 _ j). by rewrite lookup_take_lt.
  - apply (list_elem_of_lookup_2 _ (j - S i)). rewrite lookup_drop.
    by replace (S i + (j - S i)) with j by lia.
Qed.

Lemma remaining_value h c : remaining (value_pc h c) = remaining c.
Proof. by destruct c. Qed.

(** A call sees the same values when the objects it holds did not change. *)
Lemma value_pc_frame h h' c :
  (∀ l, l ∈ held c -> object h' l = object h l) -> value_pc h' c = value_pc h c.
Proof. intros Hf. destruct c; simpl; try done; by rewrite Hf by (by left). Qed.

(** The owned objects, seen from one of the calls. *)
Lemma separate_at m i ctx c :
  threads m !! i = Some (ctx, c) ->
  separate m <-> NoDup (others (threads m) i ++ held c ++ hw_recycled (shared m)) ∧
    ∀ l, l ∈ (others (threads m) i ++ held c ++ hw_recycled (shared m)) -> l ∈ dom (hw_objects (shared m)).
Proof.
  intros Hi. assert (Hlen : i < length (threads m)) by (by eapply lookup_lt_Some).
  pose proof (holding_insert (threads m) i ctx c Hlen) as Hold. rewrite list_insert_id in Hold by done.
  assert (Hp : holders m ++ hw_recycled (shared m) ≡ₚ
    others (threads m) i ++ held c ++ hw_recycled (shared m)).
  { change (holders m) with (holding (threads m)). by rewrite Hold, app_assoc. }
  split.
  - intros [Hnd Hal]. rewrite Hp in Hnd. split; [done|]. intros l. rewrite <- Hp. apply Hal.
  - intros [Hnd Hal]. split; [by rewrite Hp|]. intros l. rewrite Hp. apply Hal.
Qed.

(** The effect of a step keeps the objects apart. *)
Lemma effect_separate m i ctx c c' h' :
  threads m !! i = Some (ctx, c) -> separate m -> heap_effect c c' (shared m) h' ->
  separate (mkMachine (<[i := (ctx, c')]> (threads m)) h').
Proof.
  intros Hi Hsep [_ Hdom Hown]. apply (separate_at m i ctx c Hi) in Hsep as [Hnd Hal].
  assert (Hlen : i < length (threads m)) by (by eapply lookup_lt_Some).
  assert (Hi' : <[i := (ctx, c')]> (threads m) !! i = Some (ctx, c')) by (by apply list_lookup_insert_eq).
  apply (separate_at (mkMachine _ h') i ctx c' Hi'). simpl.
  assert (Ho : others (<[i := (ctx, c')]> (threads m)) i = others (threads m) i).
  { unfold others. by rewrite take_insert_ge, drop_insert_lt by lia. }
  rewrite Ho. destruct Hown as [Hown|(l0 & Hn & Hd & Hown)].
  - split; [by rewrite Hown|]. intros l. rewrite Hown. intros Hl. by apply Hdom, Hal.
  - assert (Hp : others (threads m) i ++ held c' ++ hw_recycled h' ≡ₚ
      l0 :: others (threads m) i ++ held c ++ hw_recycled (shared m))
      by (rewrite Hown; symmetry; apply Permutation_middle).
    split.
    + rewrite Hp. apply NoDup_cons. split; [|done]. intros Hl%Hal. done.
    + intros l. rewrite Hp, elem_of_cons. intros [->|Hl]; [done|]. by apply Hdom, Hal.
Qed.

(** The other calls see the same values. *)
Lemma effect_values m i ctx c c' h' :
  threads m !! i = Some (ctx, c) -> separate m -> heap_effect c c' (shared m) h' ->
  threads (value_machine (mkMachine (<[i := (ctx, c')]> (threads m)) h')) =
  <[i := (ctx, value_pc h' c')]> (threads (value_machine m)).
Proof.
  intros Hi Hsep [Hfr _ _]. apply (separate_at m i ctx c Hi) in Hsep as [Hnd Hal].
  apply NoDup_app in Hnd as (_ & Hdis & _). simpl. rewrite list_fmap_insert. simpl.
  apply list_eq. intros j. destruct (decide (j = i)) as [->|Hne].
  - assert (i < length (threads m)) by (by eapply lookup_lt_Some).
    by rewrite !list_lookup_insert_eq by (by rewrite length_fmap).
  - rewrite !list_lookup_insert_ne, !list_lookup_fmap by done.
    destruct (threads m !! j) as [[ctx' c2]|] eqn:Hj; [|done]. simpl. do 2 f_equal.
    apply value_pc_frame. intros l Hl. pose proof (elem_of_others _ i j _ _ _ Hj Hne Hl) as Ho.
    apply Hfr; [apply Hal, elem_of_app; by left|].
    intros Hc. apply (Hdis l Ho), elem_of_app. by left.
Qed.

Lemma call_simulated m i ctx c :
  separate m -> threads m !! i = Some (ctx, c) -> simulated ctx c (shared m).
Proof.
  intros Hsep Hi. apply (separate_at m i ctx c Hi) in Hsep as [Hnd Hal].
  apply NoDup_app in Hnd as (_ & _ & Hnd). apply step_simulated; [done|].
  intros l Hl. apply Hal, elem_of_app. by right.
Qed.

Lemma value_lookup m i :
  threads (value_machine m) !! i = (λ th, (th.1, value_pc (shared m) th.2)) <$> threads m !! i.
Proof. apply list_lookup_fmap. Qed.

(** The two machines take the same steps. *)
Lemma moves_values m m' :
  separate m -> moves m m' -> moves (value_machine m) (value_machine m') ∧ separate m'.
Proof.
  intros Hsep [i ctx c c' h' Hi Hr Hs].
  destruct (call_simulated m i ctx c Hsep Hi) as (h1 & c1 & Hs' & Hv & _ & Heff).
  rewrite Hs in Hs'. injection Hs' as <- <-. split; [|by eapply effect_separate].
  pose proof (moves_thread (value_machine m) i ctx (value_pc (shared m) c) (value_pc h' c') (value_world h')) as Hm.
  rewrite <- (effect_values m i ctx c c' h' Hi Hsep Heff) in Hm.
  apply Hm; [by rewrite value_lookup, Hi|by rewrite remaining_value|exact Hv].
Qed.

Lemma moves_back m v :
  separate m -> moves (value_machine m) v -> ∃ m', moves m m' ∧ v = value_machine m'.
Proof.
  intros Hsep [i ctx c c' w' Hi Hr Hs]. rewrite value_lookup in Hi.
  destruct (threads m !! i) as [[ctx0 c0]|] eqn:H0'; [|done]. simpl in Hi. injection Hi as -> <-.
  destruct (call_simulated m i ctx c0 Hsep H0') as (h1 & c1 & Hs' & Hv & _ & Heff).
  change (shared (value_machine m)) with (value_world (shared m)) in Hs.
  rewrite Hs in Hv. injection Hv as -> ->. rewrite remaining_value in Hr.
  exists (mkMachine (<[i := (ctx, c1)]> (threads m)) h1). split; [by eapply moves_thread|].
  by rewrite <- (effect_values m i ctx c0 c1 h1 H0' Hsep Heff).
Qed.

Lemma goes_values m m' :
  separate m -> goes m m' -> goes (value_machine m) (value_machine m') ∧ separate m'.
Proof.
  intros Hsep [m1 Hm|ctx args Hnew].
  { destruct (moves_values m m1 Hsep Hm) as [Hv Hs]. split; [by apply goes_moves|done]. }
  split.
  - pose proof (goes_call (value_machine m) ctx args) as Hg. unfold value_machine in *. simpl in *.
    rewrite fmap_app. simpl. apply Hg. by rewrite <- list_fmap_compose.
  - destruct Hsep as [Hnd Hal]. unfold holders in *.
    split; unfold holders; simpl; by rewrite bind_app, app_nil_r.
Qed.

(** C17: recycling payload objects cannot be observed.  In every interleaving of
    calls over the shared heap of objects, no two calls hold the same object and none
    that is held is in the pool; reading the heap as values gives a run of the machine
    in which payloads are values, and from each state the two machines can take the same
    steps. *)
Theorem recycling_unobservable (h : heap_world) (m : heap_machine)
    (Hempty : hw_recycled h = []) (Hreach : rtc goes (mkMachine [] h) m) :
  NoDup (holders m ++ hw_recycled (shared m)) ∧
  rtc goes (mkMachine [] (value_world h)) (value_machine m) ∧
  ∀ v, moves (value_machine m) v <-> ∃ m', moves m m' ∧ v = value_machine m'.
Proof.
  assert (Hr : rtc goes (value_machine (mkMachine [] h)) (value_machine m) ∧ separate m).
  { eapply (rtc_ind_r (λ m, rtc goes (value_machine (mkMachine [] h)) (value_machine m) ∧ separate m));
      [| |exact Hreach].
    - split; [apply rtc_refl|]. split; simpl; rewrite Hempty; [constructor|intros l Hl; by inversion Hl].
    - intros m1 m2 _ Hg [Hv Hs]. destruct (goes_values _ _ Hs Hg) as [Hg' Hs'].
      split; [by eapply rtc_r|done]. }
  destruct Hr as [Hv Hsep]. split_and!; [apply Hsep| |].
  - unfold value_machine in Hv at 1. by simpl in Hv.
  - intros v. split; [by apply moves_back|]. intros (m' & Hm & ->). by apply moves_values.
Qed.

End Recycling.

(** ** Two calls over the heap *)

#[local] Existing Instance ConcreteApi.
#[local] Existing Instance ConcreteSdk.
#[local] Existing Instance ConcreteWire.
#[local] Existing Instance ScriptedPool.
#[local] Existing Instance TokenRuntime.

Definition empty_heap : heap_world :=
  mkHeapWorld NewActivityDefinition (mkScripted [example_reply; example_reply] [] 0) (mkGauges []) ∅ [].

Definition two_refs : machine (S := heap_world) (R := nat) :=
  mkMachine [(ctx_a, Start arg_a); (ctx_b, Start arg_b)] empty_heap.

(** Both calls take an object and encode; the first one goes on and puts its object
    back. *)
Definition both_encode : list nat := [0; 1; 0; 1; 0; 1; 0; 1; 0; 1; 0; 0; 0; 0].
Abbreviation both_encoded := (schedule both_encode two_refs).

Lemma both_encoded_holds :
  (λ m, (holders m, hw_recycled (shared m))) <$> both_encoded = Some ([1], [0]).
Proof. vm_compute. reflexivity. Qed.

Lemma two_refs_goes : rtc goes (mkMachine [] empty_heap) two_refs.
Proof.
  eapply rtc_l; [apply (goes_call _ ctx_a arg_a); apply not_elem_of_nil|].
  eapply rtc_l; [apply (goes_call _ ctx_b arg_b)|apply rtc_refl].
  intros Hin%list_elem_of_singleton. by vm_compute in Hin.
Qed.

Lemma both_encoded_reached :
  ∃ m, both_encoded = Some m ∧ holders m = [1] ∧ hw_recycled (shared m) = [0] ∧
    rtc goes (mkMachine [] empty_heap) m.
Proof.
  pose proof both_encoded_holds as Hh. destruct both_encoded as [m|] eqn:Hm; [|discriminate].
  change (Some (holders m, hw_recycled (shared m)) = Some ([1], [0])) in Hh.
  injection Hh as Hh1 Hh2. exists m. split_and!; [done|exact Hh1|exact Hh2|].
  etransitivity; [apply two_refs_goes|exact (schedule_goes _ _ _ Hm)].
Qed.

Lemma recycling_unobservable_witness :
  ∃ m, both_encoded = Some m ∧ holders m = [1] ∧ hw_recycled (shared m) = [0] ∧
    NoDup (holders m ++ hw_recycled (shared m)) ∧
    rtc goes (mkMachine [] (value_world empty_heap)) (value_machine m).
Proof.
  destruct both_encoded_reached as (m & Hm & Hh1 & Hh2 & Hr).
  destruct (recycling_unobservable empty_heap m eq_refl Hr) as (Hnd & Hv & _).
  exists m. split_and!; [exact Hm|exact Hh1|exact Hh2|exact Hnd|exact Hv].
Defined.
