(* ===== verification/Env.v ===== *)
(** * Env: the SDK's workflow environment

    [bindings.WorkflowEnvironment] of the Temporal Go SDK, the other side of every
    workflow handler.  The environment has a state of its own and keeps the closures
    it is given; here a closure is the data it captures (a [ResultHandler], the id of
    a local-activity or child-started handler, an [UpdateHandler]).  An environment
    call returns its new state, its result and the handlers it runs before it returns
    (the SDK completes a zero timer or a cancelled timer on the spot, and a side
    effect always); between calls, the environment runs handlers when the history
    delivers a result.  The handlers read the environment and never call back into an
    operation that changes it, so which handlers a call runs does not depend on what
    they do. *)
From S2P Require Import Prelude Api Doubles GoM Protocol Codec Exchange Activity.
From stdpp Require Import base gmap list strings.
From Stdlib Require Import ZArith Lia.

Section Handlers.
Context `{Api}.

(** Closures built by [createCallback] and [createContinuableCallback]. *)
Inductive ResultHandler : Type :=
| HCallback (id : Z) (t : string)
| HContinuable (id : Z) (t : string).

(** [bindings.LocalActivityResultWrapper]. *)
Record LocalActivityResult := mkLocalActivityResult {
  lar_Err : option error;
  lar_Result : option Payloads;
  lar_Attempt : Z;
  lar_Backoff : Z;
}.

(** A handler run by the environment: a result handler, a local-activity handler
    or the handler that reports the start of a child workflow. *)
Inductive fire : Type :=
| FireResult (h : ResultHandler) (result : option Payloads) (err : option error)
| FireLocal (id : Z) (lar : LocalActivityResult)
| FireStarted (id : Z) (r : WorkflowExecution) (e : option error).

(** Go values that the plugin hands to the environment's data converter. *)
Inductive go_value : Type :=
| GoVersion (v : Z)
| GoString (s : string)
| GoExecution (w : WorkflowExecution).

End Handlers.

(** The closure that [handleUpdate] queues. *)
Record UpdateHandler `{Api} {U : Type} := mkUpdateHandler {
  upd_name : string;
  upd_id : string;
  upd_rid : string;
  upd_input : option Payloads;
  upd_header : option Header;
  upd_callbacks : U;
}.
Arguments UpdateHandler {_} U.
Arguments mkUpdateHandler {_ U}.

Class WorkflowEnvironment `{Api} := {
  Env : Type;
  ActivityID : Type;
  LocalActivityID : Type;
  TimerID : Type;
  UpdateCallbacks : Type;
  (** Reads. [env_Now] is [Now().Format(time.RFC3339)], [time_Now] the process
      clock. *)
  env_WorkflowInfo : Env -> WorkflowInfo;
  env_Now : Env -> string;
  env_IsReplaying : Env -> bool;
  env_HasMetricsHandler : Env -> bool;
  env_GetLastCompletionResult : Env -> option Payloads;
  time_Now : Env -> Z;
  env_ToPayloads : go_value -> result (option Payloads);
  env_FromPayload_string : Payload -> result string;
  (** Calls. *)
  env_ExecuteActivity : ExecuteActivityParams -> ResultHandler -> Env -> Env * list fire * ActivityID;
  env_ExecuteLocalActivity :
    ExecuteLocalActivityParams LocalActivityFn -> Z -> Env -> Env * list fire * LocalActivityID;
  env_ExecuteChildWorkflow : ExecuteWorkflowParams -> ResultHandler -> Z -> Env -> Env * list fire * unit;
  env_NewTimer : Z -> ResultHandler -> Env -> Env * list fire * option TimerID;
  env_GetVersion : string -> Z -> Z -> Env -> Env * list fire * Z;
  env_SideEffect : option Payloads -> ResultHandler -> Env -> Env * list fire * unit;
  env_Complete : option Payloads -> option error -> Env -> Env * list fire * unit;
  env_UpsertSearchAttributes : gmap string AnyValue -> Env -> Env * list fire * result unit;
  env_SignalExternalWorkflow :
    string -> string -> string -> string -> option Payloads -> option Header -> bool ->
    ResultHandler -> Env -> Env * list fire * unit;
  env_RequestCancelExternalWorkflow :
    string -> string -> string -> ResultHandler -> Env -> Env * list fire * unit;
  env_RequestCancelActivity : ActivityID -> Env -> Env * list fire * unit;
  env_RequestCancelLocalActivity : LocalActivityID -> Env -> Env * list fire * unit;
  env_RequestCancelChildWorkflow : string -> string -> Env -> Env * list fire * unit;
  env_RequestCancelTimer : TimerID -> Env -> Env * list fire * unit;
  (** Updates: queueing a closure, running the queued ones. *)
  env_QueueUpdate : string -> UpdateHandler UpdateCallbacks -> Env -> Env;
  env_HandleQueuedUpdates : string -> Env -> Env * list (UpdateHandler UpdateCallbacks);
  env_DrainUnhandledUpdates : Env -> Env * list (UpdateHandler UpdateCallbacks);
  upd_Accept : UpdateCallbacks -> Env -> Env;
  upd_Reject : UpdateCallbacks -> option error -> Env -> Env;
  upd_Complete : UpdateCallbacks -> option Payloads -> option error -> Env -> Env;
  (** [RegisterCancelHandler], [RegisterSignalHandler], [RegisterQueryHandler] and
      [RegisterUpdateHandler]: from then on the environment may call the workflow's
      handlers. *)
  env_RegisterHandlers : Env -> Env;
}.
