(* ===== verification/Workflow.v ===== *)
(** * Workflow: one workflow run (src/aggregatedpool/workflow.go, handler.go)

    A [Workflow] object translates between the Temporal environment and a PHP worker:
    results and signals from the environment become queued messages, the queue is
    exchanged with the worker when a workflow task starts, and the commands the
    worker answers with become calls of the environment.  This file has the state,
    every handler and the exchange; [TaskLoop] has the workflow task itself. *)
From S2P Require Import Prelude Api Doubles GoM Protocol Queue Canceller Registry Codec Exchange Activity Env.
From stdpp Require Import base gmap list strings pretty.
From Stdlib Require Import ZArith Lia.

Local Open Scope string_scope.
Local Open Scope list_scope.

Definition completed := "completed".
Definition validate := "validate".
Definition execute_type := "execute".

Section Workflow.
Context `{Sdk} `{!Codec} `{!Pool} `{!WorkflowEnvironment}.

(** ** State *)

(** Closures registered with the canceller. *)
Inductive cancellable : Type :=
| CancelActivity (id : ActivityID)
| CancelLocalActivity (id : LocalActivityID)
| CancelChildWorkflow (Namespace WorkflowID : string)
| CancelTimer (id : option TimerID).

(** The closure that [GetChildWorkflowExecution] subscribes, for the id of its
    message. *)
Record listener := mkListener { listener_msgID : Z }.

(** Closures waiting in [wp.callbacks] for the next workflow task. *)
Inductive Callback : Type :=
| DeferredResult (id : Z) (t : string) (result : option Payloads) (err : option error)
| DeferredLocal (id : Z) (lar : LocalActivityResult).

Record Workflow := mkWorkflow {
  wp_rrID : string;
  wp_env : Env;
  wp_header : option Header;
  wp_mq : MessageQueue Z;
  wp_ids : IDRegistry listener;
  wp_seqID : Z;
  wp_pipeline : list Message;
  wp_updatesQueue : list string;
  wp_callbacks : list Callback;
  wp_canceller : Canceller cancellable;
  wp_inLoop : Z;
  wp_mh : bool;
  wp_pldPool : pld_pool;
}.

(** The object with what it shares: the package-level [seqID], the workflow pool and
    the gauges. *)
Record World := mkWorld {
  wf : Workflow;
  g_seqID : Z;
  g_pool : PoolState;
  g_gauges : gauges;
}.

Abbreviation W := (GoM World).

(** *** Field access *)

Definition on_wf (f : Workflow -> Workflow) (w : World) : World :=
  mkWorld (f (wf w)) (g_seqID w) (g_pool w) (g_gauges w).

Definition set_env (e : Env) (p : Workflow) : Workflow :=
  mkWorkflow (wp_rrID p) e (wp_header p) (wp_mq p) (wp_ids p) (wp_seqID p) (wp_pipeline p)
    (wp_updatesQueue p) (wp_callbacks p) (wp_canceller p) (wp_inLoop p) (wp_mh p) (wp_pldPool p).
Definition set_mq (q : MessageQueue Z) (p : Workflow) : Workflow :=
  mkWorkflow (wp_rrID p) (wp_env p) (wp_header p) q (wp_ids p) (wp_seqID p) (wp_pipeline p)
    (wp_updatesQueue p) (wp_callbacks p) (wp_canceller p) (wp_inLoop p) (wp_mh p) (wp_pldPool p).
Definition set_ids (r : IDRegistry listener) (p : Workflow) : Workflow :=
  mkWorkflow (wp_rrID p) (wp_env p) (wp_header p) (wp_mq p) r (wp_seqID p) (wp_pipeline p)
    (wp_updatesQueue p) (wp_callbacks p) (wp_canceller p) (wp_inLoop p) (wp_mh p) (wp_pldPool p).
Definition set_seqID (n : Z) (p : Workflow) : Workflow :=
  mkWorkflow (wp_rrID p) (wp_env p) (wp_header p) (wp_mq p) (wp_ids p) n (wp_pipeline p)
    (wp_updatesQueue p) (wp_callbacks p) (wp_canceller p) (wp_inLoop p) (wp_mh p) (wp_pldPool p).
Definition set_pipeline (l : list Message) (p : Workflow) : Workflow :=
  mkWorkflow (wp_rrID p) (wp_env p) (wp_header p) (wp_mq p) (wp_ids p) (wp_seqID p) l
    (wp_updatesQueue p) (wp_callbacks p) (wp_canceller p) (wp_inLoop p) (wp_mh p) (wp_pldPool p).
Definition set_updatesQueue (l : list string) (p : Workflow) : Workflow :=
  mkWorkflow (wp_rrID p) (wp_env p) (wp_header p) (wp_mq p) (wp_ids p) (wp_seqID p) (wp_pipeline p)
    l (wp_callbacks p) (wp_canceller p) (wp_inLoop p) (wp_mh p) (wp_pldPool p).
Definition set_callbacks (l : list Callback) (p : Workflow) : Workflow :=
  mkWorkflow (wp_rrID p) (wp_env p) (wp_header p) (wp_mq p) (wp_ids p) (wp_seqID p) (wp_pipeline p)
    (wp_updatesQueue p) l (wp_canceller p) (wp_inLoop p) (wp_mh p) (wp_pldPool p).
Definition set_canceller (c : Canceller cancellable) (p : Workflow) : Workflow :=
  mkWorkflow (wp_rrID p) (wp_env p) (wp_header p) (wp_mq p) (wp_ids p) (wp_seqID p) (wp_pipeline p)
    (wp_updatesQueue p) (wp_callbacks p) c (wp_inLoop p) (wp_mh p) (wp_pldPool p).
Definition set_inLoop (n : Z) (p : Workflow) : Workflow :=
  mkWorkflow (wp_rrID p) (wp_env p) (wp_header p) (wp_mq p) (wp_ids p) (wp_seqID p) (wp_pipeline p)
    (wp_updatesQueue p) (wp_callbacks p) (wp_canceller p) n (wp_mh p) (wp_pldPool p).
Definition set_plds (l : pld_pool) (p : Workflow) : Workflow :=
  mkWorkflow (wp_rrID p) (wp_env p) (wp_header p) (wp_mq p) (wp_ids p) (wp_seqID p) (wp_pipeline p)
    (wp_updatesQueue p) (wp_callbacks p) (wp_canceller p) (wp_inLoop p) (wp_mh p) l.

#[global] Instance field_mq : Field World (MessageQueue Z) := {|
  getf := λ w, wp_mq (wf w); setf := λ q, on_wf (set_mq q) |}.
#[global] Instance field_ids : Field World (IDRegistry listener) := {|
  getf := λ w, wp_ids (wf w); setf := λ r, on_wf (set_ids r) |}.
#[global] Instance field_canceller : Field World (Canceller cancellable) := {|
  getf := λ w, wp_canceller (wf w); setf := λ c, on_wf (set_canceller c) |}.
#[global] Instance field_plds : Field World pld_pool := {|
  getf := λ w, wp_pldPool (wf w); setf := λ l, on_wf (set_plds l) |}.
#[global] Instance field_pool : Field World PoolState := {|
  getf := g_pool; setf := λ p w, mkWorld (wf w) (g_seqID w) p (g_gauges w) |}.
#[global] Instance field_gauges : Field World gauges := {|
  getf := g_gauges; setf := λ g w, mkWorld (wf w) (g_seqID w) (g_pool w) g |}.

#[global] Instance laws_mq : FieldLaws World (MessageQueue Z).
Proof. split; [done|by intros [[] ? ? ?]|done]. Qed.
#[global] Instance laws_ids : FieldLaws World (IDRegistry listener).
Proof. split; [done|by intros [[] ? ? ?]|done]. Qed.
#[global] Instance laws_canceller : FieldLaws World (Canceller cancellable).
Proof. split; [done|by intros [[] ? ? ?]|done]. Qed.
#[global] Instance laws_plds : FieldLaws World pld_pool.
Proof. split; [done|by intros [[] ? ? ?]|done]. Qed.
#[global] Instance laws_pool : FieldLaws World PoolState.
Proof. split; [done|by intros []|done]. Qed.
#[global] Instance laws_gauges : FieldLaws World gauges.
Proof. split; [done|by intros []|done]. Qed.

(** ** Queueing messages *)

(** [mq.PushCommand] with the package's [seq] as identifier generator. *)
Definition wp_PushCommand (cmd : command) (payloads : option Payloads) (header : option Header) : W unit :=
  modify (λ w,
    let '(g, mq) := PushCommand (ByValue cmd) payloads header (wp_mq (wf w)) (g_seqID w) in
    mkWorld (set_mq mq (wf w)) g (g_pool w) (g_gauges w)).

(** [mq.AllocateMessage] on a new message. *)
Definition wp_AllocateMessage (cmd : command) (payloads : option Payloads) (header : option Header)
    : W Message := λ w,
  let '(g, m) := AllocateMessage (ByValue cmd) payloads header zero_Message
                   (wp_mq (wf w)) (g_seqID w) in
  (mkWorld (wf w) g (g_pool w) (g_gauges w), Ret m).

Definition wp_PushResponse (id : Z) (payloads : option Payloads) : W unit :=
  update (PushResponse (G := Z) id payloads).

Definition wp_PushError (id : Z) (failure : option Failure) : W unit :=
  update (PushError (G := Z) id failure).

Definition wp_Discard (id : Z) : W unit := update (Discard (C := cancellable) id).

Definition wp_Register (id : Z) (c : cancellable) : W unit := update (Register id c).

(** ** Exchange with the worker *)

Definition getContext (w : World) : Context :=
  let e := wp_env (wf w) in
  {| TaskQueue := WI_TaskQueueName (env_WorkflowInfo e);
     TickTime := env_Now e;
     Replay := env_IsReplaying e;
     HistoryLen := WI_GetCurrentHistoryLength (env_WorkflowInfo e);
     RrID := wp_rrID (wf w) |}.

Definition RunID (w : World) : string :=
  Execution_RunID (WI_WorkflowExecution (env_WorkflowInfo (wp_env (wf w)))).

Definition flushQueue : W (result unit) :=
  let op := "flush_queue" in
  mq ← gets (λ w, wp_mq (wf w));
  match Messages mq with
  | [] => mret (OK tt)
  | msgs0 =>
      mh ← gets (λ w, wp_mh (wf w));
      with_gauge mh RrWorkflowsMetricName (
        pl ← getPld;
        ctx ← gets getContext;
        let '(pl, err) := Encode ctx pl msgs0 in
        defer (putPld pl) (
          match err with
          | Err e => mret (Err e)
          | OK _ =>
              res ← pool_Exec pl;
              match res with
              | ExecError e => mret (Err e)
              | ExecChan first =>
                  r ←? receive op "worker empty response" first;
                  let '(msgs, err) := Decode r [] in
                  match err with
                  | Err e => mret (Err e)
                  | OK _ =>
                      _ ← update (Flush (G := Z));
                      _ ← modify (on_wf (λ p, set_pipeline (wp_pipeline p ++ msgs) p));
                      mret (OK tt)
                  end
              end
          end))
  end.

(** Run a single command and return its single result.  On the three error paths of
    the reply the payload object is not put back. *)
Definition runCommand (cmd : command) (payloads : option Payloads) (header : option Header)
    : W (result Message) :=
  let op := "workflow_process_runcommand" in
  msg ← wp_AllocateMessage cmd payloads header;
  mh ← gets (λ w, wp_mh (wf w));
  with_gauge mh RrMetricName (
    pl ← getPld;
    ctx ← gets getContext;
    let '(pl, err) := Encode ctx pl [msg] in
    match err with
    | Err e => _ ← putPld pl; mret (Err e)
    | OK _ =>
        res ← pool_Exec pl;
        match res with
        | ExecError e => _ ← putPld pl; mret (Err e)
        | ExecChan first =>
            r ←? receive op "worker empty response" first;
            let '(msgs, err) := Decode r [] in
            match err with
            | Err e => _ ← putPld pl; mret (Err e)
            | OK _ =>
                match msgs with
                | [m] => _ ← putPld pl; mret (OK m)
                | _ => _ ← putPld pl; mret (Err (ErrOp op (ErrStr "unexpected pool response")))
                end
            end
        end
    end).

(** ** Handlers run by the environment *)

(** The inner closure of [createCallback]. *)
Definition run_callback (id : Z) (result : option Payloads) (err : option error) : W unit :=
  _ ← wp_Discard id;
  match err with
  | Some e => wp_PushError id (ErrorToFailure e)
  | None => wp_PushResponse id result
  end.

(** The inner closure of [createLocalActivityCallback]. *)
Definition run_local_callback (id : Z) (lar : LocalActivityResult) : W unit :=
  _ ← wp_Discard id;
  match lar_Err lar with
  | Some e => wp_PushError id (ErrorToFailure e)
  | None => wp_PushResponse id (lar_Result lar)
  end.

Definition append_callback (c : Callback) : W unit :=
  modify (on_wf (λ p, set_callbacks (wp_callbacks p ++ [c]) p)).

Definition createCallback (id : Z) (t : string) (result : option Payloads) (err : option error) : W unit :=
  inLoop ← gets (λ w, wp_inLoop (wf w));
  if Z.eqb inLoop 1 then run_callback id result err
  else append_callback (DeferredResult id t result err).

Definition createLocalActivityCallback (id : Z) (lar : LocalActivityResult) : W unit :=
  inLoop ← gets (λ w, wp_inLoop (wf w));
  if Z.eqb inLoop 1 then run_local_callback id lar
  else append_callback (DeferredLocal id lar).

Definition createContinuableCallback (id : Z) (t : string) (result : option Payloads)
    (err : option error) : W unit :=
  _ ← wp_Discard id;
  match err with
  | Some e => wp_PushError id (ErrorToFailure e)
  | None =>
      _ ← wp_PushResponse id result;
      r ← flushQueue;
      match r with
      | Err e => panic (PanicErr e)
      | OK _ => mret tt
      end
  end.

Definition run_ResultHandler (h : ResultHandler) (result : option Payloads) (err : option error) : W unit :=
  match h with
  | HCallback id t => createCallback id t result err
  | HContinuable id t => createContinuableCallback id t result err
  end.

(** The listener of [GetChildWorkflowExecution]. *)
Definition call_listener (l : listener) (w : WorkflowExecution) (err : option error) : W unit :=
  let cl := createCallback (listener_msgID l) "GetChildWorkflow" in
  match err with
  | Some e => cl None (Some e)
  | None =>
      match env_ToPayloads (GoExecution w) with
      | Err er => panic (PanicErr er)
      | OK p => cl p None
      end
  end.

Definition run_fire (f : fire) : W unit :=
  match f with
  | FireResult h result err => run_ResultHandler h result err
  | FireLocal id lar => createLocalActivityCallback id lar
  | FireStarted id r e => Push call_listener id r e
  end.

(** A call of the environment and the handlers it runs before it returns. *)
Definition env_do {A} (call : Env -> Env * list fire * A) : W A := λ w,
  let '(e, fires, a) := call (wp_env (wf w)) in
  (_ ← for_each fires run_fire; mret a) (on_wf (set_env e) w).

(** An environment call that runs no handler. *)
Definition env_set (f : Env -> Env) : W unit := modify (on_wf (λ p, set_env (f (wp_env p)) p)).

(** What the registered cancellation closures do. *)
Definition run_cancellable (c : cancellable) : W (result unit) :=
  match c with
  | CancelActivity id => _ ← env_do (env_RequestCancelActivity id); mret (OK tt)
  | CancelLocalActivity id => _ ← env_do (env_RequestCancelLocalActivity id); mret (OK tt)
  | CancelChildWorkflow ns wid => _ ← env_do (env_RequestCancelChildWorkflow ns wid); mret (OK tt)
  | CancelTimer (Some id) => _ ← env_do (env_RequestCancelTimer id); mret (OK tt)
  | CancelTimer None => mret (OK tt)
  end.

(** ** Commands of the worker *)

(** [atomic.AddUint64(&wp.seqID, 1)]. *)
Definition next_seqID_wf : W Z :=
  _ ← modify (on_wf (λ p, set_seqID (u64 (wp_seqID p + 1)) p));
  gets (λ w, wp_seqID (wf w)).

(** The identifier of a child workflow that the worker left unnamed. *)
Definition child_workflow_id (run_id : string) (nextID : Z) : string :=
  (run_id ++ "_" ++ pretty (i64 nextID))%string.

Definition deterministic_id (params : ExecuteWorkflowParams) : W ExecuteWorkflowParams :=
  if String.eqb (WO_WorkflowID (EWP_Options params)) ""
  then
    nextID ← next_seqID_wf;
    run_id ← gets RunID;
    let o := EWP_Options params in
    mret (mkExecuteWorkflowParams
      (mkWorkflowOptions (WO_TaskQueueName o) (child_workflow_id run_id nextID) (WO_Namespace o) (WO_rest o))
      (EWP_WorkflowType params) (EWP_Input params) (EWP_Header params))
  else mret params.

(** [result, _ := ToPayloads(v)]: an error leaves a nil result. *)
Definition ToPayloads_or_nil (v : go_value) : option Payloads :=
  match env_ToPayloads v with OK p => p | Err _ => None end.

(** The case [Cancel]: the cancellations run, then the answer goes out at once. *)
Definition cancel_commands (op : string) (id : Z) (command : Protocol.Cancel) : W (result unit) :=
  r ← Canceller_Cancel run_cancellable (CommandIDs command);
  match r with
  | Err e => mret (Err (ErrOp op e))
  | OK _ =>
      _ ← wp_PushResponse id (ToPayloads_or_nil (GoString completed));
      r ← flushQueue;
      mret (wrapE op r)
  end.

(** The case [Panic]: the failure the worker sent, as an error. *)
Definition panic_result (msg : Message) : result unit :=
  match FailureToError (m_Failure msg) with Some e => Err (LibErr e) | None => OK tt end.

Definition handleMessage (msg : Message) : W (result unit) :=
  let op := "handleMessage" in
  let id := m_ID msg in
  info ← gets (λ w, env_WorkflowInfo (wp_env (wf w)));
  match m_Command msg with
  | Some (ByPtr (C_ExecuteActivity command)) =>
      let params := ActivityParams command info (m_Payloads msg) (m_Header msg) in
      activityID ← env_do (env_ExecuteActivity params (HCallback id "activity"));
      _ ← wp_Register id (CancelActivity activityID);
      mret (OK tt)
  | Some (ByPtr (C_ExecuteLocalActivity command)) =>
      now ← gets (λ w, time_Now (wp_env (wf w)));
      let params := LocalActivityParams command info now (NewLocalActivityFn (m_Header msg))
                      (m_Payloads msg) (m_Header msg) in
      activityID ← env_do (env_ExecuteLocalActivity params id);
      _ ← wp_Register id (CancelLocalActivity activityID);
      mret (OK tt)
  | Some (ByPtr (C_ExecuteChildWorkflow command)) =>
      params ← deterministic_id (WorkflowParams command info (m_Payloads msg) (m_Header msg));
      _ ← env_do (env_ExecuteChildWorkflow params (HCallback id "ExecuteChildWorkflow") id);
      _ ← wp_Register id (CancelChildWorkflow (WO_Namespace (EWP_Options params))
                            (WO_WorkflowID (EWP_Options params)));
      mret (OK tt)
  | Some (ByPtr (C_GetChildWorkflowExecution command)) =>
      _ ← Listen call_listener (GCWE_ID command) (mkListener id);
      mret (OK tt)
  | Some (ByPtr (C_NewTimer command)) =>
      timerID ← env_do (env_NewTimer (ToDuration command) (HCallback id "NewTimer"));
      _ ← wp_Register id (CancelTimer timerID);
      mret (OK tt)
  | Some (ByPtr (C_GetVersion command)) =>
      version ← env_do (env_GetVersion (ChangeID command) (MinSupported command) (MaxSupported command));
      match env_ToPayloads (GoVersion version) with
      | Err e => mret (Err (ErrOp op e))
      | OK result =>
          _ ← wp_PushResponse id result;
          r ← flushQueue;
          mret (wrapE op r)
      end
  | Some (ByPtr (C_SideEffect command)) =>
      _ ← env_do (env_SideEffect (m_Payloads msg) (HContinuable id "SideEffect"));
      mret (OK tt)
  | Some (ByPtr (C_CompleteWorkflow command)) =>
      _ ← wp_PushResponse id (ToPayloads_or_nil (GoString completed));
      match m_Failure msg with
      | None => _ ← env_do (env_Complete (m_Payloads msg) None); mret (OK tt)
      | Some f => _ ← env_do (env_Complete None (LibErr <$> FailureToError (Some f))); mret (OK tt)
      end
  | Some (ByPtr (C_ContinueAsNew command)) =>
      _ ← wp_PushResponse id (ToPayloads_or_nil (GoString completed));
      _ ← env_do (env_Complete None (Some (ContinueAsNewError (CAN_Name command) (m_Payloads msg)
                    (m_Header msg) (CAN_TaskQueueName command) (CAN_WorkflowRunTimeout command)
                    (CAN_WorkflowTaskTimeout command))));
      mret (OK tt)
  | Some (ByPtr (C_UpsertWorkflowSearchAttributes command)) =>
      r ← env_do (env_UpsertSearchAttributes (SearchAttributes command));
      mret (wrapE op r)
  | Some (ByPtr (C_SignalExternalWorkflow command)) =>
      _ ← env_do (env_SignalExternalWorkflow (SEW_Namespace command) (SEW_WorkflowID command)
            (SEW_RunID command) (SEW_Signal command) (m_Payloads msg) (m_Header msg)
            (SEW_ChildWorkflowOnly command) (HCallback id "SignalExternalWorkflow"));
      mret (OK tt)
  | Some (ByPtr (C_CancelExternalWorkflow command)) =>
      _ ← env_do (env_RequestCancelExternalWorkflow (CEW_Namespace command) (CEW_WorkflowID command)
            (CEW_RunID command) (HCallback id "CancelExternalWorkflow"));
      mret (OK tt)
  | Some (ByPtr (C_Cancel command)) => cancel_commands op id command
  | Some (ByPtr (C_Panic command)) => mret (panic_result msg)
  | _ => mret (Err (ErrOp op (ErrStr "undefined command")))
  end.

(** ** Handlers registered with the environment *)

Definition handleCancel : W unit :=
  rid ← gets RunID;
  hdr ← gets (λ w, wp_header (wf w));
  wp_PushCommand (C_CancelWorkflow (mkCancelWorkflow rid)) None hdr.

Definition handleSignal (name : string) (input : option Payloads) (header : option Header) : W (result unit) :=
  rid ← gets RunID;
  _ ← wp_PushCommand (C_InvokeSignal (mkInvokeSignal rid name)) input header;
  mret (OK tt).

Definition handleQuery (queryType : string) (queryArgs : option Payloads) (header : option Header)
    : W (result (option Payloads)) :=
  let op := "workflow_process_handle_query" in
  rid ← gets RunID;
  r ← runCommand (C_InvokeQuery (mkInvokeQuery rid queryType)) queryArgs header;
  match r with
  | Err e => mret (Err (ErrOp op e))
  | OK result =>
      match m_Failure result with
      | Some f =>
          (** [FailureToError] of a failure is never nil ([FailureConverterLaws]);
              [errors.E(op, nil)] would still be an error. *)
          mret (Err (ErrOp op (match FailureToError (Some f) with
                               | Some e => LibErr e | None => ErrStr "" end)))
      | None => mret (OK (m_Payloads result))
      end
  end.

(** The closure queued by [handleUpdate]. *)
Definition run_update (u : UpdateHandler UpdateCallbacks) : W unit :=
  let invoke typ := runCommand (C_InvokeUpdate (mkInvokeUpdate (upd_id u) (upd_rid u) (upd_name u) typ))
                      (upd_input u) (upd_header u) in
  let to_error f := LibErr <$> FailureToError (Some f) in
  let accepted_part : W unit :=
    _ ← env_set (upd_Accept (upd_callbacks u));
    r ← invoke execute_type;
    match r with
    | Err e => env_set (upd_Complete (upd_callbacks u) None (Some e))
    | OK result =>
        match m_Failure result with
        | Some f => env_set (upd_Complete (upd_callbacks u) None (to_error f))
        | None => env_set (upd_Complete (upd_callbacks u) (m_Payloads result) None)
        end
    end in
  replaying ← gets (λ w, env_IsReplaying (wp_env (wf w)));
  if (replaying : bool) then accepted_part
  else
    r ← invoke validate;
    match r with
    | Err e => env_set (upd_Reject (upd_callbacks u) (Some e))
    | OK result =>
        match m_Failure result with
        | Some f => env_set (upd_Reject (upd_callbacks u) (to_error f))
        | None => accepted_part
        end
    end.

Definition handleUpdate (name id : string) (input : option Payloads) (header : option Header)
    (callbacks : UpdateCallbacks) : W unit :=
  _ ← modify (on_wf (λ p, set_updatesQueue (wp_updatesQueue p ++ [name]) p));
  rid ← gets RunID;
  env_set (env_QueueUpdate name (mkUpdateHandler name id rid input header callbacks)).

(** ** Life cycle *)

(** The object returned by the factory [NewWorkflowDefinition], after [Execute]
    assigned the fields it assigns; [seqID] is the package-level counter. *)
Definition Execute (rrID : string) (env : Env) (header : option Header) (input : option Payloads)
    (seqID : Z) (pool : PoolState) (g : gauges) : World :=
  let mh := env_HasMetricsHandler env in
  let env := env_RegisterHandlers env in
  let wp := {| wp_rrID := rrID; wp_env := env; wp_header := header;
               wp_mq := NewMessageQueue counter_next; wp_ids := new_IDRegistry; wp_seqID := 0;
               wp_pipeline := []; wp_updatesQueue := []; wp_callbacks := [];
               wp_canceller := new_Canceller; wp_inLoop := 0; wp_mh := mh;
               wp_pldPool := mkPldPool [] |} in
  let lastCompletion := env_GetLastCompletionResult env in
  let '(input, lastCompletionOffset) :=
    match GetPayloads lastCompletion with
    | [] => (input, 0%Z)
    | lc => (Some (mkPayloads (GetPayloads input ++ lc)), Z.of_nat (length lc))
    end in
  (wp_PushCommand (C_StartWorkflow (mkStartWorkflow (Some (env_WorkflowInfo env)) lastCompletionOffset))
     input header (mkWorld wp seqID pool g)).1.

Definition StackTrace : W string :=
  rid ← gets RunID;
  hdr ← gets (λ w, wp_header (wf w));
  r ← runCommand (C_GetStackTrace (mkGetStackTrace rid)) None hdr;
  match r with
  | Err e => mret (error_Error e)
  | OK result =>
      match GetPayloads (m_Payloads result) with
      | [] => mret ""
      | p :: _ =>
          match env_FromPayload_string p with
          | Err e => mret (error_Error e)
          | OK stacktrace => mret stacktrace
          end
      end
  end.

(** Runs the update closures that the environment hands over. *)
Definition env_updates (call : Env -> Env * list (UpdateHandler UpdateCallbacks)) : W unit := λ w,
  let '(e, us) := call (wp_env (wf w)) in for_each us run_update (on_wf (set_env e) w).

Definition Close : W unit :=
  _ ← env_updates env_DrainUnhandledUpdates;
  rid ← gets RunID;
  hdr ← gets (λ w, wp_header (wf w));
  _ ← runCommand (C_DestroyWorkflow (mkDestroyWorkflow rid)) None hdr;
  update (Flush (G := Z)).

End Workflow.

(** The monad of the workflow's code. *)
Abbreviation W := (GoM World).
