(* ===== verification/Exchanges.v ===== *)
(** * Exchanges: what a workflow's exchange with the worker does

    The specifications of [flushQueue] and [runCommand] of [Workflow], on every
    path, and the interface [HandlerInvariant]: a relation between the states
    before and after that every primitive step respects is respected by every
    handler.  The theorems on the workflow task use both. *)
From S2P Require Import Prelude Api Doubles GoM Protocol Queue Canceller Registry Codec Exchange Activity Env Workflow.
From stdpp Require Import base gmap list strings.
From Stdlib Require Import ZArith Lia.

Local Open Scope string_scope.
Local Open Scope list_scope.

Section Exchanges.
Context `{Sdk} `{!Codec} `{!Pool} `{!WorkflowEnvironment}.

(** A complete exchange: [out] was encoded under [ctx] into a recycled payload and
    executed, the reply was accepted and decoded to [reply]. *)
Definition exchanged (ctx : Context) (out : list Message) (p p' : PoolState) (reply : list Message) : Prop :=
  ∃ pl0 pl first r,
    Encode ctx pl0 out = (pl, OK tt) ∧ Exec pl p = (p', ExecChan first) ∧
    accepted first = Some r ∧ Decode r [] = (reply, OK tt).

(** Recycled payloads are still wiped, if they were. *)
Definition recycled (w : World) (l : list payload) : Prop := all_wiped w -> Forall wiped l.

(** The messages of a reply that the plugin accepts and can decode. *)
Definition reply_of (r : exec_result) : option (list Message) :=
  match r with
  | ExecError _ => None
  | ExecChan first =>
      match accepted first with
      | None => None
      | Some p => match Decode p [] with (msgs, OK _) => Some msgs | (_, Err _) => None end
      end
  end.

(** At most one call of [Exec], of the kind [P], and at most one stop of a stream. *)
Definition pool_touched (P : payload -> exec_result -> Prop) (p p' : PoolState) : Prop :=
  p' = p ∨ ∃ pl r p1, Exec pl p = (p1, r) ∧ P pl r ∧ (p' = p1 ∨ p' = StopStream p1).

(** An exchange without a usable reply. *)
Definition fruitless (pl : payload) (r : exec_result) : Prop := reply_of r = None.

(** An exchange of the single message [msg]. *)
Definition carries (ctx : Context) (msg : Message) (pl : payload) (r : exec_result) : Prop :=
  ∃ pl0, Encode ctx pl0 [msg] = (pl, OK tt).

(** Only the payload pool, the worker pool and the gauges may have changed, and the
    exchange, if there was one, was fruitless. *)
Definition same_workflow (w w' : World) : Prop :=
  g_seqID w' = g_seqID w ∧ pool_touched fruitless (g_pool w) (g_pool w') ∧
  ∃ l, wf w' = set_plds (mkPldPool l) (wf w) ∧ recycled w l.

Definition flush_post (w : World) (r : result unit) (w' : World) : Prop :=
  match r with
  | Err _ => same_workflow w w'
  | OK _ =>
      ∃ reply l, exchanged (getContext w) (Messages (wp_mq (wf w))) (g_pool w) (g_pool w') reply ∧
        wf w' = set_plds (mkPldPool l) (set_pipeline (wp_pipeline (wf w) ++ reply)
                 (set_mq (Flush (wp_mq (wf w))) (wf w))) ∧
        recycled w l ∧ g_seqID w' = g_seqID w
  end.

Lemma flushQueue_empty w : Messages (wp_mq (wf w)) = [] -> flushQueue w = (w, Ret (OK tt)).
Proof. intros Hq. unfold flushQueue. go_unfold. by rewrite Hq. Qed.

(** Puts the payload back at the end of an exchange. *)
Ltac put_back w Hlp :=
  apply (wp_putPld (S := World)); let l' := fresh "l'" in let Hl' := fresh "Hl'" in
  intros l' Hl'; wp_steps; intros g'; eexists; split; [reflexivity|];
  assert (recycled w l') as Hrec by (intros Hw; apply Hl', Hlp, Hw).

(** With messages waiting, [flushQueue] returns (it neither panics nor blocks), and
    its error leaves everything but the recycled payloads, the pool and the gauges
    as they were. *)
Lemma flushQueue_spec w :
  Messages (wp_mq (wf w)) ≠ [] ->
  wp flushQueue (λ o w', ∃ r, o = Ret r ∧ flush_post w r w') w.
Proof.
  intros Hq. unfold flushQueue. wp_steps; [done|]. clear Hq. rename Heql into Hq.
  apply (wp_with_gauge (S := World)). intros g. wp_steps.
  apply (wp_getPld (S := World)). intros pl0 lp Hlp. wp_steps.
  2: by put_back w Hlp; split_and!; [|left|eexists].
  apply (wp_pool_Exec (S := World)); intros p' res Hx; wp_steps.
  1: by put_back w Hlp; split_and!; [|right; do 3 eexists; split_and!; [exact Hx|done|left]|eexists].
  apply (wp_receive (S := World)); intros; wp_steps; put_back w Hlp.
  2-4: split_and!; [done|right; do 3 eexists; split_and!; [exact Hx|unfold fruitless, reply_of; match goal with Ha : accepted _ = _ |- _ => rewrite Ha end; try match goal with Hd : Decode _ _ = _ |- _ => rewrite Hd end; done|by auto]|by eexists].
  repeat match goal with u : unit |- _ => destruct u end.
  eexists _, l'. split; [|done]. rewrite Hq. do 4 eexists. split_and!; eassumption.
Qed.

Definition command_message (w : World) (cmd : command) (payloads : option Payloads)
    (header : option Header) : Message :=
  mkMessage (SeqID (wp_mq (wf w)) (g_seqID w)).2 (Some (ByValue cmd)) None payloads header.

Definition run_post (w : World) (msg : Message) (r : result Message) (w' : World) : Prop :=
  g_seqID w' = (SeqID (wp_mq (wf w)) (g_seqID w)).1 ∧
  pool_touched (carries (getContext w) msg) (g_pool w) (g_pool w') ∧
  (∃ l, wf w' = set_plds (mkPldPool l) (wf w) ∧ recycled w l) ∧
  match r with
  | OK m => exchanged (getContext w) [msg] (g_pool w) (g_pool w') [m]
  | Err _ => True
  end.

Lemma wp_allocate cmd payloads header (Q : outcome Message -> World -> Prop) w :
  Q (Ret (command_message w cmd payloads header))
    (mkWorld (wf w) (SeqID (wp_mq (wf w)) (g_seqID w)).1 (g_pool w) (g_gauges w)) ->
  wp (wp_AllocateMessage cmd payloads header) Q w.
Proof.
  unfold wp, wp_AllocateMessage, AllocateMessage, command_message.
  by destruct (SeqID (wp_mq (wf w)) (g_seqID w)).
Qed.

(** [runCommand] always returns; it leaves the queue and the pipeline alone, and it
    succeeds exactly with a reply of one message. *)
Lemma runCommand_spec cmd payloads header w :
  wp (runCommand cmd payloads header)
     (λ o w', ∃ r, o = Ret r ∧ run_post w (command_message w cmd payloads header) r w') w.
Proof.
  unfold runCommand. wp_steps. apply wp_allocate. wp_steps.
  apply (wp_with_gauge (S := World)). intros g. wp_steps.
  apply (wp_getPld (S := World)). intros pl0 lp Hlp. wp_steps.
  2: by put_back w Hlp; split_and!; [|left|eexists|].
  apply (wp_pool_Exec (S := World)); intros p' res Hx.
  repeat match goal with u : unit |- _ => destruct u end.
  set (P := carries (getContext w) (command_message w cmd payloads header)).
  assert (pool_touched P (g_pool w) p') as Ht
    by (right; do 3 eexists; split_and!; [exact Hx|by eexists|by left]).
  assert (pool_touched P (g_pool w) (StopStream p')) as Ht'
    by (right; do 3 eexists; split_and!; [exact Hx|by eexists|by right]).
  wp_steps.
  1: by put_back w Hlp; split_and!; [| |eexists|].
  apply (wp_receive (S := World)); intros; wp_steps.
  5-6: intros g'; eexists; split; [reflexivity|]; split_and!; [done|done|exists lp|done];
    (split; [done|intros Hw; apply Hlp, Hw]).
  all: put_back w Hlp; split_and!; [done|done|by eexists|try done].
  repeat match goal with u : unit |- _ => destruct u end.
  do 4 eexists. split_and!; eassumption.
Qed.

(** ** Invariants of handlers *)

(** Relations respected by every step of the handlers that the environment runs. *)
Class FireInvariant (R : World -> World -> Prop) : Prop := {
  fi_preorder :: PreOrder R;
  fi_flush : always R flushQueue;
  fi_response : ∀ id p, always R (wp_PushResponse id p);
  fi_error : ∀ id f, always R (wp_PushError id f);
  fi_discard : ∀ id, always R (wp_Discard id);
  fi_ids : ∀ (f : IDRegistry listener -> IDRegistry listener), always R (update f);
  fi_env : ∀ e w, R w (on_wf (set_env e) w);
  fi_append : ∀ c w, wp_inLoop (wf w) ≠ 1%Z ->
    R w (on_wf (λ p, set_callbacks (wp_callbacks p ++ [c]) p) w);
}.

(** ... and by the steps that only the commands of the worker and the updates take. *)
Class HandlerInvariant (R : World -> World -> Prop) : Prop := {
  hi_fire :: FireInvariant R;
  hi_register : ∀ id c, always R (wp_Register id c);
  hi_seqID : ∀ n w, R w (on_wf (set_seqID n) w);
  hi_run : ∀ cmd p h, always R (runCommand cmd p h);
}.

#[local] Hint Resolve fi_flush fi_response fi_error fi_discard fi_ids hi_register hi_run : go.

Section Fires.
Context (R : World -> World -> Prop) `{!FireInvariant R}.

Lemma run_callback_always id p e : always R (run_callback id p e).
Proof. unfold run_callback. always_steps. Qed.

Lemma run_local_callback_always id lar : always R (run_local_callback id lar).
Proof. unfold run_local_callback. always_steps. Qed.

(** A callback either runs (in the loop) or is appended (out of it). *)
Lemma deferred_always (m : W unit) c :
  always R m ->
  always R (inLoop ← gets (λ w, wp_inLoop (wf w)); if Z.eqb inLoop 1 then m else append_callback c).
Proof.
  intros Hm w. unfold append_callback. go_unfold. destruct (Z.eqb_spec (wp_inLoop (wf w)) 1).
  - apply Hm.
  - by apply fi_append.
Qed.

Lemma createCallback_always id t p e : always R (createCallback id t p e).
Proof. apply deferred_always, run_callback_always. Qed.

Lemma createLocalActivityCallback_always id lar : always R (createLocalActivityCallback id lar).
Proof. apply deferred_always, run_local_callback_always. Qed.

Lemma createContinuableCallback_always id t p e : always R (createContinuableCallback id t p e).
Proof. unfold createContinuableCallback. always_steps. Qed.

Lemma call_listener_always l r e : always R (call_listener l r e).
Proof. unfold call_listener. always_steps; apply createCallback_always. Qed.

Lemma registry_Lock_always : always R (registry_Lock (S := World)).
Proof. unfold registry_Lock. always_steps. Qed.

Lemma registry_Unlock_always : always R (registry_Unlock (S := World)).
Proof.
  unfold registry_Unlock. always_steps. intros w. simpl. reflexivity.
Qed.

#[local] Hint Resolve call_listener_always registry_Lock_always registry_Unlock_always : go.

Lemma Push_always id r e : always R (Push (S := World) call_listener id r e).
Proof. unfold Push. always_steps. Qed.

Lemma Listen_always id cl : always R (Listen (S := World) call_listener id cl).
Proof. unfold Listen. always_steps. Qed.

Lemma run_fire_always f : always R (run_fire f).
Proof.
  destruct f as [[id t|id t] p e|id lar|id r e]; simpl.
  - apply createCallback_always.
  - apply createContinuableCallback_always.
  - apply createLocalActivityCallback_always.
  - apply Push_always.
Qed.

Lemma env_do_always {A} (call : Env -> Env * list fire * A) : always R (env_do call).
Proof.
  intros w. unfold env_do. destruct (call _) as [[e fires] a].
  transitivity (on_wf (set_env e) w); [apply fi_env|].
  assert (always R (_ ← for_each fires run_fire; mret a)) as Ha.
  { always_steps. apply run_fire_always. }
  apply Ha.
Qed.

Lemma env_set_always f : always R (env_set f).
Proof. intros w. apply fi_env. Qed.

#[local] Hint Resolve env_do_always : go.

Lemma run_cancellable_always c : always R (run_cancellable c).
Proof. unfold run_cancellable. always_steps. Qed.

Lemma Cancel_always ids : always R (Canceller_Cancel (S := World) run_cancellable ids).
Proof.
  induction ids as [|id ids IH]; simpl; always_steps.
  - apply (fi_discard id).
  - apply run_cancellable_always.
Qed.

End Fires.

#[local] Hint Resolve env_do_always env_set_always Listen_always Cancel_always : go.

Section Commands.
Context (R : World -> World -> Prop) `{!HandlerInvariant R}.

Lemma deterministic_id_always params : always R (deterministic_id params).
Proof.
  unfold deterministic_id, next_seqID_wf. always_steps. intros w. apply hi_seqID.
Qed.

#[local] Hint Resolve deterministic_id_always : go.

Lemma handleMessage_always msg : always R (handleMessage msg).
Proof. unfold handleMessage, cancel_commands, panic_result. always_steps. Qed.

Lemma run_update_always u : always R (run_update u).
Proof. unfold run_update. always_steps. Qed.

Lemma env_updates_always call : always R (env_updates call).
Proof.
  intros w. unfold env_updates. destruct (call _) as [e us].
  transitivity (on_wf (set_env e) w); [apply fi_env|].
  assert (always R (for_each us run_update)) as Ha.
  { always_steps. apply run_update_always. }
  apply Ha.
Qed.

End Commands.

(** ** Two invariants *)

Lemma always_wp {A} (R : World -> World -> Prop) (m : W A) :
  (∀ w, wp m (λ _ w', R w w') w) -> always R m.
Proof. intros Hm w. apply Hm. Qed.

Lemma flushQueue_always (R : World -> World -> Prop) `{!Reflexive R} :
  (∀ w r w', flush_post w r w' -> R w w') -> always R flushQueue.
Proof.
  intros HR. apply always_wp. intros w. destruct (Messages (wp_mq (wf w))) eqn:Hq.
  - eapply wp_run; [by apply flushQueue_empty|]. reflexivity.
  - eapply wp_mono; [apply flushQueue_spec; by rewrite Hq|].
    intros o w' (r & _ & Hr). by eapply HR.
Qed.

Lemma runCommand_always (R : World -> World -> Prop) cmd p h :
  (∀ w msg r w', run_post w msg r w' -> R w w') -> always R (runCommand cmd p h).
Proof.
  intros HR. apply always_wp. intros w. eapply wp_mono; [apply runCommand_spec|].
  intros o w' (r & _ & Hr). by eapply HR.
Qed.

(** What no handler changes: the identity of the run, the mode flag, the list of
    pending updates, the identifier generator; in the loop, the deferred callbacks;
    and recycled payloads stay wiped. *)
Record steady (w w' : World) : Prop := {
  steady_rrID : wp_rrID (wf w') = wp_rrID (wf w);
  steady_header : wp_header (wf w') = wp_header (wf w);
  steady_mh : wp_mh (wf w') = wp_mh (wf w);
  steady_inLoop : wp_inLoop (wf w') = wp_inLoop (wf w);
  steady_updates : wp_updatesQueue (wf w') = wp_updatesQueue (wf w);
  steady_gen : SeqID (wp_mq (wf w')) = SeqID (wp_mq (wf w));
  steady_callbacks : wp_inLoop (wf w) = 1%Z -> wp_callbacks (wf w') = wp_callbacks (wf w);
  steady_wiped : all_wiped w -> all_wiped w';
}.

Lemma steady_preorder : PreOrder steady.
Proof.
  split; [by split|]. intros w1 w2 w3 [] []. split; try congruence; [|auto].
  intros Hl. transitivity (wp_callbacks (wf w2)); [|auto].
  match goal with Hc : _ -> wp_callbacks (wf w3) = _ |- _ => apply Hc end. congruence.
Qed.

Lemma steady_same_workflow w w' :
  (∃ l, wf w' = set_plds (mkPldPool l) (wf w) ∧ recycled w l) -> steady w w'.
Proof.
  intros (l & Hwf & Hr). split; rewrite ?Hwf; try done.
  intros Hw. unfold all_wiped; simpl. rewrite Hwf. simpl. by apply Hr.
Qed.

#[global] Instance steady_invariant : HandlerInvariant steady.
Proof.
  pose proof steady_preorder. split; [split|..]; try done.
  - apply flushQueue_always; [apply _|]. intros w [u|e] w'; simpl.
    + intros (reply & l & _ & Hwf & Hr & _). split; rewrite ?Hwf; try done.
      intros Hw. unfold all_wiped; simpl. rewrite Hwf. simpl. by apply Hr.
    + intros (_ & _ & Hs). by apply steady_same_workflow.
  - intros cmd p h. apply runCommand_always. intros w msg r w' (_ & _ & Hs & _).
    by apply steady_same_workflow.
Qed.

(** [shrinks]: handlers run by the environment never register a cancellation. *)
#[global] Instance shrinks_invariant :
  FireInvariant (shrinks (S := World) (C := cancellable)).
Proof.
  assert (∀ w w' : World, wp_canceller (wf w') = wp_canceller (wf w) ->
    shrinks (S := World) (C := cancellable) w w') as Heq.
  { intros w w' Hc. unfold shrinks. simpl. by rewrite Hc. }
  split; try (intros; intros ?; by apply Heq); try (intros; by apply Heq).
  - apply _.
  - apply flushQueue_always; [apply _|]. intros w [u|e] w'; simpl.
    + intros (reply & l & _ & Hwf & _). apply Heq. by rewrite Hwf.
    + intros (_ & _ & l & Hwf & _). apply Heq. by rewrite Hwf.
  - intros id w. apply shrinks_Discard.
Qed.

(** ** Potential

    Against a worker that sends finitely many messages, [pot] bounding how many it
    still sends, the messages in the pipeline and those to come never grow. *)
Class FiniteReplies (pot : PoolState -> nat) : Prop := {
  pot_Exec : ∀ pl p p' r, Exec pl p = (p', r) -> pot p' <= pot p;
  pot_reply : ∀ pl p p' first r msgs, Exec pl p = (p', ExecChan first) ->
    accepted first = Some r -> Decode r [] = (msgs, OK tt) -> length msgs + pot p' <= pot p;
  pot_stop : ∀ p, pot (StopStream p) <= pot p;
}.

Section Potential.
Context (pot : PoolState -> nat) `{!FiniteReplies pot}.

Definition energy (w : World) : nat := length (wp_pipeline (wf w)) + pot (g_pool w).
Definition no_growth (w w' : World) : Prop := energy w' <= energy w.

Lemma pool_touched_pot P p p' : pool_touched P p p' -> pot p' <= pot p.
Proof.
  intros [->|(pl & r & p1 & Hx & _ & [->| ->])]; [done|by eapply pot_Exec|].
  etransitivity; [apply pot_stop|by eapply pot_Exec].
Qed.

Lemma no_growth_same P w w' :
  wp_pipeline (wf w') = wp_pipeline (wf w) -> pool_touched P (g_pool w) (g_pool w') -> no_growth w w'.
Proof.
  intros Hp Ht. apply pool_touched_pot in Ht. unfold no_growth, energy. rewrite Hp. lia.
Qed.

Lemma no_growth_invariant : HandlerInvariant no_growth.
Proof.
  assert (PreOrder no_growth) by (split; red; unfold no_growth; intros; lia).
  split; [split|..]; try (intros; intros ?; apply (no_growth_same fruitless); [done|by left]);
    try (intros; apply (no_growth_same fruitless); [done|by left]); [done| |].
  - apply flushQueue_always; [apply _|]. intros w [u|e] w'; simpl.
    + intros (reply & l & (pl0 & pl & first & r & _ & Hx & Ha & Hd) & Hwf & _).
      pose proof (pot_reply _ _ _ _ _ _ Hx Ha Hd). unfold no_growth, energy. rewrite Hwf; simpl.
      rewrite length_app. lia.
    + intros (_ & Ht & l & Hwf & _). eapply no_growth_same; [by rewrite Hwf|done].
  - intros cmd p h. apply runCommand_always. intros w msg r w' (_ & Ht & (l & Hwf & _) & _).
    eapply no_growth_same; [by rewrite Hwf|done].
Qed.

End Potential.

End Exchanges.

#[export] Hint Resolve fi_flush fi_response fi_error fi_discard fi_ids hi_register hi_run
  env_do_always env_set_always Listen_always Cancel_always handleMessage_always
  run_update_always env_updates_always : go.
