(* ===== verification/TaskLoop.v ===== *)
(** * TaskLoop: a workflow task (src/aggregatedpool/workflow.go, OnWorkflowTaskStarted)

    One workflow task runs the deferred callbacks, exchanges the queue with the
    worker, runs the queued updates and then handles the worker's commands until none
    is left, new exchanges included.  The theorems: the task ends, it ends clean, it
    loses no message when the worker fails, and deferring a callback to the task is
    the same as running it in the task. *)
From S2P Require Import Prelude Api Doubles GoM Protocol Queue Canceller Registry Codec Exchange Activity Env Workflow Exchanges.
From stdpp Require Import base gmap list strings.
From Stdlib Require Import ZArith Lia.

Local Open Scope string_scope.
Local Open Scope list_scope.

(** [for i := 0; i < len(xs); i++ { body(xs[i]) }]: the slice is read again on every
    iteration, so the loop also runs what the body appends. *)
Fixpoint index_loop `{Api} {S A} (fuel : nat) (xs : S -> list A) (body : A -> GoM S unit) (i : nat)
    : GoM S unit :=
  l ← gets xs;
  match l !! i with
  | None => mret tt
  | Some x =>
      match fuel with
      | O => nofuel
      | Datatypes.S fuel => _ ← body x; index_loop fuel xs body (Datatypes.S i)
      end
  end.

(** When the body leaves the slice alone this is a range loop. *)
Lemma index_loop_for_each `{Api} {S A} (xs : S -> list A) (body : A -> GoM S unit) (I : S -> Prop) :
  (∀ x s, I s -> I (body x s).1 ∧ xs (body x s).1 = xs s) ->
  ∀ fuel i s, I s -> length (xs s) - i <= fuel ->
  index_loop fuel xs body i s = for_each (drop i (xs s)) body s.
Proof.
  intros Hb. induction fuel as [|fuel IH]; intros i s Hs Hf; simpl; go_unfold;
    (destruct (xs s !! i) as [x|] eqn:Hx;
      [rewrite (drop_S _ _ _ Hx)
      |apply lookup_ge_None in Hx; by rewrite drop_ge]).
  - apply lookup_lt_Some in Hx. lia.
  - simpl. go_unfold. destruct (Hb x s Hs) as [HI Heq].
    destruct (body x s) as [s' [u|v|m| |]]; simpl in *; try done.
    rewrite <- Heq. apply IH; [done|]. rewrite Heq. lia.
Qed.

Section TaskLoop.
Context `{Sdk} `{!Codec} `{!Pool} `{!WorkflowEnvironment}.

(** A deferred callback, called in the loop. *)
Definition run_Callback (c : Callback) : W unit :=
  match c with
  | DeferredResult id _ result err => run_callback id result err
  | DeferredLocal id lar => run_local_callback id lar
  end.

Definition discard_pipeline : W unit := modify (on_wf (set_pipeline [])).

Fixpoint pipeline_loop (fuel : nat) : W unit :=
  pipeline ← gets (λ w, wp_pipeline (wf w));
  match pipeline with
  | [] => mret tt
  | msg :: rest =>
      match fuel with
      | O => nofuel
      | S fuel =>
          _ ← modify (on_wf (set_pipeline rest));
          r ← (if IsCommand msg then
                 match m_Command msg with
                 | Some (ByPtr (C_UndefinedResponse u)) =>
                     _ ← discard_pipeline;
                     panic (PanicStr ("undefined response: " ++ UR_Message u))
                 | _ => handleMessage msg
                 end
               else mret (OK tt));
          match r with
          | Err e => _ ← discard_pipeline; panic (PanicErr e)
          | OK _ => pipeline_loop fuel
          end
      end
  end.

(** The body of the task.  The fuel bounds the number of messages handled; the
    other loops are given the length of the slice they start with. *)
Definition task_body (fuel : nat) : W unit :=
  callbacks ← gets (λ w, wp_callbacks (wf w));
  _ ← index_loop (length callbacks) (λ w, wp_callbacks (wf w)) run_Callback 0;
  _ ← modify (on_wf (set_callbacks []));
  r ← flushQueue;
  match r with
  | Err e => panic (PanicErr e)
  | OK _ =>
      updates ← gets (λ w, wp_updatesQueue (wf w));
      _ ← index_loop (length updates) (λ w, wp_updatesQueue (wf w))
            (λ name, env_updates (env_HandleQueuedUpdates name)) 0;
      _ ← modify (on_wf (set_updatesQueue []));
      pipeline_loop fuel
  end.

Definition OnWorkflowTaskStarted (fuel : nat) : W unit :=
  _ ← modify (on_wf (set_inLoop 1));
  defer (modify (on_wf (set_inLoop 0))) (task_body fuel).

(** ** The deferred callbacks *)

(** The message a callback answers its command with. *)
Definition callback_message (c : Callback) : Message :=
  match c with
  | DeferredResult id _ _ (Some e) => mkMessage id None (ErrorToFailure e) None None
  | DeferredResult id _ result None => mkMessage id None None result None
  | DeferredLocal id lar =>
      match lar_Err lar with
      | Some e => mkMessage id None (ErrorToFailure e) None None
      | None => mkMessage id None None (lar_Result lar) None
      end
  end.

Definition callback_id (c : Callback) : Z :=
  match c with DeferredResult id _ _ _ => id | DeferredLocal id _ => id end.

(** One answer: the message is queued, the cancellation of its command forgotten. *)
Definition answered (p : Workflow) (c : Callback) : Workflow :=
  set_mq (mkMessageQueue (SeqID (wp_mq p)) (Messages (wp_mq p) ++ [callback_message c]))
    (set_canceller (Discard (callback_id c) (wp_canceller p)) p).

Lemma run_Callback_run c w : run_Callback c w = (on_wf (λ p, answered p c) w, Ret tt).
Proof. destruct w as [[] ? ? ?]. by destruct c as [id t r [e|]|id [[e|] r a b]]. Qed.

Lemma for_each_callbacks cbs : ∀ w,
  for_each cbs run_Callback w = (on_wf (λ p, foldl answered p cbs) w, Ret tt).
Proof.
  induction cbs as [|c cbs IH]; intros w; simpl; [by destruct w|].
  rewrite (bind_ret _ _ _ _ _ (run_Callback_run c w)). apply IH.
Qed.

Lemma answered_queue cbs : ∀ p,
  Messages (wp_mq (foldl answered p cbs)) = Messages (wp_mq p) ++ (callback_message <$> cbs).
Proof.
  induction cbs as [|c cbs IH]; intros p; simpl; [by rewrite app_nil_r|].
  rewrite IH. simpl. by rewrite <- app_assoc.
Qed.

Lemma answered_steady cbs : ∀ p,
  let p' := foldl answered p cbs in
  wp_callbacks p' = wp_callbacks p ∧ wp_updatesQueue p' = wp_updatesQueue p ∧
  wp_inLoop p' = wp_inLoop p ∧ wp_pipeline p' = wp_pipeline p ∧ wp_ids p' = wp_ids p ∧
  wp_pldPool p' = wp_pldPool p ∧ wp_rrID p' = wp_rrID p ∧ wp_header p' = wp_header p ∧
  SeqID (wp_mq p') = SeqID (wp_mq p).
Proof. induction cbs as [|c cbs IH]; intros p; simpl; [done|]. apply (IH (answered p c)). Qed.

(** The state in which the task makes its first exchange. *)
Definition at_first_flush (w : World) : World :=
  on_wf (λ p, set_callbacks [] (foldl answered (set_inLoop 1 p) (wp_callbacks p))) w.

Lemma at_first_flush_inLoop w : wp_inLoop (wf (at_first_flush w)) = 1%Z.
Proof. apply (answered_steady (wp_callbacks (wf w)) (set_inLoop 1 (wf w))). Qed.

Lemma callbacks_loop_run w :
  index_loop (length (wp_callbacks (wf w))) (λ w, wp_callbacks (wf w)) run_Callback 0 w =
  (on_wf (λ p, foldl answered p (wp_callbacks p)) w, Ret tt).
Proof.
  rewrite (index_loop_for_each _ run_Callback (λ _, True)).
  - rewrite drop_0. apply for_each_callbacks.
  - intros c s _. by rewrite run_Callback_run.
  - done.
  - lia.
Qed.

(** What the task does after its first exchange succeeded. *)
Definition after_flush (fuel : nat) : W unit :=
  updates ← gets (λ w, wp_updatesQueue (wf w));
  _ ← index_loop (length updates) (λ w, wp_updatesQueue (wf w))
        (λ name, env_updates (env_HandleQueuedUpdates name)) 0;
  _ ← modify (on_wf (set_updatesQueue []));
  pipeline_loop fuel.

(** The task, from its first exchange on. *)
Definition task_rest (fuel : nat) : W unit :=
  defer (modify (on_wf (set_inLoop 0)))
    (r ← flushQueue; match r with Err e => panic (PanicErr e) | OK _ => after_flush fuel end).

Lemma task_from_first_flush fuel w :
  OnWorkflowTaskStarted fuel w = task_rest fuel (at_first_flush w).
Proof.
  unfold OnWorkflowTaskStarted, task_rest, task_body.
  rewrite (bind_ret _ _ _ (on_wf (set_inLoop 1) w) tt) by done.
  unfold defer. set (m := _ ≫= _). set (m' := _ ≫= _ : W unit).
  assert (m (on_wf (set_inLoop 1) w) = m' (at_first_flush w)) as ->; [|done].
  subst m m'. unfold gets at 1. unfold mbind at 1, GoM_bind at 1, after at 1; simpl.
  by rewrite (bind_ret _ _ _ _ _ (callbacks_loop_run (on_wf (set_inLoop 1) w))).
Qed.

(** ** Deferral *)

(** The callback a fired handler is deferred as. *)
Definition as_callback (f : fire) : option Callback :=
  match f with
  | FireResult (HCallback id t) result err => Some (DeferredResult id t result err)
  | FireLocal id lar => Some (DeferredLocal id lar)
  | _ => None
  end.

Lemma run_fire_deferred f c w :
  as_callback f = Some c -> wp_inLoop (wf w) = 0%Z -> run_fire f w = append_callback c w.
Proof.
  intros Hf Hl. destruct f as [[id t|] r e|id lar|]; simpl in Hf; simplify_eq;
    unfold run_fire, run_ResultHandler, createCallback, createLocalActivityCallback; go_unfold;
    by rewrite Hl.
Qed.

Lemma run_fire_in_loop f c w :
  as_callback f = Some c -> wp_inLoop (wf w) = 1%Z -> run_fire f w = run_Callback c w.
Proof.
  intros Hf Hl. destruct f as [[id t|] r e|id lar|]; simpl in Hf; simplify_eq;
    unfold run_fire, run_ResultHandler, createCallback, createLocalActivityCallback; go_unfold;
    by rewrite Hl.
Qed.

Lemma at_first_flush_append c w :
  at_first_flush (on_wf (λ p, set_callbacks (wp_callbacks p ++ [c]) p) w) =
  on_wf (λ p, answered p c) (at_first_flush w).
Proof.
  unfold at_first_flush, on_wf; simpl. f_equal. rewrite foldl_app. simpl.
  assert (∀ cbs p q, p = set_callbacks (wp_callbacks p) q ->
    foldl answered p cbs = set_callbacks (wp_callbacks p) (foldl answered q cbs)) as Hcb.
  { induction cbs as [|d cbs IH]; intros p q Hp; [done|]. simpl.
    assert (wp_callbacks p = wp_callbacks (answered p d)) as -> by done.
    apply (IH (answered p d) (answered q d)). by rewrite Hp. }
  rewrite (Hcb (wp_callbacks (wf w)) _ (set_inLoop 1 (wf w))) by done. done.
Qed.

(** C1: delivering results of activities, local activities, timers and child
    workflows between two tasks and then running the task is the same, state and
    outcome, as running those handlers inside the task just before its first
    exchange: deferring them neither loses, duplicates, reorders nor changes a
    response. *)
Theorem deferral_is_transparent (fires : list fire) (cs : list Callback) (fuel : nat) (w : World) :
  mapM as_callback fires = Some cs -> wp_inLoop (wf w) = 0%Z ->
  (_ ← for_each fires run_fire; OnWorkflowTaskStarted fuel) w =
  (_ ← for_each fires run_fire; task_rest fuel) (at_first_flush w).
Proof.
  revert cs w. induction fires as [|f fires IH]; intros cs w Hcs Hl.
  { apply task_from_first_flush. }
  apply mapM_Some in Hcs. inversion Hcs as [|? c ? cs' Hf Hfs]; subst.
  apply mapM_Some in Hfs.
  change (for_each (f :: fires) run_fire) with (run_fire f ≫= λ _, for_each fires run_fire).
  etransitivity; [apply bind_assoc|]. etransitivity; [|symmetry; apply bind_assoc].
  rewrite (bind_ret _ _ _ (on_wf (λ p, set_callbacks (wp_callbacks p ++ [c]) p) w) tt)
    by (by rewrite (run_fire_deferred f c)).
  rewrite (bind_ret (run_fire f) _ (at_first_flush w) (on_wf (λ p, answered p c) (at_first_flush w)) tt).
  - rewrite <- at_first_flush_append. by apply (IH cs').
  - rewrite (run_fire_in_loop f c) by (done || apply at_first_flush_inLoop).
    apply run_Callback_run.
Qed.

(** ** A worker that fails *)

(** C6: when the first exchange of a task fails, the task panics with the
    error of the exchange, and every message that was to be sent is still queued: the
    messages that were waiting, then the answers of the deferred callbacks in the
    order of their delivery.  The mode flag is reset and the pipeline untouched. *)
Theorem failed_exchange_keeps_messages (fuel : nat) (w w1 : World) (e : error) :
  flushQueue (at_first_flush w) = (w1, Ret (Err e)) ->
  let '(w', o) := OnWorkflowTaskStarted fuel w in
  o = Panics (PanicErr e) ∧
  Messages (wp_mq (wf w')) = Messages (wp_mq (wf w)) ++ (callback_message <$> wp_callbacks (wf w)) ∧
  wp_pipeline (wf w') = wp_pipeline (wf w) ∧ wp_callbacks (wf w') = [] ∧ wp_inLoop (wf w') = 0%Z.
Proof.
  intros Hf. rewrite task_from_first_flush. unfold task_rest, defer.
  rewrite (bind_ret _ _ _ _ _ Hf). simpl.
  pose proof (answered_queue (wp_callbacks (wf w)) (set_inLoop 1 (wf w))) as Hq.
  pose proof (answered_steady (wp_callbacks (wf w)) (set_inLoop 1 (wf w))) as (_ & _ & _ & Hp & _).
  assert (Messages (wp_mq (wf (at_first_flush w))) ≠ []) as Hne.
  { intros H0'. rewrite (flushQueue_empty _ H0') in Hf. done. }
  pose proof (flushQueue_spec _ Hne) as (r & Ho & Hr). unfold wp in Ho. rewrite Hf in Ho, Hr.
  simpl in Ho, Hr. simplify_eq. destruct Hr as (_ & _ & l & Hwf & _). rewrite Hwf. simpl. done.
Qed.

(** ** The end of a task *)

Lemma steady_pipeline_step w p : steady w (on_wf (set_pipeline p) w).
Proof. by split. Qed.

Lemma pipeline_loop_steady fuel : always steady (pipeline_loop fuel).
Proof.
  pose proof steady_preorder. induction fuel as [|fuel IH]; simpl; always_steps; try done.
  all: try (intros w; apply steady_pipeline_step).
  all: try (apply handleMessage_always, _).
  all: intros w; simpl; reflexivity.
Qed.

Lemma pipeline_loop_empty fuel : ∀ w w',
  pipeline_loop fuel w = (w', Ret tt) -> wp_pipeline (wf w') = [].
Proof.
  induction fuel as [|fuel IH]; intros w w'; simpl; go_unfold;
    destruct (wp_pipeline (wf w)) as [|msg rest] eqn:Hp; intros Hr; simplify_eq; try done.
  destruct (IsCommand msg); [destruct (m_Command msg) as [[c|c]|]; [|destruct c|]|];
    repeat (case_match; go_unfold; simplify_eq; eauto).
Qed.

(** The updates leave the list of their names alone, so its loop is a range loop. *)
Lemma updates_loop_for_each w :
  index_loop (length (wp_updatesQueue (wf w))) (λ w, wp_updatesQueue (wf w))
    (λ name, env_updates (env_HandleQueuedUpdates name)) 0 w =
  for_each (wp_updatesQueue (wf w)) (λ name, env_updates (env_HandleQueuedUpdates name)) w.
Proof.
  rewrite (index_loop_for_each _ _ (λ _, True)); [by rewrite drop_0| |done|lia].
  intros name s _. split; [done|].
  apply (steady_updates _ _ (env_updates_always steady (env_HandleQueuedUpdates name) s)).
Qed.

Definition run_updates (names : list string) : W unit :=
  for_each names (λ name, env_updates (env_HandleQueuedUpdates name)).

Lemma run_updates_always R `{!HandlerInvariant R} names : always R (run_updates names).
Proof. unfold run_updates. always_steps. Qed.

Lemma after_flush_eq fuel w :
  after_flush fuel w =
  (_ ← run_updates (wp_updatesQueue (wf w)); _ ← modify (on_wf (set_updatesQueue []));
   pipeline_loop fuel) w.
Proof.
  unfold after_flush. unfold gets at 1, mbind at 1, GoM_bind at 1, after at 1. simpl.
  unfold mbind at 1, GoM_bind at 1. by rewrite updates_loop_for_each.
Qed.

Definition drained (w w' : World) (o : outcome unit) : Prop :=
  (all_wiped w -> all_wiped w') ∧
  match o with
  | Ret _ => wp_callbacks (wf w') = wp_callbacks (wf w) ∧
             wp_updatesQueue (wf w') = [] ∧ wp_pipeline (wf w') = []
  | _ => True
  end.

Lemma after_flush_drained fuel w :
  wp_inLoop (wf w) = 1%Z -> wp (after_flush fuel) (λ o w', drained w w' o) w.
Proof.
  intros Hl. unfold wp. rewrite after_flush_eq. go_unfold.
  pose proof (run_updates_always steady (wp_updatesQueue (wf w)) w) as Hu.
  destruct (run_updates _ w) as [w1 o1]; simpl in Hu.
  destruct Hu as [_ _ _ Hl1 _ _ Hc1 Hw1].
  destruct o1 as [[]|v|m| |]; try (by split).
  simpl. set (w2 := on_wf (set_updatesQueue []) w1).
  pose proof (pipeline_loop_steady fuel w2) as [_ _ _ _ Hu3 _ Hc3 Hw3].
  pose proof (pipeline_loop_empty fuel w2) as He.
  destruct (pipeline_loop fuel w2) as [w3 o3]; simpl in *. split; [tauto|].
  destruct o3 as [[]|v|m| |]; try done. split_and!; [|done|by apply He].
  rewrite Hc3; simpl; [by apply Hc1|congruence].
Qed.

Lemma task_end (fuel : nat) (w : World) :
  let '(w', o) := OnWorkflowTaskStarted fuel w in
  (all_wiped w -> all_wiped w') ∧
  match o with
  | Ret _ => wp_inLoop (wf w') = 0%Z ∧ wp_callbacks (wf w') = [] ∧
             wp_updatesQueue (wf w') = [] ∧ wp_pipeline (wf w') = []
  | Panics _ => wp_inLoop (wf w') = 0%Z
  | _ => True
  end.
Proof.
  rewrite task_from_first_flush. unfold task_rest, defer.
  assert (wp_callbacks (wf (at_first_flush w)) = []) as Hc by done.
  assert (all_wiped (at_first_flush w) <-> all_wiped w) as Hw.
  { unfold all_wiped; simpl. by destruct (answered_steady (wp_callbacks (wf w)) (set_inLoop 1 (wf w))) as (_ & _ & _ & _ & _ & -> & _). }
  pose proof (at_first_flush_inLoop w) as Hl. set (w0 := at_first_flush w) in *. go_unfold.
  pose proof (fi_flush (R := steady) w0) as [_ _ _ Hl1 _ _ Hc1 Hw1].
  destruct (flushQueue w0) as [w1 [[[]|e]|v|m| |]]; simpl in *; try (split; [tauto|done]).
  destruct (after_flush_drained fuel w1) as [Hw2 Ho]; [congruence|].
  destruct (after_flush fuel w1) as [w2 [[]|v|m| |]]; simpl in *; try (split; [tauto|done]).
  split; [tauto|]. destruct Ho as (Hc2 & Hu2 & Hp2). split_and!; try done.
  rewrite Hc2, Hc1; done.
Qed.

(** C7: however a task ends by returning or panicking, the mode flag is
    reset, so a later handler is deferred again, and recycled payloads are wiped; a
    task that returns has run every deferred callback and every queued update and has
    handled every message of the worker. *)
Theorem task_ends_clean (fuel : nat) (w : World) :
  let '(w', o) := OnWorkflowTaskStarted fuel w in
  (all_wiped w -> all_wiped w') ∧
  match o with
  | Ret _ => wp_inLoop (wf w') = 0%Z ∧ wp_callbacks (wf w') = [] ∧
             wp_updatesQueue (wf w') = [] ∧ wp_pipeline (wf w') = []
  | Panics _ => wp_inLoop (wf w') = 0%Z
  | _ => True
  end.
Proof. apply task_end. Qed.

End TaskLoop.
