(* ===== verification/Progress.v ===== *)
(** * Progress: workflow tasks end (src/aggregatedpool, registry)

    No handler deadlocks on the mutex of the child-workflow registry, and a task that
    talks to a worker with finitely many messages to send ends. *)
From S2P Require Import Prelude Api Doubles GoM Protocol Queue Canceller Registry Codec Exchange Activity Env Workflow Exchanges TaskLoop.
From stdpp Require Import base gmap list strings.
From Stdlib Require Import ZArith Lia.

Local Open Scope string_scope.
Local Open Scope list_scope.

Section Progress.
Context `{Sdk} `{!Codec} `{!Pool} `{!WorkflowEnvironment}.

(** The mutex of the registry is free. *)
Definition unlocked (w : World) : Prop := registry_locked (wp_ids (wf w)) = false.

Lemma safe_update_unlocked {F} `{Field World F} (f : F -> F) :
  (∀ w, wp_ids (wf (setf (f (getf w)) w)) = wp_ids (wf w)) -> safe unlocked (update f).
Proof. intros Hf w Hw. simpl. unfold unlocked. by rewrite Hf. Qed.

Lemma flushQueue_safe : safe unlocked flushQueue.
Proof.
  intros w Hw. destruct (Messages (wp_mq (wf w))) eqn:Hq; [by rewrite flushQueue_empty|].
  destruct (flushQueue_spec w) as (r & Ho & Hr); [by rewrite Hq|]. rewrite Ho.
  destruct r; simpl in Hr.
  - destruct Hr as (reply & l' & _ & Hwf & _). unfold unlocked. by rewrite Hwf.
  - destruct Hr as (_ & _ & l' & Hwf & _). unfold unlocked. by rewrite Hwf.
Qed.

Lemma runCommand_safe cmd p h : safe unlocked (runCommand cmd p h).
Proof.
  intros w Hw. destruct (runCommand_spec cmd p h w) as (r & Ho & _ & _ & (l & Hwf & _) & _).
  rewrite Ho. unfold unlocked. by rewrite Hwf.
Qed.

Lemma wp_PushResponse_safe id p : safe unlocked (wp_PushResponse id p).
Proof. by apply safe_update_unlocked. Qed.
Lemma wp_PushError_safe id f : safe unlocked (wp_PushError id f).
Proof. by apply safe_update_unlocked. Qed.
Lemma wp_Discard_safe id : safe unlocked (wp_Discard id).
Proof. by apply safe_update_unlocked. Qed.
Lemma wp_Register_safe id c : safe unlocked (wp_Register id c).
Proof. by apply safe_update_unlocked. Qed.

#[local] Hint Resolve flushQueue_safe runCommand_safe wp_PushResponse_safe wp_PushError_safe
  wp_Discard_safe wp_Register_safe : go.

Lemma run_callback_run id r e w :
  ∃ w', run_callback id r e w = (w', Ret tt) ∧ wp_ids (wf w') = wp_ids (wf w).
Proof. unfold run_callback. destruct e; by eexists. Qed.

Lemma createCallback_run id t r e w :
  ∃ w', createCallback id t r e w = (w', Ret tt) ∧ wp_ids (wf w') = wp_ids (wf w).
Proof.
  unfold createCallback. go_unfold. destruct (Z.eqb _ 1); [apply run_callback_run|by eexists].
Qed.

(** A listener does not touch the registry; it panics if the execution cannot be
    converted to payloads. *)
Lemma call_listener_run l r e w :
  ∃ w' o, call_listener l r e w = (w', o) ∧ wp_ids (wf w') = wp_ids (wf w) ∧
          (o = Ret tt ∨ ∃ v, o = Panics v).
Proof.
  unfold call_listener. destruct e as [e|]; [|destruct (env_ToPayloads (GoExecution r)) as [p|er]].
  - destruct (createCallback_run (listener_msgID l) "GetChildWorkflow" None (Some e) w)
      as (w' & -> & Hids). exists w', (Ret tt). eauto.
  - destruct (createCallback_run (listener_msgID l) "GetChildWorkflow" p None w)
      as (w' & -> & Hids). exists w', (Ret tt). eauto.
  - exists w, (Panics (PanicErr er)). split_and!; try done. right. by eexists.
Qed.

(** The critical section around a listener. *)
Lemma locked_call_safe l r e :
  safe unlocked (_ ← registry_Lock; _ ← call_listener l r e; registry_Unlock).
Proof.
  intros w Hw. unfold unlocked in Hw. unfold registry_Lock, registry_Unlock. go_unfold. rewrite Hw.
  go_unfold. set (w1 := on_wf _ w).
  destruct (call_listener_run l r e w1) as (w' & o & -> & Hids & [-> | [v ->]]); [|done].
  simpl. by rewrite Hids.
Qed.

#[local] Hint Resolve locked_call_safe : go.

Lemma Push_safe id r e : safe unlocked (Push (S := World) call_listener id r e).
Proof.
  unfold Push. safe_steps. by intros w Hw.
Qed.

Lemma Listen_safe id cl : safe unlocked (Listen (S := World) call_listener id cl).
Proof. unfold Listen. safe_steps. by intros w Hw. Qed.

Lemma createCallback_safe id t r e : safe unlocked (createCallback id t r e).
Proof.
  intros w Hw. destruct (createCallback_run id t r e w) as (w' & -> & Hids).
  unfold unlocked. simpl. by rewrite Hids.
Qed.

Lemma run_fire_safe f : safe unlocked (run_fire f).
Proof.
  destruct f as [[id t|id t] r e|id lar|id r e]; simpl.
  - apply createCallback_safe.
  - unfold createContinuableCallback. safe_steps.
  - unfold createLocalActivityCallback, run_local_callback. safe_steps. by intros w Hw.
  - apply Push_safe.
Qed.

Lemma env_do_safe {A} (call : Env -> Env * list fire * A) : safe unlocked (env_do call).
Proof.
  intros w Hw. unfold env_do. destruct (call _) as [[e fires] a].
  assert (safe unlocked (_ ← for_each fires run_fire; mret a)) as Ha.
  { safe_steps. apply run_fire_safe. }
  by apply Ha.
Qed.

Lemma env_set_safe f : safe unlocked (env_set f).
Proof. by intros w Hw. Qed.

#[local] Hint Resolve env_do_safe env_set_safe Listen_safe : go.

Lemma Cancel_safe ids : safe unlocked (Canceller_Cancel (S := World) run_cancellable ids).
Proof.
  induction ids as [|id ids IH]; simpl; safe_steps; try done.
  - apply (wp_Discard_safe id).
  - unfold run_cancellable. safe_steps.
Qed.

Lemma deterministic_id_safe params : safe unlocked (deterministic_id params).
Proof. unfold deterministic_id, next_seqID_wf. safe_steps. by intros w Hw. Qed.

#[local] Hint Resolve Cancel_safe deterministic_id_safe : go.

Lemma handleMessage_safe msg : safe unlocked (handleMessage msg).
Proof. unfold handleMessage, cancel_commands, panic_result. safe_steps. Qed.

Lemma run_update_safe u : safe unlocked (run_update u).
Proof. unfold run_update. safe_steps. Qed.

Lemma env_updates_safe call : safe unlocked (env_updates call).
Proof.
  intros w Hw. unfold env_updates. destruct (call _) as [e us].
  assert (safe unlocked (for_each us run_update)) as Ha.
  { safe_steps. apply run_update_safe. }
  by apply Ha.
Qed.

Lemma run_updates_safe names : safe unlocked (run_updates names).
Proof. unfold run_updates. safe_steps. apply env_updates_safe. Qed.

(** ** Termination *)

(** More fuel does not change a run that ended. *)
Lemma pipeline_loop_fuel fuel : ∀ fuel' w,
  fuel <= fuel' -> (pipeline_loop fuel w).2 ≠ NoFuel -> pipeline_loop fuel' w = pipeline_loop fuel w.
Proof.
  induction fuel as [|fuel IH]; intros fuel' w Hle; destruct fuel' as [|fuel']; try lia; simpl;
    go_unfold; destruct (wp_pipeline (wf w)) as [|msg rest]; simpl; try done.
  set (r := _ (on_wf (set_pipeline rest) w)). destruct r as [w1 [[u|e]|v|m| |]]; simpl; try done.
  intros Hn. apply IH; [lia|done].
Qed.

Lemma pipeline_loop_unlocked fuel : ∀ w w',
  unlocked w -> pipeline_loop fuel w = (w', Ret tt) -> unlocked w'.
Proof.
  induction fuel as [|fuel IH]; intros w w' Hw; simpl; go_unfold;
    destruct (wp_pipeline (wf w)) as [|msg rest]; intros Hr; simplify_eq/=; try done.
  set (w1 := on_wf (set_pipeline rest) w) in Hr.
  pose proof (handleMessage_safe msg w1 Hw) as Hs.
  destruct (IsCommand msg); simpl in Hr; [|exact (IH w1 _ Hw Hr)].
  destruct (m_Command msg) as [[c|[]]|]; simpl in Hr; simplify_eq;
    (destruct (handleMessage msg w1) as [w2 [[u|e]|v|m| |]]; simplify_eq/=; by apply (IH w2)).
Qed.

Section Finite.
Context (pot : PoolState -> nat) `{!FiniteReplies pot}.

Lemma pipeline_loop_ends fuel : ∀ w,
  unlocked w -> energy pot w <= fuel ->
  match pipeline_loop fuel w with
  | (w', Ret _) => unlocked w'
  | (_, Panics _) => True
  | _ => False
  end.
Proof.
  pose proof (no_growth_invariant pot).
  induction fuel as [|fuel IH]; intros w Hw He; simpl; go_unfold;
    destruct (wp_pipeline (wf w)) as [|msg rest] eqn:Hp; simpl; try done.
  { unfold energy in He. rewrite Hp in He. simpl in He. lia. }
  set (w1 := on_wf (set_pipeline rest) w).
  assert (energy pot w1 <= fuel) as He1 by (unfold energy in He |- *; rewrite Hp in He; subst w1; simpl in *; lia).
  assert (∀ m : W (result unit), always (no_growth pot) m -> safe unlocked m ->
    match (let '(w2, o) := m w1 in
           after (w2, o) (λ r, match r with
             | OK _ => pipeline_loop fuel
             | Err e => _ ← discard_pipeline; panic (PanicErr e) end)) with
    | (w', Ret _) => unlocked w' | (_, Panics _) => True | _ => False end) as Hstep.
  { intros m Hg Hs. specialize (Hg w1). specialize (Hs w1 Hw). unfold no_growth in Hg.
    destruct (m w1) as [w2 [[u|e]|v|mm| |]]; simpl in Hg, Hs |- *; try done. apply IH; [done|by etransitivity]. }
  assert (PreOrder (no_growth pot)) by apply _.
  destruct (IsCommand msg).
  - destruct (m_Command msg) as [[c|[]]|];
      try (specialize (Hstep (handleMessage msg) (handleMessage_always _ msg) (handleMessage_safe msg));
           by destruct (handleMessage msg w1) as [? []]).
  - by specialize (Hstep (mret (OK tt)) ltac:(apply always_ret, _) ltac:(apply safe_ret)).
Qed.

(** C2: against a worker that has finitely many messages left to send, a
    workflow task ends, in a return or a panic, without blocking on the registry's
    mutex; handling as many messages as are in the pipeline or still to come is
    enough, and allowing more changes nothing. *)
Theorem task_terminates (fuel : nat) (w : World) :
  registry_locked (wp_ids (wf w)) = false -> energy pot w <= fuel ->
  OnWorkflowTaskStarted fuel w = OnWorkflowTaskStarted (energy pot w) w ∧
  let '(w', o) := OnWorkflowTaskStarted fuel w in
  (o = Ret tt ∧ registry_locked (wp_ids (wf w')) = false) ∨ ∃ v, o = Panics v.
Proof.
  intros Hl He. rewrite !task_from_first_flush. unfold task_rest, defer.
  pose proof (no_growth_invariant pot).
  destruct (answered_steady (wp_callbacks (wf w)) (set_inLoop 1 (wf w))) as (_ & _ & _ & Hp & Hi & _).
  assert (unlocked (at_first_flush w)) as Hl0 by (unfold unlocked; simpl; by rewrite Hi).
  assert (energy pot (at_first_flush w) = energy pot w) as He0 by (unfold energy; simpl; by rewrite Hp).
  set (w0 := at_first_flush w) in *. go_unfold.
  pose proof (flushQueue_safe w0 Hl0) as Hs. pose proof (fi_flush (R := no_growth pot) w0) as Hg.
  destruct (flushQueue w0) as [w1 [[[]|e]|v|m| |]]; simpl in *; try done; [|by eauto..].
  unfold no_growth in Hg. rewrite He0 in Hg. rewrite !after_flush_eq. go_unfold.
  pose proof (run_updates_safe (wp_updatesQueue (wf w1)) w1 Hs) as Hs2.
  pose proof (run_updates_always (no_growth pot) (wp_updatesQueue (wf w1)) w1) as Hg2.
  unfold no_growth in Hg2.
  destruct (run_updates _ w1) as [w2 [[]|v|m| |]]; simpl in *; try done; [|by eauto..].
  set (w3 := on_wf (set_updatesQueue []) w2).
  assert (energy pot w3 <= energy pot w) as He3 by (change (energy pot w3) with (energy pot w2); lia).
  pose proof (pipeline_loop_ends _ w3 Hs2 He3) as Hends.
  rewrite (pipeline_loop_fuel (energy pot w) fuel w3);
    [|done|intros Hn; by destruct (pipeline_loop _ w3) as [? []]].
  split; [done|]. destruct (pipeline_loop _ w3) as [w4 [[]|v|m| |]]; try done; simpl; eauto.
Qed.

End Finite.

End Progress.
