(* ===== verification/Lifecycle.v ===== *)
(** * Lifecycle: start, updates, queries and end of a workflow (src/aggregatedpool)

    Theorems on the handlers of [Workflow] other than the task loop, and the
    reachable states of a workflow object as a step relation over everything the SDK
    may ask of it. *)
From S2P Require Import Prelude Api Doubles GoM Protocol Queue Canceller Registry Codec Exchange Activity Env Workflow Exchanges TaskLoop Progress.
From stdpp Require Import base gmap list strings pretty relations.
From Stdlib Require Import ZArith Lia.

Local Open Scope string_scope.
Local Open Scope list_scope.

Section Lifecycle.
Context `{Sdk} `{!Codec} `{!Pool} `{!WorkflowEnvironment}.

(** ** Start *)

(** C14: [Execute] queues exactly one message, the [StartWorkflow] command; its
    payloads are the input followed by the last completion result, and the offset it
    carries lets the worker take the two apart again, also when either is missing. *)
Theorem Execute_starts_once (rrID : string) (env : Env) (header : option Header)
    (input : option Payloads) (seqID : Z) (pool : PoolState) (g : gauges) :
  let w := Execute rrID env header input seqID pool g in
  let last := GetPayloads (env_GetLastCompletionResult (env_RegisterHandlers env)) in
  ∃ payloads,
    Messages (wp_mq (wf w)) =
      [mkMessage (u64 (seqID + 1))
         (Some (ByValue (C_StartWorkflow (mkStartWorkflow
            (Some (env_WorkflowInfo (env_RegisterHandlers env))) (Z.of_nat (length last))))))
         None payloads header] ∧
    let all := GetPayloads payloads in
    take (length all - length last) all = GetPayloads input ∧
    drop (length all - length last) all = last.
Proof.
  unfold Execute. cbv zeta. set (env' := env_RegisterHandlers env).
  destruct (GetPayloads (env_GetLastCompletionResult env')) as [|x xs] eqn:Hl.
  - exists input. split; [done|]. simpl. rewrite Nat.sub_0_r. split; [apply firstn_all|apply drop_all].
  - exists (Some (mkPayloads (GetPayloads input ++ x :: xs))). split; [done|].
    cbn [GetPayloads Payloads_Payloads]. split; [apply take_app_prefix|apply drop_app_suffix].
Qed.

(** ** Queries *)

(** C13: a query leaves the workflow untouched (its queue, pipeline, callbacks and
    registrations; only a recycled payload may have been used), returns, and
    succeeds only with the payloads of the single message the worker answered with;
    every error is an error of the query operation. *)
Theorem query_is_readonly (queryType : string) (args : option Payloads) (header : option Header)
    (w : World) :
  let '(w', o) := handleQuery queryType args header w in
  (∃ l, wf w' = set_plds (mkPldPool l) (wf w)) ∧
  ∃ r, o = Ret r ∧
  match r with
  | OK p => ∃ m, exchanged (getContext w)
                   [command_message w (C_InvokeQuery (mkInvokeQuery (RunID w) queryType)) args header]
                   (g_pool w) (g_pool w') [m] ∧ m_Failure m = None ∧ p = m_Payloads m
  | Err e => ∃ e', e = ErrOp "workflow_process_handle_query" e'
  end.
Proof.
  apply wp_let. unfold handleQuery. wp_steps. eapply wp_mono; [apply runCommand_spec|].
  intros o w' (r & -> & _ & _ & (l & Hwf & _) & Hx). simpl.
  wp_steps; (split; [by eexists|]); eexists; (split; [reflexivity|]); simpl; eauto.
Qed.

(** ** Updates *)

(** The command sent for an update. *)
Definition invoke_update (u : UpdateHandler UpdateCallbacks) (typ : string) : W (result Message) :=
  runCommand (C_InvokeUpdate (mkInvokeUpdate (upd_id u) (upd_rid u) (upd_name u) typ))
    (upd_input u) (upd_header u).

(** The error with which a reply fails the update, if it does. *)
Definition verdict (r : result Message) : option (option error) :=
  match r with
  | Err e => Some (Some e)
  | OK m => match m_Failure m with
            | Some f => Some (LibErr <$> FailureToError (Some f))
            | None => None
            end
  end.

(** What the update is completed with. *)
Definition completion (r : result Message) : option Payloads * option error :=
  match verdict r with
  | Some e => (None, e)
  | None => (match r with OK m => m_Payloads m | Err _ => None end, None)
  end.

Lemma invoke_update_run u typ w :
  ∃ w' r, invoke_update u typ w = (w', Ret r) ∧ wp_env (wf w') = wp_env (wf w) ∧ steady w w'.
Proof.
  destruct (runCommand_spec (C_InvokeUpdate (mkInvokeUpdate (upd_id u) (upd_rid u) (upd_name u) typ))
    (upd_input u) (upd_header u) w) as (r & Ho & _ & _ & Hs & _).
  pose proof Hs as (l & Hwf & _). unfold invoke_update.
  destruct (runCommand _ _ _ w) as [w' o] eqn:Hr; simpl in *. subst o.
  exists w', r. split_and!; [done|by rewrite Hwf|by apply steady_same_workflow].
Qed.

(** The part of an update after it was validated. *)
Lemma accepted_update_run u w (m : W unit) :
  m = (_ ← env_set (upd_Accept (upd_callbacks u));
       r ← invoke_update u execute_type;
       match r with
       | Err e => env_set (upd_Complete (upd_callbacks u) None (Some e))
       | OK result =>
           match m_Failure result with
           | Some f => env_set (upd_Complete (upd_callbacks u) None (LibErr <$> FailureToError (Some f)))
           | None => env_set (upd_Complete (upd_callbacks u) (m_Payloads result) None)
           end
       end) ->
  ∃ w' w1 w2 r,
    m w = (w', Ret tt) ∧ wp_env (wf w1) = upd_Accept (upd_callbacks u) (wp_env (wf w)) ∧
    invoke_update u execute_type w1 = (w2, Ret r) ∧
    wp_env (wf w') = upd_Complete (upd_callbacks u) (completion r).1 (completion r).2 (wp_env (wf w1)).
Proof.
  intros ->. set (w1 := on_wf (λ p, set_env (upd_Accept (upd_callbacks u) (wp_env p)) p) w).
  destruct (invoke_update_run u execute_type w1) as (w2 & r & Hr & He & _).
  unfold completion, verdict.
  destruct r as [msg|e]; [destruct (m_Failure msg) as [f|] eqn:Hf|];
    (eexists _, w1, w2, _; split_and!;
      [rewrite (bind_ret _ _ _ w1 tt) by done; rewrite (bind_ret _ _ _ _ _ Hr), ?Hf; reflexivity
      |done|exact Hr|]);
    simpl; rewrite ?Hf; simpl; by rewrite He.
Qed.


(** ** End *)

Lemma run_update_returns u w : ∃ w', run_update u w = (w', Ret tt).
Proof.
  unfold run_update. go_unfold.
  pose proof (λ typ w, invoke_update_run u typ w) as Hi. unfold invoke_update in Hi.
  destruct (env_IsReplaying _).
  - edestruct (Hi execute_type) as (w' & r & Hr & _). unfold execute_type in *. rewrite Hr. simpl.
    by destruct r as [msg|e]; [destruct (m_Failure msg)|]; eexists.
  - destruct (Hi validate w) as (w0 & r0 & Hr0 & _). rewrite Hr0. simpl.
    destruct r0 as [m0|e0]; [|by eexists]. destruct (m_Failure m0); [by eexists|].
    edestruct (Hi execute_type) as (w' & r & Hr & _). rewrite Hr. simpl.
    by destruct r as [msg|e]; [destruct (m_Failure msg)|]; eexists.
Qed.

Lemma for_each_updates us : ∀ w, ∃ w', for_each us run_update w = (w', Ret tt).
Proof.
  induction us as [|u us IH]; intros w; simpl; [by eexists|].
  destruct (run_update_returns u w) as [w1 Hw1]. rewrite (bind_ret _ _ _ _ _ Hw1). apply IH.
Qed.

(** C23: closing a workflow always returns, whatever the worker answers: first the
    updates that nobody handled are run, then the worker is told to destroy the
    run, and no message is left to be sent. *)
Theorem Close_destroys (w : World) :
  ∃ w1 w2 r w',
    env_updates env_DrainUnhandledUpdates w = (w1, Ret tt) ∧
    runCommand (C_DestroyWorkflow (mkDestroyWorkflow (RunID w1))) None (wp_header (wf w)) w1 = (w2, Ret r) ∧
    Close w = (w', Ret tt) ∧ wf w' = set_mq (Flush (wp_mq (wf w2))) (wf w2) ∧
    Messages (wp_mq (wf w')) = [] ∧ wp_pipeline (wf w') = wp_pipeline (wf w1) ∧
    (all_wiped w -> all_wiped w').
Proof.
  pose proof (env_updates_always steady env_DrainUnhandledUpdates w) as Hst.
  assert (∃ w1, env_updates env_DrainUnhandledUpdates w = (w1, Ret tt)) as [w1 H1w].
  { unfold env_updates. destruct (env_DrainUnhandledUpdates _) as [e us]. apply for_each_updates. }
  rewrite H1w in Hst. simpl in Hst.
  destruct (runCommand_spec (C_DestroyWorkflow (mkDestroyWorkflow (RunID w1))) None (wp_header (wf w)) w1)
    as (r & Ho & _ & _ & (l & Hwf & Hrec) & _).
  destruct (runCommand _ _ _ w1) as [w2 o] eqn:H2w. simpl in *. subst o.
  exists w1, w2, r, (on_wf (set_mq (Flush (wp_mq (wf w2)))) w2). split_and!; try done.
  - unfold Close. rewrite (bind_ret _ _ _ _ _ H1w). go_unfold.
    rewrite (steady_header _ _ Hst), H2w. done.
  - simpl. by rewrite Hwf.
  - intros Hw. apply (steady_wiped _ _ Hst) in Hw. unfold all_wiped; simpl. rewrite Hwf. by apply Hrec.
Qed.

(** ** Identifiers of child workflows *)

(** Names a sequence of child workflows, as their commands do one after another. *)
Fixpoint name_children (l : list ExecuteWorkflowParams) : W (list string) :=
  match l with
  | [] => mret []
  | p :: l =>
      p' ← deterministic_id p;
      ids ← name_children l;
      mret (WO_WorkflowID (EWP_Options p') :: ids)
  end.

Lemma child_workflow_id_inj run a b :
  in_u64 a -> in_u64 b -> child_workflow_id run a = child_workflow_id run b -> a = b.
Proof.
  unfold child_workflow_id. intros Ha Hb Heq. apply (inj (String.append run)) in Heq.
  apply (inj (String.append "_")) in Heq. apply (inj pretty) in Heq. by apply i64_inj_u64.
Qed.

Lemma name_children_run l : ∀ w,
  Forall (λ p, WO_WorkflowID (EWP_Options p) = "") l ->
  ∃ w', name_children l w =
    (w', Ret (child_workflow_id (RunID w) <$> drawn_ids (wp_seqID (wf w)) (length l))).
Proof.
  induction l as [|p l IH]; intros w Hl; [by eexists|].
  apply Forall_cons_iff in Hl as [Hp Hl]. cbn [length]. rewrite drawn_ids_S.
  cbn [name_children]. unfold deterministic_id at 1. rewrite Hp. simpl.
  unfold next_seqID_wf. go_unfold.
  set (w1 := on_wf (λ p, set_seqID (u64 (wp_seqID p + 1)) p) w).
  destruct (IH w1 Hl) as [w' Hw']. rewrite Hw'. simpl. by eexists.
Qed.

(** The names given to unnamed child workflows depend only on the run and
    on how many were named before (a replay names them alike), and no name is given
    twice within a run of fewer than 2^64 children. *)
Theorem child_ids_deterministic (l : list ExecuteWorkflowParams) (w : World) :
  Forall (λ p, WO_WorkflowID (EWP_Options p) = "") l -> (Z.of_nat (length l) <= 2 ^ 64)%Z ->
  ∃ w' ids, name_children l w = (w', Ret ids) ∧
    ids = child_workflow_id (RunID w) <$> drawn_ids (wp_seqID (wf w)) (length l) ∧ NoDup ids.
Proof.
  intros Hl Hn. destruct (name_children_run l w Hl) as [w' Hw']. eexists w', _.
  split_and!; [exact Hw'|done|]. apply NoDup_fmap_2_strong; [|by apply drawn_ids_NoDup].
  intros a b Ha Hb. apply child_workflow_id_inj.
  - unfold drawn_ids in Ha. apply list_elem_of_fmap in Ha as (k & -> & _). apply u64_range.
  - unfold drawn_ids in Hb. apply list_elem_of_fmap in Hb as (k & -> & _). apply u64_range.
Qed.

(** ** Cancellation *)

(** When a [Cancel] command succeeds, none of the ids it names can be
    cancelled again: no registration is left under them, whatever handlers the
    environment ran meanwhile. *)
Theorem cancelled_ids_forgotten (msg : Message) (ids : list Z) (w w' : World) :
  m_Command msg = Some (ByPtr (C_Cancel (mkCancel ids))) ->
  handleMessage msg w = (w', Ret (OK tt)) ->
  ∀ id, id ∈ ids -> canceller_ids (wp_canceller (wf w')) !! id = None.
Proof.
  intros Hc Hh id Hid. unfold handleMessage, cancel_commands, panic_result in Hh. rewrite Hc in Hh. go_unfold.
  destruct (Canceller_Cancel run_cancellable ids w) as [w1 [[[]|e]|v|m| |]] eqn:Hcan;
    simpl in Hh; simplify_eq.
  assert (canceller_ids (wp_canceller (wf w1)) !! id = None) as Hgone.
  { refine (Canceller_Cancel_OK_gone (S := World) run_cancellable _ ids w w1 Hcan id Hid).
    intros c. apply (run_cancellable_always _ c). }
  unfold wp_PushResponse in Hh. go_unfold. set (w2 := on_wf _ w1) in Hh.
  pose proof (fi_flush (R := shrinks (S := World) (C := cancellable)) w2) as Hsh.
  destruct (flushQueue w2) as [w3 [[[]|e]|v|m| |]]; simplify_eq/=.
  exact (shrinks_None (S := World) (C := cancellable) id w2 w' Hsh Hgone).
Qed.

(** ** Reachable states *)

(** A handler the environment may run between tasks.  The handler of a side effect
    is only run by [SideEffect] itself, before it returns. *)
Definition external (f : fire) : Prop :=
  match f with FireResult (HContinuable _ _) _ _ => False | _ => True end.

(** Everything the SDK asks of a workflow object between [Execute] and [Close], when
    it returns; [step_env] is the environment moving on by itself. *)
Inductive step : World -> World -> Prop :=
| step_task fuel w w' : OnWorkflowTaskStarted fuel w = (w', Ret tt) -> step w w'
| step_fire f w w' : external f -> run_fire f w = (w', Ret tt) -> step w w'
| step_cancel w w' : handleCancel w = (w', Ret tt) -> step w w'
| step_signal name input header r w w' : handleSignal name input header w = (w', Ret r) -> step w w'
| step_query q args header r w w' : handleQuery q args header w = (w', Ret r) -> step w w'
| step_update name id input header cb w w' :
    handleUpdate name id input header cb w = (w', Ret tt) -> step w w'
| step_stack r w w' : StackTrace w = (w', Ret r) -> step w w'
| step_env e w : step w (on_wf (set_env e) w).

(** Between two events the workflow is idle: not in a task, nothing left of the
    worker's replies, the registry's mutex free, recycled payloads wiped, and its
    identity and identifier generator those it was started with. *)
Record idle (rrID : string) (header : option Header) (w : World) : Prop := {
  idle_inLoop : wp_inLoop (wf w) = 0%Z;
  idle_pipeline : wp_pipeline (wf w) = [];
  idle_unlocked : registry_locked (wp_ids (wf w)) = false;
  idle_wiped : all_wiped w;
  idle_gen : SeqID (wp_mq (wf w)) = counter_next;
  idle_rrID : wp_rrID (wf w) = rrID;
  idle_header : wp_header (wf w) = header;
}.

Lemma idle_steady rrID header w w' :
  idle rrID header w -> steady w w' -> wp_pipeline (wf w') = wp_pipeline (wf w) ->
  registry_locked (wp_ids (wf w')) = false -> idle rrID header w'.
Proof. intros [] [] Hp Hl. split; try congruence. auto. Qed.

Lemma idle_same_workflow rrID header w w' :
  idle rrID header w -> (∃ l, wf w' = set_plds (mkPldPool l) (wf w) ∧ recycled w l) -> idle rrID header w'.
Proof.
  intros Hi Hs. eapply idle_steady; [done|by apply steady_same_workflow| |];
    destruct Hs as (l & Hwf & _); rewrite Hwf; [done|]. apply Hi.
Qed.

Lemma runCommand_same cmd p h w :
  ∃ w' r, runCommand cmd p h w = (w', Ret r) ∧
          ∃ l, wf w' = set_plds (mkPldPool l) (wf w) ∧ recycled w l.
Proof.
  destruct (runCommand_spec cmd p h w) as (r & Ho & _ & _ & Hs & _).
  destruct (runCommand cmd p h w) as [w' o]. simpl in *. subst o. by exists w', r.
Qed.

Lemma external_pipeline f w w' :
  external f -> run_fire f w = (w', Ret tt) -> wp_pipeline (wf w') = wp_pipeline (wf w).
Proof.
  assert (∀ id t r e w, wp_pipeline (wf (createCallback id t r e w).1) = wp_pipeline (wf w)) as Hcb.
  { intros. unfold createCallback, run_callback. go_unfold. by destruct (Z.eqb _ 1); [destruct e|]. }
  destruct f as [[id t|id t] r e|id lar|id r e]; intros Hext Hr; try done.
  - change w' with (w', Ret tt : outcome unit).1. rewrite <- Hr. apply Hcb.
  - change w' with (w', Ret tt : outcome unit).1. rewrite <- Hr. simpl.
    unfold createLocalActivityCallback, run_local_callback. go_unfold.
    by destruct (Z.eqb _ 1); [destruct (lar_Err lar)|].
  - unfold run_fire, Push, registry_Lock, registry_Unlock in Hr. go_unfold.
    destruct (registry_listeners _ !! id) as [l|]; [|by simplify_eq/=].
    destruct (registry_locked _); [done|]. go_unfold. set (w1 := on_wf _ _) in Hr.
    assert (wp_pipeline (wf (call_listener l r e w1).1) = wp_pipeline (wf w)) as Hl.
    { change (wp_pipeline (wf w)) with (wp_pipeline (wf w1)). unfold call_listener. destruct e; [apply Hcb|]. destruct (env_ToPayloads _); [apply Hcb|done]. }
    destruct (call_listener l r e w1) as [w2 [[]|v|m| |]]; simpl in *; simplify_eq.
    destruct (registry_locked _); unfold update, modify in Hr; simpl in Hr; simplify_eq. exact Hl.
Qed.

(** What a task keeps. *)
Lemma task_keeps fuel w w' rrID header :
  idle rrID header w -> OnWorkflowTaskStarted fuel w = (w', Ret tt) -> idle rrID header w'.
Proof.
  intros [Hl Hp Hu Hw Hg Hr Hh] Ht.
  pose proof (task_end fuel w) as Hend. rewrite Ht in Hend. destruct Hend as [Hw' (Hl' & _ & _ & Hp')].
  rewrite task_from_first_flush in Ht. unfold task_rest, defer in Ht.
  destruct (answered_steady (wp_callbacks (wf w)) (set_inLoop 1 (wf w)))
    as (_ & _ & _ & _ & Hi & _ & Hr0 & Hh0 & Hg0).
  assert (unlocked (at_first_flush w)) as Hu0 by (unfold unlocked; simpl; by rewrite Hi).
  pose proof (fi_flush (R := steady) (at_first_flush w)) as Hs1.
  pose proof (flushQueue_safe _ Hu0) as Hu1. go_unfold.
  destruct (flushQueue _) as [w1 [[[]|e]|v|m| |]]; simpl in *; simplify_eq.
  rewrite after_flush_eq in Ht. go_unfold.
  pose proof (run_updates_always steady (wp_updatesQueue (wf w1)) w1) as Hs2.
  pose proof (run_updates_safe (wp_updatesQueue (wf w1)) w1 Hu1) as Hu2.
  destruct (run_updates _ w1) as [w2 [[]|v|m| |]]; simpl in *; simplify_eq.
  set (w3 := on_wf (set_updatesQueue []) w2) in Ht.
  pose proof (pipeline_loop_steady fuel w3) as Hs3.
  pose proof (pipeline_loop_unlocked fuel w3) as Hu3.
  destruct (pipeline_loop fuel w3) as [w4 [[]|v|m| |]]; simpl in *; simplify_eq.
  specialize (Hu3 _ Hu2 eq_refl).
  split; try done; [by apply Hw'|..]; simpl.
  - rewrite (steady_gen _ _ Hs3); simpl. rewrite (steady_gen _ _ Hs2), (steady_gen _ _ Hs1). simpl.
    by rewrite Hg0.
  - rewrite (steady_rrID _ _ Hs3); simpl. rewrite (steady_rrID _ _ Hs2), (steady_rrID _ _ Hs1). simpl.
    by rewrite Hr0.
  - rewrite (steady_header _ _ Hs3); simpl. rewrite (steady_header _ _ Hs2), (steady_header _ _ Hs1).
    simpl. by rewrite Hh0.
Qed.

Lemma step_idle rrID header w w' : idle rrID header w -> step w w' -> idle rrID header w'.
Proof.
  intros Hi Hs. destruct Hs as [fuel w w' Hr|f w w' Hext Hr|w w' Hr|n i h r w w' Hr|q a h r w w' Hr
    |n id i h cb w w' Hr|r w w' Hr|e w].
  - by eapply task_keeps.
  - eapply idle_steady; [done| |by eapply external_pipeline|].
    + pose proof (run_fire_always steady f w) as Hst. by rewrite Hr in Hst.
    + pose proof (run_fire_safe f w (idle_unlocked _ _ _ Hi)) as Hu. by rewrite Hr in Hu.
  - unfold handleCancel, wp_PushCommand, PushCommand in Hr. go_unfold.
    rewrite (idle_gen _ _ _ Hi) in Hr. simplify_eq/=. destruct Hi. by split.
  - unfold handleSignal, wp_PushCommand, PushCommand in Hr. go_unfold.
    rewrite (idle_gen _ _ _ Hi) in Hr. simplify_eq/=. destruct Hi. by split.
  - eapply idle_same_workflow; [done|]. unfold handleQuery in Hr. go_unfold.
    match type of Hr with context [runCommand ?c ?p ?h w] =>
      destruct (runCommand_same c p h w) as (w1 & r1 & Hrun & Hs) end.
    rewrite Hrun in Hr. simpl in Hr. by case_all.
  - unfold handleUpdate, env_set in Hr. go_unfold. simplify_eq/=. destruct Hi. by split.
  - eapply idle_same_workflow; [done|]. unfold StackTrace in Hr. go_unfold.
    match type of Hr with context [runCommand ?c ?p ?h w] =>
      destruct (runCommand_same c p h w) as (w1 & r1 & Hrun & Hs) end.
    rewrite Hrun in Hr. simpl in Hr. by case_all.
  - destruct Hi. by split.
Qed.

Lemma Execute_idle rrID env header input seqID pool g :
  idle rrID header (Execute rrID env header input seqID pool g).
Proof.
  unfold Execute. destruct (GetPayloads _) as [|x xs]; by (split; try done; constructor).
Qed.

(** C8: after [Execute] and any sequence of tasks, results, cancellations,
    signals, queries, updates and stack-trace requests that returned, the workflow is
    idle. *)
Theorem reachable_idle (rrID : string) (env : Env) (header : option Header) (input : option Payloads)
    (seqID : Z) (pool : PoolState) (g : gauges) (w : World) :
  rtc step (Execute rrID env header input seqID pool g) w -> idle rrID header w.
Proof.
  intros Hr. pose proof (Execute_idle rrID env header input seqID pool g) as Hi.
  induction Hr as [|w1 w2 w3 Hs Hr IH]; [done|]. apply IH. by eapply step_idle.
Qed.

End Lifecycle.
