(* ===== verification/Scenario.v ===== *)
(** * Scenario: a concrete environment and complete runs

    An instance of the workflow environment that records what it is asked, and runs
    of a workflow against a scripted worker: the hypotheses of the theorems on
    workflows hold at these states. *)
From S2P Require Import Prelude Api Doubles GoM Protocol Queue Canceller Registry Codec Exchange Activity Env Workflow Exchanges TaskLoop Progress Lifecycle.
From stdpp Require Import base gmap list strings pretty relations.
From Stdlib Require Import ZArith Lia.

Local Open Scope string_scope.
Local Open Scope list_scope.

#[local] Existing Instance ConcreteApi.
#[local] Existing Instance ConcreteSdk.
#[local] Existing Instance ConcreteFailureConverter.
#[local] Existing Instance ConcreteWire.
#[local] Existing Instance ScriptedPool.

(** What the environment was asked, newest last, in words. *)
Record trace_env := mkTraceEnv {
  te_replaying : bool;
  te_last : option Payloads;
  te_log : list string;
  te_updates : list (UpdateHandler string);
}.

Definition te_say (s : string) (e : trace_env) : trace_env :=
  mkTraceEnv (te_replaying e) (te_last e) (te_log e ++ [s]) (te_updates e).

Definition te_call {A} (s : string) (a : A) (e : trace_env) : trace_env * list fire * A :=
  (te_say s e, [], a).

Definition te_info : WorkflowInfo :=
  mkWorkflowInfo "default" (mkWorkflowExecution "wid" "run") 3 tt.

(** Timers of no duration and cancelled timers fire at once, side effects always do. *)
Definition TraceEnv : WorkflowEnvironment := {|
  Env := trace_env; ActivityID := Z; LocalActivityID := Z; TimerID := Z; UpdateCallbacks := string;
  env_WorkflowInfo := λ _, te_info;
  env_Now := λ _, "now";
  env_IsReplaying := te_replaying;
  env_HasMetricsHandler := λ _, true;
  env_GetLastCompletionResult := te_last;
  time_Now := λ _, 0%Z;
  env_ToPayloads := λ v,
    OK (Some (mkPayloads [match v with GoString s => s | GoVersion n => pretty n
                          | GoExecution w => Execution_RunID w end]));
  env_FromPayload_string := λ p, OK p;
  env_ExecuteActivity := λ _ _, te_call "activity" 7%Z;
  env_ExecuteLocalActivity := λ _ _, te_call "local activity" 8%Z;
  env_ExecuteChildWorkflow := λ p _ _, te_call ("child " ++ WO_WorkflowID (EWP_Options p)) tt;
  env_NewTimer := λ d h e,
    if Z.eqb d 0 then (te_say "timer" e, [FireResult h None None], None)
    else (te_say "timer" e, [], Some 9%Z);
  env_GetVersion := λ _ _ m, te_call "version" m;
  env_SideEffect := λ p h e, (te_say "side effect" e, [FireResult h p None], tt);
  env_Complete := λ _ err, te_call (match err with Some _ => "fail" | None => "complete" end) tt;
  env_UpsertSearchAttributes := λ _, te_call "upsert" (OK tt);
  env_SignalExternalWorkflow := λ _ _ _ _ _ _ _ _, te_call "signal" tt;
  env_RequestCancelExternalWorkflow := λ _ _ _ _, te_call "cancel external" tt;
  env_RequestCancelActivity := λ _, te_call "cancel activity" tt;
  env_RequestCancelLocalActivity := λ _, te_call "cancel local activity" tt;
  env_RequestCancelChildWorkflow := λ _ wid, te_call ("cancel child " ++ wid) tt;
  env_RequestCancelTimer := λ _, te_call "cancel timer" tt;
  env_QueueUpdate := λ _ u e,
    mkTraceEnv (te_replaying e) (te_last e) (te_log e) (te_updates e ++ [u]);
  env_HandleQueuedUpdates := λ n e,
    (mkTraceEnv (te_replaying e) (te_last e) (te_log e)
       (List.filter (λ u, negb (String.eqb (upd_name u) n)) (te_updates e)),
     List.filter (λ u, String.eqb (upd_name u) n) (te_updates e));
  env_DrainUnhandledUpdates := λ e,
    (mkTraceEnv (te_replaying e) (te_last e) (te_log e) [], te_updates e);
  upd_Accept := λ u, te_say (u ++ " accepted");
  upd_Reject := λ u _, te_say (u ++ " rejected");
  upd_Complete := λ u _ _, te_say (u ++ " completed");
  env_RegisterHandlers := λ e, e;
|}.
#[local] Existing Instance TraceEnv.

(** A worker's reply, as the codec encodes it. *)
Definition reply (msgs : list Message) : exec_result :=
  ExecChan (Some (PExecPayload (Encode zero_Context zero_payload msgs).1)).

Definition start (last : option Payloads) (script : list exec_result) : World :=
  Execute "rr" (mkTraceEnv false last [] []) None (Some (mkPayloads ["in"])) 0
    (mkScripted script [] 0) (mkGauges []).

(** Commands as a worker sends them. *)
Definition want_activity (id : Z) : Message :=
  mkMessage id (Some (ByValue (C_ExecuteActivity (mkExecuteActivity "Greet" (mkExecuteActivityOptions "" tt)))))
    None None None.
Definition want_side_effect (id : Z) : Message :=
  mkMessage id (Some (ByValue (C_SideEffect mkSideEffect))) None (Some (mkPayloads ["42"])) None.
Definition want_complete (id : Z) : Message :=
  mkMessage id (Some (ByValue (C_CompleteWorkflow mkCompleteWorkflow))) None (Some (mkPayloads ["bye"])) None.

Definition activity_done : fire := FireResult (HCallback 1 "activity") (Some (mkPayloads ["hi"])) None.

(** Two tasks: the worker starts an activity and records a side effect, and when the
    activity's result arrives it completes the workflow. *)
Definition hello_script : list exec_result :=
  [reply [want_activity 1; want_side_effect 2]; reply []; reply [want_complete 3]].

Definition hello_run : W unit :=
  _ ← OnWorkflowTaskStarted 2; _ ← run_fire activity_done; OnWorkflowTaskStarted 1.

Example hello_completes :
  let '(w, o) := hello_run (start None hello_script) in
  o = Ret tt ∧ te_log (wp_env (wf w)) = ["activity"; "side effect"; "complete"] ∧
  m_ID <$> Messages (wp_mq (wf w)) = [3%Z] ∧ length (sent (g_pool w)) = 3.
Proof. vm_compute. auto. Qed.

(** ** A scripted worker sends finitely many messages *)

Definition reply_length (r : exec_result) : nat :=
  match r with
  | ExecChan (Some (PExecPayload p)) => length (Decode p []).1
  | _ => 0
  end.

Definition scripted_pot (s : scripted) : nat := sum_list (reply_length <$> script s).

#[local] Instance scripted_finite : FiniteReplies (H2 := ScriptedPool) scripted_pot.
Proof.
  split.
  - intros pl [[|r rest] st n] p' r' Hx; injection Hx as <- _; unfold scripted_pot; [done|].
    cbn [script fmap list_fmap sum_list]. lia.
  - intros pl [[|r rest] st n] p' first q msgs [= <- ?] Ha Hd; subst; unfold scripted_pot; simpl.
    destruct first as [[e|p]|]; simplify_eq/=. case_match; simplify_eq/=.
    rewrite Hd. simpl. reflexivity.
  - intros [sc st n]. done.
Qed.

(** ** Witnesses *)

Lemma task_terminates_witness :
  let '(w', o) := OnWorkflowTaskStarted 5 (start None hello_script) in
  (o = Ret tt ∧ registry_locked (wp_ids (wf w')) = false) ∨ ∃ v, o = Panics v.
Proof.
  assert (energy scripted_pot (start None hello_script) <= 5) as He by (vm_compute; lia).
  assert (registry_locked (wp_ids (wf (start None hello_script))) = false) as Hl by (vm_compute; reflexivity).
  pose proof (task_terminates scripted_pot 5 (start None hello_script) Hl He) as [_ Ht].
  exact Ht.
Defined.

Lemma deferral_is_transparent_witness :
  (_ ← for_each [activity_done] run_fire; OnWorkflowTaskStarted 2) (start None hello_script) =
  (_ ← for_each [activity_done] run_fire; task_rest 2) (at_first_flush (start None hello_script)).
Proof.
  exact (deferral_is_transparent [activity_done]
    [DeferredResult 1 "activity" (Some (mkPayloads ["hi"])) None] 2 (start None hello_script)
    eq_refl eq_refl).
Defined.

(** A worker that is gone when the result of an activity is to be sent. *)
Definition after_result : World := (run_fire activity_done (start None [])).1.

Lemma failed_exchange_keeps_messages_witness :
  let '(w', o) := OnWorkflowTaskStarted 2 after_result in
  o = Panics (PanicErr (LibErr "no workers")) ∧
  Messages (wp_mq (wf w')) =
    Messages (wp_mq (wf after_result)) ++ (callback_message <$> wp_callbacks (wf after_result)) ∧
  wp_pipeline (wf w') = wp_pipeline (wf after_result) ∧ wp_callbacks (wf w') = [] ∧
  wp_inLoop (wf w') = 0%Z.
Proof.
  refine (failed_exchange_keeps_messages 2 after_result
    (flushQueue (at_first_flush after_result)).1 (LibErr "no workers") _).
  apply run_outcome. vm_compute. reflexivity.
Defined.

Definition unnamed_child : ExecuteWorkflowParams :=
  mkExecuteWorkflowParams (mkWorkflowOptions "" "" "" tt) "Child" None None.

Lemma child_ids_deterministic_witness :
  ∃ w' ids, name_children [unnamed_child; unnamed_child] (start None []) = (w', Ret ids) ∧
    ids = ["run_1"; "run_2"] ∧ NoDup ids.
Proof.
  destruct (child_ids_deterministic [unnamed_child; unnamed_child] (start None [])
    ltac:(repeat constructor) ltac:(simpl; lia)) as (w' & ids & Hr & Hi & Hn).
  exists w', ids. split; [exact Hr|]. split; [|exact Hn]. rewrite Hi. vm_compute. reflexivity.
Defined.

(** A timer and an activity are registered under 1 and 2, and cancelled. *)
Definition with_registrations : World :=
  ((_ ← wp_Register 1 (CancelTimer (Some 9%Z)); wp_Register 2 (CancelActivity 7%Z))
    (start None [reply []; reply []])).1.

Definition cancel_both : Message :=
  mkMessage 5 (Some (ByPtr (C_Cancel (mkCancel [1%Z; 2%Z])))) None None None.

Definition after_cancel : World := (handleMessage cancel_both with_registrations).1.

Lemma cancelled_ids_forgotten_witness :
  canceller_ids (wp_canceller (wf after_cancel)) !! 1%Z = None ∧
  canceller_ids (wp_canceller (wf after_cancel)) !! 2%Z = None.
Proof.
  assert (1%Z ∈ [1%Z; 2%Z]) as H1 by (repeat constructor).
  assert (2%Z ∈ [1%Z; 2%Z]) as H2 by (repeat constructor).
  assert (handleMessage cancel_both with_registrations = (after_cancel, Ret (OK tt))) as Hrun
    by (unfold after_cancel; apply run_outcome; vm_compute; reflexivity).
  assert (m_Command cancel_both = Some (ByPtr (C_Cancel (mkCancel [1%Z; 2%Z])))) as Hc by reflexivity.
  pose proof (cancelled_ids_forgotten cancel_both [1%Z; 2%Z] with_registrations after_cancel Hc Hrun) as Ht.
  split; [exact (Ht 1%Z H1)|exact (Ht 2%Z H2)].
Defined.

Lemma reachable_idle_witness :
  idle "rr" None (OnWorkflowTaskStarted 2 (start None hello_script)).1.
Proof.
  refine (reachable_idle "rr" (mkTraceEnv false None [] []) None (Some (mkPayloads ["in"])) 0
    (mkScripted hello_script [] 0) (mkGauges []) _ _).
  apply rtc_once, (step_task 2). apply run_outcome. vm_compute. reflexivity.
Defined.
