(* ===== verification/Ledger.v ===== *)
(** * Ledger: every command of the worker is answered exactly once

    A worker numbers its commands and waits for one message with the same number.
    The answer takes many ways: it is queued at once, or by a handler that the
    environment runs later, or by a listener of the child-workflow registry; it may be
    deferred to the next task; and it leaves with some later exchange.  This file
    keeps books over all of these places.  The ledger of what the worker asked and
    what it was sent is read off the exchanges of the pool, so the statement is about
    what the worker process sees, through the codec. *)
From S2P Require Import Prelude Api Doubles GoM Protocol Queue Canceller Registry Codec Exchange Activity Env Workflow Exchanges TaskLoop Progress Lifecycle.
From stdpp Require Import base gmap list strings relations.
From Stdlib Require Import ZArith Lia.

Local Open Scope string_scope.
Local Open Scope list_scope.

#[local] Set Warnings "-clear-no-such-hyp".

(** ** Counting *)

Definition cnt (l : list Z) (id : Z) : nat := count_occ Z.eq_dec l id.
#[global] Arguments cnt : simpl never.

Definition one (b : bool) : nat := if b then 1 else 0.

Lemma cnt_app (l k : list Z) id : cnt (l ++ k) id = cnt l id + cnt k id.
Proof. apply count_occ_app. Qed.

Lemma cnt_cons x (l : list Z) id : cnt (x :: l) id = one (bool_decide (x = id)) + cnt l id.
Proof. unfold cnt; simpl. destruct (Z.eq_dec x id); by case_bool_decide. Qed.

Lemma cnt_nil id : cnt [] id = 0.
Proof. done. Qed.

Lemma cnt_permutation (l k : list Z) : (∀ id, cnt l id = cnt k id) <-> l ≡ₚ k.
Proof. symmetry. apply Permutation_count_occ. Qed.

Lemma cnt_NoDup (l : list Z) : NoDup l <-> ∀ id, cnt l id <= 1.
Proof. rewrite NoDup_ListNoDup. apply NoDup_count_occ. Qed.

Lemma cnt_elem (l : list Z) id : id ∈ l <-> 0 < cnt l id.
Proof. rewrite list_elem_of_In. apply count_occ_In. Qed.

#[export] Hint Rewrite cnt_app cnt_cons cnt_nil @omap_app : go.

(** ** What the worker reads *)

(** The peer of the codec: the ids and command names in a payload, an empty name for
    an answer. *)
Class PeerView := { reads : payload -> list (Z * string) }.

Section Heads.
Context `{Api}.

Definition message_head (m : Message) : Z * string :=
  (m_ID m, match m_Command m with
           | None => ""
           | Some c => match CommandName c with OK n => n | Err _ => "" end
           end).

(** A message that is an answer, or a command with a name. *)
Definition named (m : Message) : Prop := m_Command m = None ∨ (message_head m).2 ≠ "".

(** The ids of the answers among messages, and among what a worker read. *)
Definition answer_ids (l : list Message) : list Z :=
  omap (λ m, match m_Command m with None => Some (m_ID m) | Some _ => None end) l.

Definition read_answers (l : list (Z * string)) : list Z :=
  omap (λ h, if String.eqb h.2 "" then Some h.1 else None) l.

Lemma read_answers_heads l : Forall named l -> read_answers (message_head <$> l) = answer_ids l.
Proof.
  unfold read_answers, answer_ids. induction 1 as [|m l Hm Hl IH]; [done|].
  cbn [fmap list_fmap omap list_omap]. rewrite IH. unfold named in Hm.
  destruct m as [id [c|] f p h]; [|done].
  destruct Hm as [Hm|Hm]; [done|]. by rewrite (proj2 (String.eqb_neq _ "") Hm).
Qed.

(** The commands that [runCommand] sends: their reply is a result, not a batch of
    commands. *)
Definition blocking (h : Z * string) : bool :=
  bool_decide (h.2 ∈ [invokeUpdateCommand; invokeQueryCommand; destroyWorkflowCommand;
                      getStackTraceCommand]).

(** *** What the worker wants *)

(** Commands that are answered; search attributes are set without an answer. *)
Definition answers (c : command) : bool :=
  match c with
  | C_ExecuteActivity _ | C_ExecuteLocalActivity _ | C_ExecuteChildWorkflow _
  | C_GetChildWorkflowExecution _ | C_NewTimer _ | C_GetVersion _ | C_SideEffect _
  | C_CompleteWorkflow _ | C_ContinueAsNew _ | C_SignalExternalWorkflow _
  | C_CancelExternalWorkflow _ | C_Cancel _ => true
  | _ => false
  end.

(** The id under which a message wants an answer, starts a child workflow, or waits
    for one. *)
Definition wants_answer (m : Message) : option Z :=
  match m_Command m with
  | Some (ByPtr c) => if answers c then Some (m_ID m) else None
  | _ => None
  end.

Definition starts_child (m : Message) : option Z :=
  match m_Command m with Some (ByPtr (C_ExecuteChildWorkflow _)) => Some (m_ID m) | _ => None end.

Definition awaits_child (m : Message) : option Z :=
  match m_Command m with
  | Some (ByPtr (C_GetChildWorkflowExecution c)) => Some (GCWE_ID c)
  | _ => None
  end.

End Heads.

(** The codec keeps ids and command names, for ids of 64 bits, which are the only ones
    it decodes. *)
Class PeerLaws `{Api} `{!Codec} `{!PeerView} : Prop := {
  reads_Encode : ∀ ctx p msgs p', msgs ≠ [] -> Forall (λ m, in_u64 (m_ID m)) msgs ->
    Encode ctx p msgs = (p', OK tt) -> reads p' = message_head <$> msgs ∧ Forall named msgs;
  Decode_in_u64 : ∀ p msgs u, Decode p [] = (msgs, OK u) -> Forall (λ m, in_u64 (m_ID m)) msgs;
}.

(** The record of a pool's exchanges. *)
Class PoolRecord `{Api} `{!Pool} := { exchanges : PoolState -> list (payload * exec_result) }.

Class PoolRecordLaws `{PoolRecord} : Prop := {
  exchanges_Exec : ∀ pl p p' r, Exec pl p = (p', r) -> exchanges p' = exchanges p ++ [(pl, r)];
  exchanges_Stop : ∀ p, exchanges (StopStream p) = exchanges p;
}.

(** ** The environment's side

    [env_pending] lists the handlers the environment still has to run, by the id of
    their command, and [env_starting] the ids of the child workflows whose start it
    still has to report.  Every handler is run exactly once. *)
Class EnvRecord `{WorkflowEnvironment} := {
  env_pending : Env -> list Z;
  env_starting : Env -> list Z;
}.

Section EnvAccounts.
Context `{EnvRecord}.

Definition handler_id (h : ResultHandler) : Z :=
  match h with HCallback id _ | HContinuable id _ => id end.

(** The ids of the handlers among fires. *)
Definition fired (l : list fire) : list Z :=
  omap (λ f, match f with
             | FireResult h _ _ => Some (handler_id h)
             | FireLocal id _ => Some id
             | FireStarted _ _ _ => None
             end) l.

Definition started (l : list fire) : list Z :=
  omap (λ f, match f with FireStarted id _ _ => Some id | _ => None end) l.

(** A call that hands over the handlers [given] and the start reports [starts]: they
    are run by the call or kept. *)
Definition accounted {A} (given starts : list Z) (call : Env -> Env * list fire * A) : Prop :=
  ∀ e, let '(e', fires, _) := call e in
    env_pending e' ++ fired fires ≡ₚ given ++ env_pending e ∧
    env_starting e' ++ started fires ≡ₚ starts ++ env_starting e.

(** An operation that leaves both accounts alone. *)
Definition unaccounted (f : Env -> Env) : Prop :=
  ∀ e, env_pending (f e) = env_pending e ∧ env_starting (f e) = env_starting e.

End EnvAccounts.

Class EnvRecordLaws `{EnvRecord} : Prop := {
  acc_ExecuteActivity : ∀ p h, accounted [handler_id h] [] (env_ExecuteActivity p h);
  acc_ExecuteLocalActivity : ∀ p id, accounted [id] [] (env_ExecuteLocalActivity p id);
  acc_ExecuteChildWorkflow : ∀ p h id, accounted [handler_id h] [id] (env_ExecuteChildWorkflow p h id);
  acc_NewTimer : ∀ d h, accounted [handler_id h] [] (env_NewTimer d h);
  acc_GetVersion : ∀ c mi ma, accounted [] [] (env_GetVersion c mi ma);
  acc_SideEffect : ∀ p h, accounted [handler_id h] [] (env_SideEffect p h);
  acc_Complete : ∀ p e, accounted [] [] (env_Complete p e);
  acc_UpsertSearchAttributes : ∀ a, accounted [] [] (env_UpsertSearchAttributes a);
  acc_SignalExternalWorkflow : ∀ ns wid rid sg p hd c h,
    accounted [handler_id h] [] (env_SignalExternalWorkflow ns wid rid sg p hd c h);
  acc_RequestCancelExternalWorkflow : ∀ ns wid rid h,
    accounted [handler_id h] [] (env_RequestCancelExternalWorkflow ns wid rid h);
  acc_RequestCancelActivity : ∀ id, accounted [] [] (env_RequestCancelActivity id);
  acc_RequestCancelLocalActivity : ∀ id, accounted [] [] (env_RequestCancelLocalActivity id);
  acc_RequestCancelChildWorkflow : ∀ ns wid, accounted [] [] (env_RequestCancelChildWorkflow ns wid);
  acc_RequestCancelTimer : ∀ id, accounted [] [] (env_RequestCancelTimer id);
  una_QueueUpdate : ∀ n u, unaccounted (env_QueueUpdate n u);
  una_HandleQueuedUpdates : ∀ n, unaccounted (λ e, (env_HandleQueuedUpdates n e).1);
  una_DrainUnhandledUpdates : unaccounted (λ e, (env_DrainUnhandledUpdates e).1);
  una_Accept : ∀ c, unaccounted (upd_Accept c);
  una_Reject : ∀ c e, unaccounted (upd_Reject c e);
  una_Complete : ∀ c p e, unaccounted (upd_Complete c p e);
  una_RegisterHandlers : unaccounted env_RegisterHandlers;
}.

#[export] Hint Resolve acc_ExecuteActivity acc_ExecuteLocalActivity acc_ExecuteChildWorkflow
  acc_NewTimer acc_GetVersion acc_SideEffect acc_Complete acc_UpsertSearchAttributes
  acc_SignalExternalWorkflow acc_RequestCancelExternalWorkflow acc_RequestCancelActivity
  acc_RequestCancelLocalActivity acc_RequestCancelChildWorkflow acc_RequestCancelTimer
  una_QueueUpdate una_HandleQueuedUpdates una_DrainUnhandledUpdates una_Accept una_Reject
  una_Complete una_RegisterHandlers : go.

(** ** The books *)

Section Ledger.
Context `{Sdk} `{!Codec} `{!Pool} `{!WorkflowEnvironment}.
Context `{!PeerView} `{!PoolRecord} `{!EnvRecord}.

(** An exchange of the queue that got a usable reply: what the worker read and the
    messages it answered with. *)
Definition batch (x : payload * exec_result) : option (list (Z * string) * list Message) :=
  if existsb blocking (reads x.1) then None else (λ msgs, (reads x.1, msgs)) <$> reply_of x.2.

Definition batches (p : PoolState) : list (list (Z * string) * list Message) :=
  omap batch (exchanges p).

(** All the worker sent, and what it wants in it. *)
Definition received (p : PoolState) : list Message := batches p ≫= snd.
Definition asked (p : PoolState) : list Z := omap wants_answer (received p).
Definition children (p : PoolState) : list Z := omap starts_child (received p).
Definition awaited (p : PoolState) : list Z := omap awaits_child (received p).

(** The answers the worker read. *)
Definition sent_answers (p : PoolState) : list Z := batches p ≫= λ b, read_answers b.1.

(** The listeners that wait for a child workflow to start. *)
Definition waiting (c : IDRegistry listener) : list Z :=
  (λ kl, listener_msgID kl.2) <$>
    map_to_list (filter (λ kl, registry_ids c !! kl.1 = None) (registry_listeners c)).

(** The answers that are on their way: with the environment, deferred to the next
    task, in the queue, or waiting for a child workflow. *)
Definition owed (w : World) : list Z :=
  env_pending (wp_env (wf w)) ++ (callback_id <$> wp_callbacks (wf w)) ++
  answer_ids (Messages (wp_mq (wf w))) ++ waiting (wp_ids (wf w)).

(** A queued message the worker can be sent: an answer, or a command with a 64-bit id
    that does not block. *)
Definition sendable (m : Message) : Prop :=
  m_Command m = None ∨ in_u64 (m_ID m) ∧ blocking (message_head m) = false.

(** Obligations that are in nobody's account yet. *)
Record loose := mkLoose { l_answers : list Z; l_starts : list Z; l_awaits : list Z }.

Definition loose_app (x y : loose) : loose :=
  mkLoose (l_answers x ++ l_answers y) (l_starts x ++ l_starts y) (l_awaits x ++ l_awaits y).

Definition none : loose := mkLoose [] [] [].
Definition loose_answer (id : Z) : loose := mkLoose [id] [] [].
Definition loose_messages (l : list Message) : loose :=
  mkLoose (omap wants_answer l) (omap starts_child l) (omap awaits_child l).
Definition loose_fires (l : list fire) : loose := mkLoose (fired l) (started l) [].

Record books (x : loose) (w : World) : Prop := {
  b_answers : ∀ id,
    cnt (sent_answers (g_pool w)) id + cnt (owed w) id + cnt (omap wants_answer (wp_pipeline (wf w))) id
      + cnt (l_answers x) id = cnt (asked (g_pool w)) id;
  b_starts : ∀ id,
    cnt (env_starting (wp_env (wf w))) id + one (bool_decide (is_Some (registry_ids (wp_ids (wf w)) !! id)))
      + cnt (omap starts_child (wp_pipeline (wf w))) id + cnt (l_starts x) id = cnt (children (g_pool w)) id;
  b_awaits : ∀ id,
    one (bool_decide (is_Some (registry_listeners (wp_ids (wf w)) !! id)))
      + cnt (omap awaits_child (wp_pipeline (wf w))) id + cnt (l_awaits x) id = cnt (awaited (g_pool w)) id;
  b_range : Forall (λ m, in_u64 (m_ID m)) (received (g_pool w));
  b_gen : SeqID (wp_mq (wf w)) = counter_next;
  b_queue : Forall sendable (Messages (wp_mq (wf w)));
}.

(** A worker numbers its commands apart and waits for a child workflow once. *)
Definition orderly (p : PoolState) : Prop := NoDup (asked p) ∧ NoDup (awaited p).

(** The record of exchanges only grows. *)
Definition grows (w w' : World) : Prop :=
  ∃ l, exchanges (g_pool w') = exchanges (g_pool w) ++ l.

End Ledger.

Section Proofs.
Context `{Sdk} `{!Codec} `{!Pool} `{!WorkflowEnvironment}.
Context `{!PeerView} `{!PoolRecord} `{!EnvRecord}.
Context `{!PeerLaws} `{!PoolRecordLaws} `{!EnvRecordLaws}.

(** *** Moving entries between accounts *)

(** What the books depend on. *)
Definition view (w : World) :=
  (wp_env (wf w), wp_callbacks (wf w), wp_mq (wf w), registry_ids (wp_ids (wf w)),
   registry_listeners (wp_ids (wf w)), wp_pipeline (wf w), batches (g_pool w)).

Lemma books_view x w w' : view w' = view w -> books x w -> books x w'.
Proof.
  unfold view. intros [= He Hc Hq Hi Hl Hp Hba] Hb.
  assert (owed w' = owed w) as Ho by (unfold owed, waiting; by rewrite He, Hc, Hq, Hi, Hl).
  destruct Hb as [Ha Hs Hw Hra Hg Hqu].
  split; unfold asked, children, awaited, sent_answers, received in *;
    by rewrite ?Hba, ?Ho, ?He, ?Hi, ?Hl, ?Hq, ?Hp.
Qed.

(** Only the number of loose obligations matters. *)
Lemma books_loose x y w :
  l_answers x ≡ₚ l_answers y -> l_starts x ≡ₚ l_starts y -> l_awaits x ≡ₚ l_awaits y ->
  books x w -> books y w.
Proof.
  intros Ha Hs Hw [Hb1 Hb2 Hb3 Hb4 Hb5 Hb6].
  split; try done; intros id; [rewrite <- Hb1|rewrite <- Hb2|rewrite <- Hb3]; f_equal;
    apply cnt_permutation; by symmetry.
Qed.

(** Opens the books and closes them again by counting. *)
Ltac balance :=
  lazymatch goal with Hb : books _ _ |- books _ _ =>
    destruct Hb as [Hb1 Hb2 Hb3 Hb4 Hb5 Hb6]; split; try done;
    unfold owed in *; simpl in *; try done;
    let id := fresh "id" in
    intros id; specialize (Hb1 id); specialize (Hb2 id); specialize (Hb3 id);
    repeat match goal with
    | Hc : ∀ id, cnt _ id = _ |- _ => specialize (Hc id)
    | Hc : ∀ id, one _ = _ |- _ => specialize (Hc id)
    end;
    rewrite ?omap_app, ?fmap_app, ?cnt_app, ?cnt_cons, ?cnt_nil in *; simpl in *;
    rewrite ?cnt_cons, ?cnt_nil in *; lia
  end.

Lemma answer_ids_snoc l m :
  m_Command m = None -> answer_ids (l ++ [m]) = answer_ids l ++ [m_ID m].
Proof. intros Hm. unfold answer_ids. rewrite omap_app. simpl. by rewrite Hm. Qed.

Lemma books_push x w m :
  m_Command m = None -> books (loose_app (loose_answer (m_ID m)) x) w ->
  books x (on_wf (λ p, set_mq (mkMessageQueue (SeqID (wp_mq p)) (Messages (wp_mq p) ++ [m])) p) w).
Proof.
  intros Hm Hb. assert (∀ l id, cnt (answer_ids (l ++ [m])) id = cnt (answer_ids l ++ [m_ID m]) id) as Hq
    by (intros; by rewrite answer_ids_snoc).
  specialize (Hq (Messages (wp_mq (wf w)))).
  assert (Forall sendable (Messages (wp_mq (wf w)) ++ [m])) as Hs
    by (apply Forall_app_2; [apply (b_queue _ _ Hb)|by apply Forall_singleton; left]).
  balance.
Qed.

Lemma books_defer x w c :
  books (loose_app (loose_answer (callback_id c)) x) w ->
  books x (on_wf (λ p, set_callbacks (wp_callbacks p ++ [c]) p) w).
Proof. intros Hb. balance. Qed.

Lemma books_env x w e fires given starts :
  env_pending e ++ fired fires ≡ₚ given ++ env_pending (wp_env (wf w)) ->
  env_starting e ++ started fires ≡ₚ starts ++ env_starting (wp_env (wf w)) ->
  books (loose_app (mkLoose given starts []) x) w ->
  books (loose_app (loose_fires fires) x) (on_wf (set_env e) w).
Proof. intros Hp Hs Hb. rewrite <- cnt_permutation in Hp, Hs. balance. Qed.

(** *** The registry *)

Lemma children_asked p id : cnt (children p) id <= cnt (asked p) id.
Proof.
  unfold children, asked. induction (received p) as [|m l IH] using rev_ind; [done|].
  rewrite !omap_app, !cnt_app. apply Nat.add_le_mono; [done|]. unfold starts_child, wants_answer.
  simpl. destruct (m_Command m) as [[c|[]]|]; simpl; (lia || apply Nat.le_0_l).

Qed.

Lemma orderly_children p id : orderly p -> cnt (children p) id <= 1.
Proof.
  intros [Ha _]. etransitivity; [apply children_asked|]. by apply cnt_NoDup.
Qed.

Lemma orderly_awaited p id : orderly p -> cnt (awaited p) id <= 1.
Proof. intros [_ Hw]. by apply cnt_NoDup. Qed.

(** Publishing the start of a child takes its listener, if any, off the waiting list. *)
Lemma waiting_store_id c id e :
  registry_ids c !! id = None ->
  ∀ k, cnt (waiting c) k =
       cnt (waiting (store_id id e c)) k +
       cnt (match registry_listeners c !! id with Some l => [listener_msgID l] | None => [] end) k.
Proof.
  intros Hi k. destruct c as [lk im lm]; unfold waiting; simpl in *.
  set (f := filter (λ kl : Z * listener, im !! kl.1 = None) lm).
  assert (filter (λ kl : Z * listener, <[id:=e]> im !! kl.1 = None) lm = delete id f) as ->.
  { apply map_eq. intros i. apply option_eq. intros l. subst f.
    rewrite map_lookup_filter_Some, lookup_delete_Some, map_lookup_filter_Some. simpl.
    destruct (decide (id = i)) as [->|Hne].
    - rewrite lookup_insert_eq. naive_solver.
    - rewrite lookup_insert_ne by done. naive_solver. }
  destruct (lm !! id) as [l|] eqn:Hl.
  - assert (f !! id = Some l) as Hf by (by apply map_lookup_filter_Some).
    pose proof (map_to_list_delete f id l Hf) as Hperm.
    apply (fmap_Permutation (λ kl : Z * listener, listener_msgID kl.2)) in Hperm.
    apply cnt_permutation with (id := k) in Hperm. rewrite <- Hperm.
    rewrite fmap_cons, !cnt_cons, cnt_nil. simpl. lia.
  - rewrite delete_id; [rewrite cnt_nil; lia|]. subst f. by apply map_lookup_filter_None_2; left.
Qed.

(** A new subscription waits unless the child has already started. *)
Lemma waiting_store_listener c id l :
  registry_listeners c !! id = None ->
  ∀ k, cnt (waiting (store_listener id l c)) k =
       cnt (waiting c) k +
       cnt (match registry_ids c !! id with Some _ => [] | None => [listener_msgID l] end) k.
Proof.
  intros Hl k. destruct c as [lk im lm]; unfold waiting; simpl in *.
  set (f := filter (λ kl : Z * listener, im !! kl.1 = None) lm).
  assert (f !! id = None) as Hf by (by apply map_lookup_filter_None_2; left).
  destruct (im !! id) as [e|] eqn:Hi.
  - rewrite map_filter_insert_False by (simpl; congruence). rewrite delete_id by done.
    fold f. rewrite cnt_nil. lia.
  - rewrite map_filter_insert_True by done. fold f.
    pose proof (map_to_list_insert f id l Hf) as Hperm.
    apply (fmap_Permutation (λ kl : Z * listener, listener_msgID kl.2)) in Hperm.
    apply cnt_permutation with (id := k) in Hperm. rewrite Hperm.
    rewrite fmap_cons, !cnt_cons, cnt_nil. simpl. lia.
Qed.

(** The loose obligations of a listener that is about to be called. *)
Definition loose_call (l : option listener) : loose :=
  mkLoose (match l with Some l => [listener_msgID l] | None => [] end) [] [].

Lemma one_is_Some {A} (o : option A) : one (bool_decide (is_Some o)) = 0 -> o = None.
Proof. case_bool_decide as Ho; [done|]. intros _. by apply eq_None_not_Some. Qed.

Lemma one_insert {A} (m : gmap Z A) id x k :
  m !! id = None ->
  one (bool_decide (is_Some (<[id := x]> m !! k))) =
  one (bool_decide (is_Some (m !! k))) + cnt [id] k.
Proof.
  intros Hm. rewrite cnt_cons, cnt_nil. destruct (decide (id = k)) as [<-|Hne].
  - rewrite lookup_insert_eq, Hm, (bool_decide_true (is_Some (Some x))), (bool_decide_false (is_Some None)),
      (bool_decide_true (id = id)) by (done || by intros [? ?]). done.
  - rewrite lookup_insert_ne, (bool_decide_false (id = k)) by done. simpl. lia.
Qed.

Lemma books_publish x w id e :
  orderly (g_pool w) -> books (loose_app (mkLoose [] [id] []) x) w ->
  books (loose_app (loose_call (registry_listeners (wp_ids (wf w)) !! id)) x)
    (on_wf (λ p, set_ids (store_id id e (wp_ids p)) p) w).
Proof.
  intros Ho Hb. pose proof (orderly_children _ id Ho) as Hle.
  assert (registry_ids (wp_ids (wf w)) !! id = None) as Hi.
  { apply one_is_Some. pose proof (b_starts _ _ Hb id) as Hs. simpl in Hs.
    rewrite cnt_cons, (bool_decide_true (id = id)) in Hs by done. simpl in Hs. lia. }
  pose proof (waiting_store_id _ id e Hi) as Hw.
  pose proof (λ k, one_insert (registry_ids (wp_ids (wf w))) id e k Hi) as Hone. balance.
Qed.

Lemma books_subscribe x w id l :
  orderly (g_pool w) -> books (loose_app (mkLoose [listener_msgID l] [] [id]) x) w ->
  books (loose_app (loose_call (match registry_ids (wp_ids (wf w)) !! id with
                                | Some _ => Some l | None => None end)) x)
    (on_wf (λ p, set_ids (store_listener id l (wp_ids p)) p) w).
Proof.
  intros Ho Hb. pose proof (orderly_awaited _ id Ho) as Hle.
  assert (registry_listeners (wp_ids (wf w)) !! id = None) as Hl.
  { apply one_is_Some. pose proof (b_awaits _ _ Hb id) as Hs. simpl in Hs.
    rewrite cnt_cons, (bool_decide_true (id = id)) in Hs by done. simpl in Hs. lia. }
  pose proof (waiting_store_listener _ id l Hl) as Hw.
  pose proof (λ k, one_insert (registry_listeners (wp_ids (wf w))) id l k Hl) as Hone.
  destruct (registry_ids (wp_ids (wf w)) !! id); balance.
Qed.

(** *** The record of exchanges *)

Lemma grows_preorder : PreOrder grows.
Proof.
  split.
  - intros w. exists []. by rewrite app_nil_r.
  - intros w1 w2 w3 [l Hl] [k Hk]. exists (l ++ k). by rewrite Hk, Hl, app_assoc.
Qed.

Lemma pool_touched_record P p p' :
  pool_touched P p p' ->
  exchanges p' = exchanges p ∨ ∃ pl r, P pl r ∧ exchanges p' = exchanges p ++ [(pl, r)].
Proof.
  intros [->|(pl & r & p1 & Hx & HP & [->| ->])]; [by left|right; exists pl, r..]; split; try done.
  - by apply exchanges_Exec.
  - rewrite exchanges_Stop. by apply exchanges_Exec.
Qed.

Lemma grows_touched P w w' : pool_touched P (g_pool w) (g_pool w') -> grows w w'.
Proof.
  intros [Hx|(pl & r & _ & Hx)]%pool_touched_record; [exists []|exists [(pl, r)]]; rewrite Hx;
    [by rewrite app_nil_r|done].
Qed.

#[global] Instance grows_invariant : HandlerInvariant grows.
Proof.
  pose proof grows_preorder.
  split; [split|..]; try (intros; intros ?; apply (grows_touched fruitless); by left);
    try (intros; apply (grows_touched fruitless); by left); [done| |].
  - apply flushQueue_always; [apply _|]. intros w [u|e] w'; simpl.
    + intros (reply & l & (pl0 & pl & first & r & _ & Hx & _) & _).
      eexists. by apply exchanges_Exec.
    + intros (_ & Ht & _). by eapply grows_touched.
  - intros cmd p h. apply runCommand_always. intros w msg r w' (_ & Ht & _). by eapply grows_touched.
Qed.

Lemma batches_app p p' l :
  exchanges p' = exchanges p ++ l -> batches p' = batches p ++ omap batch l.
Proof. intros Hx. unfold batches. by rewrite Hx, omap_app. Qed.

Lemma received_app p p' l :
  exchanges p' = exchanges p ++ l -> received p' = received p ++ (omap batch l ≫= snd).
Proof. intros Hx. unfold received. by rewrite (batches_app p p' l Hx), bind_app. Qed.

Lemma orderly_grows w w' : grows w w' -> orderly (g_pool w') -> orderly (g_pool w).
Proof.
  intros [l Hl] [Ha Hw]. apply received_app in Hl. unfold orderly, asked, awaited in *.
  rewrite Hl, omap_app in Ha, Hw. apply NoDup_app in Ha, Hw. split; [apply Ha|apply Hw].
Qed.
(** *** Exchanges *)

Lemma sendable_not_blocking l : Forall sendable l -> existsb blocking (message_head <$> l) = false.
Proof.
  induction 1 as [|m l Hm Hl IH]; [done|]. cbn [fmap list_fmap existsb].
  rewrite orb_false_iff. split; [|exact IH]. destruct Hm as [Hm|[_ Hm]]; [|done].
  unfold message_head. rewrite Hm. done.
Qed.

Lemma answer_ids_elem m l : m ∈ l -> m_Command m = None -> m_ID m ∈ answer_ids l.
Proof. intros Hm Hc. apply list_elem_of_omap. exists m. by rewrite Hc. Qed.

(** What is queued has ids of 64 bits. *)
Lemma books_range x w : books x w -> Forall (λ m, in_u64 (m_ID m)) (Messages (wp_mq (wf w))).
Proof.
  intros Hb. apply Forall_forall. intros m Hm.
  pose proof (b_queue _ _ Hb) as Hq. rewrite Forall_forall in Hq.
  destruct (Hq m Hm) as [Hc|[? _]]; [|done].
  assert (m_ID m ∈ asked (g_pool w)) as Hin.
  { apply cnt_elem. rewrite <- (b_answers _ _ Hb (m_ID m)). unfold owed. rewrite !cnt_app.
    pose proof (proj1 (cnt_elem _ _) (answer_ids_elem m _ Hm Hc)). lia. }
  unfold asked in Hin. apply list_elem_of_omap in Hin as (m' & Hm' & Hw).
  pose proof (b_range _ _ Hb) as Hr. rewrite Forall_forall in Hr.
  unfold wants_answer in Hw. repeat (case_match; simplify_eq/=). rewrite <- Hw. by apply Hr.
Qed.

Lemma batch_fruitless pl r : fruitless pl r -> batch (pl, r) = None.
Proof. unfold fruitless, batch. simpl. intros ->. by destruct (existsb _ _). Qed.

Lemma batches_none p p' pl r :
  exchanges p' = exchanges p ++ [(pl, r)] -> batch (pl, r) = None -> batches p' = batches p.
Proof. intros Hx Hn. rewrite (batches_app _ _ _ Hx). simpl. rewrite Hn. apply app_nil_r. Qed.

(** A complete exchange of the queue, on the record. *)
Lemma batches_exchanged x w p' reply :
  books x w -> Messages (wp_mq (wf w)) ≠ [] ->
  exchanged (getContext w) (Messages (wp_mq (wf w))) (g_pool w) p' reply ->
  batches p' = batches (g_pool w) ++ [(message_head <$> Messages (wp_mq (wf w)), reply)] ∧
  Forall named (Messages (wp_mq (wf w))) ∧ Forall (λ m, in_u64 (m_ID m)) reply.
Proof.
  intros Hb Hne (pl0 & pl & first & r & Henc & Hx & Ha & Hd).
  destruct (reads_Encode _ _ _ _ Hne (books_range _ _ Hb) Henc) as [Hreads Hnamed].
  split_and!; [|done|by eapply Decode_in_u64].
  rewrite (batches_app _ _ _ (exchanges_Exec _ _ _ _ Hx)). f_equal. simpl. unfold batch. simpl.
  rewrite Hreads, sendable_not_blocking by apply Hb. by rewrite Ha, Hd.
Qed.

Lemma flush_books x w r w' :
  books x w -> Messages (wp_mq (wf w)) ≠ [] -> flush_post w r w' -> books x w'.
Proof.
  intros Hb Hne. destruct r as [u|e]; simpl.
  - intros (reply & l & Hx & Hwf & _ & _).
    destruct (batches_exchanged _ _ _ _ Hb Hne Hx) as (Hba & Hn & Hr).
    pose proof (read_answers_heads _ Hn) as Hans.
    assert (received (g_pool w') = received (g_pool w) ++ reply) as Hrec
      by (unfold received; rewrite Hba, bind_app; simpl; by rewrite app_nil_r).
    assert (sent_answers (g_pool w') = sent_answers (g_pool w) ++ answer_ids (Messages (wp_mq (wf w)))) as Hs
      by (unfold sent_answers; rewrite Hba, bind_app; simpl; by rewrite app_nil_r, Hans).
    destruct Hb as [Hb1 Hb2 Hb3 Hb4 Hb5 Hb6].
    split; rewrite ?Hs; unfold owed, asked, children, awaited in *; rewrite ?Hrec, ?Hwf; simpl; try done.
    4: by apply Forall_app_2.
    all: intros id; specialize (Hb1 id); specialize (Hb2 id); specialize (Hb3 id);
      rewrite ?omap_app, ?cnt_app in *; lia.
  - intros (_ & Ht & l & Hwf & _). eapply books_view; [|done]. unfold view. rewrite Hwf. simpl.
    apply pool_touched_record in Ht as [Hx|(pl & r & Hf & Hx)]; f_equal.
    + unfold batches. by rewrite Hx.
    + by eapply batches_none, batch_fruitless.
Qed.

Lemma run_books x w cmd payloads header r w' :
  books x w -> blocking (message_head (mkMessage 0 (Some (ByValue cmd)) None None None)) = true ->
  run_post w (command_message w cmd payloads header) r w' -> books x w'.
Proof.
  intros Hb Hbl (_ & Ht & (l & Hwf & _) & _). eapply books_view; [|done]. unfold view. rewrite Hwf.
  simpl. f_equal. apply pool_touched_record in Ht as [Hx|(pl & r' & [pl0 Henc] & Hx)].
  - unfold batches. by rewrite Hx.
  - eapply batches_none; [done|]. unfold batch. simpl.
    apply reads_Encode in Henc as [-> _]; [|done|].
    2: { apply Forall_singleton. simpl. rewrite (b_gen _ _ Hb). apply u64_range. }
    simpl. unfold blocking, message_head in *. simpl in *. by rewrite Hbl.
Qed.

End Proofs.

(** ** The codec's peer

    What a worker finds in a payload: the frame that protobuf reads. *)
Section ProtoPeer.
Context `{Wire}.

#[global] Instance ProtoPeer : PeerView := {|
  reads := λ p,
    match proto_Unmarshal (pl_Body p) with
    | OK f => (λ m, (pb_Id m, pb_Command m)) <$> pb_Messages f
    | Err _ => []
    end;
|}.

Lemma pack_head m ctx pm :
  packMessage m ctx zero_pbMessage = OK pm -> (pb_Id pm, pb_Command pm) = message_head m ∧ named m.
Proof.
  unfold packMessage, named, message_head. destruct (m_Command m) as [c|] eqn:Hc; simpl.
  - destruct (CommandName c) as [n|e] eqn:Hn; [|done]. destruct (json_Marshal_command c); [|done].
    intros [= <-]. split; [done|]. right. by eapply CommandName_nonempty.
  - intros [= <-]. by split; [|left].
Qed.

Lemma pack_heads ctx msgs : ∀ pms,
  packMessages ctx msgs = OK pms ->
  (λ m, (pb_Id m, pb_Command m)) <$> pms = message_head <$> msgs ∧ Forall named msgs.
Proof.
  induction msgs as [|m msgs IH]; intros pms Hp; simpl in Hp; [by injection Hp as <-|].
  destruct (packMessage m ctx zero_pbMessage) as [pm|e] eqn:Hpm; [|done].
  destruct (packMessages ctx msgs) as [pms'|e]; [|done]. injection Hp as <-.
  destruct (pack_head m ctx pm Hpm) as [Hh Hn], (IH pms' eq_refl) as [Hhs Hns].
  split; [|by constructor]. cbn [fmap list_fmap]. by rewrite Hh, Hhs.
Qed.

Lemma parseMessages_ids frames : ∀ acc msgs u,
  Forall (λ m, in_u64 (pb_Id m)) frames -> Forall (λ m, in_u64 (m_ID m)) acc ->
  parseMessages frames acc = (msgs, OK u) -> Forall (λ m, in_u64 (m_ID m)) msgs.
Proof.
  induction frames as [|f frames IH]; intros acc msgs u Hf Ha Hp; simpl in Hp; [by injection Hp as <- _|].
  apply Forall_cons_iff in Hf as [Hf Hfs]. destruct (parseMessage f) as [m|e] eqn:Hm; [|done].
  eapply IH; [done| |exact Hp]. apply Forall_app_2; [done|]. apply Forall_singleton.
  assert (m_ID m = pb_Id f) as ->; [|done].
  unfold parseMessage in Hm. by repeat (case_match; simplify_eq/=).
Qed.

#[global] Instance ProtoPeerLaws `{!WireLaws} : PeerLaws.
Proof.
  split.
  - intros ctx p msgs p' Hne Hr Henc.
    destruct (proto_Encode_OK ctx p msgs p' Hne Henc) as (pms & c & b & Hp & Hc & Hb & ->).
    destruct (packMessages_ranges ctx msgs pms Hr Hp) as [_ Hall].
    simpl. rewrite (proto_roundtrip (mkFrame pms []) b Hall Hb). simpl. by eapply pack_heads.
  - intros p msgs u Hd. unfold Decode, ProtoCodec, proto_Decode in Hd.
    destruct (pl_Body p) as [|b body]; simpl in Hd; [by injection Hd as <- _|].
    destruct (proto_Unmarshal (b :: body)) as [f|e] eqn:Hu; simpl in Hd; [|done].
    eapply parseMessages_ids; [by eapply proto_in_u64|constructor|exact Hd].
Qed.

End ProtoPeer.
