(* ===== verification/LedgerRun.v ===== *)
(** * LedgerRun: the books balance (src/aggregatedpool/handler.go, workflow.go)

    Every handler of the workflow, the workflow task and every event keep the books of
    [Ledger] balanced; hence each command of the worker is answered exactly once, and
    answers that nothing holds back reach the worker with the next task. *)
From S2P Require Import Prelude Api Doubles GoM Protocol Queue Canceller Registry Codec Exchange Activity Env Workflow Exchanges TaskLoop Progress Lifecycle Ledger.
From stdpp Require Import base gmap list strings relations.
From Stdlib Require Import ZArith Lia.

Local Open Scope string_scope.
Local Open Scope list_scope.

Section Run.
Context `{Sdk} `{!Codec} `{!Pool} `{!WorkflowEnvironment}.
Context `{!PeerView} `{!PoolRecord} `{!EnvRecord}.
Context `{!PeerLaws} `{!PoolRecordLaws} `{!EnvRecordLaws}.

(** ** Triples

    [keeps P m Q]: a run of [m] that returns, from a state with [P], against a worker
    that is orderly up to then, ends with [Q]; and the record only grows meanwhile. *)
Definition keeps {A} (P : World -> Prop) (m : W A) (Q : A -> World -> Prop) : Prop :=
  always grows m ∧
  ∀ w w' a, P w -> m w = (w', Ret a) -> orderly (g_pool w') -> Q a w'.

Lemma keeps_ret {A} (a : A) P : keeps P (mret a) (λ _, P).
Proof. split; [apply always_ret, _|]. by intros w w' a' Hw [= <- <-] _. Qed.

Lemma keeps_bind {A B} P (m : W A) Q (k : A -> W B) R :
  keeps P m Q -> (∀ a, keeps (Q a) (k a) R) -> keeps P (m ≫= k) R.
Proof.
  intros [Hg Hm] Hk. split; [apply always_bind; [apply _|done|intros a; apply Hk]|].
  intros w w' b Hw (w1 & a & Hr1 & Hr2)%bind_Ret_inv Ho.
  eapply Hk; [|done|done]. eapply Hm; [done|done|].
  pose proof (proj1 (Hk a) w1) as Hg2. rewrite Hr2 in Hg2. by eapply orderly_grows.
Qed.

Lemma keeps_mono {A} (P P' : World -> Prop) (m : W A) (Q Q' : A -> World -> Prop) :
  keeps P m Q -> (∀ w, P' w -> P w) -> (∀ a w, Q a w -> Q' a w) -> keeps P' m Q'.
Proof. intros [Hg Hm] HP HQ. split; [done|]. intros w w' a Hw Hr Ho. eauto. Qed.

Lemma keeps_gets {A} (f : World -> A) P : keeps P (gets f) (λ a w, P w ∧ a = f w).
Proof. split; [apply always_gets, _|]. by intros w w' a Hw [= <- <-] _. Qed.

Lemma keeps_modify (f : World -> World) P (Q : World -> Prop) :
  (∀ w, g_pool (f w) = g_pool w) -> (∀ w, P w -> Q (f w)) -> keeps P (modify f) (λ _, Q).
Proof.
  intros Hp Hf. split.
  - intros w. apply (grows_touched fruitless). left. apply Hp.
  - intros w w' a Hw [= <- <-] _. by apply Hf.
Qed.

Lemma keeps_panic {A} v P (Q : A -> World -> Prop) : keeps P (panic v) Q.
Proof. split; [apply always_panic, _|done]. Qed.

(** The case where the state to modify is one with an orderly record. *)
Lemma keeps_orderly (f : World -> World) P (Q : World -> Prop) :
  (∀ w, g_pool (f w) = g_pool w) -> (∀ w, orderly (g_pool w) -> P w -> Q (f w)) ->
  keeps P (modify f) (λ _, Q).
Proof.
  intros Hp Hf. split.
  - intros w. apply (grows_touched fruitless). left. apply Hp.
  - intros w w' a Hw [= <- <-] Ho. rewrite Hp in Ho. by apply Hf.
Qed.

(** A step that the books do not see. *)
Lemma keeps_unseen (f : World -> World) x :
  (∀ w, view (f w) = view w) -> (∀ w, g_pool (f w) = g_pool w) ->
  keeps (books x) (modify f) (λ _, books x).
Proof. intros Hv Hp. apply keeps_modify; [done|]. intros w. by apply books_view. Qed.

Lemma keeps_PushResponse id p x :
  keeps (books (loose_app (loose_answer id) x)) (wp_PushResponse id p) (λ _, books x).
Proof. apply keeps_modify; [done|]. intros w Hb. by apply (books_push x w (mkMessage id None None p None)). Qed.

Lemma keeps_PushError id f x :
  keeps (books (loose_app (loose_answer id) x)) (wp_PushError id f) (λ _, books x).
Proof. apply keeps_modify; [done|]. intros w Hb. by apply (books_push x w (mkMessage id None f None None)). Qed.

Lemma keeps_Discard id x : keeps (books x) (wp_Discard id) (λ _, books x).
Proof. by apply keeps_unseen. Qed.

Lemma keeps_Register id c x : keeps (books x) (wp_Register id c) (λ _, books x).
Proof. by apply keeps_unseen. Qed.

Lemma keeps_flush x : keeps (books x) flushQueue (λ _, books x).
Proof.
  split; [apply fi_flush|]. intros w w' r Hb Hr _.
  destruct (decide (Messages (wp_mq (wf w)) = [])) as [Hq|Hq].
  - rewrite (flushQueue_empty w Hq) in Hr. by simplify_eq.
  - destruct (flushQueue_spec w Hq) as (r' & Ho & Hp). rewrite Hr in Ho, Hp. simplify_eq/=.
    by eapply flush_books.
Qed.

Lemma keeps_run cmd p h x :
  blocking (message_head (mkMessage 0 (Some (ByValue cmd)) None None None)) = true ->
  keeps (books x) (runCommand cmd p h) (λ _, books x).
Proof.
  intros Hbl. split; [apply hi_run|]. intros w w' r Hb Hr _.
  destruct (runCommand_spec cmd p h w) as (r' & Ho & Hp). rewrite Hr in Ho, Hp. simplify_eq/=.
  by eapply run_books.
Qed.

Lemma keeps_for_each {A} (l : list A) (body : A -> W unit) (I : list A -> World -> Prop) :
  (∀ a l, keeps (I (a :: l)) (body a) (λ _, I l)) -> keeps (I l) (for_each l body) (λ _, I []).
Proof.
  intros Hb. induction l as [|a l IH]; simpl; [apply keeps_ret|].
  eapply keeps_bind; [apply Hb|]. intros []. apply IH.
Qed.

(** A read whose value does not matter. *)
Lemma keeps_read {A B} (f : World -> A) (k : A -> W B) P Q :
  (∀ a, keeps P (k a) Q) -> keeps P (gets f ≫= k) Q.
Proof.
  intros Hk. eapply keeps_bind; [apply keeps_gets|]. intros a. eapply keeps_mono; [apply Hk|tauto|done].
Qed.

(** ** Handlers run by the environment *)

Lemma keeps_run_callback id r e x :
  keeps (books (loose_app (loose_answer id) x)) (run_callback id r e) (λ _, books x).
Proof.
  unfold run_callback. eapply keeps_bind; [apply keeps_Discard|]. intros [].
  destruct e; [apply keeps_PushError|apply keeps_PushResponse].
Qed.

Lemma keeps_deferred (m : W unit) c x :
  keeps (books (loose_app (loose_answer (callback_id c)) x)) m (λ _, books x) ->
  keeps (books (loose_app (loose_answer (callback_id c)) x))
    (inLoop ← gets (λ w, wp_inLoop (wf w)); if Z.eqb inLoop 1 then m else append_callback c)
    (λ _, books x).
Proof.
  intros Hm. apply keeps_read. intros i. destruct (Z.eqb i 1); [done|].
  apply keeps_modify; [done|]. intros w. apply books_defer.
Qed.

Lemma keeps_createCallback id t r e x :
  keeps (books (loose_app (loose_answer id) x)) (createCallback id t r e) (λ _, books x).
Proof. apply (keeps_deferred _ (DeferredResult id t r e)), keeps_run_callback. Qed.

Lemma keeps_createLocalActivityCallback id lar x :
  keeps (books (loose_app (loose_answer id) x)) (createLocalActivityCallback id lar) (λ _, books x).
Proof.
  apply (keeps_deferred _ (DeferredLocal id lar)). unfold run_local_callback.
  eapply keeps_bind; [apply keeps_Discard|]. intros [].
  destruct (lar_Err lar); [apply keeps_PushError|apply keeps_PushResponse].
Qed.

Lemma keeps_createContinuableCallback id t r e x :
  keeps (books (loose_app (loose_answer id) x)) (createContinuableCallback id t r e) (λ _, books x).
Proof.
  unfold createContinuableCallback. eapply keeps_bind; [apply keeps_Discard|]. intros [].
  destruct e; [apply keeps_PushError|]. eapply keeps_bind; [apply keeps_PushResponse|]. intros [].
  eapply keeps_bind; [apply keeps_flush|]. intros [[]|e]; [apply keeps_ret|apply keeps_panic].
Qed.

Lemma keeps_call_listener l r e x :
  keeps (books (loose_app (loose_answer (listener_msgID l)) x)) (call_listener l r e) (λ _, books x).
Proof.
  unfold call_listener. destruct e; [apply keeps_createCallback|].
  destruct (env_ToPayloads _); [apply keeps_createCallback|apply keeps_panic].
Qed.

Lemma keeps_Lock x : keeps (books x) (registry_Lock (S := World)) (λ _, books x).
Proof.
  unfold registry_Lock. apply keeps_read. intros c. destruct (registry_locked c).
  - split; [apply always_blocked, _|done].
  - by apply keeps_unseen.
Qed.

Lemma keeps_Unlock x : keeps (books x) (registry_Unlock (S := World)) (λ _, books x).
Proof.
  unfold registry_Unlock. apply keeps_read. intros c. destruct (registry_locked c).
  - by apply keeps_unseen.
  - split; [|done]. intros w. apply (grows_touched fruitless). by left.
Qed.

(** The critical section around a listener. *)
Lemma keeps_locked_call l r e x :
  keeps (books (loose_app (loose_answer (listener_msgID l)) x))
    (_ ← registry_Lock; _ ← call_listener l r e; registry_Unlock) (λ _, books x).
Proof.
  eapply keeps_bind; [apply keeps_Lock|]. intros [].
  eapply keeps_bind; [apply keeps_call_listener|]. intros []. apply keeps_Unlock.
Qed.

Lemma loose_none x w : books (loose_app (mkLoose [] [] []) x) w -> books x w.
Proof. by destruct x. Qed.

Lemma keeps_Push id r e x :
  keeps (books (loose_app (mkLoose [] [id] []) x)) (Push (S := World) call_listener id r e) (λ _, books x).
Proof.
  unfold Push. eapply keeps_bind.
  { apply (keeps_orderly _ _ (λ w, books (loose_app (loose_call
      (registry_listeners (wp_ids (wf w)) !! id)) x) w)); [done|].
    intros w Ho Hb. exact (books_publish x w id _ Ho Hb). }
  intros []. eapply keeps_bind; [apply keeps_gets|]. intros c. simpl.
  destruct (registry_listeners c !! id) as [l|] eqn:Hl.
  - eapply keeps_mono; [apply (keeps_locked_call l _ _ x)| |done]. intros w [Hb ->]. simpl in Hl. by rewrite Hl in Hb.
  - eapply keeps_mono; [apply (keeps_ret _ (books x))| |done]. intros w [Hb ->]. simpl in Hl. rewrite Hl in Hb.
    by apply loose_none.
Qed.

Lemma keeps_Listen id l x :
  keeps (books (loose_app (mkLoose [listener_msgID l] [] [id]) x))
    (Listen (S := World) call_listener id l) (λ _, books x).
Proof.
  unfold Listen. eapply keeps_bind.
  { apply (keeps_orderly _ _ (λ w, books (loose_app (loose_call
      (match registry_ids (wp_ids (wf w)) !! id with Some _ => Some l | None => None end)) x) w)); [done|].
    intros w Ho Hb. exact (books_subscribe x w id l Ho Hb). }
  intros []. eapply keeps_bind; [apply keeps_gets|]. intros c. simpl.
  destruct (registry_ids c !! id) as [e|] eqn:Hl.
  - eapply keeps_mono; [apply (keeps_locked_call l _ _ x)| |done]. intros w [Hb ->]. simpl in Hl. by rewrite Hl in Hb.
  - eapply keeps_mono; [apply (keeps_ret _ (books x))| |done]. intros w [Hb ->]. simpl in Hl. rewrite Hl in Hb.
    by apply loose_none.
Qed.

Lemma keeps_run_fire f x :
  keeps (books (loose_app (loose_fires [f]) x)) (run_fire f) (λ _, books x).
Proof.
  destruct f as [[id t|id t] r e|id lar|id r e]; simpl.
  - apply keeps_createCallback.
  - apply keeps_createContinuableCallback.
  - apply keeps_createLocalActivityCallback.
  - apply keeps_Push.
Qed.

Lemma keeps_fires fires x :
  keeps (books (loose_app (loose_fires fires) x)) (for_each fires run_fire) (λ _, books x).
Proof.
  eapply keeps_mono; [apply (keeps_for_each fires run_fire (λ l, books (loose_app (loose_fires l) x)))|done|].
  2: { intros u w. apply loose_none. }
  intros f l. eapply keeps_mono; [apply (keeps_run_fire f (loose_app (loose_fires l) x))| |done].
  intros w. apply books_loose; unfold loose_fires, loose_app; simpl; try done.
  - rewrite (app_assoc (fired [f])). unfold fired. by rewrite <- omap_app.
  - rewrite (app_assoc (started [f])). unfold started. by rewrite <- omap_app.
Qed.

(** A call of the environment. *)
Lemma keeps_env_do {A} (call : Env -> Env * list fire * A) given starts x :
  accounted given starts call ->
  keeps (books (loose_app (mkLoose given starts []) x)) (env_do call) (λ _, books x).
Proof.
  intros Hc. split; [apply env_do_always, _|]. intros w w' a Hb Hr Ho. unfold env_do in Hr.
  specialize (Hc (wp_env (wf w))). destruct (call _) as [[e fires] a']. destruct Hc as [Hp Hs].
  pose proof (books_env _ _ _ _ _ _ Hp Hs Hb) as Hb'.
  assert (keeps (books (loose_app (loose_fires fires) x)) (_ ← for_each fires run_fire; mret a')
    (λ _, books x)) as [_ Hk].
  { eapply keeps_bind; [apply keeps_fires|]. intros []. apply keeps_ret. }
  by eapply Hk.
Qed.

Lemma keeps_env_quiet {A} (call : Env -> Env * list fire * A) x :
  accounted [] [] call -> keeps (books x) (env_do call) (λ _, books x).
Proof.
  intros Hc. eapply keeps_mono; [by apply (keeps_env_do call [] [] x)| |done]. by destruct x.
Qed.

Lemma keeps_env_set f x : unaccounted f -> keeps (books x) (env_set f) (λ _, books x).
Proof.
  intros Hf. apply keeps_modify; [done|]. intros w Hb. destruct (Hf (wp_env (wf w))) as [Hp Hs].
  apply loose_none. apply (books_env x w (f (wp_env (wf w))) [] [] []); simpl; rewrite ?app_nil_r, ?Hp, ?Hs; try done.
  by destruct x.
Qed.

(** ** Commands of the worker *)

Lemma keeps_Cancel ids x :
  keeps (books x) (Canceller_Cancel (S := World) run_cancellable ids) (λ _, books x).
Proof.
  induction ids as [|id ids IH]; simpl; [apply keeps_ret|]. apply keeps_read. intros c.
  destruct (canceller_ids c !! id) as [cl|]; [|done].
  eapply keeps_bind; [apply (keeps_Discard id)|]. intros [].
  assert (keeps (books x) (run_cancellable cl) (λ _, books x)) as Hc.
  { destruct cl as [i|i|ns wid|[i|]]; simpl; try apply keeps_ret;
      (eapply keeps_bind; [apply keeps_env_quiet; auto with go|intros []; apply keeps_ret]). }
  eapply keeps_bind; [exact Hc|]. intros [u|e]; [done|apply keeps_ret].
Qed.

Lemma keeps_deterministic_id params x :
  keeps (books x) (deterministic_id params) (λ _, books x).
Proof.
  unfold deterministic_id, next_seqID_wf. destruct (String.eqb _ ""); [|apply keeps_ret].
  eapply keeps_bind.
  - eapply keeps_bind; [by apply keeps_unseen|]. intros []. eapply keeps_mono; [apply keeps_gets|done|].
    intros a w [Hb _]. exact Hb.
  - intros n. apply keeps_read. intros r. apply keeps_ret.
Qed.

(** A command that was handled left the books balanced. *)
Definition handled (x : loose) (r : result unit) (w : World) : Prop :=
  match r with OK _ => books x w | Err _ => True end.

Lemma keeps_err P e x : keeps P (mret (Err e) : W (result unit)) (handled x).
Proof. split; [apply always_ret, _|]. by intros w w' a Hw [= <- <-] _. Qed.

Lemma keeps_handled op x (r : result unit) : keeps (books x) (mret (wrapE op r)) (handled x).
Proof.
  eapply keeps_mono; [apply keeps_ret|done|]. intros [u|e] w; [done|by intros].
Qed.

Lemma keeps_ok x : keeps (books x) (mret (OK tt)) (handled x).
Proof. apply (keeps_handled "" x (OK tt)). Qed.

(** The law of a call that is given a handler. *)
Ltac account :=
  first [ solve [auto with go] | apply acc_ExecuteActivity | apply acc_ExecuteChildWorkflow
        | apply acc_NewTimer | apply acc_SideEffect | apply acc_SignalExternalWorkflow
        | apply acc_RequestCancelExternalWorkflow ].

(** Follows the program text of a command. *)
Ltac keeps_leaf :=
  first [ apply keeps_PushResponse | apply keeps_PushError | apply keeps_Register | apply keeps_flush
        | apply keeps_Cancel | apply keeps_deterministic_id
        | apply keeps_env_do; account | apply keeps_env_quiet; account
        | apply keeps_ok | apply keeps_err | apply keeps_handled ].

Ltac keeps_step :=
  lazymatch goal with
  | |- keeps _ (gets _ ≫= _) _ => apply keeps_read; intros ?
  | |- keeps _ (Listen _ _ _ ≫= _) _ => eapply keeps_bind; [apply (keeps_Listen _ (mkListener _))|intros ?]
  | |- keeps _ (_ ≫= _) _ => eapply keeps_bind; [keeps_leaf|intros ?; cbv beta]
  | |- keeps _ (match ?x with _ => _ end) _ => destruct x
  | |- keeps _ (mret (match ?x with _ => _ end)) _ => destruct x
  | |- _ => keeps_leaf
  end.

(** Computes what a concrete message asks for. *)
Ltac unfold_loose :=
  match goal with |- context [loose_messages ?l] =>
    let y := eval cbv beta iota delta [loose_messages omap list_omap wants_answer starts_child
                       awaits_child m_Command m_ID answers] in (loose_messages l) in
    change (loose_messages l) with y
  end.

(** Handling a message discharges what it asks for. *)
Lemma keeps_handleMessage msg x :
  keeps (books (loose_app (loose_messages [msg]) x)) (handleMessage msg) (handled x).
Proof.
  unfold handleMessage, cancel_commands, panic_result. apply keeps_read. intros info.
  destruct msg as [id [[c|c]|] f p h]; cbn [m_Command m_ID m_Payloads m_Header m_Failure];
    [apply keeps_err| |apply keeps_err].
  destruct c as [c|c|c|c|c|c|c|c|c|c|c|c|c|c|c|c|c|c|c|c|c|c|c|c|c]; try apply keeps_err;
    unfold_loose.
  all: try (eapply keeps_mono; [|apply loose_none|done]).
  all: repeat keeps_step.
Qed.

(** ** Updates *)

Lemma keeps_run_update u x : keeps (books x) (run_update u) (λ _, books x).
Proof.
  unfold run_update. apply keeps_read. intros replaying.
  set (acc := _ ≫= _ : W unit).
  assert (keeps (books x) acc (λ _, books x)) as Hacc.
  { subst acc. eapply keeps_bind; [apply keeps_env_set; auto with go|]. intros [].
    eapply keeps_bind; [by apply keeps_run|]. intros [m|e]; [destruct (m_Failure m)|];
      apply keeps_env_set; auto with go. }
  destruct replaying; [exact Hacc|].
  eapply keeps_bind; [by apply keeps_run|]. intros [m|e]; [destruct (m_Failure m); [|exact Hacc]|];
    apply keeps_env_set; auto with go.
Qed.

Lemma keeps_env_updates call x :
  unaccounted (λ e, (call e).1) -> keeps (books x) (env_updates call) (λ _, books x).
Proof.
  intros Hc. split; [apply env_updates_always, _|]. intros w w' a Hb Hr Ho. unfold env_updates in Hr.
  assert (books x (on_wf (set_env (call (wp_env (wf w))).1) w)) as Hb'.
  { apply (proj2 (keeps_env_set _ x Hc) w _ tt Hb); [done|]. eapply orderly_grows; [|exact Ho].
    destruct (call _) as [e us]. simpl.
    assert (always grows (for_each us run_update)) as Hg.
    { apply always_for_each; [apply _|]. intros u. apply run_update_always, _. }
    specialize (Hg (on_wf (set_env e) w)). by rewrite Hr in Hg. }
  destruct (call _) as [e us]. simpl in Hb'.
  by eapply (keeps_for_each us run_update (λ _, books x)); [intros; apply keeps_run_update|..].
Qed.

Lemma keeps_run_updates names x : keeps (books x) (run_updates names) (λ _, books x).
Proof.
  apply (keeps_for_each names _ (λ _, books x)). intros n l. apply keeps_env_updates.
  apply una_HandleQueuedUpdates.
Qed.

(** ** The task *)

Lemma keeps_ext {A} P (m m' : W A) Q : (∀ w, m w = m' w) -> keeps P m' Q -> keeps P m Q.
Proof.
  intros He [Hg Hm]. split; [intros w; rewrite He; apply Hg|]. intros w w' a Hw Hr. rewrite He in Hr. eauto.
Qed.

(** The next message of the pipeline: what it asks for is loose until it is handled. *)
Lemma books_pop x w msg rest :
  wp_pipeline (wf w) = msg :: rest -> books x w ->
  books (loose_app (loose_messages [msg]) x) (on_wf (set_pipeline rest) w).
Proof.
  intros Hp [Hb1 Hb2 Hb3 Hb4 Hb5 Hb6].
  assert (∀ (g : Message -> option Z) id,
    cnt (omap g (msg :: rest)) id = cnt (omap g [msg]) id + cnt (omap g rest) id) as Hc
    by (intros; by rewrite <- cnt_app, <- omap_app).
  split; try done; intros id; [specialize (Hb1 id)|specialize (Hb2 id)|specialize (Hb3 id)];
    rewrite Hp, Hc in *; unfold loose_app, loose_messages; cbn [l_answers l_starts l_awaits];
    rewrite cnt_app; unfold owed in *; cbn [on_wf wf g_pool wp_pipeline set_pipeline wp_env wp_callbacks
      wp_mq wp_ids] in *; lia.
Qed.

Lemma keeps_pipeline_loop fuel x : keeps (books x) (pipeline_loop fuel) (λ _, books x).
Proof.
  induction fuel as [|fuel IH]; simpl; (eapply keeps_bind; [apply keeps_gets|]); intros pipeline; cbv beta.
  all: destruct pipeline as [|msg rest];
    [eapply keeps_mono; [apply (keeps_ret tt (books x))|tauto|done]|].
  { split; [apply always_nofuel, _|done]. }
  eapply (keeps_bind _ _ (λ _, books (loose_app (loose_messages [msg]) x))).
  { apply keeps_modify; [done|]. intros w [Hb Hp]. by apply books_pop. }
  intros []. eapply (keeps_bind _ _ (handled x)).
  - destruct (IsCommand msg) eqn:Hi.
    + assert (keeps (books (loose_app (loose_messages [msg]) x)) (handleMessage msg) (handled x)) as Hh
        by apply keeps_handleMessage.
      destruct (m_Command msg) as [[c|[]]|]; try exact Hh.
      eapply keeps_bind; [apply (keeps_modify _ _ (λ _, True)); done|]. intros []. apply keeps_panic.
    + eapply keeps_mono; [apply keeps_ok| |done]. intros w Hb. apply loose_none.
      unfold IsCommand in Hi. destruct msg as [id [c|] f p h]; done.
  - intros [u|e]; [exact IH|].
    eapply keeps_bind; [apply (keeps_modify _ _ (λ _, True)); done|]. intros []. apply keeps_panic.
Qed.

Lemma callback_answers cbs : answer_ids (callback_message <$> cbs) = callback_id <$> cbs.
Proof.
  induction cbs as [|c cbs IH]; [done|]. unfold answer_ids in *. cbn [fmap list_fmap omap list_omap].
  rewrite IH. by destruct c as [id t r [e|]|id [[e|] r a b]].
Qed.

Lemma answered_env cbs : ∀ p, wp_env (foldl answered p cbs) = wp_env p.
Proof. induction cbs as [|c cbs IH]; intros p; simpl; [done|]. by rewrite IH. Qed.

(** Running the deferred callbacks moves their answers to the queue. *)
Lemma books_first_flush x w : books x w -> books x (at_first_flush w).
Proof.
  intros [Hb1 Hb2 Hb3 Hb4 Hb5 Hb6]. unfold at_first_flush.
  set (cbs := wp_callbacks (wf w)). set (p0 := set_inLoop 1 (wf w)).
  pose proof (answered_queue cbs p0) as Hq. pose proof (answered_env cbs p0) as He.
  destruct (answered_steady cbs p0) as (_ & _ & _ & Hp & Hi & _ & _ & _ & Hg).
  split; unfold owed, on_wf; cbn [wf g_pool set_callbacks wp_env wp_callbacks wp_mq wp_ids wp_pipeline];
    fold cbs p0; rewrite ?Hq, ?He, ?Hp, ?Hi, ?Hg; try done.
  - intros id. rewrite <- (Hb1 id). unfold owed, answer_ids. fold cbs. rewrite omap_app.
    fold (answer_ids (callback_message <$> cbs)). rewrite callback_answers, !cnt_app.
    cbn [fmap list_fmap]. rewrite cnt_nil. subst p0. simpl. unfold answer_ids. lia.
  - apply Forall_app_2; [done|]. apply Forall_fmap, Forall_true. intros c.
    left. by destruct c as [i t r [e|]|i [[e|] r a b]].
Qed.

Lemma keeps_after_flush fuel x : keeps (books x) (after_flush fuel) (λ _, books x).
Proof.
  apply (keeps_ext _ _ (names ← gets (λ w, wp_updatesQueue (wf w)); _ ← run_updates names;
    _ ← modify (on_wf (set_updatesQueue [])); pipeline_loop fuel)); [intros w; apply after_flush_eq|].
  apply keeps_read. intros names. eapply keeps_bind; [apply keeps_run_updates|]. intros [].
  eapply keeps_bind; [by apply keeps_unseen|]. intros []. apply keeps_pipeline_loop.
Qed.

(** What an exchange at the start of a task leaves of the workflow. *)
Lemma first_flush_quiet w w1 :
  wp_updatesQueue (wf w) = [] -> flushQueue (at_first_flush w) = (w1, Ret (OK tt)) ->
  wp_updatesQueue (wf w1) = [] ∧ wp_env (wf w1) = wp_env (wf w) ∧ wp_ids (wf w1) = wp_ids (wf w) ∧
  Messages (wp_mq (wf w1)) = [] ∧ wp_callbacks (wf w1) = [].
Proof.
  intros Hu Hfl. set (p0 := set_inLoop 1 (wf w)). set (cbs := wp_callbacks (wf w)).
  pose proof (answered_env cbs p0) as He.
  destruct (answered_steady cbs p0) as (_ & Hu0 & _ & _ & Hi & _).
  destruct (decide (Messages (wp_mq (wf (at_first_flush w))) = [])) as [Hq|Hq].
  - rewrite (flushQueue_empty _ Hq) in Hfl. injection Hfl as <-. split_and!; try done.
    simpl. fold cbs p0. by rewrite Hu0.
  - destruct (flushQueue_spec _ Hq) as (r & Ho & Hpost). rewrite Hfl in Ho, Hpost. simplify_eq/=.
    destruct Hpost as (reply & l & _ & Hwf & _). rewrite Hwf. simpl. fold cbs p0.
    by rewrite Hu0, He, Hi.
Qed.

Lemma OnWorkflowTaskStarted_grows fuel : always grows (OnWorkflowTaskStarted fuel).
Proof.
  intros w. rewrite task_from_first_flush.
  change (g_pool w) with (g_pool (at_first_flush w)). change (grows w) with (grows (at_first_flush w)).
  unfold task_rest.
  assert (always grows (defer (modify (on_wf (set_inLoop 0)))
    (r ← flushQueue; match r with Err e => panic (PanicErr e) | OK _ => after_flush fuel end))) as Hg.
  { apply always_defer; [apply _| |].
    - intros w'. apply (grows_touched fruitless). by left.
    - apply always_bind; [apply _|apply fi_flush|]. intros [u|e]; [apply (keeps_after_flush fuel none)|].
      apply always_panic, _. }
  apply Hg.
Qed.

Lemma task_books fuel x w w' :
  books x w -> OnWorkflowTaskStarted fuel w = (w', Ret tt) -> orderly (g_pool w') -> books x w'.
Proof.
  rewrite task_from_first_flush. unfold task_rest, defer. intros Hb Hr Ho.
  apply books_first_flush in Hb. set (m := _ ≫= _) in Hr.
  assert (keeps (books x) m (λ _, books x)) as [_ Hm].
  { subst m. eapply keeps_bind; [apply keeps_flush|].
    intros [u|e]; [apply keeps_after_flush|apply keeps_panic]. }
  specialize (Hm (at_first_flush w)). destruct (m (at_first_flush w)) as [w1 [[]|v|msg| |]]; simplify_eq/=.
  injection Hr as <-. specialize (Hm w1 tt Hb eq_refl Ho).
  by apply (books_view x w1).
Qed.

(** ** Commands of the plugin *)

Lemma keeps_PushCommand cmd p h x :
  blocking (message_head (mkMessage 0 (Some (ByValue cmd)) None None None)) = false ->
  keeps (books x) (wp_PushCommand cmd p h) (λ _, books x).
Proof.
  intros Hbl. apply keeps_modify.
  { intros w. unfold PushCommand. by destruct (SeqID _ _). }
  intros w [Hb1 Hb2 Hb3 Hb4 Hb5 Hb6]. unfold PushCommand. rewrite Hb5. simpl.
  split; unfold owed, answer_ids; simpl; rewrite ?omap_app, ?app_nil_r; try done.
  apply Forall_app_2; [done|]. apply Forall_singleton. right. split; [apply u64_range|exact Hbl].
Qed.

(** ** Histories

    What the SDK asks of a workflow between [Execute] and [Close], when it returns.
    [event_env] is the environment moving on: it may run any of the handlers it keeps,
    each once. *)
Inductive event : World -> World -> Prop :=
| event_task fuel w w' : OnWorkflowTaskStarted fuel w = (w', Ret tt) -> event w w'
| event_env (call : Env -> Env * list fire * unit) w w' :
    accounted [] [] call -> Forall external (call (wp_env (wf w))).1.2 ->
    env_do call w = (w', Ret tt) -> event w w'
| event_cancel w w' : handleCancel w = (w', Ret tt) -> event w w'
| event_signal name input header r w w' :
    handleSignal name input header w = (w', Ret r) -> event w w'
| event_query q args header r w w' : handleQuery q args header w = (w', Ret r) -> event w w'
| event_update name id input header cb w w' :
    handleUpdate name id input header cb w = (w', Ret tt) -> event w w'
| event_stack r w w' : StackTrace w = (w', Ret r) -> event w w'.

Lemma fires_steps fires : ∀ w w',
  Forall external fires -> for_each fires run_fire w = (w', Ret tt) -> rtc step w w'.
Proof.
  induction fires as [|f fires IH]; intros w w' He Hr; simpl in Hr.
  { injection Hr as <-. apply rtc_refl. }
  apply Forall_cons_iff in He as [Hf He]. apply bind_Ret_inv in Hr as (w1 & [] & Hr1 & Hr2).
  eapply rtc_l; [by eapply step_fire|]. by eapply IH.
Qed.

Lemma event_steps w w' : event w w' -> rtc step w w'.
Proof.
  destruct 1 as [fuel w w' Hr|call w w' Hc He Hr|w w' Hr|n i h r w w' Hr|q a h r w w' Hr
    |n id i h cb w w' Hr|r w w' Hr]; [| |eapply rtc_once;
      eauto using step_cancel, step_signal, step_query, step_update, step_stack..].
  - by eapply rtc_once, step_task.
  - unfold env_do in Hr. destruct (call _) as [[e fires] u]. simpl in He.
    apply bind_Ret_inv in Hr as (w1 & [] & Hr1 & Hr2). injection Hr2 as <-.
    eapply rtc_l; [apply (step_env e)|]. by apply (fires_steps fires).
Qed.

Lemma PushCommand_grows cmd p h : always grows (wp_PushCommand cmd p h).
Proof.
  apply always_modify. intros w. apply (grows_touched fruitless). left. unfold PushCommand.
  by destruct (SeqID _ _).
Qed.

Lemma event_grows w w' : event w w' -> grows w w'.
Proof.
  intros He.
  assert (∀ {A} (m : W A) (a : A), always grows m -> m w = (w', Ret a) -> grows w w') as Hk.
  { intros A m a Hg Hr. specialize (Hg w). by rewrite Hr in Hg. }
  destruct He as [fuel w w' Hr|call w w' Hc He Hr|w w' Hr|n i h r w w' Hr|q a h r w w' Hr
    |n id i h cb w w' Hr|r w w' Hr]; (eapply Hk; [|exact Hr]).
  - apply OnWorkflowTaskStarted_grows.
  - apply env_do_always, _.
  - unfold handleCancel. always_steps. apply PushCommand_grows.
  - unfold handleSignal. always_steps. apply PushCommand_grows.
  - unfold handleQuery. always_steps.
  - unfold handleUpdate. always_steps; apply always_modify; intros w0;
      apply (grows_touched fruitless); by left.
  - unfold StackTrace. always_steps.
Qed.

Lemma event_books x w w' :
  books x w -> event w w' -> orderly (g_pool w') -> books x w'.
Proof.
  intros Hb He Ho.
  assert (∀ {A} (m : W A) (a : A), keeps (books x) m (λ _, books x) -> m w = (w', Ret a) ->
    books x w') as Hk.
  { intros A m a [Hg Hm] Hr. by eapply Hm. }
  destruct He as [fuel w w' Hr|call w w' Hc He Hr|w w' Hr|n i h r w w' Hr|q a h r w w' Hr
    |n id i h cb w w' Hr|r w w' Hr].
  - by eapply task_books.
  - eapply Hk; [by apply keeps_env_quiet|exact Hr].
  - eapply Hk; [|exact Hr]. unfold handleCancel. do 2 (apply keeps_read; intros ?). by apply keeps_PushCommand.
  - eapply Hk; [|exact Hr]. unfold handleSignal. apply keeps_read; intros ?.
    eapply keeps_bind; [by apply keeps_PushCommand|]. intros []. apply keeps_ret.
  - eapply Hk; [|exact Hr]. unfold handleQuery. apply keeps_read; intros ?.
    eapply keeps_bind; [by apply keeps_run|]. intros [m|e]; [destruct (m_Failure m)|]; apply keeps_ret.
  - eapply Hk; [|exact Hr]. unfold handleUpdate. eapply keeps_bind; [by apply keeps_unseen|]. intros [].
    apply keeps_read; intros ?. apply keeps_env_set; auto with go.
  - eapply Hk; [|exact Hr]. unfold StackTrace. do 2 (apply keeps_read; intros ?).
    eapply keeps_bind; [by apply keeps_run|]. intros [m|e]; [|apply keeps_ret].
    destruct (GetPayloads _); [apply keeps_ret|]. destruct (env_FromPayload_string _); apply keeps_ret.
Qed.

Lemma events_grow w w' : rtc event w w' -> grows w w'.
Proof.
  pose proof grows_preorder. induction 1 as [|w1 w2 w3 He Hr IH]; [done|].
  transitivity w2; [by apply event_grows|done].
Qed.

Lemma events_idle rrID header w w' : rtc event w w' -> idle rrID header w -> idle rrID header w'.
Proof.
  assert (∀ w w', rtc step w w' -> idle rrID header w -> idle rrID header w') as Hs.
  { induction 1 as [|a b c Hab Hbc IH]; [done|]. intros Hi. by eapply IH, step_idle. }
  induction 1 as [|w1 w2 w3 He Hr IH]; [done|]. intros Hi. apply IH. eapply Hs; [|done]. by apply event_steps.
Qed.

Section History.
Context (rrID : string) (env : Env) (header : option Header) (input : option Payloads)
  (seqID : Z) (pool : PoolState) (g : gauges).

(** A fresh environment and a pool on whose record the run has nothing yet. *)
Definition fresh_run : Prop :=
  env_pending env = [] ∧ env_starting env = [] ∧ exchanges pool = [].

Definition reachable (w : World) : Prop := rtc event (Execute rrID env header input seqID pool g) w.

Lemma Execute_books : fresh_run -> books none (Execute rrID env header input seqID pool g).
Proof.
  intros (Hp & Hs & Hx). destruct (una_RegisterHandlers env) as [Hp' Hs'].
  assert (batches pool = []) as Hb by (unfold batches; by rewrite Hx).
  unfold Execute. destruct (GetPayloads _) as [|y ys]; simpl.
  all: split; unfold asked, children, awaited, sent_answers, received, owed; simpl;
    rewrite ?Hb, ?Hp', ?Hs', ?Hp, ?Hs; try done.
  all: apply Forall_singleton; right; split; [apply u64_range|done].
Qed.

Lemma reachable_books w :
  fresh_run -> reachable w -> orderly (g_pool w) -> books none w.
Proof.
  intros Hf Hr. pose proof (Execute_books Hf) as Hb. unfold reachable in Hr.
  induction Hr as [|w1 w2 w3 He Hr IH]; [done|]. intros Ho.
  pose proof (events_grow _ _ Hr) as Hg.
  apply IH; [|done]. eapply event_books; [done|done|]. by eapply orderly_grows.
Qed.

Lemma reachable_idle_run w : reachable w -> idle rrID header w.
Proof. intros Hr. by eapply events_idle, Execute_idle. Qed.



End History.

(** ** A worker that waits twice *)

Definition wait_for (child id : Z) : Message :=
  mkMessage id (Some (ByPtr (C_GetChildWorkflowExecution (mkGetChildWorkflowExecution child)))) None None None.

(** C40: a second command that waits for the same child workflow, before the
    child has started, makes the plugin forget the first one: state and outcome are
    those of a run in which the first command was never received, so it is never
    answered. *)
Theorem second_wait_overwrites (child a b : Z) (w : World) :
  registry_ids (wp_ids (wf w)) !! child = None ->
  (_ ← handleMessage (wait_for child a); handleMessage (wait_for child b)) w =
  handleMessage (wait_for child b) w.
Proof.
  intros Hc.
  assert (∀ id w, registry_ids (wp_ids (wf w)) !! child = None -> handleMessage (wait_for child id) w =
    (on_wf (λ p, set_ids (store_listener child (mkListener id) (wp_ids p)) p) w, Ret (OK tt))) as Hh.
  { intros id w0 H0'. unfold handleMessage, cancel_commands, panic_result, Listen. go_unfold. by rewrite H0'. }
  rewrite (bind_ret _ _ _ _ _ (Hh a w Hc)), !Hh by done.
  unfold on_wf, set_ids, store_listener. simpl. by rewrite insert_insert_eq.
Qed.

End Run.
