(* ===== verification/Fleet.v ===== *)
(** * Fleet: all the workflow runs of a worker (src/aggregatedpool/workflow.go, handler.go)

    The SDK keeps many runs in memory and executes their tasks on several goroutines.
    Each run is an object of its own ([Workflow]); the runs share the pool with the one
    worker process behind it, the counter of message ids and the gauges.  This file
    splits the workflow task into the steps between which other runs may act, and
    composes the runs: the books of [Ledger] balance for all runs together, so no
    answer is lost or sent twice although the runs take turns with the worker. *)
From S2P Require Import Prelude Api Doubles GoM Protocol Queue Canceller Registry Codec Exchange Activity Env Workflow Exchanges TaskLoop Progress Lifecycle Ledger LedgerRun.
From stdpp Require Import base gmap list strings relations.
From Stdlib Require Import ZArith Lia.

Local Open Scope string_scope.
Local Open Scope list_scope.

#[local] Set Warnings "-clear-no-such-hyp".

(** ** The task in steps *)

(** Where the task of a run is: not in a task; about to make its first exchange; with
    updates left to handle; in the loop over the pipeline. *)
Inductive stage : Type :=
| Idle
| Flushing
| Updating (names : list string)
| Piping.

Section Fleet.
Context `{Sdk} `{!Codec} `{!Pool} `{!WorkflowEnvironment}.

(** The mode is set and the deferred callbacks run. *)
Definition begin_task : W unit :=
  _ ← modify (on_wf (set_inLoop 1));
  callbacks ← gets (λ w, wp_callbacks (wf w));
  _ ← index_loop (length callbacks) (λ w, wp_callbacks (wf w)) run_Callback 0;
  modify (on_wf (set_callbacks [])).

(** One turn of the loop over the pipeline. *)
Definition handle_one (msg : Message) (rest : list Message) : W unit :=
  _ ← modify (on_wf (set_pipeline rest));
  r ← (if IsCommand msg then
         match m_Command msg with
         | Some (ByPtr (C_UndefinedResponse u)) =>
             _ ← discard_pipeline;
             panic (PanicStr ("undefined response: " ++ UR_Message u)%string)
         | _ => handleMessage msg
         end
       else mret (OK tt));
  match r with
  | Err e => _ ← discard_pipeline; panic (PanicErr e)
  | OK _ => mret tt
  end.

Inductive task_step : World * stage -> World * stage -> Prop :=
| task_begin w w' : begin_task w = (w', Ret tt) -> task_step (w, Idle) (w', Flushing)
| task_flush w w' :
    flushQueue w = (w', Ret (OK tt)) -> task_step (w, Flushing) (w', Updating (wp_updatesQueue (wf w')))
| task_update name names w w' :
    env_updates (env_HandleQueuedUpdates name) w = (w', Ret tt) ->
    task_step (w, Updating (name :: names)) (w', Updating names)
| task_updated w : task_step (w, Updating []) (on_wf (set_updatesQueue []) w, Piping)
| task_message msg rest w w' :
    wp_pipeline (wf w) = msg :: rest -> handle_one msg rest w = (w', Ret tt) ->
    task_step (w, Piping) (w', Piping)
| task_end w : wp_pipeline (wf w) = [] -> task_step (w, Piping) (on_wf (set_inLoop 0) w, Idle).

Lemma begin_task_run w : begin_task w = (at_first_flush w, Ret tt).
Proof.
  unfold begin_task. rewrite (bind_ret _ _ _ (on_wf (set_inLoop 1) w) tt) by done.
  unfold gets at 1, mbind at 1, GoM_bind at 1, after at 1; simpl.
  by rewrite (bind_ret _ _ _ _ _ (callbacks_loop_run (on_wf (set_inLoop 1) w))).
Qed.

Lemma pipeline_loop_one fuel msg rest w :
  wp_pipeline (wf w) = msg :: rest ->
  pipeline_loop (S fuel) w = (handle_one msg rest ≫= λ _, pipeline_loop fuel) w.
Proof.
  intros Hp. simpl. unfold gets at 1, mbind at 1, GoM_bind at 1, after at 1; simpl. rewrite Hp.
  unfold handle_one. set (h := if IsCommand msg then _ else _ : W (result unit)).
  unfold mbind, GoM_bind, after. simpl.
  by destruct (h (on_wf (set_pipeline rest) w)) as [w1 [[[]|e]|v|m| |]].
Qed.

Lemma pipeline_steps fuel : ∀ w w',
  pipeline_loop fuel w = (w', Ret tt) -> rtc task_step (w, Piping) (w', Piping) ∧ wp_pipeline (wf w') = [].
Proof.
  induction fuel as [|fuel IH]; intros w w' Hr.
  { simpl in Hr. unfold gets, mbind, GoM_bind, after in Hr. simpl in Hr.
    destruct (wp_pipeline (wf w)) eqn:Hp; [|done]. injection Hr as <-. split; [apply rtc_refl|done]. }
  destruct (wp_pipeline (wf w)) as [|msg rest] eqn:Hp.
  { simpl in Hr. unfold gets, mbind, GoM_bind, after in Hr. simpl in Hr. rewrite Hp in Hr.
    injection Hr as <-. split; [apply rtc_refl|done]. }
  rewrite (pipeline_loop_one _ _ _ _ Hp) in Hr. apply bind_Ret_inv in Hr as (w1 & [] & Hr1 & Hr2).
  destruct (IH _ _ Hr2) as [Hs He]. split; [|done]. eapply rtc_l; [by eapply task_message|done].
Qed.

Lemma updates_steps names : ∀ w w',
  run_updates names w = (w', Ret tt) -> rtc task_step (w, Updating names) (w', Updating []).
Proof.
  induction names as [|name names IH]; intros w w' Hr; simpl in Hr.
  { injection Hr as <-. apply rtc_refl. }
  apply bind_Ret_inv in Hr as (w1 & [] & Hr1 & Hr2).
  eapply rtc_l; [by apply task_update|]. by apply IH.
Qed.


(** ** The fleet *)

Context `{!PeerView} `{!PoolRecord} `{!EnvRecord}.

(** Everything that a run still has to see to: the answers it owes or has in its
    pipeline, the children it started and the executions it waits for. *)
Definition account (p : Workflow) : loose :=
  mkLoose
    (env_pending (wp_env p) ++ (callback_id <$> wp_callbacks p) ++ answer_ids (Messages (wp_mq p)) ++
     waiting (wp_ids p) ++ omap wants_answer (wp_pipeline p))
    (env_starting (wp_env p) ++ (map_to_list (registry_ids (wp_ids p))).*1 ++ omap starts_child (wp_pipeline p))
    ((map_to_list (registry_listeners (wp_ids p))).*1 ++ omap awaits_child (wp_pipeline p)).

(** The runs with their stages, what they share, and the accounts of runs that were
    closed: the worker does not wait for the answers of a run it was told to destroy. *)
Record fleet := mkFleet {
  f_runs : list (Workflow * stage);
  f_seqID : Z;
  f_pool : PoolState;
  f_gauges : gauges;
  f_dropped : loose;
}.

Definition world_at (f : fleet) (p : Workflow) : World := mkWorld p (f_seqID f) (f_pool f) (f_gauges f).

(** [Close] before it empties the queue of the object that is given up. *)
Definition close_body : W unit :=
  _ ← env_updates env_DrainUnhandledUpdates;
  rid ← gets RunID;
  hdr ← gets (λ w, wp_header (wf w));
  _ ← runCommand (C_DestroyWorkflow (mkDestroyWorkflow rid)) None hdr;
  mret tt.

Lemma Close_split w : Close w = (close_body ≫= λ _, update (Flush (G := Z))) w.
Proof.
  unfold Close, close_body. rewrite !bind_assoc. unfold mbind, GoM_bind, after, gets. simpl.
  destruct (env_updates _ w) as [w1 [[]|v|m| |]]; try done. simpl.
  by destruct (runCommand _ _ _ w1) as [w2 [r|v|m| |]].
Qed.

(** A step of one run: an event between tasks, or a step of its task. *)
Definition run_step (x y : World * stage) : Prop :=
  (event x.1 y.1 ∧ x.2 = Idle ∧ y.2 = Idle) ∨ task_step x y.

Inductive fleet_step (f : fleet) : fleet -> Prop :=
| fleet_start rrID env header input :
    env_pending env = [] -> env_starting env = [] ->
    let w := Execute rrID env header input (f_seqID f) (f_pool f) (f_gauges f) in
    fleet_step f (mkFleet (f_runs f ++ [(wf w, Idle)]) (g_seqID w) (g_pool w) (g_gauges w) (f_dropped f))
| fleet_run i p s w s' :
    f_runs f !! i = Some (p, s) -> run_step (world_at f p, s) (w, s') ->
    fleet_step f (mkFleet (<[i := (wf w, s')]> (f_runs f)) (g_seqID w) (g_pool w) (g_gauges w) (f_dropped f))
| fleet_close i p w :
    f_runs f !! i = Some (p, Idle) -> close_body (world_at f p) = (w, Ret tt) ->
    fleet_step f (mkFleet (delete i (f_runs f)) (g_seqID w) (g_pool w) (g_gauges w)
                    (loose_app (account (wf w)) (f_dropped f))).

(** *** Running a fleet

    The steps as functions, for a given order. *)
Definition task_next (x : World * stage) : option (World * stage) :=
  let '(w, s) := x in
  match s with
  | Idle => match begin_task w with (w', Ret tt) => Some (w', Flushing) | _ => None end
  | Flushing =>
      match flushQueue w with
      | (w', Ret (OK tt)) => Some (w', Updating (wp_updatesQueue (wf w')))
      | _ => None
      end
  | Updating (name :: names) =>
      match env_updates (env_HandleQueuedUpdates name) w with
      | (w', Ret tt) => Some (w', Updating names)
      | _ => None
      end
  | Updating [] => Some (on_wf (set_updatesQueue []) w, Piping)
  | Piping =>
      match wp_pipeline (wf w) with
      | msg :: rest => match handle_one msg rest w with (w', Ret tt) => Some (w', Piping) | _ => None end
      | [] => Some (on_wf (set_inLoop 0) w, Idle)
      end
  end.

Lemma task_next_step x y : task_next x = Some y -> task_step x y.
Proof.
  destruct x as [w [| |[|name names]|]]; simpl; try (intros [= <-]; by constructor).
  - destruct (begin_task w) as [w' [[]|v|m| |]] eqn:Hb; intros [= <-]. by constructor.
  - destruct (flushQueue w) as [w' [[[]|e]|v|m| |]] eqn:Hb; intros [= <-]. by constructor.
  - destruct (env_updates _ w) as [w' [[]|v|m| |]] eqn:Hb; intros [= <-]. by constructor.
  - destruct (wp_pipeline (wf w)) as [|msg rest] eqn:Hp; [intros [= <-]; by constructor|].
    destruct (handle_one msg rest w) as [w' [[]|v|m| |]] eqn:Hb; intros [= <-]. by econstructor.
Qed.

Inductive fleet_action : Type :=
| Starts (rrID : string) (env : Env) (header : option Header) (input : option Payloads)
| Turns (i : nat)
| Closes (i : nat).

Definition fleet_next (a : fleet_action) (f : fleet) : option fleet :=
  match a with
  | Starts rrID env header input =>
      match env_pending env, env_starting env with
      | [], [] =>
          let w := Execute rrID env header input (f_seqID f) (f_pool f) (f_gauges f) in
          Some (mkFleet (f_runs f ++ [(wf w, Idle)]) (g_seqID w) (g_pool w) (g_gauges w) (f_dropped f))
      | _, _ => None
      end
  | Turns i =>
      match f_runs f !! i with
      | Some (p, s) =>
          match task_next (world_at f p, s) with
          | Some (w, s') =>
              Some (mkFleet (<[i := (wf w, s')]> (f_runs f)) (g_seqID w) (g_pool w) (g_gauges w) (f_dropped f))
          | None => None
          end
      | None => None
      end
  | Closes i =>
      match f_runs f !! i with
      | Some (p, Idle) =>
          match close_body (world_at f p) with
          | (w, Ret tt) =>
              Some (mkFleet (delete i (f_runs f)) (g_seqID w) (g_pool w) (g_gauges w)
                      (loose_app (account (wf w)) (f_dropped f)))
          | _ => None
          end
      | _ => None
      end
  end.

Fixpoint fleet_runs (l : list fleet_action) (f : fleet) : option fleet :=
  match l with
  | [] => Some f
  | a :: l => match fleet_next a f with Some f' => fleet_runs l f' | None => None end
  end.

Lemma fleet_next_step a f f' : fleet_next a f = Some f' -> fleet_step f f'.
Proof.
  destruct a as [rrID env header input|i|i]; cbn [fleet_next].
  - destruct (env_pending env) eqn:Hp; [|done]. destruct (env_starting env) eqn:Hs; [|done].
    intros [= <-]. by apply fleet_start.
  - destruct (f_runs f !! i) as [[p s]|] eqn:Hi; [|done].
    destruct (task_next (world_at f p, s)) as [[w s']|] eqn:Ht; [|done]. intros [= <-].
    apply (fleet_run f i p s w s' Hi). right. by apply task_next_step.
  - destruct (f_runs f !! i) as [[p []]|] eqn:Hi; try done.
    destruct (close_body (world_at f p)) as [w [[]|v|m| |]] eqn:Hc; try done. intros [= <-]. by apply (fleet_close f i p).
Qed.

Lemma fleet_runs_steps l : ∀ f f', fleet_runs l f = Some f' -> rtc fleet_step f f'.
Proof.
  induction l as [|a l IH]; intros f f' Hr; simpl in Hr; [by injection Hr as ->|].
  destruct (fleet_next a f) as [f1|] eqn:Ha; [|done].
  eapply rtc_l; [by apply (fleet_next_step a)|by apply IH].
Qed.

(** ** Accounts *)

(** Accounts that agree on every id. *)
#[global] Instance loose_equiv : Equiv loose := λ x y,
  (l_answers x ≡ₚ l_answers y) ∧ (l_starts x ≡ₚ l_starts y) ∧ (l_awaits x ≡ₚ l_awaits y).

#[global] Instance loose_equivalence : Equivalence (≡@{loose}).
Proof.
  split.
  - intros x. split_and!; reflexivity.
  - intros x y (?&?&?). split_and!; by symmetry.
  - intros x y z (?&?&?) (?&?&?). split_and!; etransitivity; eauto.
Qed.

#[global] Instance loose_app_proper : Proper ((≡) ==> (≡) ==> (≡@{loose})) loose_app.
Proof. intros x y (Ha & Hs & Hw) x' y' (Ha' & Hs' & Hw'). split_and!; simpl; by apply Permutation_app. Qed.

Lemma loose_app_comm x y : loose_app x y ≡ loose_app y x.
Proof. split_and!; simpl; apply Permutation_app_comm. Qed.

Lemma loose_app_assoc x y z : loose_app x (loose_app y z) ≡ loose_app (loose_app x y) z.
Proof. split_and!; simpl; by rewrite app_assoc. Qed.

(** The sum of the accounts of a list of runs. *)
Definition accounts (l : list (Workflow * stage)) (x : loose) : loose :=
  foldr (λ r acc, loose_app (account r.1) acc) x l.

Lemma accounts_middle l1 r l2 x :
  accounts (l1 ++ r :: l2) x ≡ loose_app (account r.1) (accounts (l1 ++ l2) x).
Proof.
  induction l1 as [|r1 l1 IH]; simpl; [reflexivity|].
  rewrite IH, !loose_app_assoc. by rewrite (loose_app_comm (account r1.1)).
Qed.

(** The accounts of the other runs. *)
Definition other_accounts (l : list (Workflow * stage)) (i : nat) (x : loose) : loose :=
  accounts (take i l ++ drop (S i) l) x.

Lemma accounts_insert l i r x :
  i < length l -> accounts (<[i := r]> l) x ≡ loose_app (account r.1) (other_accounts l i x).
Proof. intros Hi. rewrite insert_take_drop by done. apply accounts_middle. Qed.

Lemma accounts_lookup l i r x :
  l !! i = Some r -> accounts l x ≡ loose_app (account r.1) (other_accounts l i x).
Proof.
  intros Hi. rewrite <- (list_insert_id l i r) at 1 by done.
  apply accounts_insert. by eapply lookup_lt_Some.
Qed.

Lemma accounts_delete l i x : other_accounts l i x = accounts (delete i l) x.
Proof. unfold other_accounts. by rewrite delete_take_drop. Qed.

(** The totals: what the worker asked is what it was sent and what is in the accounts. *)
Record totals (x : loose) (p : PoolState) : Prop := {
  t_answers : ∀ id, cnt (sent_answers p) id + cnt (l_answers x) id = cnt (asked p) id;
  t_starts : ∀ id, cnt (l_starts x) id = cnt (children p) id;
  t_awaits : ∀ id, cnt (l_awaits x) id = cnt (awaited p) id;
  t_range : Forall (λ m, in_u64 (m_ID m)) (received p);
}.

#[global] Instance totals_proper : Proper ((≡) ==> (=) ==> iff) totals.
Proof.
  assert (∀ x y p, x ≡ y -> totals x p -> totals y p) as Hp.
  { intros x y p (Ha & Hs & Hw) [T1 T2 T3 T4].
    rewrite <- cnt_permutation in Ha, Hs, Hw. split; [intros id..|done].
    - by rewrite <- Ha.
    - by rewrite <- Hs.
    - by rewrite <- Hw. }
  intros x y Hxy p ? <-. split; by apply Hp.
Qed.

(** What the books say of the run alone. *)
Definition numbered (p : Workflow) : Prop :=
  SeqID (wp_mq p) = counter_next ∧ Forall sendable (Messages (wp_mq p)).

Lemma cnt_keys {A} (m : gmap Z A) id : cnt (map_to_list m).*1 id = one (bool_decide (is_Some (m !! id))).
Proof.
  case_bool_decide as Hs; simpl.
  - assert (0 < cnt (map_to_list m).*1 id).
    { destruct Hs as [v Hv]. apply cnt_elem, list_elem_of_fmap. exists (id, v).
      split; [done|]. by apply elem_of_map_to_list. }
    assert (cnt (map_to_list m).*1 id <= 1) by (apply cnt_NoDup, NoDup_fst_map_to_list). lia.
  - destruct (cnt (map_to_list m).*1 id) eqn:Hc; [done|]. exfalso. apply Hs.
    assert (id ∈ (map_to_list m).*1) as Hin by (apply cnt_elem; lia).
    apply list_elem_of_fmap in Hin as ([k v] & -> & Hin). exists v. by apply elem_of_map_to_list.
Qed.

(** The books of a run, with the accounts of the others as what is in nobody's
    account, are the totals over all runs. *)
Lemma books_totals x w :
  books x w <-> totals (loose_app (account (wf w)) x) (g_pool w) ∧ numbered (wf w).
Proof.
  split.
  - intros [Hb1 Hb2 Hb3 Hb4 Hb5 Hb6]. split; [|done]. split; simpl; [intros id..|done].
    + rewrite <- (Hb1 id). unfold owed. rewrite !cnt_app. lia.
    + rewrite <- (Hb2 id), !cnt_app, cnt_keys. lia.
    + rewrite <- (Hb3 id), !cnt_app, cnt_keys. lia.
  - intros [[T1 T2 T3 T4] [Hg Hq]]. split; try done; intros id;
      [specialize (T1 id)|specialize (T2 id)|specialize (T3 id)]; simpl in *;
      rewrite ?cnt_app, ?cnt_keys in *; unfold owed; rewrite ?cnt_app; lia.
Qed.

(** ** Steps keep the books *)

Context `{!PeerLaws} `{!PoolRecordLaws} `{!EnvRecordLaws}.

Lemma keeps_handle_one msg rest x :
  keeps (λ w, books x w ∧ wp_pipeline (wf w) = msg :: rest) (handle_one msg rest) (λ _, books x).
Proof.
  unfold handle_one.
  eapply (keeps_bind _ _ (λ _, books (loose_app (loose_messages [msg]) x))).
  { apply keeps_modify; [done|]. intros w [Hb Hp]. by apply books_pop. }
  intros []. eapply (keeps_bind _ _ (handled x)).
  - destruct (IsCommand msg) eqn:Hi.
    + assert (keeps (books (loose_app (loose_messages [msg]) x)) (handleMessage msg) (handled x)) as Hh
        by apply keeps_handleMessage.
      destruct (m_Command msg) as [[c|[]]|]; try exact Hh.
      eapply keeps_bind; [apply (keeps_modify _ _ (λ _, True)); done|]. intros []. apply keeps_panic.
    + eapply keeps_mono; [apply keeps_ok| |done]. intros w Hb. apply loose_none.
      unfold IsCommand in Hi. destruct msg as [id [c|] f p h]; done.
  - intros [u|e]; [apply (keeps_ret tt (books x))|].
    eapply keeps_bind; [apply (keeps_modify _ _ (λ _, True)); done|]. intros []. apply keeps_panic.
Qed.

(** What one step of a task does, as a step of the state. *)
Definition steps_books (w w' : World) : Prop :=
  grows w w' ∧ ∀ x, books x w -> orderly (g_pool w') -> books x w'.

Lemma keeps_steps {A} (m : W A) a w w' :
  (∀ x, keeps (books x) m (λ _, books x)) -> m w = (w', Ret a) -> steps_books w w'.
Proof.
  intros Hk Hr. split.
  - pose proof (proj1 (Hk none) w) as Hg. by rewrite Hr in Hg.
  - intros x Hb Ho. destruct (Hk x) as [_ Hm]. by eapply Hm.
Qed.

Lemma unseen_steps w w' : view w' = view w -> g_pool w' = g_pool w -> steps_books w w'.
Proof.
  intros Hv Hp. split; [apply (grows_touched fruitless); by left|]. intros x Hb _. by apply (books_view x w).
Qed.

Lemma run_step_books w s w' s' : run_step (w, s) (w', s') -> steps_books w w'.
Proof.
  intros [(He & _ & _)|Ht]; simpl in *.
  { split; [by apply event_grows|]. intros x Hb Ho. by eapply event_books. }
  inversion Ht; subst.
  - rewrite begin_task_run in *. simplify_eq. split; [|intros x Hb _; by apply books_first_flush].
    apply (grows_touched fruitless). by left.
  - eapply keeps_steps; [|done]. apply keeps_flush.
  - eapply keeps_steps; [|done]. intros x. apply keeps_env_updates, una_HandleQueuedUpdates.
  - by apply unseen_steps.
  - match goal with Hp : wp_pipeline _ = _, Hr : handle_one _ _ _ = _ |- _ =>
      split; [pose proof (proj1 (keeps_handle_one msg rest none) w) as Hg; by rewrite Hr in Hg|];
      intros x Hb Ho; destruct (keeps_handle_one msg rest x) as [_ Hm]; by eapply Hm end.
  - by apply unseen_steps.
Qed.

Lemma close_body_books w w' : close_body w = (w', Ret tt) -> steps_books w w'.
Proof.
  apply keeps_steps. intros x. unfold close_body. eapply keeps_bind;
    [apply keeps_env_updates, una_DrainUnhandledUpdates|]. intros [].
  do 2 (apply keeps_read; intros ?). eapply keeps_bind; [by apply keeps_run|]. intros r. apply keeps_ret.
Qed.

(** ** The fleet's books *)

Record fleet_inv (f : fleet) : Prop := {
  fi_totals : totals (accounts (f_runs f) (f_dropped f)) (f_pool f);
  fi_numbered : Forall (λ r, numbered r.1) (f_runs f);
}.

(** The books of one run, seen from the fleet. *)
Lemma fleet_books f i p s :
  fleet_inv f -> f_runs f !! i = Some (p, s) ->
  books (other_accounts (f_runs f) i (f_dropped f)) (world_at f p).
Proof.
  intros [Ht Hn] Hi. apply books_totals. split; simpl.
  - by rewrite <- (accounts_lookup _ _ (p, s) _ Hi).
  - by apply (Forall_lookup_1 _ _ _ _ Hn Hi).
Qed.

Lemma Execute_account rrID env header input seqID pool g :
  env_pending env = [] -> env_starting env = [] ->
  let w := Execute rrID env header input seqID pool g in
  g_pool w = pool ∧ account (wf w) = none ∧ numbered (wf w).
Proof.
  intros Hp Hs. destruct (una_RegisterHandlers env) as [Hp' Hs'].
  unfold Execute, account, numbered. destruct (GetPayloads _) as [|y ys]; simpl;
    rewrite Hp', Hs', Hp, Hs; (split_and!; [done|done|done|]);
    apply Forall_singleton; right; (split; [apply u64_range|done]).
Qed.

Lemma accounts_dropped l y x : accounts l (loose_app y x) ≡ loose_app y (accounts l x).
Proof.
  induction l as [|r l IH]; simpl; [reflexivity|].
  rewrite IH, !loose_app_assoc. by rewrite (loose_app_comm (account r.1)).
Qed.

Lemma accounts_none l p s x : account p = none -> accounts (l ++ [(p, s)]) x ≡ accounts l x.
Proof. intros Hp. rewrite (accounts_middle l (p, s) []), app_nil_r. simpl. by rewrite Hp. Qed.

Lemma fleet_step_pool f f' : fleet_step f f' -> orderly (f_pool f') -> orderly (f_pool f).
Proof.
  intros Hs. destruct Hs as [rrID env header input Hp Hst w|i p s w s' Hi Hr|i p w Hi Hr]; simpl.
  - unfold w. by destruct (Execute_account rrID env header input (f_seqID f) (f_pool f) (f_gauges f) Hp Hst) as [-> _].
  - intros Ho. destruct (run_step_books _ _ _ _ Hr) as [Hg _]. by apply (orderly_grows _ _ Hg).
  - intros Ho. destruct (close_body_books _ _ Hr) as [Hg _]. by apply (orderly_grows _ _ Hg).
Qed.

Lemma fleet_step_inv f f' : fleet_inv f -> fleet_step f f' -> orderly (f_pool f') -> fleet_inv f'.
Proof.
  intros Hf Hs Ho. destruct Hs as [rrID env header input Hp Hst w|i p s w s' Hi Hr|i p w Hi Hr]; simpl in *.
  - destruct (Execute_account rrID env header input (f_seqID f) (f_pool f) (f_gauges f) Hp Hst)
      as (Hpool & Ha & Hn). destruct Hf as [Ht Hall]. split; simpl.
    + rewrite accounts_none by done. unfold w. by rewrite Hpool.
    + apply Forall_app. split; [done|]. by apply Forall_singleton.
  - destruct (run_step_books _ _ _ _ Hr) as [_ Hb].
    specialize (Hb _ (fleet_books f i p s Hf Hi) Ho). apply books_totals in Hb as [Ht Hn].
    split; simpl.
    + rewrite accounts_insert by (by eapply lookup_lt_Some). done.
    + apply Forall_insert; [apply Hf|done].
  - destruct (close_body_books _ _ Hr) as [_ Hb].
    specialize (Hb _ (fleet_books f i p Idle Hf Hi) Ho). apply books_totals in Hb as [Ht _].
    split; simpl.
    + rewrite accounts_dropped. by rewrite accounts_delete in Ht.
    + apply Forall_delete, Hf.
Qed.

Lemma fleet_steps_pool f f' : rtc fleet_step f f' -> orderly (f_pool f') -> orderly (f_pool f).
Proof. induction 1 as [|f1 f2 f3 Hs Hr IH]; [done|]. intros Ho. by eapply fleet_step_pool, IH. Qed.

Lemma fleet_steps_inv f f' : fleet_inv f -> rtc fleet_step f f' -> orderly (f_pool f') -> fleet_inv f'.
Proof.
  intros Hf Hr. induction Hr as [|f1 f2 f3 Hs Hr IH]; [done|]. intros Ho. apply IH; [|done].
  apply (fleet_step_inv f1); [done|done|]. by apply (fleet_steps_pool f2 f3).
Qed.

(** A fleet without runs, before the first exchange. *)
Definition new_fleet (seqID : Z) (pool : PoolState) (g : gauges) : fleet := mkFleet [] seqID pool g none.

(** The answers that a list of runs still has to give. *)
Definition fleet_owed (f : fleet) : list Z := l_answers (accounts (f_runs f) (f_dropped f)).


End Fleet.
