(* ===== verification/LedgerScenario.v ===== *)
(** * LedgerScenario: a run with its books

    An environment that keeps the handlers it is given and runs each of them once, a
    pool that records its exchanges, and a run in which a worker starts a child
    workflow, waits for its execution and runs an activity.  The hypotheses of the
    theorems of [LedgerRun] hold at its states.  A last run shows why a worker may wait
    for a child workflow only once. *)
From S2P Require Import Prelude Api Doubles GoM Protocol Queue Canceller Registry Codec Exchange Activity Env Workflow Exchanges TaskLoop Progress Lifecycle Ledger LedgerRun Fleet.
From stdpp Require Import base gmap list strings pretty relations.
From Stdlib Require Import ZArith Lia.

Local Open Scope string_scope.
Local Open Scope list_scope.

#[local] Existing Instance ConcreteApi.
#[local] Existing Instance ConcreteSdk.
#[local] Existing Instance ConcreteWire.
#[local] Existing Instance ConcreteWireLaws.

(** ** A pool that keeps a record *)

Record recording := mkRecording { rec_script : list exec_result; rec_log : list (payload * exec_result) }.

Definition RecordingPool : Pool := {|
  PoolState := recording;
  Exec := λ pl s,
    let '(r, rest) := match rec_script s with r :: rest => (r, rest) | [] => (ExecError (LibErr "no workers"), []) end in
    (mkRecording rest (rec_log s ++ [(pl, r)]), r);
  StopStream := λ s, s;
  QueueSize := λ s, 0%Z;
|}.
#[local] Existing Instance RecordingPool.

#[local] Instance recording_record : PoolRecord := {| exchanges := rec_log |}.

#[local] Instance recording_laws : PoolRecordLaws.
Proof.
  split; [|done]. intros pl [[|r rest] log] p' r' Hx; by injection Hx as <- <-.
Qed.

(** ** An environment that keeps its handlers *)

Record keeper := mkKeeper { k_pending : list Z; k_starting : list Z }.

(** A call that keeps the handler of [id]. *)
Definition keep {A} (id : Z) (a : A) (e : keeper) : keeper * list fire * A :=
  (mkKeeper (id :: k_pending e) (k_starting e), [], a).

Definition idle_call {A} (a : A) (e : keeper) : keeper * list fire * A := (e, [], a).

Definition KeeperEnv : WorkflowEnvironment := {|
  Env := keeper; ActivityID := Z; LocalActivityID := Z; TimerID := Z; UpdateCallbacks := unit;
  env_WorkflowInfo := λ _, mkWorkflowInfo "default" (mkWorkflowExecution "wid" "run") 3 tt;
  env_Now := λ _, "now";
  env_IsReplaying := λ _, false;
  env_HasMetricsHandler := λ _, false;
  env_GetLastCompletionResult := λ _, None;
  time_Now := λ _, 0%Z;
  env_ToPayloads := λ v, OK (Some (mkPayloads [match v with GoString s => s | GoVersion n => pretty n
                                               | GoExecution w => Execution_RunID w end]));
  env_FromPayload_string := λ p, OK p;
  env_ExecuteActivity := λ _ h, keep (handler_id h) 7%Z;
  env_ExecuteLocalActivity := λ _ id, keep id 8%Z;
  env_ExecuteChildWorkflow := λ _ h id e,
    (mkKeeper (handler_id h :: k_pending e) (id :: k_starting e), [], tt);
  env_NewTimer := λ d h e,
    if Z.eqb d 0 then (e, [FireResult h None None], None) else keep (handler_id h) (Some 9%Z) e;
  env_GetVersion := λ _ _ m, idle_call m;
  env_SideEffect := λ p h e, (e, [FireResult h p None], tt);
  env_Complete := λ _ _, idle_call tt;
  env_UpsertSearchAttributes := λ _, idle_call (OK tt);
  env_SignalExternalWorkflow := λ _ _ _ _ _ _ _ h, keep (handler_id h) tt;
  env_RequestCancelExternalWorkflow := λ _ _ _ h, keep (handler_id h) tt;
  env_RequestCancelActivity := λ _, idle_call tt;
  env_RequestCancelLocalActivity := λ _, idle_call tt;
  env_RequestCancelChildWorkflow := λ _ _, idle_call tt;
  env_RequestCancelTimer := λ _, idle_call tt;
  env_QueueUpdate := λ _ _ e, e;
  env_HandleQueuedUpdates := λ _ e, (e, []);
  env_DrainUnhandledUpdates := λ e, (e, []);
  upd_Accept := λ _ e, e;
  upd_Reject := λ _ _ e, e;
  upd_Complete := λ _ _ _ e, e;
  env_RegisterHandlers := λ e, e;
|}.
#[local] Existing Instance KeeperEnv.

#[local] Instance keeper_record : EnvRecord :=
  {| env_pending := k_pending; env_starting := k_starting |}.

#[local] Instance keeper_laws : EnvRecordLaws.
Proof.
  split; try done; intros; intros k; simpl; try (by rewrite !app_nil_r).
  - destruct (Z.eqb d 0); simpl; rewrite ?app_nil_r; [|done].
    split; [|done]. apply Permutation_app_comm.
  - rewrite !app_nil_r. split; [|done]. apply Permutation_app_comm.
Qed.

(** The first occurrence of [id] taken out of a list. *)
Fixpoint take_out (id : Z) (l : list Z) : option (list Z) :=
  match l with
  | [] => None
  | x :: l => if Z.eqb x id then Some l else cons x <$> take_out id l
  end.

Lemma take_out_Some id l : ∀ k, take_out id l = Some k -> l ≡ₚ id :: k.
Proof.
  induction l as [|x l IH]; intros k Hk; simpl in Hk; [done|].
  destruct (Z.eqb_spec x id) as [->|]; [by injection Hk as <-|].
  destruct (take_out id l) as [k'|]; [|done]. injection Hk as <-. rewrite (IH k' eq_refl). constructor.
Qed.

(** The environment reports a result, or the start of a child workflow, if it still
    has to. *)
Definition report_result (id : Z) (e : Env) : Env * list fire * unit :=
  match take_out id (k_pending e) with
  | Some k => (mkKeeper k (k_starting e), [FireResult (HCallback id "activity") None None], tt)
  | None => (e, [], tt)
  end.

Definition report_start (id : Z) (e : Env) : Env * list fire * unit :=
  match take_out id (k_starting e) with
  | Some k => (mkKeeper (k_pending e) k, [FireStarted id (mkWorkflowExecution "child" "child-run") None], tt)
  | None => (e, [], tt)
  end.

Lemma report_result_accounted id : accounted [] [] (report_result id).
Proof.
  intros e. unfold report_result. destruct (take_out id (k_pending e)) as [k|] eqn:Hk; simpl.
  - apply take_out_Some in Hk. rewrite Hk, app_nil_r. split; [|done].
    symmetry. apply Permutation_cons_append.
  - by rewrite !app_nil_r.
Qed.

Lemma report_start_accounted id : accounted [] [] (report_start id).
Proof.
  intros e. unfold report_start. destruct (take_out id (k_starting e)) as [k|] eqn:Hk; simpl.
  - apply take_out_Some in Hk. rewrite Hk, app_nil_r. split; [done|].
    symmetry. apply Permutation_cons_append.
  - by rewrite !app_nil_r.
Qed.

(** ** A run *)

Definition answer (msgs : list Message) : exec_result :=
  ExecChan (Some (PExecPayload (Encode zero_Context zero_payload msgs).1)).

Definition sends (id : Z) (c : command) : Message := mkMessage id (Some (ByValue c)) None None None.

Definition child_cmd : command := C_ExecuteChildWorkflow (mkExecuteChildWorkflow "Child" (mkWorkflowOptions "" "" "" tt)).
Definition execution_cmd : command := C_GetChildWorkflowExecution (mkGetChildWorkflowExecution 0).
Definition activity_cmd : command := C_ExecuteActivity (mkExecuteActivity "Greet" (mkExecuteActivityOptions "" tt)).

Definition started_run (script : list exec_result) : World :=
  Execute "rr" (mkKeeper [] []) None None 0 (mkRecording script []) (mkGauges []).

(** A child workflow under 0, its execution under 1, an activity under 2. *)
Definition child_script : list exec_result :=
  [answer [sends 0 child_cmd; sends 1 execution_cmd; sends 2 activity_cmd]; answer []].
Definition run0 : World := started_run child_script.
Definition run1 : World := (OnWorkflowTaskStarted 3 run0).1.
Definition run2 : World := (env_do (report_start 0) run1).1.
Definition run3 : World := (env_do (report_result 2) run2).1.
Definition run4 : World := (OnWorkflowTaskStarted 0 run3).1.

Abbreviation run_reachable := (reachable "rr" (mkKeeper [] []) None None 0
  (mkRecording child_script []) (mkGauges [])).

Lemma event_run1 : event run0 run1.
Proof. apply (event_task 3). unfold run1. apply run_outcome. vm_compute. reflexivity. Qed.

Lemma event_run2 : event run1 run2.
Proof.
  apply (event_env (report_start 0)); [apply report_start_accounted| |].
  - vm_compute. repeat constructor.
  - unfold run2. apply run_outcome. vm_compute. reflexivity.
Qed.

Lemma event_run3 : event run2 run3.
Proof.
  apply (event_env (report_result 2)); [apply report_result_accounted| |].
  - vm_compute. repeat constructor.
  - unfold run3. apply run_outcome. vm_compute. reflexivity.
Qed.

Lemma event_run4 : event run3 run4.
Proof. apply (event_task 0). unfold run4. apply run_outcome. vm_compute. reflexivity. Qed.

Lemma run3_reachable : run_reachable run3.
Proof.
  apply (rtc_l _ _ run1); [exact event_run1|]. apply (rtc_l _ _ run2); [exact event_run2|].
  apply rtc_once. exact event_run3.
Qed.

Lemma run4_reachable : run_reachable run4.
Proof. eapply rtc_r; [exact run3_reachable|exact event_run4]. Qed.

Lemma run_fresh : fresh_run (mkKeeper [] []) (mkRecording child_script []).
Proof. done. Qed.

(** *** Witnesses *)


Definition flushed3 : World := (flushQueue (at_first_flush run3)).1.


Lemma second_wait_overwrites_witness :
  (_ ← handleMessage (wait_for 0 1); handleMessage (wait_for 0 2)) run0 = handleMessage (wait_for 0 2) run0.
Proof.
  assert (registry_ids (wp_ids (wf run0)) !! 0%Z = None) as Hc by (vm_compute; reflexivity).
  pose proof (second_wait_overwrites 0 1 2 run0 Hc) as Ht. exact Ht.
Defined.


(** ** Two runs at once *)

(** The worker asks one activity of each run; the two tasks take turns; the first run is
    closed with its activity still pending. *)
Definition two_script : list exec_result :=
  [answer [sends 0 activity_cmd]; answer [sends 1 activity_cmd]; answer []].
Definition two_fleet : fleet := new_fleet 0 (mkRecording two_script []) (mkGauges []).
Definition two_turns : list fleet_action :=
  [Starts "a" (mkKeeper [] []) None None; Starts "b" (mkKeeper [] []) None None;
   Turns 0; Turns 1; Turns 0; Turns 1; Turns 0; Turns 1; Turns 0; Turns 1; Turns 0; Turns 1; Closes 0].
Definition two_after : fleet := default two_fleet (fleet_runs two_turns two_fleet).

Lemma two_runs : fleet_runs two_turns two_fleet = Some two_after.
Proof.
  unfold two_after. assert (is_Some (fleet_runs two_turns two_fleet)) as [f ->]; [|done].
  apply not_eq_None_Some. assert (match fleet_runs two_turns two_fleet with None => false | Some _ => true end = true)
    as Ht by (vm_compute; reflexivity). by destruct (fleet_runs two_turns two_fleet).
Qed.

