(* ===== verification/Config.v ===== *)
(** * Config: configuration and TLS (src/config.go, tls.go)

    Filling in the defaults of the configuration with its checks of the file system,
    and the TLS configuration built from it.  The file system and the certificate
    functions are parameters. *)
From S2P Require Import Prelude Api Doubles GoM.
From stdpp Require Import base gmap list strings.
From Stdlib Require Import ZArith Lia.

Local Open Scope string_scope.

#[local] Set Warnings "-clear-no-such-hyp".

(** ** Libraries *)

(** [pool.Config] of the RoadRunner SDK: the field the plugin reads and its
    [InitDefaults]. *)
Class PoolConfigs := {
  PoolConfig : Type;
  zero_PoolConfig : PoolConfig;
  pool_InitDefaults : PoolConfig -> PoolConfig;
  pool_Command : PoolConfig -> list string;
}.

(** The outcome of [os.Stat]: no error, an error for which [os.IsNotExist] holds,
    or another error. *)
Inductive stat_result `{Api} : Type :=
| StatOK
| StatNotExist
| StatError (e : error).

(** Standard library: files and X.509. *)
Class Files `{Api} := {
  os_Stat : string -> stat_result;
  os_ReadFile : string -> result bytes;
  Certificate : Type;
  CertPool : Type;
  LoadX509KeyPair : string -> string -> result Certificate;
  (** The system's pool may be nil. *)
  SystemCertPool : result (option CertPool);
  NewCertPool : CertPool;
  AppendCertsFromPEM : bytes -> CertPool -> CertPool * bool;
}.

(** ** Data *)

Definition MetricsTypeSummary := "summary".
Definition driverPrometheus := "prometheus".
Definition driverStatsd := "statsd".

Definition NoClientCert := "no_client_cert".
Definition RequestClientCert := "request_client_cert".
Definition RequireAnyClientCert := "require_any_client_cert".
Definition VerifyClientCertIfGiven := "verify_client_cert_if_given".
Definition RequireAndVerifyClientCert := "require_and_verify_client_cert".

(** [tls.ClientAuthType]; the zero value is [tls_NoClientCert]. *)
Inductive tls_ClientAuthType : Type :=
| tls_NoClientCert
| tls_RequestClientCert
| tls_RequireAnyClientCert
| tls_VerifyClientCertIfGiven
| tls_RequireAndVerifyClientCert.

Record Statsd := mkStatsd {
  St_HostPort : string;
  St_Prefix : string;
  St_FlushInterval : Z;
  St_FlushBytes : Z;
  St_Tags : gmap string string;
  St_TagPrefix : string;
  St_TagSeparator : string;
}.

Record Prometheus := mkPrometheus { Prom_Address : string; Prom_Type : string; Prom_Prefix : string }.

Record Metrics := mkMetrics {
  Me_Driver : string;
  Me_Prometheus : option Prometheus;
  Me_Statsd : option Statsd;
}.

Record TLS := mkTLS {
  TLS_Key : string;
  TLS_Cert : string;
  TLS_RootCA : string;
  TLS_AuthType : string;
  TLS_ServerName : string;
  TLS_auth : tls_ClientAuthType;
}.

Section Config.
Context `{Api} `{!PoolConfigs} `{!Files}.

Record Config := mkConfig {
  Co_Metrics : option Metrics;
  Co_Activities : option PoolConfig;
  Co_TLS : option TLS;
  Co_Address : string;
  Co_Namespace : string;
  Co_CacheSize : Z;
}.

(** ** Defaults *)

Definition metrics_defaults (m : Metrics) : Metrics :=
  let driver := if String.eqb (Me_Driver m) "" then driverPrometheus else Me_Driver m in
  if String.eqb driver driverPrometheus then
    let p := match Me_Prometheus m with Some p => p | None => mkPrometheus "" "" "" end in
    mkMetrics driver
      (Some (mkPrometheus (if String.eqb (Prom_Address p) "" then "127.0.0.1:9091" else Prom_Address p)
               (if String.eqb (Prom_Type p) "" then MetricsTypeSummary else Prom_Type p)
               (Prom_Prefix p)))
      (Me_Statsd m)
  else if String.eqb driver driverStatsd then
    mkMetrics driver (Me_Prometheus m)
      (match Me_Statsd m with
       | Some s =>
           Some (mkStatsd (if String.eqb (St_HostPort s) "" then "127.0.0.1:8125" else St_HostPort s)
                   (St_Prefix s) (St_FlushInterval s) (St_FlushBytes s) (St_Tags s) (St_TagPrefix s)
                   (St_TagSeparator s))
       | None => None
       end)
  else mkMetrics driver (Me_Prometheus m) (Me_Statsd m).

(** The switch on [AuthType]. *)
Definition auth_type (a : string) : tls_ClientAuthType :=
  if String.eqb a NoClientCert then tls_NoClientCert
  else if String.eqb a RequestClientCert then tls_RequestClientCert
  else if String.eqb a RequireAnyClientCert then tls_RequireAnyClientCert
  else if String.eqb a VerifyClientCertIfGiven then tls_VerifyClientCertIfGiven
  else if String.eqb a RequireAndVerifyClientCert then tls_RequireAndVerifyClientCert
  else tls_NoClientCert.

(** [if _, err := os.Stat(path); err != nil { ... }]. *)
Definition check_file (op format path : string) : result unit :=
  match os_Stat path with
  | StatOK => OK tt
  | StatNotExist => Err (ErrOp op (Errorf format [path]))
  | StatError e => Err (ErrOp op e)
  end.

Definition tls_defaults (op : string) (t : TLS) : result TLS :=
  match check_file op "key file '%s' does not exists" (TLS_Key t) with
  | Err e => Err e
  | OK _ =>
      match check_file op "cert file '%s' does not exists" (TLS_Cert t) with
      | Err e => Err e
      | OK _ =>
          if String.eqb (TLS_RootCA t) "" then OK t
          else
            match check_file op "root ca path provided, but key file '%s' does not exists" (TLS_RootCA t) with
            | Err e => Err e
            | OK _ =>
                OK (mkTLS (TLS_Key t) (TLS_Cert t) (TLS_RootCA t) (TLS_AuthType t) (TLS_ServerName t)
                      (auth_type (TLS_AuthType t)))
            end
      end
  end.

(** The receiver is changed in place also when an error is returned: the defaults
    that precede the TLS checks stay. *)
Definition InitDefault (c : Config) : Config * result unit :=
  let op := "init_defaults_temporal" in
  let activities := pool_InitDefaults (match Co_Activities c with Some a => a | None => zero_PoolConfig end) in
  let c :=
    mkConfig (metrics_defaults <$> Co_Metrics c) (Some activities) (Co_TLS c) (Co_Address c)
      (if String.eqb (Co_Namespace c) "" then "default" else Co_Namespace c)
      (if Z.eqb (Co_CacheSize c) 0 then 10000%Z else Co_CacheSize c) in
  match Co_TLS c with
  | None => (c, OK tt)
  | Some t =>
      match tls_defaults op t with
      | Err e => (c, Err e)
      | OK t' =>
          (mkConfig (Co_Metrics c) (Co_Activities c) (Some t') (Co_Address c) (Co_Namespace c)
             (Co_CacheSize c), OK tt)
      end
  end.

(** ** TLS *)

(** [tls.Config]; the minimum version is always TLS 1.2. *)
Record tls_Config := mkTlsConfig {
  tls_ClientAuth : tls_ClientAuthType;
  tls_Certificates : list Certificate;
  tls_ClientCAs : option CertPool;
  tls_RootCAs : option CertPool;
  tls_ServerName : string;
}.

(** [initTLS]; both results can be nil. *)
Definition initTLS (t : TLS) : option tls_Config * option error :=
  if negb (String.eqb (TLS_RootCA t) "") then
    match LoadX509KeyPair (TLS_Cert t) (TLS_Key t) with
    | Err e => (None, Some e)
    | OK cert =>
        match SystemCertPool with
        | Err e => (None, Some e)
        | OK certPool =>
            let certPool := match certPool with Some p => p | None => NewCertPool end in
            match os_ReadFile (TLS_RootCA t) with
            | Err e => (None, Some e)
            | OK rca =>
                let '(certPool, ok) := AppendCertsFromPEM rca certPool in
                if negb ok then (None, None)
                else (Some (mkTlsConfig (TLS_auth t) [cert] (Some certPool) (Some certPool)
                              (TLS_ServerName t)), None)
            end
        end
    end
  else
    match LoadX509KeyPair (TLS_Cert t) (TLS_Key t) with
    | Err e => (None, Some e)
    | OK cert => (Some (mkTlsConfig tls_NoClientCert [cert] None None (TLS_ServerName t)), None)
    end.

End Config.

(** ** Properties *)

(** [pool.Config.InitDefaults] only fills in what is missing. *)
Class PoolConfigLaws `{PoolConfigs} : Prop := {
  pool_InitDefaults_idemp : ∀ c, pool_InitDefaults (pool_InitDefaults c) = pool_InitDefaults c;
}.

Section Theorems.
Context `{Api} `{!PoolConfigs} `{!Files}.

(** A configuration the rest of the plugin can rely on. *)
Definition metrics_ready (m : Metrics) : Prop :=
  Me_Driver m ≠ "" ∧
  (Me_Driver m = driverPrometheus -> ∃ p, Me_Prometheus m = Some p ∧ Prom_Address p ≠ "" ∧ Prom_Type p ≠ "") ∧
  (Me_Driver m = driverStatsd -> ∀ s, Me_Statsd m = Some s -> St_HostPort s ≠ "").

Definition tls_ready (t : TLS) : Prop :=
  os_Stat (TLS_Key t) = StatOK ∧ os_Stat (TLS_Cert t) = StatOK ∧
  (TLS_RootCA t ≠ "" -> os_Stat (TLS_RootCA t) = StatOK ∧ TLS_auth t = auth_type (TLS_AuthType t)).

Record ready (c : Config) : Prop := {
  ready_cache : Co_CacheSize c ≠ 0%Z;
  ready_namespace : Co_Namespace c ≠ "";
  ready_activities : is_Some (Co_Activities c);
  ready_metrics : ∀ m, Co_Metrics c = Some m -> metrics_ready m;
  ready_tls : ∀ t, Co_TLS c = Some t -> tls_ready t;
}.

Lemma default_nonempty s d : d ≠ "" -> (if String.eqb s "" then d else s) ≠ "".
Proof. intros Hd. by destruct (String.eqb_spec s ""). Qed.

Lemma default_idemp s d : d ≠ "" ->
  (if String.eqb (if String.eqb s "" then d else s) "" then d else if String.eqb s "" then d else s)
  = (if String.eqb s "" then d else s).
Proof.
  intros Hd. destruct (String.eqb_spec (if String.eqb s "" then d else s) "") as [He|]; [|done].
  by apply default_nonempty in He.
Qed.

#[local] Hint Resolve default_nonempty : core.

Lemma metrics_defaults_ready m : metrics_ready (metrics_defaults m).
Proof.
  unfold metrics_defaults, metrics_ready.
  set (d := if String.eqb (Me_Driver m) "" then _ else _).
  assert (d ≠ "") as Hd by (apply default_nonempty; done).
  destruct (String.eqb_spec d driverPrometheus) as [->|Hp]; [|destruct (String.eqb_spec d driverStatsd) as [->|Hs]].
  - split_and!; [done| |done]. intros _. eexists. split; [reflexivity|]. simpl.
    split; by apply default_nonempty.
  - split_and!; [done|done|]. intros _ s. simpl. destruct (Me_Statsd m) as [s0|]; intros [= <-].
    simpl. by apply default_nonempty.
  - split_and!; done.
Qed.

Lemma check_file_OK op f p : check_file op f p = OK tt -> os_Stat p = StatOK.
Proof. unfold check_file. by destruct (os_Stat p). Qed.

Lemma tls_defaults_ready op t t' : tls_defaults op t = OK t' ->
  tls_ready t' ∧ TLS_Key t' = TLS_Key t ∧ TLS_Cert t' = TLS_Cert t ∧ TLS_RootCA t' = TLS_RootCA t ∧
  TLS_AuthType t' = TLS_AuthType t ∧ TLS_ServerName t' = TLS_ServerName t.
Proof.
  unfold tls_defaults, tls_ready, check_file. intros Ht.
  destruct (os_Stat (TLS_Key t)) eqn:Hk; [|done..].
  destruct (os_Stat (TLS_Cert t)) eqn:Hc; [|done..].
  destruct (String.eqb_spec (TLS_RootCA t) "") as [Hr|Hr]; [by simplify_eq|].
  destruct (os_Stat (TLS_RootCA t)) eqn:Ha; simplify_eq. by simpl.
Qed.

Lemma tls_defaults_idemp op t t' : tls_defaults op t = OK t' -> tls_defaults op t' = OK t'.
Proof.
  intros Ht. pose proof (tls_defaults_ready _ _ _ Ht) as ((Hk & Hc & Hr) & _).
  unfold tls_defaults, check_file. rewrite Hk, Hc.
  destruct (String.eqb_spec (TLS_RootCA t') "") as [|Hne]; [done|].
  destruct (Hr Hne) as [-> Ha]. rewrite <- Ha. by destruct t'.
Qed.

Lemma metrics_defaults_idemp m : metrics_defaults (metrics_defaults m) = metrics_defaults m.
Proof.
  unfold metrics_defaults at 2 3.
  set (d := if String.eqb (Me_Driver m) "" then _ else _).
  assert (d ≠ "") as Hd by (apply default_nonempty; done).
  destruct (String.eqb_spec d driverPrometheus) as [->|Hp]; [|destruct (String.eqb_spec d driverStatsd) as [->|Hs]].
  - unfold metrics_defaults; simpl. by rewrite !default_idemp.
  - unfold metrics_defaults; simpl. destruct (Me_Statsd m); simpl; [by rewrite default_idemp|done].
  - unfold metrics_defaults; simpl. apply String.eqb_neq in Hd, Hp, Hs. by rewrite Hd, Hp, Hs.
Qed.

Lemma InitDefault_complete `{!PoolConfigLaws} (c c' : Config) :
  InitDefault c = (c', OK tt) -> ready c' ∧ InitDefault c' = (c', OK tt).
Proof.
  unfold InitDefault. set (op := "init_defaults_temporal"). simpl. intros Hi.
  assert (∃ t', c' = mkConfig (metrics_defaults <$> Co_Metrics c)
      (Some (pool_InitDefaults (match Co_Activities c with Some a => a | None => zero_PoolConfig end)))
      t' (Co_Address c) (if String.eqb (Co_Namespace c) "" then "default" else Co_Namespace c)
      (if Z.eqb (Co_CacheSize c) 0 then 10000%Z else Co_CacheSize c) ∧
    match t' with Some t => tls_defaults op t = OK t | None => True end) as (t' & -> & Ht).
  { destruct (Co_TLS c) as [t|]; [|simplify_eq; by exists None].
    destruct (tls_defaults op t) as [t1|] eqn:Ht1; simplify_eq. exists (Some t1).
    split; [done|]. by eapply tls_defaults_idemp. }
  assert ((if Z.eqb (Co_CacheSize c) 0 then 10000%Z else Co_CacheSize c) ≠ 0%Z) as Hcs.
  { by destruct (Z.eqb_spec (Co_CacheSize c) 0). }
  split.
  - split; simpl; [done|by apply default_nonempty|by eexists| |].
    + intros m. destruct (Co_Metrics c); intros [= <-]. apply metrics_defaults_ready.
    + intros t ->. by eapply tls_defaults_ready.
  - simpl. apply Z.eqb_neq in Hcs. rewrite Hcs, pool_InitDefaults_idemp, default_idemp by done.
    assert (metrics_defaults <$> (metrics_defaults <$> Co_Metrics c) = metrics_defaults <$> Co_Metrics c) as ->.
    { destruct (Co_Metrics c); simpl; by rewrite ?metrics_defaults_idemp. }
    destruct t' as [t|]; [by rewrite Ht|done].
Qed.


(** The key pair loads and the root CA file can be read, but holds no certificate. *)
Definition bad_root_ca (t : TLS) : Prop :=
  TLS_RootCA t ≠ "" ∧ is_OK (LoadX509KeyPair (TLS_Cert t) (TLS_Key t)) = true ∧
  ∃ p rca, SystemCertPool = OK p ∧ os_ReadFile (TLS_RootCA t) = OK rca ∧
    (AppendCertsFromPEM rca (match p with Some p => p | None => NewCertPool end)).2 = false.

Definition tls_complete (t : TLS) (c : tls_Config) : Prop :=
  (∃ cert, LoadX509KeyPair (TLS_Cert t) (TLS_Key t) = OK cert ∧ tls_Certificates c = [cert]) ∧
  tls_ServerName c = TLS_ServerName t ∧
  (TLS_RootCA t ≠ "" ->
     is_Some (tls_RootCAs c) ∧ tls_ClientCAs c = tls_RootCAs c ∧ tls_ClientAuth c = TLS_auth t).

Lemma initTLS_cases t :
  (initTLS t = (None, None) <-> bad_root_ca t) ∧
  (∀ c e, initTLS t = (Some c, e) -> e = None ∧ tls_complete t c).
Proof.
  unfold initTLS, bad_root_ca, tls_complete.
  destruct (String.eqb_spec (TLS_RootCA t) "") as [Hr|Hr]; simpl;
    destruct (LoadX509KeyPair (TLS_Cert t) (TLS_Key t)) as [cert|e]; simpl; try naive_solver.
  destruct SystemCertPool as [p|e]; simpl; try naive_solver.
  destruct (os_ReadFile (TLS_RootCA t)) as [rca|e]; simpl; try naive_solver.
  destruct (AppendCertsFromPEM rca _) as [p' ok] eqn:Ha. destruct ok; simpl.
  - split.
    + split; [done|]. intros (_ & _ & q & r & [= <-] & [= <-] & Hf). by rewrite Ha in Hf.
    + intros c e [= <- <-]. simpl. split_and!; eauto.
  - split; [|done]. split; [|done]. intros _. split_and!; try done.
    exists p, rca. by rewrite Ha.
Qed.

Lemma initTLS_nothing t : initTLS t = (None, None) <-> bad_root_ca t.
Proof. apply initTLS_cases. Qed.

(** [initTLS] returns neither a configuration nor an error exactly when the root
    CA file was read but holds no certificate; the caller then connects without TLS.
    Otherwise it returns one or the other, and a configuration carries the key pair
    and, with a root CA, a pool to verify against in both directions. *)
Theorem initTLS_no_config (t : TLS) :
  (initTLS t = (None, None) <-> bad_root_ca t) ∧
  (∀ c e, initTLS t = (Some c, e) -> e = None ∧ tls_complete t c).
Proof. apply initTLS_cases. Qed.

End Theorems.

(** ** Witness *)

#[local] Existing Instance ConcreteApi.

(** A pool configuration is its command. *)
Definition PlainPools : PoolConfigs := {|
  PoolConfig := list string;
  zero_PoolConfig := [];
  pool_InitDefaults := λ c, c;
  pool_Command := λ c, c;
|}.
#[local] Existing Instance PlainPools.
#[local] Instance PlainPoolLaws : PoolConfigLaws.
Proof. by split. Qed.

(** A file system in which the files of a key pair exist. *)
Definition TwoFiles : Files := {|
  os_Stat := λ p, if decide (p ∈ ["tls.key"; "tls.crt"]) then StatOK else StatNotExist;
  os_ReadFile := λ _, Err (ErrStr "no such file");
  Certificate := string;
  CertPool := unit;
  LoadX509KeyPair := λ c k, OK c;
  SystemCertPool := OK None;
  NewCertPool := tt;
  AppendCertsFromPEM := λ _ p, (p, false);
|}.
#[local] Existing Instance TwoFiles.

Definition example_config : Config :=
  mkConfig (Some (mkMetrics "" None None)) None
    (Some (mkTLS "tls.key" "tls.crt" "" "" "temporal" tls_NoClientCert)) "127.0.0.1:7233" "" 0.

