(* ===== verification/Telemetry.v ===== *)
(** * Telemetry: the metrics of the plugin (src/metrics.go)

    The metrics handler the configuration asks for, with the options its scope is
    created with, and the exporter of the worker processes' statistics.  tally, its
    reporters, statsd and the Prometheus client are parameters. *)
From S2P Require Import Prelude Api Doubles GoM Config.
From stdpp Require Import base gmap list strings.
From Stdlib Require Import Ascii ZArith Lia.

Local Open Scope string_scope.
Local Open Scope list_scope.

#[local] Set Warnings "-clear-no-such-hyp".

(** ** Libraries *)

(** [tally.ValidCharacters], [tally.SanitizeOptions] and [tally.ScopeOptions]: the
    fields that are set. *)
Record ValidCharacters {R : Type} := mkValidCharacters { VC_Ranges : R; VC_Characters : list ascii }.
Arguments ValidCharacters : clear implicits.
Arguments mkValidCharacters {R} _ _.

Record SanitizeOptions {R : Type} := mkSanitizeOptions {
  SaO_NameCharacters : ValidCharacters R;
  SaO_KeyCharacters : ValidCharacters R;
  SaO_ValueCharacters : ValidCharacters R;
  SaO_ReplacementCharacter : ascii;
}.
Arguments SanitizeOptions : clear implicits.
Arguments mkSanitizeOptions {R} _ _ _ _.

Record ScopeOptions {R C T : Type} := mkScopeOptions {
  ScO_Tags : gmap string string;
  ScO_Prefix : string;
  ScO_CachedReporter : option C;
  ScO_Reporter : option T;
  ScO_Separator : string;
  ScO_SanitizeOptions : option (SanitizeOptions R);
}.
Arguments ScopeOptions : clear implicits.
Arguments mkScopeOptions {R C T} _ _ _ _ _ _.

(** [statsd.ClientConfig]. *)
Record StatsdClientConfig := mkStatsdClientConfig {
  SC_Address : string;
  SC_Prefix : string;
  SC_UseBuffered : bool;
  SC_FlushInterval : Z;
  SC_FlushBytes : Z;
}.

Class MetricsLib `{Api} := {
  CharRanges : Type;
  CachedReporter : Type;
  StatsReporter : Type;
  StatsdClient : Type;
  Scope : Type;
  Closer : Type;
  MetricsHandler : Type;
  Desc : Type;
  AlphanumericRange : CharRanges;
  DefaultReplacementCharacter : ascii;
  prometheus_DefaultSeparator : string;
  (** [prometheus.Configuration{ListenAddress, TimerType}.NewReporter], on a registry
      of its own. *)
  prometheus_NewReporter : string -> string -> result CachedReporter;
  statsd_NewClientWithConfig : StatsdClientConfig -> result StatsdClient;
  (** [statsdreporter.NewReporter] with its tag separator. *)
  statsdreporter_NewReporter : StatsdClient -> string -> StatsReporter;
  (** [tally.NewRootScope]: options and reporting interval. *)
  NewRootScope : ScopeOptions CharRanges CachedReporter StatsReporter -> Z -> Scope * Closer;
  NewMetricsHandler : Scope -> MetricsHandler;
  (** The Prometheus client: a name from namespace, subsystem and name; a descriptor
      from name, help text and variable labels. *)
  BuildFQName : string -> string -> string -> string;
  NewDesc : string -> string -> list string -> Desc;
}.

Section Telemetry.
Context `{Api} `{!MetricsLib}.

Definition time_Second : Z := 1000000000.

(** ** The metrics handler *)

(** Alphanumeric characters and the underscore, in names, keys and values. *)
Definition sanitizeOptions : SanitizeOptions CharRanges :=
  let valid := mkValidCharacters AlphanumericRange ["_"%char : ascii] in
  mkSanitizeOptions valid valid valid DefaultReplacementCharacter.

Definition newPrometheusScope (address timer_type prefix : string) : result (Scope * Closer) :=
  match prometheus_NewReporter address timer_type with
  | Err e => Err e
  | OK reporter =>
      OK (NewRootScope (mkScopeOptions ∅ prefix (Some reporter) None prometheus_DefaultSeparator
                          (Some sanitizeOptions)) time_Second)
  end.

(** [statsdConfig] is a pointer: its fields are read without a nil check. *)
Definition newStatsdScope (statsdConfig : option Statsd) : outcome (result (Scope * Closer)) :=
  match statsdConfig with
  | None => Panics (RuntimeError "invalid memory address or nil pointer dereference")
  | Some c =>
      Ret match statsd_NewClientWithConfig
                  (mkStatsdClientConfig (St_HostPort c) (St_Prefix c) true (St_FlushInterval c) (St_FlushBytes c)) with
          | Err e => Err e
          | OK st =>
              let reporter := statsdreporter_NewReporter st (St_TagSeparator c) in
              OK (NewRootScope (mkScopeOptions (St_Tags c) (St_Prefix c) None (Some reporter) "" None) time_Second)
          end
  end.

Definition handler_of (r : result (Scope * Closer)) : result (MetricsHandler * Closer) :=
  match r with Err e => Err e | OK (ms, cl) => OK (NewMetricsHandler ms, cl) end.

Definition initMetrics (m : Metrics) : outcome (result (MetricsHandler * Closer)) :=
  if String.eqb (Me_Driver m) driverPrometheus then
    match Me_Prometheus m with
    | None => Panics (RuntimeError "invalid memory address or nil pointer dereference")
    | Some p => Ret (handler_of (newPrometheusScope (Prom_Address p) (Prom_Type p) (Prom_Prefix p)))
    end
  else if String.eqb (Me_Driver m) driverStatsd then
    match newStatsdScope (Me_Statsd m) with
    | Ret r => Ret (handler_of r)
    | Panics v => Panics v
    | Fatal msg => Fatal msg
    | Blocked => Blocked
    | NoFuel => NoFuel
    end
  else Ret (Err (Errorf "unknown driver provided: %s" [Me_Driver m])).

(** ** The exporter of statistics *)

Definition metrics_namespace := "rr_temporal".

(** [metrics.StatsExporter]; [Informer] is the source of the worker states. *)
Record StatsExporter {Informer : Type} := mkStatsExporter {
  TotalMemoryDesc : Desc;
  StateDesc : Desc;
  WorkerMemoryDesc : Desc;
  TotalWorkersDesc : Desc;
  WorkersReady : Desc;
  WorkersWorking : Desc;
  WorkersInvalid : Desc;
  SE_Workers : Informer;
}.
Arguments StatsExporter : clear implicits.

Definition newStatsExporter {Informer} (stats : Informer) : StatsExporter Informer :=
  let fq := BuildFQName metrics_namespace "" in
  {| TotalMemoryDesc := NewDesc (fq "workers_memory_bytes") "Memory usage by workers" [];
     StateDesc := NewDesc (fq "worker_state") "Worker current state" ["state"; "pid"];
     WorkerMemoryDesc := NewDesc (fq "worker_memory_bytes") "Worker current memory usage" ["pid"];
     TotalWorkersDesc := NewDesc (fq "total_workers") "Total number of workers used by the plugin" [];
     WorkersReady := NewDesc (fq "workers_ready") "Workers currently in ready state" [];
     WorkersWorking := NewDesc (fq "workers_working") "Workers currently in working state" [];
     WorkersInvalid := NewDesc (fq "workers_invalid")
       "Workers currently in invalid,killing,destroyed,errored,inactive states" [];
     SE_Workers := stats |}.

Definition descriptors {Informer} (e : StatsExporter Informer) : list Desc :=
  [TotalMemoryDesc e; StateDesc e; WorkerMemoryDesc e; TotalWorkersDesc e; WorkersReady e;
   WorkersWorking e; WorkersInvalid e].

(** ** Properties *)

Lemma handler_of_scope {A} (r : result A) (scope : A -> Scope * Closer) :
  match handler_of (match r with Err e => Err e | OK x => OK (scope x) end) with
  | OK _ => True
  | Err e => r = Err e
  end.
Proof. unfold handler_of. destruct r as [x|e]; [by destruct (scope x)|done]. Qed.

Ltac scope_cases :=
  match goal with |- context [handler_of (match ?r with OK x => OK (@?f x) | Err _ => _ end)] =>
    pose proof (handler_of_scope r f) end; case_match; eauto 10.

(** Once the defaults are filled in, creating the metrics handler returns: an
    unknown driver is reported as such, and nothing but a statsd driver without its
    section makes it panic. *)
Theorem initMetrics_total (m : Metrics) :
  let m' := metrics_defaults m in
  match initMetrics m' with
  | Ret (Err e) =>
      e = Errorf "unknown driver provided: %s" [Me_Driver m] ∨
      (∃ a t, prometheus_NewReporter a t = Err e) ∨
      (∃ c, statsd_NewClientWithConfig c = Err e)
  | Ret (OK _) => Me_Driver m' = driverPrometheus ∨ Me_Driver m' = driverStatsd
  | Panics _ => Me_Driver m = driverStatsd ∧ Me_Statsd m = None
  | _ => False
  end.
Proof.
  cbv zeta. unfold metrics_defaults.
  destruct (String.eqb_spec (Me_Driver m) "") as [Hd|Hd].
  { unfold initMetrics, newPrometheusScope; simpl. scope_cases. }
  destruct (String.eqb_spec (Me_Driver m) driverPrometheus) as [->|Hp];
    [|destruct (String.eqb_spec (Me_Driver m) driverStatsd) as [->|Hs]];
    unfold initMetrics, newPrometheusScope, newStatsdScope; simpl.
  - scope_cases.
  - destruct (Me_Statsd m) as [st|]; simpl; [|done]. scope_cases.
  - apply String.eqb_neq in Hp, Hs. rewrite Hp, Hs. eauto.
Qed.

(** Names and descriptors determine what they were made from. *)
Class DescLaws : Prop := {
  BuildFQName_inj : ∀ ns sub, Inj (=) (=) (BuildFQName ns sub);
  NewDesc_name : ∀ n h l n' h' l', NewDesc n h l = NewDesc n' h' l' -> n = n';
}.

(** The exporter's descriptors are different, as a registry of collectors requires. *)
Lemma descriptors_distinct `{!DescLaws} {Informer} (stats : Informer) :
  NoDup (descriptors (newStatsExporter stats)).
Proof.
  unfold descriptors, newStatsExporter. simpl.
  repeat (apply NoDup_cons_2;
    [rewrite ?elem_of_cons, elem_of_nil; intros Hd; repeat destruct Hd as [Hd|Hd]; try done;
     apply NewDesc_name, BuildFQName_inj in Hd; discriminate|]).
  apply NoDup_nil_2.
Qed.

End Telemetry.
