(* ===== verification/Workers.v ===== *)
(** * Workers: the worker description and the Temporal workers
    (src/info.go, src/aggregatedpool/workers.go)

    The plugin asks the PHP worker which task queues, workflows and activities it
    serves, completes the options of each description and creates one Temporal
    worker per description. *)
From S2P Require Import Prelude Api Doubles GoM Protocol Codec Exchange.
From stdpp Require Import base gmap list strings.
From Stdlib Require Import ZArith Lia.

Local Open Scope string_scope.
Local Open Scope list_scope.

(** ** The SDK's workers *)

(** [worker.New] and the two registration methods of the worker it returns, which
    panic on a name they refuse; [DefaultNamespace] is a constant of the SDK. *)
Class TemporalWorker `{Api} := {
  TWorker : Type;
  DefaultNamespace : string;
  worker_New : string -> WorkerOptions -> TWorker;
  RegisterWorkflow : string -> TWorker -> panic_value + TWorker;
  RegisterActivity : string -> TWorker -> panic_value + TWorker;
}.

(** Their documented behaviour: a name is accepted once. *)
Class TemporalWorkerLaws `{TemporalWorker} := {
  worker_queue : TWorker -> string;
  worker_options : TWorker -> WorkerOptions;
  worker_workflows : TWorker -> list string;
  worker_activities : TWorker -> list string;
  new_worker : ∀ q o, worker_queue (worker_New q o) = q ∧ worker_options (worker_New q o) = o ∧
    worker_workflows (worker_New q o) = [] ∧ worker_activities (worker_New q o) = [];
  register_workflow : ∀ n w, n ≠ "" -> n ∉ worker_workflows w ->
    ∃ w', RegisterWorkflow n w = inr w' ∧ worker_queue w' = worker_queue w ∧
      worker_options w' = worker_options w ∧ worker_workflows w' = worker_workflows w ++ [n] ∧
      worker_activities w' = worker_activities w;
  register_activity : ∀ n w, n ≠ "" -> n ∉ worker_activities w ->
    ∃ w', RegisterActivity n w = inr w' ∧ worker_queue w' = worker_queue w ∧
      worker_options w' = worker_options w ∧ worker_activities w' = worker_activities w ++ [n] ∧
      worker_workflows w' = worker_workflows w;
  register_workflow_twice : ∀ n w, n ∈ worker_workflows w -> ∃ v, RegisterWorkflow n w = inl v;
  default_namespace : DefaultNamespace ≠ "";
}.

(** ** Description of a worker *)

Section Info.
Context `{Sdk} `{!Codec} `{!Pool} {S : Type} `{Field S PoolState}.

Definition info_request (rrVersion : string) : Message :=
  mkMessage 0 (Some (ByValue (C_GetWorkerInfo (mkGetWorkerInfo rrVersion)))) None None None.

(** The function [WorkerInfo]. *)
Definition fetch_WorkerInfo (rrVersion : string) : GoM S (result (list WorkerInfo)) :=
  let op := "workflow_definition_init" in
  let '(pl, err) := Encode zero_Context zero_payload [info_request rrVersion] in
  match err with
  | Err e => mret (Err (ErrOp op e))
  | OK _ =>
      res ← pool_Exec pl;
      match res with
      | ExecError e => mret (Err (ErrOp op e))
      | ExecChan first =>
          r ←? receive op "worker empty response" first;
          let '(wi, err) := DecodeWorkerInfo r [] in
          mret (match err with Err e => Err (ErrOp op e) | OK _ => OK wi end)
      end
  end.

(** The maps are keyed by name; a later entry replaces an earlier one. *)
Definition WorkflowsInfo (wi : list WorkerInfo) : gmap string WorkerWorkflowInfo :=
  foldl (λ m w, foldl (λ m x, <[WWI_Name x := x]> m) m (Workflows w)) ∅ wi.

Definition ActivitiesInfo (wi : list WorkerInfo) : gmap string WorkerActivityInfo :=
  foldl (λ m w, foldl (λ m x, <[WAI_Name x := x]> m) m (Activities w)) ∅ wi.

End Info.

(** ** Creating the workers *)

Section Workers.
Context `{Api} `{!TemporalWorker}.

(** What the loop body writes into the description before [worker.New]; [uuid] is
    the fresh identifier and [order] the order in which the map of interceptors is
    iterated. *)
Definition configure (uuid : string) (order : list ExternalInterceptor) (w : WorkerInfo) : WorkerInfo :=
  let o := Options w in
  let tq := if String.eqb (WorkerInfo_TaskQueue w) "" then DefaultNamespace else WorkerInfo_TaskQueue w in
  mkWorkerInfo tq
    (mkWorkerOptions 0 (BuildID o)
       (if String.eqb (BuildID o) "" then UseBuildIDForVersioning o else true)
       (if String.eqb (Identity o) "" then (tq ++ ":" ++ uuid)%string else Identity o)
       (Interceptors o ++ [NewWorkerInterceptor] ++ (External <$> order))
       (WorkerOptions_rest o))
    (PhpSdkVersion w) (Workflows w) (Activities w).

Fixpoint register_each (reg : string -> TWorker -> panic_value + TWorker) (names : list string) (w : TWorker)
    : outcome TWorker :=
  match names with
  | [] => Ret w
  | n :: names => match reg n w with inr w => register_each reg names w | inl v => Panics v end
  end.

Definition new_worker_for (w : WorkerInfo) : outcome TWorker :=
  match register_each RegisterWorkflow (WWI_Name <$> Workflows w)
          (worker_New (WorkerInfo_TaskQueue w) (Options w)) with
  | Ret wrk => register_each RegisterActivity (WAI_Name <$> Activities w) wrk
  | o => o
  end.

(** The descriptions are pointers and are changed in place: the result has the new
    descriptions, of those reached, beside the outcome. *)
Fixpoint TemporalWorkers (uuid : nat -> string) (order : nat -> list ExternalInterceptor) (i : nat)
    (wi : list WorkerInfo) : list WorkerInfo * outcome (list TWorker) :=
  match wi with
  | [] => ([], Ret [])
  | w :: wi =>
      let w := configure (uuid i) (order i) w in
      match new_worker_for w with
      | Ret wrk =>
          let '(wi, o) := TemporalWorkers uuid order (S i) wi in
          (w :: wi, match o with Ret ws => Ret (wrk :: ws) | o => o end)
      | Panics v => (w :: wi, Panics v)
      | Fatal m => (w :: wi, Fatal m)
      | Blocked => (w :: wi, Blocked)
      | NoFuel => (w :: wi, NoFuel)
      end
  end.

(** Creating the workers returns or panics. *)
Lemma register_each_cases reg names w :
  match register_each reg names w with Ret _ | Panics _ => True | _ => False end.
Proof. revert w. induction names as [|n names IH]; intros w; simpl; [done|]. destruct (reg n w); [done|apply IH]. Qed.

Lemma TemporalWorkers_cases uuid order wi : ∀ i,
  match (TemporalWorkers uuid order i wi).2 with Ret _ | Panics _ => True | _ => False end.
Proof.
  induction wi as [|w wi IH]; intros i; simpl; [done|]. unfold new_worker_for.
  match goal with |- context [register_each RegisterWorkflow ?ns ?x] =>
    pose proof (register_each_cases RegisterWorkflow ns x); destruct (register_each RegisterWorkflow ns x) as [t|v|m| |] end;
    try done.
  match goal with |- context [register_each RegisterActivity ?ns ?x] =>
    pose proof (register_each_cases RegisterActivity ns x); destruct (register_each RegisterActivity ns x) end;
    try done.
  specialize (IH (S i)). destruct (TemporalWorkers uuid order (S i) wi) as [wi' o]; simpl in *. by destruct o.
Qed.

(** [policyToString] (for the log); the SDK's constants are [BlockWorkflow] = 0 and
    [FailWorkflow] = 1. *)
Definition policyToString (BlockWorkflow FailWorkflow enum : Z) : string :=
  if Z.eqb enum BlockWorkflow then "block"
  else if Z.eqb enum FailWorkflow then "fail" else "unknown".

End Workers.

(** ** Properties *)

Section InfoTheorems.
Context `{Sdk} `{!Codec} `{!Pool} {S : Type} `{FieldLaws S PoolState}.

Lemma fetch_WorkerInfo_returns rrVersion (s : S) : ∃ r, (fetch_WorkerInfo rrVersion s).2 = Ret r.
Proof.
  change (wp (fetch_WorkerInfo rrVersion) (λ o _, ∃ r, o = Ret r) s). unfold fetch_WorkerInfo.
  destruct (Encode _ _ _) as [pl [[]|e]]; [|apply wp_ret; by eexists]. wp_steps.
  apply wp_pool_Exec. intros p r Hx. wp_steps; [by eexists|].
  apply wp_receive; [|intros; by eexists..]. intros q Hq. wp_steps. by eexists.
Qed.

(** The worker description is obtained with one exchange whose only message
    is [GetWorkerInfo] with id 0 and the version of the server, under an empty
    context; the call returns, its success is what the codec decoded from an
    accepted reply, and every error names the operation. *)
Theorem fetch_WorkerInfo_spec (rrVersion : string) (s : S) :
  let '(s', o) := fetch_WorkerInfo rrVersion s in
  ∃ r, o = Ret r ∧
  match r with
  | OK wi => ∃ pl first p,
      Encode zero_Context zero_payload [info_request rrVersion] = (pl, OK tt) ∧
      (Exec pl (getf s)).2 = ExecChan first ∧ accepted first = Some p ∧
      DecodeWorkerInfo p [] = (wi, OK tt) ∧ s' = setf (Exec pl (getf s)).1 s
  | Err e => ∃ e', e = ErrOp "workflow_definition_init" e'
  end.
Proof.
  apply wp_let. unfold fetch_WorkerInfo.
  destruct (Encode _ _ _) as [pl [[]|e]]; [|apply wp_ret; eexists; (split; [reflexivity|by eexists])]. wp_steps.
  apply wp_pool_Exec. intros p r Hx. wp_steps; [eexists; split; [reflexivity|by eexists]|].
  apply wp_receive; [|intros e He; eexists; (split; [reflexivity|by eexists])..]. intros q Hq.
  wp_steps. eexists. split; [reflexivity|]. destruct r0 as [[]|e]; [|by eexists].
  exists pl, first, q. by rewrite Hx.
Qed.

(** The last element with a given name. *)
Definition last_named {A} (name : A -> string) (n : string) (l : list A) : option A :=
  foldl (λ acc x, if String.eqb (name x) n then Some x else acc) None l.

Lemma named_map_lookup {A} (name : A -> string) n l : ∀ (m : gmap string A),
  foldl (λ m x, <[name x := x]> m) m l !! n =
  foldl (λ acc x, if String.eqb (name x) n then Some x else acc) (m !! n) l.
Proof.
  induction l as [|x l IH]; intros m; simpl; [done|]. rewrite IH. f_equal.
  destruct (String.eqb_spec (name x) n) as [->|]; [apply lookup_insert_eq|by apply lookup_insert_ne].
Qed.

Lemma foldl_foldl {A B C} (f : A -> C -> A) (g : B -> list C) l : ∀ a,
  foldl (λ a b, foldl f a (g b)) a l = foldl f a (l ≫= g).
Proof.
  induction l as [|b l IH]; intros a; [done|]. simpl. by rewrite IH, foldl_app.
Qed.

(** The tables of workflows and activities know exactly the names that
    occur in some description, each with its last description. *)
Theorem info_maps_last (wi : list WorkerInfo) (n : string) :
  WorkflowsInfo wi !! n = last_named WWI_Name n (wi ≫= Workflows) ∧
  ActivitiesInfo wi !! n = last_named WAI_Name n (wi ≫= Activities).
Proof.
  unfold WorkflowsInfo, ActivitiesInfo, last_named.
  by rewrite !foldl_foldl, !named_map_lookup, !lookup_empty.
Qed.

End InfoTheorems.

Section WorkersTheorems.
Context `{Api} `{!TemporalWorker} `{!TemporalWorkerLaws}.

Lemma register_each_workflows names : ∀ w,
  Forall (λ n, n ≠ "") names -> NoDup (worker_workflows w ++ names) ->
  ∃ w', register_each RegisterWorkflow names w = Ret w' ∧ worker_queue w' = worker_queue w ∧
    worker_options w' = worker_options w ∧ worker_workflows w' = worker_workflows w ++ names ∧
    worker_activities w' = worker_activities w.
Proof.
  induction names as [|n names IH]; intros w Hne Hnd; simpl.
  { exists w. by rewrite app_nil_r. }
  apply Forall_cons_iff in Hne as [Hn Hne].
  destruct (register_workflow n w Hn) as (w1 & -> & Hq & Ho & Hw & Ha).
  { apply NoDup_app in Hnd as (_ & Hd & _). intros Hin. apply (Hd n Hin). by left. }
  destruct (IH w1 Hne) as (w2 & -> & Hq2 & Ho2 & Hw2 & Ha2).
  { rewrite Hw, <- app_assoc. done. }
  exists w2. rewrite Hq2, Ho2, Hw2, Ha2, Hq, Ho, Hw, Ha, <- app_assoc. done.
Qed.

Lemma register_each_activities names : ∀ w,
  Forall (λ n, n ≠ "") names -> NoDup (worker_activities w ++ names) ->
  ∃ w', register_each RegisterActivity names w = Ret w' ∧ worker_queue w' = worker_queue w ∧
    worker_options w' = worker_options w ∧ worker_activities w' = worker_activities w ++ names ∧
    worker_workflows w' = worker_workflows w.
Proof.
  induction names as [|n names IH]; intros w Hne Hnd; simpl.
  { exists w. by rewrite app_nil_r. }
  apply Forall_cons_iff in Hne as [Hn Hne].
  destruct (register_activity n w Hn) as (w1 & -> & Hq & Ho & Hw & Ha).
  { apply NoDup_app in Hnd as (_ & Hd & _). intros Hin. apply (Hd n Hin). by left. }
  destruct (IH w1 Hne) as (w2 & -> & Hq2 & Ho2 & Hw2 & Ha2).
  { rewrite Hw, <- app_assoc. done. }
  exists w2. rewrite Hq2, Ho2, Hw2, Ha2, Hq, Ho, Hw, Ha, <- app_assoc. done.
Qed.

(** The names of a description can be registered. *)
Definition registrable (w : WorkerInfo) : Prop :=
  Forall (λ n, n ≠ "") (WWI_Name <$> Workflows w) ∧ NoDup (WWI_Name <$> Workflows w) ∧
  Forall (λ n, n ≠ "") (WAI_Name <$> Activities w) ∧ NoDup (WAI_Name <$> Activities w).

(** A worker serves a description. *)
Definition serves (w : WorkerInfo) (t : TWorker) : Prop :=
  worker_queue t = WorkerInfo_TaskQueue w ∧ worker_options t = Options w ∧
  worker_workflows t = WWI_Name <$> Workflows w ∧ worker_activities t = WAI_Name <$> Activities w.

Lemma new_worker_for_serves w : registrable w -> ∃ t, new_worker_for w = Ret t ∧ serves w t.
Proof.
  intros (Hw & Hwd & Ha & Had). unfold new_worker_for.
  destruct (new_worker (WorkerInfo_TaskQueue w) (Options w)) as (Hq0 & Ho0 & Hw0 & Ha0).
  destruct (register_each_workflows (WWI_Name <$> Workflows w)
    (worker_New (WorkerInfo_TaskQueue w) (Options w)) Hw) as (t1 & -> & Hq1 & Ho1 & Hw1 & Ha1);
    [by rewrite Hw0|].
  destruct (register_each_activities (WAI_Name <$> Activities w) t1 Ha) as (t2 & -> & Hq2 & Ho2 & Ha2 & Hw2);
    [by rewrite Ha1, Ha0|].
  exists t2. split; [done|]. rewrite Hw0 in Hw1. rewrite Ha1, Ha0 in Ha2.
  simpl in Hw1, Ha2. unfold serves. rewrite Hq2, Ho2, Hw2, Hq1, Ho1. done.
Qed.

(** The descriptions after the loop ran over all of them. *)
Fixpoint configured (uuid : nat -> string) (order : nat -> list ExternalInterceptor) (i : nat)
    (wi : list WorkerInfo) : list WorkerInfo :=
  match wi with
  | [] => []
  | w :: wi => configure (uuid i) (order i) w :: configured uuid order (S i) wi
  end.


(** The completed options.  Every worker polls a named queue under a
    non-empty identity; a build id turns versioning on; the stop timeout is zero;
    the plugin's header interceptor runs after the worker's own interceptors and
    before those of other plugins; nothing else is changed. *)
Theorem configure_spec (uuid : string) (order : list ExternalInterceptor) (w : WorkerInfo) :
  let w' := configure uuid order w in
  WorkerInfo_TaskQueue w' ≠ "" ∧
  (WorkerInfo_TaskQueue w ≠ "" -> WorkerInfo_TaskQueue w' = WorkerInfo_TaskQueue w) ∧
  Identity (Options w') ≠ "" ∧
  (Identity (Options w) ≠ "" -> Identity (Options w') = Identity (Options w)) ∧
  (BuildID (Options w) ≠ "" -> UseBuildIDForVersioning (Options w') = true) ∧
  BuildID (Options w') = BuildID (Options w) ∧ WorkerStopTimeout (Options w') = 0%Z ∧
  Interceptors (Options w') = Interceptors (Options w) ++ NewWorkerInterceptor :: (External <$> order) ∧
  Workflows w' = Workflows w ∧ Activities w' = Activities w.
Proof.
  unfold configure; simpl. pose proof default_namespace.
  destruct (String.eqb_spec (WorkerInfo_TaskQueue w) ""), (String.eqb_spec (BuildID (Options w)) ""),
    (String.eqb_spec (Identity (Options w)) ""); split_and!; try done; try (by intros);
    destruct (WorkerInfo_TaskQueue w); destruct DefaultNamespace; try done.
Qed.

End WorkersTheorems.

(** ** Witnesses *)

#[local] Existing Instance ConcreteApi.

Record plain_worker := mkPlainWorker {
  pw_queue : string; pw_options : WorkerOptions; pw_workflows : list string; pw_activities : list string }.

Definition PlainWorker : TemporalWorker := {|
  TWorker := plain_worker;
  DefaultNamespace := "default";
  worker_New := λ q o, mkPlainWorker q o [] [];
  RegisterWorkflow := λ n w,
    if decide (n ∈ pw_workflows w) then inl (PanicStr n)
    else inr (mkPlainWorker (pw_queue w) (pw_options w) (pw_workflows w ++ [n]) (pw_activities w));
  RegisterActivity := λ n w,
    if decide (n ∈ pw_activities w) then inl (PanicStr n)
    else inr (mkPlainWorker (pw_queue w) (pw_options w) (pw_workflows w) (pw_activities w ++ [n]));
|}.
#[local] Existing Instance PlainWorker.

#[local] Instance PlainWorkerLaws : TemporalWorkerLaws.
Proof.
  refine {| worker_queue := pw_queue; worker_options := pw_options;
            worker_workflows := pw_workflows; worker_activities := pw_activities |}.
  - done.
  - intros n w Hn Hin. simpl. case_decide; [done|]. by eexists.
  - intros n w Hn Hin. simpl. case_decide; [done|]. by eexists.
  - intros n w Hin. simpl. case_decide; [by eexists|done].
  - done.
Defined.

Definition two_queues : list WorkerInfo :=
  [ mkWorkerInfo "" (mkWorkerOptions 5 "v1" false "" [] tt) "2.5.0"
      [mkWorkerWorkflowInfo "Greet" [] []] [mkWorkerActivityInfo "send"];
    mkWorkerInfo "mail" (mkWorkerOptions 0 "" false "me" [] tt) "2.5.0" [] [mkWorkerActivityInfo "send"] ].

Definition otel : list ExternalInterceptor := ["otel" : string].


Lemma configure_spec_witness :
  WorkerInfo_TaskQueue (configure "u" otel (mkWorkerInfo "" (mkWorkerOptions 5 "v1" false "" [] tt) "" [] [])) ≠ "".
Proof.
  exact (proj1 (configure_spec "u" otel (mkWorkerInfo "" (mkWorkerOptions 5 "v1" false "" [] tt) "" [] []))).
Defined.
