(* ===== verification/Plugin.v ===== *)
(** * Plugin: life cycle of the plugin (src/plugin.go, internal.go, workers_manager.go)

    The plugin object with its mutex, pools, Temporal workers and client; creating
    them ([initPool]), replacing them ([Reset], [ResetAP]), the loop of [Serve] that
    reacts to stopped worker processes, and [Stop].  The RoadRunner server, the event
    bus, processes, the Temporal client and the SDK's workers are a parameter: what
    the plugin asks of them, in order, is a transition of [Ext]. *)
From S2P Require Import Prelude Api Doubles GoM Protocol Codec Exchange Config Telemetry Workers.
From stdpp Require Import base gmap list strings pretty.
From Stdlib Require Import ZArith Lia.

Local Open Scope string_scope.
Local Open Scope list_scope.

Definition pluginName := "temporal".
Definition clientNameHeaderName := "client-name".
Definition clientNameHeaderValue := "temporal-php-2".
Definition clientVersionHeaderName := "client-version".
Definition clientBaselineVersion := "2.5.0".

(** What [initTemporalClient] passes to [tclient.Dial]. *)
Record dial_options `{Api} `{!Files} {M : Type} := mkDialOptions {
  do_HostPort : string;
  do_MetricsHandler : option M;
  do_Namespace : string;
  do_TLS : option tls_Config;
  do_phpSdkVersion : string;
}.
Arguments dial_options {_ _} M.

Class PluginRuntime `{Api} `{!PoolConfigs} `{!Files} `{!MetricsLib} `{!Pool} `{!TemporalWorker} := {
  Ext : Type;
  ActPool : Type;
  Client : Type;
  (** [server.NewPool] for the activities, and for the workflow pool with its
      command. *)
  NewPool_activities : option PoolConfig -> Ext -> Ext * result ActPool;
  NewPool_workflow : list string -> Ext -> Ext * result PoolState;
  act_Reset : ActPool -> Ext -> Ext * result unit;
  act_AddWorker : ActPool -> Ext -> Ext * result unit;
  act_RemoveWorker : ActPool -> Ext -> Ext * result unit;
  wf_Reset : PoolState -> Ext -> Ext * (PoolState * result unit);
  (** The process ids of a pool's workers. *)
  wf_Pids : PoolState -> list Z;
  act_Pids : ActPool -> Ext -> list Z;
  worker_Start : TWorker -> Ext -> Ext * result unit;
  worker_Stop : TWorker -> Ext -> Ext;
  PurgeStickyWorkflowCache : Ext -> Ext;
  SetStickyWorkflowCacheSize : Z -> Ext -> Ext;
  Dial : dial_options MetricsHandler -> Ext -> Ext * result Client;
  client_Close : Client -> Ext -> Ext;
  closer_Close : Closer -> Ext -> Ext * result unit;
  SubscribeP : Ext -> Ext * result unit;
  Unsubscribe : Ext -> Ext;
  (** [process.WorkerProcessState]. *)
  ProcessState : Type;
  WorkerProcessState : Z -> Ext -> result ProcessState;
  (** [uuid.NewString] and the iteration order of the map of interceptors in the
      i-th round of the loop of [TemporalWorkers]. *)
  uuid_at : Ext -> nat -> string;
  interceptors_at : Ext -> gmap string ExternalInterceptor -> nat -> list ExternalInterceptor;
}.

Section Plugin.
Context `{Sdk} `{!PoolConfigs} `{!Files} `{!MetricsLib} `{!Codec} `{!Pool} `{!TemporalWorker} `{!PluginRuntime}.

(** ** State *)

Record Plugin := mkPlugin {
  p_locked : bool;
  p_readers : nat;
  p_config : Config;
  p_actP : option ActPool;
  p_wfP : option PoolState;
  p_wwPID : Z;
  p_rrVersion : string;
  (** [p.eventBus] is not nil, and the number of values in [p.stopCh]. *)
  p_eventBus : bool;
  p_stopCh : nat;
  (** The struct [temporal]; [t_defs] says that the two definitions are set. *)
  t_defs : bool;
  t_workflows : gmap string WorkerWorkflowInfo;
  t_activities : gmap string WorkerActivityInfo;
  t_mh : option MetricsHandler;
  t_tallyCloser : option Closer;
  t_tlsCfg : option tls_Config;
  t_client : option Client;
  t_workers : list TWorker;
  t_interceptors : gmap string ExternalInterceptor;
  p_ext : Ext;
}.

Abbreviation P := (GoM Plugin).

Definition set_lock (l : bool) (r : nat) (p : Plugin) : Plugin :=
  mkPlugin l r (p_config p) (p_actP p) (p_wfP p) (p_wwPID p) (p_rrVersion p) (p_eventBus p)
    (p_stopCh p) (t_defs p) (t_workflows p) (t_activities p) (t_mh p) (t_tallyCloser p) (t_tlsCfg p)
    (t_client p) (t_workers p) (t_interceptors p) (p_ext p).
Definition set_ext (e : Ext) (p : Plugin) : Plugin :=
  mkPlugin (p_locked p) (p_readers p) (p_config p) (p_actP p) (p_wfP p) (p_wwPID p) (p_rrVersion p)
    (p_eventBus p) (p_stopCh p) (t_defs p) (t_workflows p) (t_activities p) (t_mh p) (t_tallyCloser p)
    (t_tlsCfg p) (t_client p) (t_workers p) (t_interceptors p) e.
Definition set_client (c : option Client) (p : Plugin) : Plugin :=
  mkPlugin (p_locked p) (p_readers p) (p_config p) (p_actP p) (p_wfP p) (p_wwPID p) (p_rrVersion p)
    (p_eventBus p) (p_stopCh p) (t_defs p) (t_workflows p) (t_activities p) (t_mh p) (t_tallyCloser p)
    (t_tlsCfg p) c (t_workers p) (t_interceptors p) (p_ext p).
Definition set_workers (ws : list TWorker) (p : Plugin) : Plugin :=
  mkPlugin (p_locked p) (p_readers p) (p_config p) (p_actP p) (p_wfP p) (p_wwPID p) (p_rrVersion p)
    (p_eventBus p) (p_stopCh p) (t_defs p) (t_workflows p) (t_activities p) (t_mh p) (t_tallyCloser p)
    (t_tlsCfg p) (t_client p) ws (t_interceptors p) (p_ext p).
Definition set_wfP (w : PoolState) (p : Plugin) : Plugin :=
  mkPlugin (p_locked p) (p_readers p) (p_config p) (p_actP p) (Some w) (p_wwPID p) (p_rrVersion p)
    (p_eventBus p) (p_stopCh p) (t_defs p) (t_workflows p) (t_activities p) (t_mh p) (t_tallyCloser p)
    (t_tlsCfg p) (t_client p) (t_workers p) (t_interceptors p) (p_ext p).
Definition set_tables (wi : list WorkerInfo) (p : Plugin) : Plugin :=
  mkPlugin (p_locked p) (p_readers p) (p_config p) (p_actP p) (p_wfP p) (p_wwPID p) (p_rrVersion p)
    (p_eventBus p) (p_stopCh p) (t_defs p) (WorkflowsInfo wi) (ActivitiesInfo wi) (t_mh p)
    (t_tallyCloser p) (t_tlsCfg p) (t_client p) (t_workers p) (t_interceptors p) (p_ext p).
Definition set_started (ap : ActPool) (wp : PoolState) (pid : Z) (p : Plugin) : Plugin :=
  mkPlugin (p_locked p) (p_readers p) (p_config p) (Some ap) (Some wp) pid (p_rrVersion p)
    (p_eventBus p) (p_stopCh p) true (t_workflows p) (t_activities p) (t_mh p) (t_tallyCloser p)
    (t_tlsCfg p) (t_client p) (t_workers p) (t_interceptors p) (p_ext p).
Definition set_events (bus : bool) (stopCh : nat) (p : Plugin) : Plugin :=
  mkPlugin (p_locked p) (p_readers p) (p_config p) (p_actP p) (p_wfP p) (p_wwPID p) (p_rrVersion p)
    bus stopCh (t_defs p) (t_workflows p) (t_activities p) (t_mh p) (t_tallyCloser p) (t_tlsCfg p)
    (t_client p) (t_workers p) (t_interceptors p) (p_ext p).
Definition set_interceptors (i : gmap string ExternalInterceptor) (p : Plugin) : Plugin :=
  mkPlugin (p_locked p) (p_readers p) (p_config p) (p_actP p) (p_wfP p) (p_wwPID p) (p_rrVersion p)
    (p_eventBus p) (p_stopCh p) (t_defs p) (t_workflows p) (t_activities p) (t_mh p) (t_tallyCloser p)
    (t_tlsCfg p) (t_client p) (t_workers p) i (p_ext p).

(** ** Effects *)

Definition ext_do {A} (f : Ext -> Ext * A) : P A := λ p,
  let '(e, a) := f (p_ext p) in (set_ext e p, Ret a).

Definition ext_set (f : Ext -> Ext) : P unit := modify (λ p, set_ext (f (p_ext p)) p).

(** The read-write mutex, as one goroutine meets it. *)
Definition mu_Lock : P unit :=
  held ← gets (λ p, p_locked p || negb (Nat.eqb (p_readers p) 0));
  if (held : bool) then blocked else modify (λ p, set_lock true (p_readers p) p).

Definition mu_Unlock : P unit :=
  l ← gets p_locked;
  if (l : bool) then modify (λ p, set_lock false (p_readers p) p)
  else fatal "sync: Unlock of unlocked RWMutex".

Definition mu_RLock : P unit :=
  l ← gets p_locked;
  if (l : bool) then blocked else modify (λ p, set_lock false (S (p_readers p)) p).

Definition mu_RUnlock : P unit :=
  r ← gets p_readers;
  match r with
  | O => fatal "sync: RUnlock of unlocked RWMutex"
  | S r => modify (λ p, set_lock (p_locked p) r p)
  end.

(** [p.mu.Lock(); defer p.mu.Unlock(); ...] and its read version. *)
Definition with_lock {A} (body : P A) : P A := _ ← mu_Lock; defer mu_Unlock body.
Definition with_rlock {A} (body : P A) : P A := _ ← mu_RLock; defer mu_RUnlock body.

(** A value computed by a library or another function, with its outcome. *)
Definition lift {A} (o : outcome A) : P A := λ p, (p, o).

Definition nil_pointer : panic_value := RuntimeError "invalid memory address or nil pointer dereference".

(** ** Starting *)

(** Starts the workers in order, up to the first error. *)
Fixpoint start_workers (ws : list TWorker) : P (result unit) :=
  match ws with
  | [] => mret (OK tt)
  | w :: ws => _ ←? ext_do (worker_Start w); start_workers ws
  end.

Definition stop_workers (ws : list TWorker) : P unit := for_each ws (λ w, ext_set (worker_Stop w)).

(** The descriptions decoded before are changed in place; only their names are read
    afterwards, which [TemporalWorkers] does not change. *)
Definition create_workers (wi : list WorkerInfo) : P (list TWorker) :=
  e ← gets p_ext;
  i ← gets t_interceptors;
  lift (TemporalWorkers (uuid_at e) (interceptors_at e i) 0 wi).2.

Definition initTemporalClient (phpSdkVersion : string) : P (result unit) :=
  let phpSdkVersion := if String.eqb phpSdkVersion "" then clientBaselineVersion else phpSdkVersion in
  cfg ← gets p_config;
  _ ← ext_set (SetStickyWorkflowCacheSize (Co_CacheSize cfg));
  mh ← gets t_mh;
  tls ← gets t_tlsCfg;
  r ← ext_do (Dial (mkDialOptions _ _ _ (Co_Address cfg) mh (Co_Namespace cfg) tls phpSdkVersion));
  match r with
  | Err e => _ ← modify (set_client None); mret (Err e)
  | OK c => _ ← modify (set_client (Some c)); mret (OK tt)
  end.

Definition initPool : P (result unit) :=
  cfg ← gets p_config;
  rrVersion ← gets p_rrVersion;
  ap ←? ext_do (NewPool_activities (Co_Activities cfg));
  match Co_Activities cfg with
  | None => panic nil_pointer
  | Some ac =>
      wp ←? ext_do (NewPool_workflow (pool_Command ac));
      let '(wp, o) := fetch_WorkerInfo rrVersion wp in
      wi ←? lift o;
      match wi with
      | [] => mret (Err (ErrStr "worker info should contain at least 1 worker"))
      | w0 :: _ =>
          _ ←? initTemporalClient (PhpSdkVersion w0);
          workers ← create_workers wi;
          _ ←? start_workers workers;
          match wf_Pids wp with
          | [] => mret (Err (ErrOp "" (ErrStr "failed to allocate a workflow worker")))
          | pid :: _ =>
              _ ← modify (set_started ap wp pid);
              _ ← modify (set_workers workers);
              _ ← modify (set_tables wi);
              mret (OK tt)
          end
      end
  end.

Definition getWfDef : P bool := with_rlock (gets t_defs).
Definition getActDef : P bool := with_rlock (gets t_defs).

(** The unary interceptor built by [rewriteNameAndVersion]: the metadata with which
    the invoker is called. *)
Definition rewriteNameAndVersion (phpSdkVersion : string) (md : option (gmap string (list string)))
    : option (gmap string (list string)) :=
  match md with
  | None => None
  | Some md =>
      Some (<[clientVersionHeaderName := [phpSdkVersion]]>
              (<[clientNameHeaderName := [clientNameHeaderValue]]> md))
  end.

(** ** Resets *)

Definition ResetAP : P (result unit) :=
  let op := "temporal_plugin_reset" in
  with_lock (
    ap ← gets p_actP;
    match ap with
    | None => panic nil_pointer
    | Some ap => r ← ext_do (act_Reset ap); mret (wrapE op r)
    end).

Definition Reset : P (result unit) :=
  let op := "temporal_reset" in
  with_lock (
    ws ← gets t_workers;
    _ ← stop_workers ws;
    _ ← modify (set_workers []);
    _ ← ext_set PurgeStickyWorkflowCache;
    wp ← gets p_wfP;
    match wp with
    | None => panic nil_pointer
    | Some wp =>
        r ← ext_do (wf_Reset wp);
        let '(wp, r) := r in
        _ ← modify (set_wfP wp);
        match r with
        | Err e => mret (Err (ErrOp op e))
        | OK _ =>
            ap ← gets p_actP;
            match ap with
            | None => panic nil_pointer
            | Some ap =>
                r ← ext_do (act_Reset ap);
                match r with
                | Err e => mret (Err (ErrOp op e))
                | OK _ =>
                    rrVersion ← gets p_rrVersion;
                    let '(wp, o) := fetch_WorkerInfo rrVersion wp in
                    _ ← modify (set_wfP wp);
                    wi ←? lift o;
                    workers ← create_workers wi;
                    _ ←? start_workers workers;
                    _ ← modify (set_tables wi);
                    _ ← modify (set_workers workers);
                    mret (OK tt)
                end
            end
        end
    end).

(** ** Serving *)

(** [strings.Contains]. *)
Fixpoint Contains (s sub : string) : bool :=
  String.prefix sub s ||
  match s with
  | "" => false
  | String _ s => Contains s sub
  end.

(** One event of the loop of [Serve]: the error put on the channel ends the loop. *)
Definition serve_event (message : string) : P (option error) :=
  let op := "temporal_plugin_serve" in
  pid ← gets p_wwPID;
  r ← (if Contains message (pretty pid) then Reset else ResetAP);
  mret (match r with
        | OK _ => None
        | Err e => Some (ErrOp op (Errorf "error during reset: %#v, event: %s" [error_Error e; message]))
        end).

(** The loop, fed with the messages of the events that arrive before the stop
    signal. *)
Fixpoint serve_loop (messages : list string) : P (option error) :=
  match messages with
  | [] => mret None
  | m :: messages =>
      e ← serve_event m;
      match e with
      | Some e => mret (Some e)
      | None => serve_loop messages
      end
  end.

(** The synchronous part of [Serve]: the error on its channel, or nothing and the
    loop is started. *)
Definition Serve : P (option error) :=
  let op := "temporal_plugin_serve" in
  with_lock (
    r ← initPool;
    match r with
    | Err e => mret (Some (ErrOp op e))
    | OK _ =>
        bus ← gets p_eventBus;
        if (bus : bool) then
          r ← ext_do SubscribeP;
          mret (match r with Err e => Some (ErrOp op e) | OK _ => None end)
        else panic nil_pointer
    end).

(** ** Stopping *)

(** [stopCh] has room for one value. *)
Definition Stop : P (result unit) :=
  with_lock (
    bus ← gets p_eventBus;
    if (bus : bool) then
      _ ← ext_set Unsubscribe;
      n ← gets p_stopCh;
      match n with
      | O =>
          _ ← modify (set_events false 1);
          ws ← gets t_workers;
          _ ← stop_workers ws;
          closer ← gets t_tallyCloser;
          r ← match closer with
              | Some c => ext_do (closer_Close c)
              | None => mret (OK tt)
              end;
          match r with
          | Err e => _ ← mu_Unlock; mret (Err e)
          | OK _ =>
              c ← gets t_client;
              _ ← match c with Some c => ext_set (client_Close c) | None => mret tt end;
              mret (OK tt)
          end
      | S _ => blocked
      end
    else panic nil_pointer).

(** ** Other operations *)

(** The states that could be read, those of the workflow pool first. *)
Definition Workers : P (list ProcessState) :=
  with_rlock (
    wp ← gets p_wfP;
    ap ← gets p_actP;
    e ← gets p_ext;
    match wp with
    | None => panic nil_pointer
    | Some wp =>
        match ap with
        | None => panic nil_pointer
        | Some ap =>
            mret (omap (λ pid, match WorkerProcessState pid e with OK s => Some s | Err _ => None end)
                    (wf_Pids wp ++ act_Pids ap e))
        end
    end).

(** The collector registered with the metrics of RoadRunner: [Init] sets
    [statsExporter] to an exporter whose source is the plugin itself. *)
Definition MetricsCollector : list (StatsExporter (Informer := P (list ProcessState))) := [newStatsExporter Workers].

Definition Name : string := pluginName.

Definition AddWorker : P (result unit) :=
  with_rlock (
    ap ← gets p_actP;
    match ap with Some ap => ext_do (act_AddWorker ap) | None => panic nil_pointer end).

Definition RemoveWorker : P (result unit) :=
  with_rlock (
    ap ← gets p_actP;
    match ap with Some ap => ext_do (act_RemoveWorker ap) | None => panic nil_pointer end).

(** The function that [Collects] registers for interceptor plugins. *)
Definition Collects (name : string) (mdw : ExternalInterceptor) : P unit :=
  _ ← mu_Lock;
  _ ← modify (λ p, set_interceptors (<[name := mdw]> (t_interceptors p)) p);
  mu_Unlock.

(** ** Initialisation *)

(** The configuration source: the section of the plugin, decoded, and the section
    of the metrics decoded into the struct of their driver. *)
Record Configurer := mkConfigurer {
  cfg_Has : string -> bool;
  cfg_Unmarshal : result Config;
  cfg_Prometheus : option Prometheus -> result (option Prometheus);
  cfg_Statsd : option Statsd -> result (option Statsd);
  cfg_RRVersion : string;
}.

Definition unmarshal_metrics (cfg : Configurer) (m : Metrics) : result Metrics :=
  if String.eqb (Me_Driver m) driverStatsd then
    match cfg_Statsd cfg (Me_Statsd m) with
    | Err e => Err e
    | OK s => OK (mkMetrics (Me_Driver m) (Me_Prometheus m) s)
    end
  else
    match cfg_Prometheus cfg (Me_Prometheus m) with
    | Err e => Err e
    | OK pr => OK (mkMetrics (Me_Driver m) pr (Me_Statsd m))
    end.

(** [errors.Disabled] as an error. *)
Definition Disabled : error := ErrStr "Disabled".

(** [Init] on a new plugin: the plugin it leaves when it returns nil. *)
Definition Init (cfg : Configurer) (ext : Ext) : outcome (result Plugin) :=
  let op := "temporal_plugin_init" in
  if negb (cfg_Has cfg pluginName) then Ret (Err (ErrOp op Disabled))
  else
    match cfg_Unmarshal cfg with
    | Err e => Ret (Err (ErrOp op e))
    | OK c =>
        match match Co_Metrics c with
              | None => OK None
              | Some m => match unmarshal_metrics cfg m with Err e => Err e | OK m => OK (Some m) end
              end with
        | Err e => Ret (Err (ErrOp op e))
        | OK m =>
            let '(c, r) := InitDefault (mkConfig m (Co_Activities c) (Co_TLS c) (Co_Address c)
                             (Co_Namespace c) (Co_CacheSize c)) in
            match r with
            | Err e => Ret (Err (ErrOp op e))
            | OK _ =>
                let '(tlsCfg, err) := match Co_TLS c with Some t => initTLS t | None => (None, None) end in
                match err with
                | Some e => Ret (Err (ErrOp op e))
                | None =>
                    let new mh closer :=
                      mkPlugin false 0 c None None 0 (cfg_RRVersion cfg) true 0 false ∅ ∅ mh closer
                        tlsCfg None [] ∅ ext in
                    match Co_Metrics c with
                    | None => Ret (OK (new None None))
                    | Some m =>
                        match initMetrics m with
                        | Ret (OK (mh, closer)) => Ret (OK (new (Some mh) (Some closer)))
                        | Ret (Err e) => Ret (Err (ErrOp op e))
                        | Panics v => Panics v
                        | Fatal msg => Fatal msg
                        | Blocked => Blocked
                        | NoFuel => NoFuel
                        end
                    end
                end
            end
        end
    end.

End Plugin.
