(* ===== verification/PluginProps.v ===== *)
(** * PluginProps: properties of the plugin's life cycle (src/plugin.go, internal.go)

    The mutex discipline of the operations, what initialisation, starting, resetting
    and stopping establish, and how stopped processes are attributed. *)
From S2P Require Import Prelude Api Doubles GoM Protocol Codec Exchange Config Telemetry Workers Plugin.
From stdpp Require Import base gmap list strings pretty.
From Stdlib Require Import ZArith Lia.

Local Open Scope string_scope.
Local Open Scope list_scope.

Section PluginProps.
Context `{Sdk} `{!PoolConfigs} `{!Files} `{!MetricsLib} `{!Codec} `{!Pool} `{!TemporalWorker} `{!PluginRuntime}.

(** ** The mutex *)

Definition same_lock (p p' : Plugin) : Prop := p_locked p' = p_locked p ∧ p_readers p' = p_readers p.

#[local] Instance same_lock_preorder : PreOrder same_lock.
Proof. split; [by intros p|]. intros p1 p2 p3 [] []. split; congruence. Qed.

(** A body that may run under the mutex: it leaves the mutex alone and returns or
    panics. *)
Definition tame {A} (m : GoM Plugin A) : Prop :=
  ∀ p, same_lock p (m p).1 ∧ match (m p).2 with Ret _ | Panics _ => True | _ => False end.

Lemma tame_ret {A} (a : A) : tame (mret a : GoM Plugin A).
Proof. by intros p. Qed.
Lemma tame_gets {A} (f : Plugin -> A) : tame (gets f).
Proof. by intros p. Qed.
Lemma tame_panic {A} v : tame (panic v : GoM Plugin A).
Proof. by intros p. Qed.
Lemma tame_modify f : (∀ p, same_lock p (f p)) -> tame (modify f).
Proof. intros Hf p. split; [apply Hf|done]. Qed.
Lemma tame_ext_do {A} (f : Ext -> Ext * A) : tame (ext_do f).
Proof. intros p. unfold ext_do. by destruct (f _). Qed.
Lemma tame_ext_set f : tame (ext_set f).
Proof. by intros p. Qed.
Lemma tame_lift {A} (o : outcome A) :
  match o with Ret _ | Panics _ => True | _ => False end -> tame (lift o).
Proof. by intros Ho p. Qed.
Lemma tame_bind {A B} (m : GoM Plugin A) (k : A -> GoM Plugin B) :
  tame m -> (∀ a, tame (k a)) -> tame (m ≫= k).
Proof.
  intros Hm Hk p. unfold mbind, GoM_bind, after. specialize (Hm p) as [Hl Ho].
  destruct (m p) as [p' [a|v|msg| |]]; simpl in *; try done.
  destruct (Hk a p') as [Hl' Ho']. split; [by etransitivity|done].
Qed.
Lemma tame_rbind {A B} (m : GoM Plugin (result A)) (k : A -> GoM Plugin (result B)) :
  tame m -> (∀ a, tame (k a)) -> tame (rbind m k).
Proof. intros Hm Hk. apply tame_bind; [done|]. intros [a|e]; [apply Hk|apply tame_ret]. Qed.
Lemma tame_for_each {A} (l : list A) (body : A -> GoM Plugin unit) :
  (∀ a, tame (body a)) -> tame (for_each l body).
Proof.
  intros Hb. induction l as [|a l IH]; [apply tame_ret|]. apply tame_bind; [apply Hb|by intros _].
Qed.

#[local] Hint Resolve tame_ret tame_gets tame_panic tame_ext_do tame_ext_set : go.

Ltac tame_step :=
  first [ solve [auto 2 with go] |
  lazymatch goal with
  | |- tame (_ ≫= _) => apply tame_bind; [|intros ?]
  | |- tame (rbind _ _) => apply tame_rbind; [|intros ?]
  | |- tame (for_each _ _) => apply tame_for_each; intros ?
  | |- tame (modify _) => apply tame_modify; intros ?; done
  | |- tame (match ?x with _ => _ end) => destruct x eqn:?
  | |- tame (let '(_, _) := ?x in _) => destruct x eqn:?
  end ].

Ltac tame_steps := repeat tame_step.

Lemma start_workers_tame ws : tame (start_workers ws).
Proof. induction ws as [|w ws IH]; simpl; tame_steps. Qed.

Lemma stop_workers_tame ws : tame (stop_workers ws).
Proof. unfold stop_workers. tame_steps. Qed.

Lemma create_workers_tame wi : tame (create_workers wi).
Proof. unfold create_workers. tame_steps. apply tame_lift, TemporalWorkers_cases. Qed.

Lemma initTemporalClient_tame v : tame (initTemporalClient v).
Proof. unfold initTemporalClient. tame_steps. Qed.

Lemma fetch_tame rrVersion (wp wp' : PoolState) o :
  fetch_WorkerInfo rrVersion wp = (wp', o) -> tame (lift o).
Proof.
  intros Hf. apply tame_lift. pose proof (fetch_WorkerInfo_returns rrVersion wp) as [r Hr].
  rewrite Hf in Hr. simpl in Hr. by subst o.
Qed.

#[local] Hint Resolve start_workers_tame stop_workers_tame create_workers_tame initTemporalClient_tame : go.

Lemma initPool_tame : tame initPool.
Proof. unfold initPool. tame_steps. by eapply fetch_tame. Qed.

#[local] Hint Resolve initPool_tame : go.

(** No goroutine holds the mutex. *)
Definition free (p : Plugin) : Prop := p_locked p = false ∧ p_readers p = 0.

(** [m] can be called when the mutex is free; it returns or panics and the mutex is
    free again. *)
Definition balanced {A} (m : GoM Plugin A) : Prop :=
  ∀ p, free p -> free (m p).1 ∧ match (m p).2 with Ret _ | Panics _ => True | _ => False end.

Lemma with_lock_balanced {A} (body : GoM Plugin A) : tame body -> balanced (with_lock body).
Proof.
  intros Hb p [Hl Hr]. unfold with_lock, mu_Lock, defer, mu_Unlock. go_unfold. rewrite Hl, Hr. simpl.
  destruct (Hb (set_lock true (p_readers p) p)) as [[Hl' Hr'] Ho]. simpl in *.
  destruct (body _) as [p1 [a|v|msg| |]]; simpl in *; try done; rewrite Hl'; simpl;
    (split; [split; simpl; congruence|done]).
Qed.

Lemma with_rlock_balanced {A} (body : GoM Plugin A) : tame body -> balanced (with_rlock body).
Proof.
  intros Hb p [Hl Hr]. unfold with_rlock, mu_RLock, defer, mu_RUnlock. go_unfold. rewrite Hl. simpl.
  destruct (Hb (set_lock false (S (p_readers p)) p)) as [[Hl' Hr'] Ho]. simpl in *.
  destruct (body _) as [p1 [a|v|msg| |]]; simpl in *; try done; rewrite Hr'; simpl;
    (split; [split; simpl; congruence|done]).
Qed.

Lemma Reset_balanced : balanced Reset.
Proof. apply with_lock_balanced. tame_steps. by eapply fetch_tame. Qed.

Lemma ResetAP_balanced : balanced ResetAP.
Proof. apply with_lock_balanced. tame_steps. Qed.

Lemma balanced_gets_bind {A B} (f : Plugin -> A) (k : A -> GoM Plugin B) :
  (∀ a, balanced (k a)) -> balanced (gets f ≫= k).
Proof. intros Hk p Hp. by apply Hk. Qed.

Lemma balanced_bind {A B} (m : GoM Plugin A) (k : A -> GoM Plugin B) :
  balanced m -> (∀ a, balanced (k a)) -> balanced (m ≫= k).
Proof.
  intros Hm Hk p Hp. unfold mbind, GoM_bind, after. specialize (Hm p Hp) as [Hf Ho].
  destruct (m p) as [p' [a|v|msg| |]]; simpl in *; try done. by apply Hk.
Qed.

Lemma serve_event_balanced m : balanced (serve_event m).
Proof.
  unfold serve_event. apply balanced_gets_bind. intros pid.
  apply balanced_bind; [destruct (Contains _ _); [apply Reset_balanced|apply ResetAP_balanced]|].
  by intros r p Hp.
Qed.

Lemma serve_loop_balanced ms : balanced (serve_loop ms).
Proof.
  induction ms as [|m ms IH]; simpl; [by intros p Hp|].
  apply balanced_bind; [apply serve_event_balanced|]. intros [e|]; [by intros p Hp|done].
Qed.

Lemma Serve_balanced : balanced Serve.
Proof. apply with_lock_balanced. tame_steps. Qed.

Lemma Workers_balanced : balanced Workers.
Proof. apply with_rlock_balanced. tame_steps. Qed.

Lemma AddWorker_balanced : balanced AddWorker.
Proof. apply with_rlock_balanced. tame_steps. Qed.

Lemma RemoveWorker_balanced : balanced RemoveWorker.
Proof. apply with_rlock_balanced. tame_steps. Qed.

Lemma getWfDef_balanced : balanced getWfDef.
Proof. apply with_rlock_balanced. tame_steps. Qed.

Lemma Collects_balanced name mdw : balanced (Collects name mdw).
Proof. intros p [Hl Hr]. unfold Collects, mu_Lock, mu_Unlock. go_unfold. by rewrite Hl, Hr. Qed.

(** C28: whichever way they end, the plugin's operations give the mutex back and
    never wait for themselves or unlock twice: starting, the event loop over any
    events, the two resets, and the reads. *)
Theorem operations_release_mutex (ms : list string) (name : string) (mdw : ExternalInterceptor) :
  balanced Serve ∧ balanced (serve_loop ms) ∧ balanced Reset ∧ balanced ResetAP ∧ balanced Workers ∧
  balanced AddWorker ∧ balanced RemoveWorker ∧ balanced getWfDef ∧ balanced (Collects name mdw).
Proof.
  auto 20 using Serve_balanced, serve_loop_balanced, Reset_balanced, ResetAP_balanced,
    Workers_balanced, AddWorker_balanced, RemoveWorker_balanced, getWfDef_balanced, Collects_balanced.
Qed.

(** ** Stopping *)

Lemma stop_workers_run ws : ∀ p,
  stop_workers ws p = (set_ext (foldl (λ e w, worker_Stop w e) (p_ext p) ws) p, Ret tt).
Proof.
  unfold stop_workers. induction ws as [|w ws IH]; intros p; simpl; [by destruct p|].
  rewrite (bind_ret _ _ _ _ _ (eq_refl (ext_set (worker_Stop w) p))). by rewrite IH.
Qed.

(** The outside world when [Stop] comes to the metrics. *)
Definition stopped_ext (p : Plugin) : Ext :=
  foldl (λ e w, worker_Stop w e) (Unsubscribe (p_ext p)) (t_workers p).

Definition close_metrics (p : Plugin) : result unit :=
  match t_tallyCloser p with
  | Some c => (closer_Close c (stopped_ext p)).2
  | None => OK tt
  end.

(** ... and when it has closed the client too. *)
Definition final_ext (p : Plugin) : Ext :=
  let e := match t_tallyCloser p with
           | Some c => (closer_Close c (stopped_ext p)).1
           | None => stopped_ext p
           end in
  match t_client p with Some c => client_Close c e | None => e end.

Lemma mu_Lock_free p : free p -> mu_Lock p = (set_lock true 0 p, Ret tt).
Proof. intros [Hl Hr]. unfold mu_Lock. go_unfold. rewrite Hl, Hr. simpl. by rewrite Hr. Qed.

Lemma wp_ext_do {A} (f : Ext -> Ext * A) (Q : outcome A -> Plugin -> Prop) p :
  Q (Ret (f (p_ext p)).2) (set_ext (f (p_ext p)).1 p) -> wp (ext_do f) Q p.
Proof. intros HQ. unfold wp, ext_do. destruct (f (p_ext p)). exact HQ. Qed.

Lemma wp_stop_workers ws (Q : outcome unit -> Plugin -> Prop) p :
  Q (Ret tt) (set_ext (foldl (λ e w, worker_Stop w e) (p_ext p) ws) p) -> wp (stop_workers ws) Q p.
Proof. intros HQ. eapply wp_run; [apply stop_workers_run|done]. Qed.

Lemma wp_mu_Unlock (Q : outcome unit -> Plugin -> Prop) p :
  (if p_locked p then Q (Ret tt) (set_lock false (p_readers p) p)
   else Q (Fatal "sync: Unlock of unlocked RWMutex") p) ->
  wp mu_Unlock Q p.
Proof. intros HQ. unfold mu_Unlock, wp. go_unfold. by destruct (p_locked p). Qed.

Lemma Stop_run p :
  free p -> p_eventBus p = true -> p_stopCh p = 0 ->
  wp Stop (λ o p',
    match close_metrics p with
    | OK _ => o = Ret (OK tt) ∧ free p' ∧ p_eventBus p' = false ∧ p_stopCh p' = 1 ∧ p_ext p' = final_ext p
    | Err e => o = Fatal "sync: Unlock of unlocked RWMutex"
    end) p.
Proof.
  intros Hf Hb Hs. match goal with |- wp _ ?q _ => set (Q := q) end.
  unfold Stop, with_lock. apply wp_bind. eapply wp_run; [by apply mu_Lock_free|].
  cbn [cont]. apply wp_defer, wp_bind, wp_gets. cbn [cont p_eventBus set_lock]. rewrite Hb.
  unfold ext_set. apply wp_bind, wp_modify. cbn [cont].
  apply wp_bind, wp_gets. cbn [cont p_stopCh set_lock set_ext]. rewrite Hs.
  apply wp_bind, wp_modify. cbn [cont]. apply wp_bind, wp_gets. cbn [cont].
  apply wp_bind, wp_stop_workers. cbn [cont]. apply wp_bind, wp_gets.
  cbn [cont t_tallyCloser t_workers p_ext set_ext set_events set_lock]. apply wp_bind.
  fold (stopped_ext p). set (p1 := set_ext (stopped_ext p) _).
  subst Q. unfold close_metrics, final_ext. destruct (t_tallyCloser p) as [c|].
  - apply wp_ext_do. cbn [cont]. change (p_ext p1) with (stopped_ext p).
    destruct (closer_Close c (stopped_ext p)) as [e [[]|err]]; cbn [fst snd].
    + apply wp_bind, wp_gets. cbn [cont]. apply wp_bind.
      change (t_client _) with (t_client p).
      destruct (t_client p) as [cl|]; [apply wp_modify|apply wp_ret]; cbn [cont]; apply wp_ret, wp_mu_Unlock;
        by cbn.
    + apply wp_bind, wp_mu_Unlock. cbn [p_locked set_ext set_lock set_events p1 cont].
      apply wp_ret, wp_mu_Unlock. by cbn.
  - apply wp_ret. cbn [cont]. apply wp_bind, wp_gets. cbn [cont]. apply wp_bind.
    change (t_client _) with (t_client p).
      destruct (t_client p) as [cl|]; [apply wp_modify|apply wp_ret]; cbn [cont]; apply wp_ret, wp_mu_Unlock;
      by cbn.
Qed.

(** C32: stopping a running plugin whose metrics close without error returns nil,
    gives the mutex back, unsubscribes, signals the loop, stops every Temporal
    worker and closes the client. *)
Theorem Stop_returns (p : Plugin) :
  p_locked p = false -> p_readers p = 0 -> p_eventBus p = true -> p_stopCh p = 0 ->
  close_metrics p = OK tt ->
  ∃ p', Stop p = (p', Ret (OK tt)) ∧ p_locked p' = false ∧ p_readers p' = 0 ∧
        p_eventBus p' = false ∧ p_stopCh p' = 1 ∧ p_ext p' = final_ext p.
Proof.
  intros Hl Hr Hb Hs Hc. pose proof (Stop_run p (conj Hl Hr) Hb Hs) as Hrun. rewrite Hc in Hrun.
  destruct Hrun as (Ho & [? ?] & ? & ? & ?). exists (Stop p).1. split_and!; try done. by apply run_outcome.
Qed.

(** C37: when closing the metrics fails, [Stop] unlocks the mutex itself
    and then once more in its deferred call, which kills the process instead of
    returning the error. *)
Theorem Stop_double_unlock (p : Plugin) (e : error) :
  p_locked p = false -> p_readers p = 0 -> p_eventBus p = true -> p_stopCh p = 0 ->
  close_metrics p = Err e ->
  (Stop p).2 = Fatal "sync: Unlock of unlocked RWMutex".
Proof.
  intros Hl Hr Hb Hs Hc. pose proof (Stop_run p (conj Hl Hr) Hb Hs) as Hrun. by rewrite Hc in Hrun.
Qed.

(** ** Resetting *)

(** The workers started in order, up to the first error. *)
Fixpoint start_all (ws : list TWorker) (e : Ext) : Ext * result unit :=
  match ws with
  | [] => (e, OK tt)
  | w :: ws =>
      let '(e, r) := worker_Start w e in
      match r with OK _ => start_all ws e | Err err => (e, Err err) end
  end.

Lemma start_workers_run ws : ∀ p,
  start_workers ws p = (set_ext (start_all ws (p_ext p)).1 p, Ret (start_all ws (p_ext p)).2).
Proof.
  induction ws as [|w ws IH]; intros p; [by destruct p|]. cbn [start_workers start_all].
  unfold rbind, ext_do at 1, mbind, GoM_bind, after.
  destruct (worker_Start w (p_ext p)) as [e [[]|err]]; simpl; [|done]. by rewrite IH.
Qed.

Lemma wp_start_workers ws (Q : outcome (result unit) -> Plugin -> Prop) p :
  Q (Ret (start_all ws (p_ext p)).2) (set_ext (start_all ws (p_ext p)).1 p) -> wp (start_workers ws) Q p.
Proof. intros HQ. eapply wp_run; [apply start_workers_run|done]. Qed.

(** The workers of a list of descriptions. *)
Definition workers_of (wi : list WorkerInfo) (ws : list TWorker) : Prop :=
  ∃ uuid order, (TemporalWorkers uuid order 0 wi).2 = Ret ws.

Lemma wp_create_workers wi (Q : outcome (list TWorker) -> Plugin -> Prop) p :
  (∀ ws, workers_of wi ws -> Q (Ret ws) p) -> (∀ v, Q (Panics v) p) -> wp (create_workers wi) Q p.
Proof.
  intros HR HP. unfold create_workers. do 2 (apply wp_bind, wp_gets; cbn [cont]). unfold wp, lift.
  match goal with |- context [TemporalWorkers ?u ?o 0 wi] =>
    pose proof (TemporalWorkers_cases u o wi 0); destruct (TemporalWorkers u o 0 wi).2 eqn:Hw end;
    try done; [|apply HP]. apply HR. by eexists _, _.
Qed.

Lemma wp_fetch {A} rrVersion (wp0 : PoolState) (k : PoolState -> outcome (result (list WorkerInfo)) -> GoM Plugin A) Q p :
  (∀ wp1 r, wp (k wp1 (Ret r)) Q p) ->
  wp (let '(wp1, o) := fetch_WorkerInfo rrVersion wp0 in k wp1 o) Q p.
Proof.
  intros Hk. destruct (fetch_WorkerInfo_returns rrVersion wp0) as [r Hr].
  destruct (fetch_WorkerInfo rrVersion wp0) as [wp1 o]. simpl in Hr. subst o. apply Hk.
Qed.

Lemma wp_lift_Ret {A} (a : A) (Q : outcome A -> Plugin -> Prop) p : Q (Ret a) p -> wp (lift (Ret a)) Q p.
Proof. done. Qed.

Lemma wp_with_lock {A} (body : GoM Plugin A) (Q : outcome A -> Plugin -> Prop) p :
  free p -> tame body ->
  wp body (λ o p1, Q o (set_lock false (p_readers p1) p1)) (set_lock true 0 p) ->
  wp (with_lock body) Q p.
Proof.
  intros Hf Ht HQ. unfold with_lock. apply wp_bind. eapply wp_run; [by apply mu_Lock_free|].
  cbn [cont]. apply wp_defer. destruct (Ht (set_lock true 0 p)) as [[Hl _] Ho].
  unfold wp in HQ |- *. destruct (body (set_lock true 0 p)) as [p1 [a|v|m| |]]; simpl in *; try done;
    apply (wp_mu_Unlock _ p1); rewrite Hl; exact HQ.
Qed.

Ltac plugin_step :=
  lazymatch goal with
  | |- wp (ext_do _) _ _ => apply wp_ext_do
  | |- wp (ext_set _) _ _ => apply wp_modify
  | |- wp (stop_workers _) _ _ => apply wp_stop_workers
  | |- wp (start_workers _) _ _ => apply wp_start_workers
  | |- wp (lift (Ret _)) _ _ => apply wp_lift_Ret
  | |- wp (create_workers _) _ _ => apply wp_create_workers; [intros ? ?|intros ?]
  | |- wp (let '(_, _) := fetch_WorkerInfo _ _ in _) _ _ => apply wp_fetch; intros ? ?
  | |- _ => wp_step
  end.

Ltac plugin_steps := repeat plugin_step.

(** What a reset leaves of the Temporal side. *)
Definition reset_post (p : Plugin) (o : outcome (result unit)) (p' : Plugin) : Prop :=
  p_wwPID p' = p_wwPID p ∧
  match o with
  | Ret (OK _) =>
      ∃ wi, t_workflows p' = WorkflowsInfo wi ∧ t_activities p' = ActivitiesInfo wi ∧
            workers_of wi (t_workers p')
  | Ret (Err _) | Panics _ =>
      t_workers p' = [] ∧ t_workflows p' = t_workflows p ∧ t_activities p' = t_activities p
  | _ => False
  end.

Lemma Reset_run p : free p -> wp Reset (reset_post p) p.
Proof.
  intros Hf. apply wp_with_lock; [done|tame_steps; by eapply fetch_tame|]. plugin_steps.
  2-8: by split.
  split; [done|]. eexists. split_and!; [reflexivity|reflexivity|done].
Qed.


(** ** Starting *)

(** What starting the pools leaves: on success everything comes from one description
    of at least one task queue, and the recorded process id is the workflow
    worker's; on an error nothing but the client is set. *)
Definition initPool_post (p : Plugin) (o : outcome (result unit)) (p' : Plugin) : Prop :=
  match o with
  | Ret (OK _) =>
      t_defs p' = true ∧ is_Some (t_client p') ∧ is_Some (p_actP p') ∧
      ∃ wi wp, wi ≠ [] ∧ workers_of wi (t_workers p') ∧ t_workflows p' = WorkflowsInfo wi ∧
        t_activities p' = ActivitiesInfo wi ∧ p_wfP p' = Some wp ∧ head (wf_Pids wp) = Some (p_wwPID p')
  | Ret (Err _) | Panics _ =>
      t_defs p' = t_defs p ∧ p_actP p' = p_actP p ∧ p_wfP p' = p_wfP p ∧ p_wwPID p' = p_wwPID p ∧
      t_workers p' = t_workers p ∧ t_workflows p' = t_workflows p ∧ t_activities p' = t_activities p
  | _ => False
  end.

Lemma initPool_run p : wp initPool (initPool_post p) p.
Proof.
  unfold initPool, initTemporalClient. plugin_steps.
  all: try (by split_and!).
  split_and!; [done|by eexists|by eexists|]. eexists (_ :: _), _.
  split_and!; try done. match goal with Hp : wf_Pids _ = _ |- _ => cbn [p_wwPID set_tables set_workers set_started]; by rewrite Hp end.
Qed.


(** ** Initialisation *)

(** C31: a plugin that initialised is ready to serve: its configuration is complete,
    its mutex free, its event bus set, and metrics are handled exactly when they are
    configured.  A TLS configuration is used exactly when TLS is configured, except
    when the root CA file holds no certificate: then the plugin starts, configured
    for TLS, without any. *)
Theorem Init_ready `{!PoolConfigLaws} (cfg : Configurer) (ext : Ext) (p : Plugin) :
  Init cfg ext = Ret (OK p) ->
  ready (p_config p) ∧ p_locked p = false ∧ p_readers p = 0 ∧ p_eventBus p = true ∧ p_stopCh p = 0 ∧
  t_workers p = [] ∧ t_client p = None ∧
  (is_Some (t_mh p) <-> is_Some (Co_Metrics (p_config p))) ∧
  match Co_TLS (p_config p) with
  | None => t_tlsCfg p = None
  | Some t => initTLS t = (t_tlsCfg p, None) ∧
      (t_tlsCfg p = None <-> bad_root_ca t)
  end.
Proof.
  unfold Init. intros Hi.
  destruct (negb _); [done|]. destruct (cfg_Unmarshal cfg) as [c0|]; [|done].
  destruct (match Co_Metrics c0 with Some _ => _ | None => _ end) as [m0|]; [|done].
  destruct (InitDefault _) as [c [[]|e]] eqn:Hd; [|done].
  apply InitDefault_complete in Hd as [Hrd _].
  destruct (match Co_TLS c with Some _ => _ | None => _ end) as [tlsCfg [e|]] eqn:Ht; [done|].
  assert (match Co_TLS c with
    | None => tlsCfg = None
    | Some t => initTLS t = (tlsCfg, None) ∧ (tlsCfg = None <-> bad_root_ca t)
    end) as Htls.
  { destruct (Co_TLS c) as [t|]; [|by injection Ht as <-]. split; [done|].
    rewrite <- initTLS_nothing, Ht. split; [by intros ->|by intros [= ->]]. }
  destruct (Co_Metrics c) as [m|] eqn:Hm.
  - destruct (initMetrics m) as [[[mh cl]|]|v|msg| |]; try done. injection Hi as <-. simpl.
    rewrite Hm. split_and!; try done.
  - injection Hi as <-. simpl. rewrite Hm. split_and!; try done.
Qed.

(** The client's name and version headers are replaced by those of the PHP
    SDK and no other header is touched; a call without outgoing metadata is passed
    on as it is. *)
Theorem rewrite_headers (v : string) (md : option (gmap string (list string))) (k : string) :
  match md, rewriteNameAndVersion v md with
  | None, r => r = None
  | Some m, None => False
  | Some m, Some m' =>
      m' !! k = if String.eqb k clientVersionHeaderName then Some [v]
                else if String.eqb k clientNameHeaderName then Some [clientNameHeaderValue]
                else m !! k
  end.
Proof.
  destruct md as [m|]; [|done]. simpl.
  destruct (String.eqb_spec k clientVersionHeaderName) as [->|Hv]; [by rewrite lookup_insert_eq|].
  rewrite lookup_insert_ne by done.
  destruct (String.eqb_spec k clientNameHeaderName) as [->|Hn]; [by rewrite lookup_insert_eq|].
  by rewrite lookup_insert_ne.
Qed.

(** ** Which worker stopped *)

Lemma prefix_app (a b : string) : String.prefix a (a ++ b)%string = true.
Proof. induction a as [|c a IH]; simpl; [by destruct b|]. by destruct (Ascii.ascii_dec c c). Qed.

Lemma Contains_infix (a s b : string) : Contains (a ++ s ++ b)%string s = true.
Proof.
  induction a as [|c a IH]; simpl.
  - pose proof (prefix_app s b) as Hp. destruct (s ++ b)%string; simpl in *; by rewrite Hp.
  - rewrite IH. apply orb_true_r.
Qed.

(** A stopped process is taken for the workflow worker, and all pools are reset,
    whenever the digits of the workflow worker's process id occur anywhere in the
    event's message, also inside the longer process id of an activity worker. *)
Theorem stopped_pid_substring (before rest : string) (pid : Z) (x y : string) (p : Plugin) :
  pretty pid = (x ++ pretty (p_wwPID p) ++ y)%string ->
  let message := (before ++ pretty pid ++ rest)%string in
  let op := "temporal_plugin_serve" in
  serve_event message p =
  (r ← Reset;
   mret (match r with
         | OK _ => None
         | Err e => Some (ErrOp op (Errorf "error during reset: %#v, event: %s" [error_Error e; message]))
         end)) p.
Proof.
  intros Hp. cbv zeta. unfold serve_event. unfold gets at 1, mbind at 1, GoM_bind at 1, after at 1.
  cbn [fst snd]. rewrite Hp.
  replace (before ++ (x ++ pretty (p_wwPID p) ++ y) ++ rest)%string
    with ((before ++ x) ++ pretty (p_wwPID p) ++ (y ++ rest))%string.
  2: { by rewrite !string_app_assoc. }
  by rewrite Contains_infix.
Qed.

(** C38: after a successful reset the process id looked for is still the one of
    the workflow worker that the reset replaced: when the new workflow worker stops
    and its message does not show the old digits, only the activity pool is reset. *)
Theorem stale_pid (p p1 : Plugin) (message : string) :
  p_locked p = false -> p_readers p = 0 -> Reset p = (p1, Ret (OK tt)) ->
  Contains message (pretty (p_wwPID p)) = false ->
  let op := "temporal_plugin_serve" in
  serve_event message p1 =
  (r ← ResetAP;
   mret (match r with
         | OK _ => None
         | Err e => Some (ErrOp op (Errorf "error during reset: %#v, event: %s" [error_Error e; message]))
         end)) p1.
Proof.
  intros Hl Hr Hreset Hc. cbv zeta. pose proof (Reset_run p (conj Hl Hr)) as [Hpid _].
  rewrite Hreset in Hpid. simpl in Hpid.
  unfold serve_event. unfold gets at 1, mbind at 1, GoM_bind at 1, after at 1. cbn [fst snd].
  by rewrite Hpid, Hc.
Qed.

End PluginProps.
