(* ===== verification/Serving.v ===== *)
(** * Serving: the goroutines of a serving plugin (src/plugin.go)

    [Serve] leaves a goroutine behind that selects between two channels: the events of
    stopped worker processes and the stop signal.  It runs beside the goroutines that
    call [Stop], [Reset] and the other methods.  This file has the step relation of
    that system: every method holds the plugin's mutex from beginning to end, so one
    step is one method, but the loop takes an event, looks at the process id and calls
    the reset in separate steps, and [Stop] or anything else may come between. *)
From S2P Require Import Prelude Api Doubles GoM Protocol Codec Exchange Config Telemetry Workers Plugin PluginProps.
From stdpp Require Import base gmap list strings pretty relations.
From Stdlib Require Import ZArith Lia.

Local Open Scope string_scope.
Local Open Scope list_scope.

Section Serving.
Context `{Sdk} `{!PoolConfigs} `{!Files} `{!MetricsLib} `{!Codec} `{!Pool} `{!TemporalWorker} `{!PluginRuntime}.

(** ** The system *)

(** Where the goroutine of [Serve] is: at the select, with an event and its decision
    which reset to call, returned, or dead with a panic (which ends the process). *)
Inductive loop_state : Type :=
| Selecting
| Deciding (message : string)
| Resetting (workflows : bool) (message : string)
| Returned
| Dead (v : panic_value).

(** [sys_bus]: what the event bus has accepted for the subscription and not yet put on
    the channel; [sys_events]: the channel [p.events], of capacity 1; [sys_errCh]: the
    channel that [Serve] returned, of capacity 1. *)
Record system := mkSystem {
  sys_plugin : Plugin;
  sys_subscribed : bool;
  sys_bus : list string;
  sys_events : list string;
  sys_loop : loop_state;
  sys_errCh : list error;
}.

(** The calls of other goroutines that return. *)
Inductive call : Plugin -> Plugin -> Prop :=
| call_Reset p p' r : Reset p = (p', Ret r) -> call p p'
| call_ResetAP p p' r : ResetAP p = (p', Ret r) -> call p p'
| call_AddWorker p p' r : AddWorker p = (p', Ret r) -> call p p'
| call_RemoveWorker p p' r : RemoveWorker p = (p', Ret r) -> call p p'
| call_Workers p p' r : Workers p = (p', Ret r) -> call p p'
| call_Collects name mdw p p' : Collects name mdw p = (p', Ret tt) -> call p p'
| call_getWfDef p p' r : getWfDef p = (p', Ret r) -> call p p'.

(** The error that the loop puts on its channel. *)
Definition reset_error (e : error) (message : string) : error :=
  ErrOp "temporal_plugin_serve" (Errorf "error during reset: %#v, event: %s" [error_Error e; message]).

Definition reset_of (workflows : bool) : GoM Plugin (result unit) :=
  if workflows then Reset else ResetAP.

(** One step of the loop's goroutine. *)
Inductive loop_step : system -> system -> Prop :=
| loop_event p sub bus m rest errs :
    loop_step (mkSystem p sub bus (m :: rest) Selecting errs)
              (mkSystem p sub bus rest (Deciding m) errs)
| loop_stop p sub bus evs errs n :
    p_stopCh p = S n ->
    loop_step (mkSystem p sub bus evs Selecting errs)
              (mkSystem (set_events (p_eventBus p) n p) sub bus evs Returned errs)
| loop_decide p sub bus evs m errs :
    loop_step (mkSystem p sub bus evs (Deciding m) errs)
              (mkSystem p sub bus evs (Resetting (Contains m (pretty (p_wwPID p))) m) errs)
| loop_reset p p' sub bus evs b m errs :
    reset_of b p = (p', Ret (OK tt)) ->
    loop_step (mkSystem p sub bus evs (Resetting b m) errs) (mkSystem p' sub bus evs Selecting errs)
| loop_error p p' sub bus evs b m errs e :
    reset_of b p = (p', Ret (Err e)) -> length errs < 1 ->
    loop_step (mkSystem p sub bus evs (Resetting b m) errs)
              (mkSystem p' sub bus evs Returned (errs ++ [reset_error e m]))
| loop_panic p p' sub bus evs b m errs v :
    reset_of b p = (p', Panics v) ->
    loop_step (mkSystem p sub bus evs (Resetting b m) errs) (mkSystem p' sub bus evs (Dead v) errs).

(** One step of anything else: a process stops and the bus accepts the event, the bus
    puts an event on the channel when there is room, [Stop] returns, another method
    returns, the error is taken off its channel. *)
Inductive other_step : system -> system -> Prop :=
| bus_accept p bus evs l errs m :
    other_step (mkSystem p true bus evs l errs) (mkSystem p true (bus ++ [m]) evs l errs)
| bus_deliver p sub m bus evs l errs :
    length evs < 1 ->
    other_step (mkSystem p sub (m :: bus) evs l errs) (mkSystem p sub bus (evs ++ [m]) l errs)
| stop_called p p' r sub bus evs l errs :
    Stop p = (p', Ret r) ->
    other_step (mkSystem p sub bus evs l errs) (mkSystem p' false bus evs l errs)
| method_called p p' sub bus evs l errs :
    call p p' -> other_step (mkSystem p sub bus evs l errs) (mkSystem p' sub bus evs l errs)
| error_read p sub bus evs l e errs :
    other_step (mkSystem p sub bus evs l (e :: errs)) (mkSystem p sub bus evs l errs).

Definition sys_step (s s' : system) : Prop := loop_step s s' ∨ other_step s s'.

(** The loop of [Serve] on [p] is about to select for the first time. *)
Definition served_by (p : Plugin) : system := mkSystem p true [] [] Selecting [].

Definition finished (s : system) : Prop :=
  match sys_loop s with Returned | Dead _ => True | _ => False end.

(** [Stop] has been called and returned. *)
Definition stopped (s : system) : Prop := p_eventBus (sys_plugin s) = false.

(** ** What the methods keep *)

(** The channel of the stop signal and the event bus belong to [Stop]; the process id
    of the workflow worker is set by [Serve] only. *)
Definition same_events (p p' : Plugin) : Prop :=
  p_eventBus p' = p_eventBus p ∧ p_stopCh p' = p_stopCh p ∧ p_wwPID p' = p_wwPID p.

#[local] Instance same_events_preorder : PreOrder same_events.
Proof. split; [by intros p|]. intros p1 p2 p3 (?&?&?) (?&?&?). split_and!; congruence. Qed.

Lemma ext_do_events {A} (f : Ext -> Ext * A) : always same_events (ext_do f).
Proof. intros p. unfold ext_do. by destruct (f _). Qed.
Lemma ext_set_events f : always same_events (ext_set f).
Proof. by intros p. Qed.
Lemma lift_events {A} (o : outcome A) : always same_events (lift o).
Proof. by intros p. Qed.
Lemma fatal_events {A} m : always same_events (fatal m : GoM Plugin A).
Proof. by intros p. Qed.
Lemma modify_events f : (∀ p, same_events p (f p)) -> always same_events (modify f).
Proof. intros Hf p. apply Hf. Qed.
Lemma defer_events {A} d (m : GoM Plugin A) :
  always same_events d -> always same_events m -> always same_events (defer d m).
Proof. apply always_defer, _. Qed.

#[local] Hint Resolve ext_do_events ext_set_events lift_events fatal_events : go.
#[local] Hint Extern 1 (always same_events (modify _)) => (apply modify_events; intros ?; done) : go.
#[local] Hint Extern 1 (always same_events (defer _ _)) => (apply defer_events) : go.

Lemma mu_Lock_events : always same_events mu_Lock.
Proof. unfold mu_Lock. always_steps. Qed.
Lemma mu_Unlock_events : always same_events mu_Unlock.
Proof. unfold mu_Unlock. always_steps. Qed.
Lemma mu_RLock_events : always same_events mu_RLock.
Proof. unfold mu_RLock. always_steps. Qed.
Lemma mu_RUnlock_events : always same_events mu_RUnlock.
Proof. unfold mu_RUnlock. always_steps. Qed.

#[local] Hint Resolve mu_Lock_events mu_Unlock_events mu_RLock_events mu_RUnlock_events : go.

Lemma with_lock_events {A} (body : GoM Plugin A) :
  always same_events body -> always same_events (with_lock body).
Proof.
  intros Hb. unfold with_lock. apply always_bind; [apply _|apply mu_Lock_events|]. intros _.
  apply defer_events; [apply mu_Unlock_events|done].
Qed.
Lemma with_rlock_events {A} (body : GoM Plugin A) :
  always same_events body -> always same_events (with_rlock body).
Proof.
  intros Hb. unfold with_rlock. apply always_bind; [apply _|apply mu_RLock_events|]. intros _.
  apply defer_events; [apply mu_RUnlock_events|done].
Qed.

Lemma start_workers_events ws : always same_events (start_workers ws).
Proof. induction ws as [|w ws IH]; simpl; always_steps. Qed.
Lemma stop_workers_events ws : always same_events (stop_workers ws).
Proof. unfold stop_workers. always_steps. Qed.
Lemma create_workers_events wi : always same_events (create_workers wi).
Proof. unfold create_workers. always_steps. Qed.

#[local] Hint Resolve start_workers_events stop_workers_events create_workers_events : go.

Lemma reset_of_events b : always same_events (reset_of b).
Proof. destruct b; simpl; apply with_lock_events; always_steps. Qed.

Lemma reset_of_balanced b : balanced (reset_of b).
Proof. destruct b; [apply Reset_balanced|apply ResetAP_balanced]. Qed.
(** A method that returns leaves the mutex free and the events alone. *)
Lemma method_keeps {A} (m : GoM Plugin A) p p' a :
  balanced m -> always same_events m -> free p -> m p = (p', Ret a) -> free p' ∧ same_events p p'.
Proof.
  intros Hb He Hf Hr. specialize (Hb p Hf). specialize (He p). rewrite Hr in Hb, He.
  split; [apply Hb|exact He].
Qed.

Lemma call_keeps p p' : call p p' -> free p -> free p' ∧ same_events p p'.
Proof.
  destruct 1; intros Hf; eapply method_keeps; eauto.
  all: auto using Reset_balanced, ResetAP_balanced, AddWorker_balanced, RemoveWorker_balanced,
    Workers_balanced, Collects_balanced, getWfDef_balanced.
  - apply (reset_of_events true).
  - apply (reset_of_events false).
  - apply with_rlock_events. always_steps.
  - apply with_rlock_events. always_steps.
  - apply with_rlock_events. always_steps.
  - unfold Collects. always_steps.
  - apply with_rlock_events. always_steps.
Qed.

(** [Stop] returns only on a plugin with an event bus; it takes the bus away and puts
    one signal on the channel. *)
Lemma Stop_keeps p p' r :
  free p -> Stop p = (p', Ret r) ->
  p_eventBus p = true ∧ p_stopCh p = 0 ∧ free p' ∧ p_eventBus p' = false ∧ p_stopCh p' = 1.
Proof.
  intros Hf Hr. destruct (p_eventBus p) eqn:Hb.
  2: { unfold Stop, with_lock in Hr. rewrite (bind_ret _ _ _ _ _ (mu_Lock_free p Hf)) in Hr.
       unfold defer, mu_Unlock in Hr. go_unfold. by rewrite Hb in Hr. }
  destruct (p_stopCh p) as [|n] eqn:Hs.
  2: { unfold Stop, with_lock in Hr. rewrite (bind_ret _ _ _ _ _ (mu_Lock_free p Hf)) in Hr.
       unfold defer, mu_Unlock in Hr. go_unfold. rewrite Hb in Hr. go_unfold. by rewrite Hs in Hr. }
  pose proof (Stop_run p Hf Hb Hs) as Hrun. unfold wp in Hrun. rewrite Hr in Hrun. simpl in Hrun.
  destruct (close_metrics p) as [u|e]; [|done]. destruct Hrun as (_ & ? & ? & ? & _). auto.
Qed.

(** ** Invariant *)

Record serving_inv (s : system) : Prop := {
  si_free : free (sys_plugin s);
  si_events : length (sys_events s) <= 1;
  si_running : ¬ stopped s -> sys_subscribed s = true ∧ p_stopCh (sys_plugin s) = 0;
  si_stopped : stopped s -> sys_subscribed s = false ∧ p_stopCh (sys_plugin s) <= 1 ∧
                 (finished s ∨ p_stopCh (sys_plugin s) = 1);
  si_errors : ¬ finished s -> sys_errCh s = [];
}.

Lemma stopped_keeps p p' : same_events p p' -> p_eventBus p' = p_eventBus p ∧ p_stopCh p' = p_stopCh p.
Proof. by intros (? & ? & _). Qed.

(** Closes a case of the invariant when the events of the plugin did not change. *)
Ltac same_bus Hb Hc := split; unfold stopped, finished in *; simpl in *; rewrite ?Hb, ?Hc; try done; try tauto.

Lemma serving_step s s' : serving_inv s -> sys_step s s' -> serving_inv s'.
Proof.
  intros [Hf He Hr Hs Hx] [Hl|Ho].
  - destruct Hl as [p sub bus m rest errs|p sub bus evs errs n Hn|p sub bus evs m errs
      |p p' sub bus evs b m errs Hm|p p' sub bus evs b m errs e Hm Hle|p p' sub bus evs b m errs v Hm]; simpl in *.
    1, 3: split; unfold stopped, finished in *; simpl in *; try done; lia.
    + assert (p_eventBus p = false) as Hst.
      { destruct (p_eventBus p) eqn:Hbus; [|done]. unfold stopped in Hr; simpl in Hr.
        destruct Hr as [_ Hz]; congruence. }
      split; unfold stopped, finished in *; simpl in *; try done.
      intros _. destruct (Hs Hst) as (? & ? & _). split_and!; [done|lia|by left].
    + destruct (method_keeps _ _ _ _ (reset_of_balanced b) (reset_of_events b) Hf Hm) as [Hf' [Hb Hc]%stopped_keeps].
      same_bus Hb Hc.
    + destruct (method_keeps _ _ _ _ (reset_of_balanced b) (reset_of_events b) Hf Hm) as [Hf' [Hb Hc]%stopped_keeps].
      same_bus Hb Hc.
    + destruct (reset_of_balanced b p Hf) as [Hf' _], (stopped_keeps _ _ (reset_of_events b p)) as [Hb Hc].
      rewrite Hm in Hf', Hb, Hc. simpl in *. same_bus Hb Hc.
  - destruct Ho as [p bus evs l errs m|p sub m bus evs l errs Hle|p p' r sub bus evs l errs Hm
      |p p' sub bus evs l errs Hc|p sub bus evs l e errs]; simpl in *.
    + by split.
    + split; simpl; try done. rewrite length_app. simpl. lia.
    + destruct (Stop_keeps _ _ _ Hf Hm) as (Hb0 & Hc0 & Hf' & Hb & Hc).
      split; unfold stopped, finished in *; simpl in *; rewrite ?Hb, ?Hc; try done.
      intros _. split_and!; [done|lia|by right].
    + destruct (call_keeps _ _ Hc Hf) as [Hf' [Hb Hc']%stopped_keeps]. same_bus Hb Hc'.
    + split; unfold stopped, finished in *; simpl in *; try done. intros Hn. by specialize (Hx Hn).
Qed.

Lemma served_by_inv p :
  free p -> p_eventBus p = true -> p_stopCh p = 0 -> serving_inv (served_by p).
Proof. intros Hf Hb Hs. split; unfold stopped; simpl; try done; [lia|]. rewrite Hb. done. Qed.

Lemma reachable_inv s s' : serving_inv s -> rtc sys_step s s' -> serving_inv s'.
Proof. intros Hi. induction 1 as [|x y z Hxy Hyz IH]; [done|]. apply IH. by eapply serving_step. Qed.

(** The loop can always go on, unless it has nothing to do. *)
Lemma loop_progress s :
  serving_inv s -> ¬ finished s -> (∃ s', loop_step s s') ∨
  (sys_loop s = Selecting ∧ sys_events s = [] ∧ ¬ stopped s).
Proof.
  destruct s as [p sub bus evs l errs]. intros [Hf He Hr Hs Hx] Hn.
  unfold finished, stopped in *; simpl in *. specialize (Hx Hn). subst errs.
  destruct l as [|m|b m| |v]; try done.
  - destruct evs as [|m evs]; [|left; eexists; by constructor].
    destruct (p_eventBus p) eqn:Hb; [by right|].
    destruct (Hs eq_refl) as (_ & _ & [?|Hc]); [done|]. left. eexists. by econstructor.
  - left. eexists. by constructor.
  - left. destruct (reset_of_balanced b p Hf) as [_ Ho].
    destruct (reset_of b p) as [p' [[[]|e]|v|msg| |]] eqn:Hm; try done; eexists.
    + by constructor.
    + by apply loop_error; [|simpl; lia].
    + by econstructor.
Qed.

(** ** After [Stop] *)

(** Executions, with the number of steps the loop took. *)
Inductive run : nat -> system -> system -> Prop :=
| run_refl s : run 0 s s
| run_loop n s1 s2 s3 : loop_step s1 s2 -> run n s2 s3 -> run (S n) s1 s3
| run_other n s1 s2 s3 : other_step s1 s2 -> run n s2 s3 -> run n s1 s3.

(** The steps the loop may still take once no more events are accepted: three for
    every event, one to see the stop signal. *)
Definition effort (s : system) : nat :=
  3 * (length (sys_bus s) + length (sys_events s)) +
  match sys_loop s with Selecting => 1 | Deciding _ => 3 | Resetting _ _ => 2 | _ => 0 end.

Lemma loop_step_effort s s' : loop_step s s' -> effort s' < effort s.
Proof. destruct 1; unfold effort; simpl; lia. Qed.

Lemma other_step_effort s s' :
  serving_inv s -> stopped s -> other_step s s' -> effort s' <= effort s ∧ stopped s'.
Proof.
  intros Hi Hst Ho. pose proof (si_free _ Hi) as Hf. destruct (si_stopped _ Hi Hst) as (Hsub & _ & _).
  destruct Ho as [p bus evs l errs m|p sub m bus evs l errs Hle|p p' r sub bus evs l errs Hm
      |p p' sub bus evs l errs Hc|p sub bus evs l e errs]; unfold stopped, effort in *; simpl in *; try done.
  - rewrite length_app. simpl. split; [lia|done].
  - destruct (Stop_keeps _ _ _ Hf Hm) as (_ & _ & _ & ? & _). done.
  - destruct (call_keeps _ _ Hc Hf) as [_ [Hb _]%stopped_keeps]. by rewrite Hb.
Qed.

Lemma loop_step_stopped s s' : stopped s -> loop_step s s' -> stopped s'.
Proof.
  intros Hst Hl. destruct Hl as [ | | |p p' sub bus evs b m errs Hm|p p' sub bus evs b m errs e Hm Hle
    |p p' sub bus evs b m errs v Hm]; try done; unfold stopped in *; simpl in *.
  all: destruct (stopped_keeps _ _ (reset_of_events b p)) as [Hb _]; rewrite Hm in Hb; simpl in Hb; congruence.
Qed.

Lemma run_effort n s s' :
  run n s s' -> serving_inv s -> stopped s -> n + effort s' <= effort s ∧ serving_inv s' ∧ stopped s'.
Proof.
  induction 1 as [s|n s1 s2 s3 Hl Hr IH|n s1 s2 s3 Ho Hr IH]; intros Hi Hst; [done|..].
  - destruct IH as (Hn & Hi' & Hst');
      [by eapply serving_step; [|left]|by eapply loop_step_stopped|].
    apply loop_step_effort in Hl. split_and!; [lia|done|done].
  - destruct (other_step_effort _ _ Hi Hst Ho) as [Hle Hst2].
    destruct IH as (Hn & Hi' & Hst'); [by eapply serving_step; [|right]|done|].
    split_and!; [lia|done|done].
Qed.

(** C15: once [Stop] has returned, the goroutine of [Serve] ends.  Whatever the
    other goroutines do from then on, it takes at most three steps for every event
    that was accepted before, and one for the stop signal; and as long as it has not
    ended it can take its next step: it waits for no event, blocks on no channel and
    on no mutex. *)
Theorem stop_ends_loop (p : Plugin) (s s' : system) (n : nat) :
  p_locked p = false -> p_readers p = 0 -> p_eventBus p = true -> p_stopCh p = 0 ->
  rtc sys_step (served_by p) s -> stopped s -> run n s s' ->
  n <= effort s ∧ (finished s' ∨ ∃ s'', loop_step s' s'').
Proof.
  intros Hl Hr Hb Hs Hreach Hst Hrun.
  pose proof (reachable_inv _ _ (served_by_inv p (conj Hl Hr) Hb Hs) Hreach) as Hi.
  destruct (run_effort _ _ _ Hrun Hi Hst) as (Hn & Hi' & Hst'). split; [lia|].
  assert (finished s' ∨ ¬ finished s') as [Hf|Hf]
    by (unfold finished; destruct (sys_loop s'); auto).
  - by left.
  - right. destruct (loop_progress s' Hi' Hf) as [|(_ & _ & Hns)]; [done|by destruct Hns].
Qed.

(** C21: the channel of errors never blocks the loop.  In every reachable state the
    mutex is free between two calls, the channels hold what fits into them, and an
    error is on the channel only when the loop has returned. *)
Theorem serving_invariant (p : Plugin) (s : system) :
  p_locked p = false -> p_readers p = 0 -> p_eventBus p = true -> p_stopCh p = 0 ->
  rtc sys_step (served_by p) s -> serving_inv s.
Proof.
  intros Hl Hr Hb Hs Hreach. by eapply reachable_inv, Hreach; apply served_by_inv.
Qed.


(** ** The loop by itself *)

(** One event, from the bus to the end of its reset. *)
Lemma serve_event_steps m p p' o :
  serve_event m p = (p', Ret o) ->
  rtc sys_step (served_by p)
    match o with
    | None => served_by p'
    | Some e => mkSystem p' true [] [] Returned [e]
    end.
Proof.
  intros Hr. unfold serve_event in Hr. go_unfold.
  eapply rtc_l; [right; apply (bus_accept _ _ _ _ _ m)|].
  eapply rtc_l; [right; apply bus_deliver; simpl; lia|].
  eapply rtc_l; [left; apply loop_event|]. eapply rtc_l; [left; apply loop_decide|]. eapply rtc_once. left.
  set (b := Contains m _) in *.
  assert (reset_of b = if b then Reset else ResetAP) as Hb by done. rewrite <- Hb in Hr.
  destruct (reset_of b p) as [p1 [[[]|e]|v|msg| |]] eqn:Hm; simplify_eq/=.
  - by apply loop_reset.
  - apply (loop_error p p' true [] [] b m [] e); [done|simpl; lia].
Qed.


End Serving.
