(* ===== verification/PluginScenario.v ===== *)
(** * PluginScenario: the plugin against concrete services

    An instance of the services the plugin uses, which logs what it is asked, and the
    states at which the hypotheses of the theorems on the plugin hold. *)
From S2P Require Import Prelude Api Doubles GoM Protocol Codec Exchange Config Telemetry Workers Plugin PluginProps Serving.
From stdpp Require Import base gmap list strings pretty relations.
From Stdlib Require Import Ascii ZArith Lia.

Local Open Scope string_scope.
Local Open Scope list_scope.

#[local] Existing Instance ConcreteApi.
#[local] Existing Instance ConcreteSdk.
#[local] Existing Instance ConcreteWire.
#[local] Existing Instance ScriptedPool.
#[local] Existing Instance PlainPools.
#[local] Existing Instance PlainPoolLaws.
#[local] Existing Instance TwoFiles.
#[local] Existing Instance PlainWorker.

Definition PlainMetrics : MetricsLib := {|
  CharRanges := unit; CachedReporter := string; StatsReporter := string; StatsdClient := string;
  Scope := string; Closer := bool; MetricsHandler := string; Desc := string;
  AlphanumericRange := tt; DefaultReplacementCharacter := "_"%char; prometheus_DefaultSeparator := "_";
  prometheus_NewReporter := λ a _, OK a;
  statsd_NewClientWithConfig := λ c, OK (SC_Address c);
  statsdreporter_NewReporter := λ c _, c;
  NewRootScope := λ o _, (default "" (ScO_CachedReporter o), true);
  NewMetricsHandler := λ s, s;
  BuildFQName := λ ns _ n, (ns ++ "_" ++ n)%string;
  NewDesc := λ n _ _, n;
|}.
#[local] Existing Instance PlainMetrics.

(** A worker's description of one task queue. *)
Definition info_reply : exec_result :=
  ExecChan (Some (PExecPayload
    (Encode zero_Context zero_payload [mkMessage 0 None None (Some (mkPayloads ["mail"])) None]).1)).

(** The outside world is a log.  Every reset gives the workflow worker a new process
    id; closing the metrics fails when the closer is [false]. *)
Definition LogRuntime : PluginRuntime := {|
  Ext := list string; ActPool := unit; Client := string;
  NewPool_activities := λ _ e, (e ++ ["new activity pool"], OK tt);
  NewPool_workflow := λ _ e, (e ++ ["new workflow pool"], OK (mkScripted [info_reply; info_reply] [] 0));
  act_Reset := λ _ e, (e ++ ["reset activities"], OK tt);
  act_AddWorker := λ _ e, (e, OK tt);
  act_RemoveWorker := λ _ e, (e, OK tt);
  wf_Reset := λ w e, (e ++ ["reset workflows"], (mkScripted (script w) (sent w) (S (stops w)), OK tt));
  wf_Pids := λ w, [(3344 + Z.of_nat (stops w))%Z];
  act_Pids := λ _ _, [];
  worker_Start := λ w e, (e ++ ["start"], OK tt);
  worker_Stop := λ w e, e ++ ["stop"];
  PurgeStickyWorkflowCache := λ e, e;
  SetStickyWorkflowCacheSize := λ _ e, e;
  Dial := λ o e, (e ++ ["dial"], OK (do_HostPort o));
  client_Close := λ _ e, e ++ ["close client"];
  closer_Close := λ ok e, (e, if (ok : bool) then OK tt else Err (LibErr "broken pipe"));
  SubscribeP := λ e, (e ++ ["subscribe"], OK tt);
  Unsubscribe := λ e, e ++ ["unsubscribe"];
  ProcessState := Z;
  WorkerProcessState := λ pid _, OK pid;
  uuid_at := λ _ _, "u";
  interceptors_at := λ _ m _, (map_to_list m).*2;
|}.
#[local] Existing Instance LogRuntime.

Definition example_cfg : Configurer :=
  mkConfigurer (λ _, true) (OK example_config) (λ p, OK p) (λ s, OK s) "2023.3.0".

Definition initialised : Plugin :=
  match Init example_cfg [] with
  | Ret (OK p) => p
  | _ => mkPlugin false 0 example_config None None 0 "" false 0 false ∅ ∅ None None None None [] ∅ []
  end.

Lemma Init_ready_witness : ready (p_config initialised).
Proof. exact (proj1 (Init_ready example_cfg [] initialised eq_refl)). Defined.


Definition serving : Plugin := (Serve initialised).1.

(** The plugin serves: the loop was started and the worker's queue is polled. *)
Example serving_polls :
  (Serve initialised).2 = Ret None ∧ p_wwPID serving = 3344%Z ∧
  pw_queue <$> t_workers serving = ["mail"] ∧
  p_ext serving = ["new activity pool"; "new workflow pool"; "dial"; "start"; "subscribe"].
Proof. vm_compute. auto. Qed.


Lemma Stop_returns_witness :
  ∃ p', Stop serving = (p', Ret (OK tt)) ∧ p_locked p' = false ∧ p_readers p' = 0 ∧
        p_eventBus p' = false ∧ p_stopCh p' = 1 ∧ p_ext p' = final_ext serving.
Proof.
  assert (p_locked serving = false) as Hl by (vm_compute; reflexivity).
  assert (p_readers serving = 0) as Hr by (vm_compute; reflexivity).
  assert (p_eventBus serving = true) as Hb by (vm_compute; reflexivity).
  assert (p_stopCh serving = 0) as Hs by (vm_compute; reflexivity).
  assert (close_metrics serving = OK tt) as Hc by (vm_compute; reflexivity).
  pose proof (Stop_returns serving Hl Hr Hb Hs Hc) as Ht. exact Ht.
Defined.

(** The same plugin, its metrics reporter broken. *)
Definition broken_metrics : Plugin :=
  mkPlugin false 0 example_config None None 0 "" true 0 false ∅ ∅ None (Some (false : Closer)) None None [] ∅ [].

Lemma Stop_double_unlock_witness :
  (Stop broken_metrics).2 = Fatal "sync: Unlock of unlocked RWMutex".
Proof.
  exact (Stop_double_unlock broken_metrics (LibErr "broken pipe") eq_refl eq_refl eq_refl eq_refl eq_refl).
Defined.

(** An activity worker with process id 334455 stops while the workflow worker is
    3344. *)
Lemma stopped_pid_substring_witness :
  let message := ("process exited, pid: " ++ pretty 334455%Z ++ "")%string in
  serve_event message serving =
  (r ← Reset;
   mret (match r with
         | OK _ => None
         | Err e => Some (ErrOp "temporal_plugin_serve"
                            (Errorf "error during reset: %#v, event: %s" [error_Error e; message]))
         end)) serving.
Proof.
  assert (pretty 334455%Z = ("" ++ pretty (p_wwPID serving) ++ "55")%string) as Hp by (vm_compute; reflexivity).
  pose proof (stopped_pid_substring "process exited, pid: " "" 334455 "" "55" serving Hp) as Ht. exact Ht.
Defined.

Definition after_reset : Plugin := (Reset serving).1.

(** The new workflow worker has process id 3345. *)
Lemma stale_pid_witness :
  (wf_Pids <$> p_wfP after_reset) = Some [3345%Z] ∧
  let message := "process exited, pid: 3345" in
  serve_event message after_reset =
  (r ← ResetAP;
   mret (match r with
         | OK _ => None
         | Err e => Some (ErrOp "temporal_plugin_serve"
                            (Errorf "error during reset: %#v, event: %s" [error_Error e; message]))
         end)) after_reset.
Proof.
  split; [vm_compute; reflexivity|].
  assert (p_locked serving = false) as Hl by (vm_compute; reflexivity).
  assert (p_readers serving = 0) as Hr by (vm_compute; reflexivity).
  assert (Reset serving = (after_reset, Ret (OK tt))) as Hreset
    by (unfold after_reset; apply run_outcome; vm_compute; reflexivity).
  assert (Contains "process exited, pid: 3345" (pretty (p_wwPID serving)) = false) as Hc
    by (vm_compute; reflexivity).
  pose proof (stale_pid serving after_reset "process exited, pid: 3345" Hl Hr Hreset Hc) as Ht. exact Ht.
Defined.

(** ** The goroutines of the serving plugin *)

Definition exit_message : string := "process exited, pid: 3344".

(** The exit of the workflow worker has been noticed, then [Stop] is called. *)
Definition deciding : system := mkSystem serving true [] [] (Resetting true exit_message) [].
Definition after_stop : Plugin := (Stop serving).1.
Definition stopping : system := mkSystem after_stop false [] [] (Resetting true exit_message) [].
Definition restarted : Plugin := (Reset after_stop).1.

Lemma deciding_reachable : rtc sys_step (served_by serving) deciding.
Proof.
  eapply rtc_l; [right; apply (bus_accept _ _ _ _ _ exit_message)|].
  eapply rtc_l; [right; apply bus_deliver; simpl; lia|].
  eapply rtc_l; [left; apply loop_event|]. eapply rtc_once. left. apply loop_decide.
Qed.

Lemma stop_run : Stop serving = (after_stop, Ret (OK tt)).
Proof. unfold after_stop. apply run_outcome. vm_compute. reflexivity. Qed.

Lemma restart_run : Reset after_stop = (restarted, Ret (OK tt)).
Proof. unfold restarted. apply run_outcome. vm_compute. reflexivity. Qed.

Lemma stopping_reachable : rtc sys_step (served_by serving) stopping.
Proof. eapply rtc_r; [exact deciding_reachable|]. right. eapply stop_called, stop_run. Qed.

(** From there the loop takes two steps: the reset, and the stop signal. *)
Definition ended : system := mkSystem (set_events false 0 restarted) false [] [] Returned [].

Lemma stopping_run : run 2 stopping ended.
Proof.
  assert (p_stopCh restarted = 1) as Hs by (vm_compute; reflexivity).
  assert (p_eventBus restarted = false) as Hb by (vm_compute; reflexivity).
  eapply run_loop; [apply loop_reset; exact restart_run|]. eapply run_loop; [|apply run_refl].
  unfold ended. rewrite <- Hb. by apply loop_stop.
Qed.

Lemma stop_ends_loop_witness :
  2 <= effort stopping ∧ (finished ended ∨ ∃ s'', loop_step ended s'').
Proof.
  assert (p_locked serving = false) as Hl by (vm_compute; reflexivity).
  assert (p_readers serving = 0) as Hr by (vm_compute; reflexivity).
  assert (p_eventBus serving = true) as Hb by (vm_compute; reflexivity).
  assert (p_stopCh serving = 0) as Hs by (vm_compute; reflexivity).
  assert (stopped stopping) as Hst by (vm_compute; reflexivity).
  pose proof (stop_ends_loop serving stopping ended 2 Hl Hr Hb Hs stopping_reachable Hst stopping_run) as Ht.
  exact Ht.
Defined.

Lemma serving_invariant_witness : serving_inv stopping.
Proof.
  assert (p_locked serving = false) as Hl by (vm_compute; reflexivity).
  assert (p_readers serving = 0) as Hr by (vm_compute; reflexivity).
  assert (p_eventBus serving = true) as Hb by (vm_compute; reflexivity).
  assert (p_stopCh serving = 0) as Hs by (vm_compute; reflexivity).
  pose proof (serving_invariant serving stopping Hl Hr Hb Hs stopping_reachable) as Ht. exact Ht.
Defined.


