(* ===== verification/Logger.v ===== *)
(** * Logger: the adapter for the SDK's logger (src/internal/logger/wrapper.go)

    The SDK logs a message with alternating keys and values; the adapter turns them
    into fields.  Dynamic values and the formatting verbs are parameters. *)
From S2P Require Import Prelude.
From stdpp Require Import base list strings.
From Stdlib Require Import ZArith Lia.

Local Open Scope string_scope.
Local Open Scope list_scope.

Section Logger.
(** A dynamic value, its string if it is one, its text under the verb %v and the text
    of a whole argument list. *)
Context {any : Type} (as_string : any -> option string) (sprint : any -> string)
  (sprint_all : list any -> string).

(** [zap.Any(key, value)] and [zap.Error(err)]. *)
Inductive zap_Field : Type :=
| zap_Any (key : string) (value : any)
| zap_Error (message : string).

Inductive level : Type := DebugLevel | InfoLevel | WarnLevel | ErrorLevel.

Definition key_of (k : any) : string :=
  match as_string k with Some s => s | None => sprint k end.

(** The loop over the pairs, [i += 2]. *)
Fixpoint fields_loop (keyvals : list any) : list zap_Field :=
  match keyvals with
  | k :: v :: rest => zap_Any (key_of k) v :: fields_loop rest
  | _ => []
  end.

Definition fields (keyvals : list any) : list zap_Field :=
  if negb (Nat.eqb (Nat.modulo (length keyvals) 2) 0)
  then [zap_Error ("odd number of keyvals pairs: " ++ sprint_all keyvals)]
  else fields_loop keyvals.

(** [Debug], [Info], [Warn] and [Error]: one entry of the underlying logger. *)
Definition log_at (l : level) (msg : string) (keyvals : list any) : level * string * list zap_Field :=
  (l, msg, fields keyvals).

(** Pairs as the SDK passes them. *)
Definition flatten (kvs : list (any * any)) : list any := kvs ≫= λ '(k, v), [k; v].

Lemma length_flatten kvs : length (flatten kvs) = 2 * length kvs.
Proof.
  induction kvs as [|[k v] kvs IH]; [done|]. change (flatten ((k, v) :: kvs)) with (k :: v :: flatten kvs).
  simpl. rewrite IH. simpl. lia.
Qed.

Lemma fields_loop_flatten kvs :
  fields_loop (flatten kvs) = (λ '(k, v), zap_Any (key_of k) v) <$> kvs.
Proof. induction kvs as [|[k v] kvs IH]; [done|]. simpl. f_equal. exact IH. Qed.

(** Alternating keys and values become one field per pair, in order, with a
    key that is not a string printed; an odd number of them becomes a single error
    field, and no value is read out of range. *)
Theorem fields_spec (keyvals : list any) :
  (∀ kvs, keyvals = flatten kvs ->
     fields keyvals = (λ '(k, v), zap_Any (key_of k) v) <$> kvs) ∧
  (Nat.odd (length keyvals) = true -> fields keyvals = [zap_Error ("odd number of keyvals pairs: " ++ sprint_all keyvals)]) ∧
  (Nat.odd (length keyvals) = false -> ∃ kvs, keyvals = flatten kvs).
Proof.
  unfold fields. split_and!.
  - intros kvs ->. rewrite length_flatten, Nat.mul_comm, Nat.Div0.mod_mul. simpl. apply fields_loop_flatten.
  - intros Ho. apply Nat.odd_spec in Ho as [m Hm]. rewrite Hm, Nat.add_comm, Nat.mul_comm, Nat.Div0.mod_add.
    done.
  - intros He. assert (Nat.even (length keyvals) = true) as Hev
      by (rewrite <- Nat.negb_odd, He; done).
    apply Nat.even_spec in Hev as [m Hm]. revert keyvals Hm He.
    induction m as [|m IH]; intros keyvals Hm He.
    + exists []. by destruct keyvals.
    + destruct keyvals as [|k [|v rest]]; simpl in Hm; try lia.
      destruct (IH rest) as [kvs ->]; [simpl in *; lia|done|]. by exists ((k, v) :: kvs).
Qed.

End Logger.
