(* ===== verification/Rpc.v ===== *)
(** * Rpc: remote calls into the plugin (src/rpc.go)

    Heartbeats of activities, the names the workers serve, and the replay of workflow
    histories.  A replay call reports through the status of its response; its Go
    error is always nil.  History retrieval, the replayer and the file system are
    parameters. *)
From S2P Require Import Prelude Api Doubles GoM Protocol Codec Converter Exchange Activity ActivityThreads Config Telemetry Workers Plugin PluginProps PluginScenario.
From stdpp Require Import base gmap list strings relations.
From Stdlib Require Import ZArith Lia.

Local Open Scope string_scope.
Local Open Scope list_scope.

#[local] Set Warnings "-clear-no-such-hyp".

(** The gRPC codes that are used. *)
Inductive code : Type := codes_OK | codes_InvalidArgument | codes_FailedPrecondition | codes_Internal.

Record Status := mkStatus { St_Code : code; St_Message : string }.

Class RpcRuntime `{PluginRuntime} `{!ActivityRuntime} := {
  HistoryEvent : Type;
  File : Type;
  (** [proto.Unmarshal] of the heartbeat's details. *)
  unmarshal_Payloads : bytes -> result Payloads;
  (** [activity.RecordHeartbeat] and whether the context is done afterwards. *)
  RecordHeartbeat : ActivityCtx -> Payloads -> Ext -> Ext;
  ctx_Done : ActivityCtx -> Ext -> bool;
  (** What the iterator of [client.GetWorkflowHistory] yields, up to an error. *)
  GetWorkflowHistory : Client -> string -> string -> Ext -> list (result HistoryEvent);
  (** The replayer, for a workflow name: a history, and a file read in full or up to
      an event id. *)
  ReplayHistory : string -> list HistoryEvent -> Ext -> option error;
  ReplayJSONFile : string -> string -> Ext -> option error;
  ReplayPartialJSONFile : string -> string -> Z -> Ext -> option error;
  os_Create : string -> Ext -> Ext * result File;
  protojson_Marshal : list HistoryEvent -> result bytes;
  file_Write : File -> bytes -> Ext -> Ext * result unit;
  file_Close : File -> Ext -> Ext;
}.

Section Rpc.
Context `{Sdk} `{!PoolConfigs} `{!Files} `{!MetricsLib} `{!Codec} `{!Pool} `{!TemporalWorker} `{!PluginRuntime}
  `{!ActivityRuntime} `{!RpcRuntime}.

(** ** Requests *)

Record RecordHeartbeatRequest := mkRecordHeartbeatRequest { RH_TaskToken : bytes; RH_Details : bytes }.
Record RecordHeartbeatResponse := mkRecordHeartbeatResponse { Canceled : bool }.

(** [protoApi.ReplayRequest]; the nested messages are pointers: run and workflow id,
    and the name of the workflow type. *)
Record ReplayRequest := mkReplayRequest {
  RR_WorkflowExecution : option (string * string);
  RR_WorkflowType : option string;
  RR_SavePath : string;
  RR_LastEventId : Z;
}.

Record HistoryRequest := mkHistoryRequest {
  HR_History : option (list HistoryEvent);
  HR_WorkflowType : option string;
}.

(** The generated accessors, defined on nil too. *)
Definition GetRunId (r : ReplayRequest) : string :=
  match RR_WorkflowExecution r with Some (run, _) => run | None => "" end.
Definition GetWorkflowId (r : ReplayRequest) : string :=
  match RR_WorkflowExecution r with Some (_, wid) => wid | None => "" end.
Definition GetName (t : option string) : string := match t with Some n => n | None => "" end.

(** The object that answers remote calls; [rpc_plugin] is a pointer, so the calls below
    work on the plugin's state of the moment. *)
Record rpc := mkRpc { rpc_plugin : Plugin; rpc_client : option Client }.

Definition RPC (p : Plugin) : rpc := mkRpc p (t_client p).

(** ** Calls *)

(** The details of a heartbeat; none are sent as no bytes. *)
Definition heartbeat_details_of (in_ : RecordHeartbeatRequest) : result Payloads :=
  match RH_Details in_ with [] => OK (mkPayloads []) | d => unmarshal_Payloads d end.

(** [act] is the activity definition of the plugin, when it is set. *)
Definition RecordActivityHeartbeat (act : Activity) (in_ : RecordHeartbeatRequest)
    : GoM Plugin (result RecordHeartbeatResponse) :=
  match heartbeat_details_of in_ with
  | Err e => mret (Err e)
  | OK details =>
      def ← getActDef;
      if negb def then mret (Err (ErrStr "no activity definition registered"))
      else
        _ ← mu_RLock;
        match GetActivityContext (RH_TaskToken in_) act with
        | Err e => _ ← mu_RUnlock; mret (Err e)
        | OK ctx =>
            _ ← mu_RUnlock;
            _ ← ext_set (RecordHeartbeat ctx details);
            e ← gets p_ext;
            mret (OK (mkRecordHeartbeatResponse (ctx_Done ctx e)))
        end
  end.

(** The order of a map's keys is the iteration's. *)
Definition GetActivityNames (out : list string) : GoM Plugin (list string) :=
  with_rlock (gets (λ p, out ++ (map_to_list (t_activities p)).*1)).
Definition GetWorkflowNames (out : list string) : GoM Plugin (list string) :=
  with_rlock (gets (λ p, out ++ (map_to_list (t_workflows p)).*1)).

Fixpoint collect_history (iter : list (result HistoryEvent)) : result (list HistoryEvent) :=
  match iter with
  | [] => OK []
  | Err e :: _ => Err e
  | OK ev :: iter =>
      match collect_history iter with Err e => Err e | OK evs => OK (ev :: evs) end
  end.

Definition not_initialised : Status :=
  mkStatus codes_FailedPrecondition "workflow definition is not initialized, retry in a second".

(** [r.plugin.temporal.client.GetWorkflowHistory(...)] and the loop over it. *)
Definition fetch_history (in_ : ReplayRequest) : GoM Plugin (result (list HistoryEvent)) :=
  c ← gets t_client;
  match c with
  | None => panic nil_pointer
  | Some c => e ← gets p_ext; mret (collect_history (GetWorkflowHistory c (GetWorkflowId in_) (GetRunId in_) e))
  end.

(** The end of a replay: its error as a failed precondition. *)
Definition replay_status (err : option error) : Status :=
  match err with
  | Some e => mkStatus codes_FailedPrecondition (error_Error e)
  | None => mkStatus codes_OK ""
  end.

Definition empty_ids : Status :=
  mkStatus codes_InvalidArgument "run_id, workflow_id or workflow_name should not be empty".

Definition ReplayWorkflow (in_ : ReplayRequest) : GoM Plugin Status :=
  match RR_WorkflowExecution in_, RR_WorkflowType in_ with
  | Some (run, wid), Some name =>
      if String.eqb run "" || String.eqb wid "" || String.eqb name "" then mret empty_ids
      else
        r ← fetch_history in_;
        match r with
        | Err e => mret (mkStatus codes_Internal (error_Error e))
        | OK hist =>
            def ← getWfDef;
            if negb def then mret not_initialised
            else
              _ ← getWfDef;
              e ← gets p_ext;
              mret (replay_status (ReplayHistory name hist e))
        end
  | _, _ => mret empty_ids
  end.

Definition empty_path : Status :=
  mkStatus codes_InvalidArgument "run_id, workflow_id or save_path should not be empty".

Definition DownloadWorkflowHistory (in_ : ReplayRequest) : GoM Plugin Status :=
  match RR_WorkflowExecution in_, RR_WorkflowType in_ with
  | Some (run, wid), Some name =>
      if String.eqb (RR_SavePath in_) "" then mret empty_path
      else if String.eqb run "" || String.eqb wid "" || String.eqb name "" then mret empty_path
      else
        f ← ext_do (os_Create (RR_SavePath in_));
        match f with
        | Err e => mret (mkStatus codes_Internal (error_Error e))
        | OK file =>
            defer (ext_set (file_Close file)) (
              r ← fetch_history in_;
              match r with
              | Err e => mret (mkStatus codes_Internal (error_Error e))
              | OK hist =>
                  match protojson_Marshal hist with
                  | Err e => mret (mkStatus codes_Internal (error_Error e))
                  | OK data =>
                      w ← ext_do (file_Write file data);
                      mret (match w with
                            | Err e => mkStatus codes_Internal (error_Error e)
                            | OK _ => mkStatus codes_OK ""
                            end)
                  end
              end)
        end
  | _, _ => mret empty_path
  end.

Definition ReplayFromJSON (in_ : ReplayRequest) : GoM Plugin Status :=
  match RR_WorkflowType in_ with
  | None => mret (mkStatus codes_InvalidArgument "workflow_name and save_path should not be empty")
  | Some name =>
      if String.eqb (RR_SavePath in_) ""
      then mret (mkStatus codes_InvalidArgument "workflow_name and save_path should not be empty")
      else if String.eqb name "" then mret (mkStatus codes_InvalidArgument "workflow_name should not be empty")
      else
        def ← getWfDef;
        if negb def then mret not_initialised
        else
          _ ← getWfDef;
          e ← gets p_ext;
          mret (replay_status
            (if Z.eqb (RR_LastEventId in_) 0 then ReplayJSONFile name (RR_SavePath in_) e
             else ReplayPartialJSONFile name (RR_SavePath in_) (RR_LastEventId in_) e))
  end.

Definition ReplayWorkflowHistory (in_ : HistoryRequest) : GoM Plugin Status :=
  match HR_History in_ with
  | None => mret (mkStatus codes_FailedPrecondition "workflow_name and/or history should not be empty")
  | Some hist =>
      if String.eqb (GetName (HR_WorkflowType in_)) ""
      then mret (mkStatus codes_FailedPrecondition "workflow_name and/or history should not be empty")
      else
        def ← getWfDef;
        if negb def then mret not_initialised
        else
          _ ← getWfDef;
          e ← gets p_ext;
          mret (replay_status (ReplayHistory (GetName (HR_WorkflowType in_)) hist e))
  end.

(** ** Properties *)

Lemma set_lock_free p : free p -> set_lock false 0 p = p.
Proof. intros [Hl Hr]. destruct p; simpl in *. by subst. Qed.

Lemma getWfDef_free p : free p -> getWfDef p = (p, Ret (t_defs p)).
Proof.
  intros Hf. pose proof Hf as [Hl Hr]. unfold getWfDef, with_rlock, mu_RLock, mu_RUnlock, defer.
  go_unfold. rewrite Hl. simpl. rewrite Hr. simpl. f_equal. exact (set_lock_free p Hf).
Qed.

Lemma wp_getWfDef (Q : outcome bool -> Plugin -> Prop) p : free p -> Q (Ret (t_defs p)) p -> wp getWfDef Q p.
Proof. intros Hf HQ. eapply wp_run; [by apply getWfDef_free|done]. Qed.

Lemma collect_history_OK iter : ∀ evs, collect_history iter = OK evs <-> iter = OK <$> evs.
Proof.
  induction iter as [|[ev|e] iter IH]; intros evs; simpl.
  - split; [by intros [= <-]|by destruct evs].
  - split.
    + destruct (collect_history iter) as [l|]; intros [= <-]. simpl. f_equal. by apply IH.
    + destruct evs as [|ev' evs]; simpl; [done|]. intros [= -> Hi]. apply IH in Hi. by rewrite Hi.
  - split; [done|]. by destruct evs.
Qed.

Lemma replay_status_OK err : St_Code (replay_status err) = codes_OK <-> err = None.
Proof. by destruct err. Qed.

(** A heartbeat, read against the state of the plugin. *)
Definition heartbeat_target (act : Activity) (in_ : RecordHeartbeatRequest) (p : Plugin)
    : result (ActivityCtx * Payloads) :=
  match heartbeat_details_of in_ with
  | Err e => Err e
  | OK details =>
      if t_defs p then
        match GetActivityContext (RH_TaskToken in_) act with
        | Err e => Err e
        | OK ctx => OK (ctx, details)
        end
      else Err (ErrStr "no activity definition registered")
  end.

Lemma heartbeat_run act in_ p :
  free p ->
  RecordActivityHeartbeat act in_ p =
  match heartbeat_target act in_ p with
  | Err e => (p, Ret (Err e))
  | OK (ctx, details) =>
      let e := RecordHeartbeat ctx details (p_ext p) in
      (set_ext e p, Ret (OK (mkRecordHeartbeatResponse (ctx_Done ctx e))))
  end.
Proof.
  intros Hf. pose proof Hf as [Hl Hr].
  unfold RecordActivityHeartbeat, heartbeat_target.
  destruct (heartbeat_details_of in_) as [details|e]; [|done].
  change getActDef with getWfDef. rewrite (bind_ret _ _ _ _ _ (getWfDef_free p Hf)).
  destruct (t_defs p); simpl; [|done].
  assert (mu_RLock p = (set_lock false 1 p, Ret tt)) as Hlock.
  { unfold mu_RLock. go_unfold. rewrite Hl. simpl. by rewrite Hr. }
  rewrite (bind_ret _ _ _ _ _ Hlock).
  assert (mu_RUnlock (set_lock false 1 p) = (p, Ret tt)) as Hunlock.
  { unfold mu_RUnlock. go_unfold. f_equal. exact (set_lock_free p Hf). }
  destruct (GetActivityContext (RH_TaskToken in_) act) as [ctx|e];
    by rewrite (bind_ret _ _ _ _ _ Hunlock).
Qed.

(** A heartbeat is recorded exactly when its details decode, the plugin has
    started and the token belongs to a running activity; the answer says whether
    that activity was cancelled.  In every other case an error is returned and
    nothing is recorded.  The mutex is given back on every path. *)
Theorem heartbeat_recorded (act : Activity) (in_ : RecordHeartbeatRequest) (p : Plugin) :
  p_locked p = false -> p_readers p = 0 ->
  RecordActivityHeartbeat act in_ p =
  match heartbeat_target act in_ p with
  | Err e => (p, Ret (Err e))
  | OK (ctx, details) =>
      let e := RecordHeartbeat ctx details (p_ext p) in
      (set_ext e p, Ret (OK (mkRecordHeartbeatResponse (ctx_Done ctx e))))
  end.
Proof. intros Hl Hr. by apply heartbeat_run. Qed.

(** C35: heartbeats while activities run.  In any interleaving of concurrent
    activities, a heartbeat that arrives by remote call is recorded exactly when its
    details decode, the plugin has started and one of the calls holds its token; it is
    recorded with that call's context, and nothing else of the plugin changes. *)
Theorem heartbeat_during_activities (w : activity_world) (m : machine (S := activity_world) (R := payload))
    (in_ : RecordHeartbeatRequest) (p p' : Plugin) (resp : RecordHeartbeatResponse)
    (Hnew : running_of w = ∅) (Hreach : rtc goes (mkMachine [] w) m)
    (Hl : p_locked p = false) (Hr : p_readers p = 0) :
  RecordActivityHeartbeat (aw_activity (shared m)) in_ p = (p', Ret (OK resp)) <->
  ∃ details ctx c,
    heartbeat_details_of in_ = OK details ∧ t_defs p = true ∧
    (ctx, c) ∈ threads m ∧ holds c = true ∧ activity_token ctx = bytesToStr (RH_TaskToken in_) ∧
    p' = set_ext (RecordHeartbeat ctx details (p_ext p)) p ∧
    resp = mkRecordHeartbeatResponse (ctx_Done ctx (p_ext p')).
Proof.
  pose proof (reachable_exact w m Hnew Hreach) as Hm.
  rewrite heartbeat_run by done. unfold heartbeat_target.
  pose proof (λ ctx, get_context_iff m (RH_TaskToken in_) ctx Hm) as Hget.
  destruct (heartbeat_details_of in_) as [details|e]; [|split; [done|naive_solver]].
  destruct (t_defs p); [|split; [done|naive_solver]].
  destruct (GetActivityContext _ _) as [ctx|e].
  - destruct (proj1 (Hget ctx) eq_refl) as (Hk & c & Hin & Hc). split.
    + intros [= <- <-]. by exists details, ctx, c.
    + intros (d & ctx' & c' & [= <-] & _ & Hin' & Hc' & Hk' & -> & ->).
      assert (OK ctx = OK ctx') as [= <-]; [|done].
      apply Hget. eauto.
  - split; [done|]. intros (d & ctx & c & _ & _ & Hin & Hc & Hk & _). 
    assert (Err e = OK ctx) by (apply Hget; eauto). done.
Qed.

(** The ids and the name of a replay request are given. *)
Definition complete_request (in_ : ReplayRequest) : Prop :=
  GetRunId in_ ≠ "" ∧ GetWorkflowId in_ ≠ "" ∧ GetName (RR_WorkflowType in_) ≠ "".

Lemma complete_request_cases in_ :
  (∃ run wid name, RR_WorkflowExecution in_ = Some (run, wid) ∧ RR_WorkflowType in_ = Some name ∧
     String.eqb run "" || String.eqb wid "" || String.eqb name "" = false ∧ complete_request in_) ∨
  (¬ complete_request in_ ∧
   (∀ run wid name, RR_WorkflowExecution in_ = Some (run, wid) -> RR_WorkflowType in_ = Some name ->
      String.eqb run "" || String.eqb wid "" || String.eqb name "" = true)).
Proof.
  unfold complete_request, GetRunId, GetWorkflowId, GetName.
  destruct (RR_WorkflowExecution in_) as [[run wid]|]; [|right; split; [by intros (? & _)|done]].
  destruct (RR_WorkflowType in_) as [name|]; [|right; split; [by intros (_ & _ & ?)|done]].
  destruct (String.eqb run "" || String.eqb wid "" || String.eqb name "") eqn:Hb.
  - right. split; [|by intros ? ? ? [= <- <-] [= <-]].
    rewrite !orb_true_iff, !String.eqb_eq in Hb. tauto.
  - left. exists run, wid, name. rewrite !orb_false_iff, !String.eqb_neq in *. tauto.
Qed.

(** A replay request to a connected plugin always answers with a status and
    changes nothing; the status is OK exactly when the request is complete, the
    whole history could be read, the workflow definition is set and the replay
    found no mismatch. *)
Theorem replay_ok_iff (in_ : ReplayRequest) (p : Plugin) (c : Client) :
  p_locked p = false -> p_readers p = 0 -> t_client p = Some c ->
  ∃ st, ReplayWorkflow in_ p = (p, Ret st) ∧
  (St_Code st = codes_OK <->
   complete_request in_ ∧ t_defs p = true ∧
   ∃ hist, GetWorkflowHistory c (GetWorkflowId in_) (GetRunId in_) (p_ext p) = OK <$> hist ∧
           ReplayHistory (GetName (RR_WorkflowType in_)) hist (p_ext p) = None).
Proof.
  intros Hl Hr Hc. pose proof (conj Hl Hr : free p) as Hf. unfold ReplayWorkflow.
  destruct (complete_request_cases in_) as [(run & wid & name & He & Ht & Hb & Hcr)|[Hn Hbad]].
  2: { exists empty_ids. split; [|split; [done|tauto]].
       destruct (RR_WorkflowExecution in_) as [[run wid]|] eqn:He; [|done].
       destruct (RR_WorkflowType in_) as [name|] eqn:Ht; [|done].
       by rewrite (Hbad run wid name eq_refl eq_refl). }
  rewrite He, Ht, Hb. unfold fetch_history. unfold gets at 1. go_unfold. rewrite Hc. go_unfold.
  destruct (collect_history _) as [hist|e] eqn:Hh; simpl.
  - pose proof Hh as Hi. apply collect_history_OK in Hi. rewrite (getWfDef_free p Hf). simpl.
    destruct (t_defs p) eqn:Hd; simpl.
    + rewrite (getWfDef_free p Hf). simpl. eexists. split; [reflexivity|].
      rewrite replay_status_OK. split.
      * intros Hre. split_and!; [done|done|]. by exists hist.
      * intros (_ & _ & h & Hg & Hre). apply collect_history_OK in Hg. rewrite Hg in Hh. injection Hh as <-. exact Hre.
    + exists not_initialised. split; [done|]. split; [done|]. by intros (_ & ? & _).
  - eexists. split; [reflexivity|]. split; [done|]. intros (_ & _ & h & Hg & _).
    apply collect_history_OK in Hg. by rewrite Hg in Hh.
Qed.

(** A complete replay request that arrives before the client is
    connected dereferences the nil client, although a plugin that has not started is
    meant to answer that the workflow definition is not initialised. *)
Theorem replay_before_start_panics (in_ : ReplayRequest) (p : Plugin) :
  complete_request in_ -> t_client p = None ->
  ReplayWorkflow in_ p = (p, Panics nil_pointer).
Proof.
  intros Hcr Hc. unfold ReplayWorkflow.
  destruct (complete_request_cases in_) as [(run & wid & name & He & Ht & Hb & _)|[Hn _]]; [|done].
  rewrite He, Ht, Hb. unfold fetch_history. go_unfold. by rewrite Hc.
Qed.

End Rpc.

(** ** Witnesses *)

#[local] Existing Instance ConcreteApi.
#[local] Existing Instance ConcreteSdk.
#[local] Existing Instance ConcreteWire.
#[local] Existing Instance ScriptedPool.
#[local] Existing Instance PlainPools.
#[local] Existing Instance TwoFiles.
#[local] Existing Instance PlainWorker.
#[local] Existing Instance PlainMetrics.
#[local] Existing Instance LogRuntime.
#[local] Existing Instance ConcreteRuntime.

(** Histories of two events, which always replay. *)
Definition PlainRpc : RpcRuntime := {|
  HistoryEvent := Z;
  File := string;
  unmarshal_Payloads := λ b, OK (mkPayloads []);
  RecordHeartbeat := λ _ _ e, (e : list string) ++ ["heartbeat"];
  ctx_Done := λ _ _, false;
  GetWorkflowHistory := λ _ _ _ _, [OK 1%Z; OK 2%Z];
  ReplayHistory := λ _ _ _, None;
  ReplayJSONFile := λ _ _ _, None;
  ReplayPartialJSONFile := λ _ _ _ _, None;
  os_Create := λ p e, (e, OK p);
  protojson_Marshal := λ _, OK [];
  file_Write := λ _ _ e, (e, OK tt);
  file_Close := λ _ e, e;
|}.
#[local] Existing Instance PlainRpc.

Definition running_token : Activity := mkActivity 1 {[ "token" := None ]} (mkPldPool []).

Lemma heartbeat_recorded_witness :
  RecordActivityHeartbeat running_token
    (mkRecordHeartbeatRequest (String.list_byte_of_string "token") []) serving =
  (set_ext (p_ext serving ++ ["heartbeat"]) serving, Ret (OK (mkRecordHeartbeatResponse false))).
Proof.
  assert (p_locked serving = false) as Hl by (vm_compute; reflexivity).
  assert (p_readers serving = 0) as Hr by (vm_compute; reflexivity).
  pose proof (heartbeat_recorded running_token
    (mkRecordHeartbeatRequest (String.list_byte_of_string "token") []) serving Hl Hr) as Ht.
  assert (heartbeat_target running_token
    (mkRecordHeartbeatRequest (String.list_byte_of_string "token") []) serving = OK (None, mkPayloads [])) as Hh
    by (vm_compute; reflexivity).
  rewrite Hh in Ht. exact Ht.
Defined.

Definition example_request : ReplayRequest := mkReplayRequest (Some ("run", "wid")) (Some "Greet") "" 0.

Lemma replay_ok_iff_witness :
  ∃ st, ReplayWorkflow example_request serving = (serving, Ret st) ∧ St_Code st = codes_OK.
Proof.
  assert (p_locked serving = false) as Hl by (vm_compute; reflexivity).
  assert (p_readers serving = 0) as Hr by (vm_compute; reflexivity).
  assert (t_client serving = Some "127.0.0.1:7233") as Hc by (vm_compute; reflexivity).
  assert (t_defs serving = true) as Hd by (vm_compute; reflexivity).
  destruct (replay_ok_iff example_request serving _ Hl Hr Hc) as (st & Hst & Hiff).
  exists st. split; [exact Hst|]. apply Hiff. split; [by split_and!|]. split; [exact Hd|]. exists [1%Z; 2%Z]. split; vm_compute; reflexivity.
Defined.

Lemma replay_before_start_panics_witness :
  ReplayWorkflow example_request initialised = (initialised, Panics nil_pointer).
Proof.
  assert (t_client initialised = None) as Hc by (vm_compute; reflexivity).
  assert (complete_request example_request) as Hcr by (by split_and!).
  exact (replay_before_start_panics example_request initialised Hcr Hc).
Defined.

(** A heartbeat of the second of two activities, when the first has ended. *)
#[local] Existing Instance TokenRuntime.

Definition TokenRpc : RpcRuntime := {|
  HistoryEvent := Z;
  File := string;
  unmarshal_Payloads := λ b, OK (mkPayloads []);
  RecordHeartbeat := λ t _ e, (e : list string) ++ [t : string];
  ctx_Done := λ _ _, false;
  GetWorkflowHistory := λ _ _ _ _, [];
  ReplayHistory := λ _ _ _, None;
  ReplayJSONFile := λ _ _ _, None;
  ReplayPartialJSONFile := λ _ _ _ _, None;
  os_Create := λ p e, (e, OK p);
  protojson_Marshal := λ _, OK [];
  file_Write := λ _ _ e, (e, OK tt);
  file_Close := λ _ e, e;
|}.
#[local] Existing Instance TokenRpc.

Definition beat_b : RecordHeartbeatRequest := mkRecordHeartbeatRequest (String.list_byte_of_string "b") [].
Definition beaten : Plugin := set_ext (p_ext serving ++ ["b"]) serving.

Lemma heartbeat_during_activities_witness :
  ∃ m, one_done = Some m ∧
    RecordActivityHeartbeat (aw_activity (shared m)) beat_b serving =
      (beaten, Ret (OK (mkRecordHeartbeatResponse false))).
Proof.
  destruct one_done_reached as (m & Hm & Hr & Hth). exists m. split; [exact Hm|].
  assert (p_locked serving = false) as Hl by (vm_compute; reflexivity).
  assert (p_readers serving = 0) as Hrd by (vm_compute; reflexivity).
  assert (t_defs serving = true) as Hd by (vm_compute; reflexivity).
  apply (heartbeat_during_activities two_replies m beat_b serving beaten (mkRecordHeartbeatResponse false)
    eq_refl Hr Hl Hrd).
  exists (mkPayloads []), ctx_b, (Measured arg_b (Some (mkPayloads [])) (Some 2%Z)).
  rewrite Hth. split_and!; [reflexivity|exact Hd|right; left|reflexivity|vm_compute; reflexivity|reflexivity|reflexivity].
Defined.
